(** * q2mon: the Quake 2 protocol client (libs/q2client.js)

    A shallow embedding of the class-based client [Q2Client] and of its
    [EntityTracker]: the out-of-band classifier, the netchan receive path,
    the game-message decoder and the entity tables, followed by the
    properties of the specification that concern them.

    Conventions of the embedding.
    - A Node [Buffer] is a [list byte]; [buffer[i]] is a lookup that may be
      [undefined] ([None]); the [readXxxLE] methods of [Buffer] throw a
      [RangeError] out of range, which is [None] in the [option] monad.
    - A JavaScript string whose code units all lie in 0..255 (every string
      here is decoded from a buffer as latin-1, or is an ASCII literal) is a
      [string]; a JavaScript number holding an integer is a [Z]; [NaN] from
      [parseInt] is [None].
    - Fixed-point quantities ([raw * 0.125], [raw * 360 / 256], ...) are kept
      as the raw integer read from the wire; the scaling is exact in
      binary64 and no property below depends on it.
    - Objects that the source shares between several owners (the [origin]
      and [angles] of an entity, the [pmove] block of the player state) live
      in an explicit heap and are named by their address. *)

From Stdlib Require Import ZArith Lia Bool List Ascii String.
From Stdlib Require Import Strings.Byte.
From stdpp Require Import base option list gmap strings sorting.

Local Open Scope string_scope.
Local Open Scope list_scope.
Local Open Scope Z_scope.

(** ** JavaScript strings *)

Module JS.

Definition charCode (c : ascii) : Z := Z.of_N (N_of_ascii c).

Definition fromCharCode (z : Z) : ascii := ascii_of_N (Z.to_N z).

(** White space as [String.prototype.trim] and the regular expression
    class [\s] see it, restricted to code units below 256. *)
Definition isWhiteSpace (c : ascii) : bool :=
  let n := charCode c in
  ((9 <=? n) && (n <=? 13)) || (n =? 32) || (n =? 160).

Definition isDigit (c : ascii) : bool :=
  let n := charCode c in (48 <=? n) && (n <=? 57).

Definition isEmpty (s : string) : bool :=
  match s with EmptyString => true | String _ _ => false end.

(** Truthiness of a string: the empty string is falsy. *)
Definition truthy (s : string) : bool := negb (isEmpty s).

Fixpoint trimStart (s : string) : string :=
  match s with
  | EmptyString => EmptyString
  | String c s' => if isWhiteSpace c then trimStart s' else s
  end.

Fixpoint trimEnd (s : string) : string :=
  match s with
  | EmptyString => EmptyString
  | String c s' =>
      let t := trimEnd s' in
      if isWhiteSpace c && isEmpty t then EmptyString else String c t
  end.

Definition trim (s : string) : string := trimEnd (trimStart s).

Definition startsWith (s p : string) : bool := String.prefix p s.

(** [s.substring(n)] for [0 <= n]. *)
Fixpoint substring (n : nat) (s : string) : string :=
  match n, s with
  | O, _ => s
  | S n', String _ s' => substring n' s'
  | S _, EmptyString => EmptyString
  end.

(** [s.includes(p)] *)
Fixpoint includes (s p : string) : bool :=
  String.prefix p s ||
  match s with
  | EmptyString => false
  | String _ s' => includes s' p
  end.

(** [s.split(sep)] for a one-character separator; the result is never
    empty. *)
Fixpoint split (sep : ascii) (s : string) : list string :=
  match s with
  | EmptyString => [EmptyString]
  | String c s' =>
      if Ascii.eqb c sep then EmptyString :: split sep s'
      else match split sep s' with
           | h :: t => String c h :: t
           | [] => [String c EmptyString]
           end
  end.

(** [s.split(/\s+/)]: maximal runs of white space separate the pieces. *)
Fixpoint splitWsFrom (inWs : bool) (s : string) : list string :=
  match s with
  | EmptyString => [EmptyString]
  | String c s' =>
      if isWhiteSpace c then
        if inWs then splitWsFrom true s'
        else EmptyString :: splitWsFrom true s'
      else match splitWsFrom false s' with
           | h :: t => String c h :: t
           | [] => [String c EmptyString]
           end
  end.

Definition splitWs (s : string) : list string := splitWsFrom false s.

(** [s.replace(/[\r\n]/g, "")] *)
Fixpoint stripNewlines (s : string) : string :=
  match s with
  | EmptyString => EmptyString
  | String c s' =>
      if (charCode c =? 10) || (charCode c =? 13) then stripNewlines s'
      else String c (stripNewlines s')
  end.

(** Value of a digit in radix 16, if it is one. *)
Definition hexVal (c : ascii) : option Z :=
  let n := charCode c in
  if (48 <=? n) && (n <=? 57) then Some (n - 48)
  else if (97 <=? n) && (n <=? 102) then Some (n - 87)
  else if (65 <=? n) && (n <=? 70) then Some (n - 55)
  else None.

Definition digitVal (radix : Z) (c : ascii) : option Z :=
  match hexVal c with
  | Some v => if v <? radix then Some v else None
  | None => None
  end.

(** The longest prefix of digits of [s], as a number; [None] when [s]
    does not start with a digit. *)
Fixpoint digitsFrom (radix : Z) (acc : option Z) (s : string) : option Z :=
  match s with
  | EmptyString => acc
  | String c s' =>
      match digitVal radix c with
      | Some v => digitsFrom radix (Some (default 0 acc * radix + v)) s'
      | None => acc
      end
  end.

(** [parseInt(s)] with no radix: leading white space, a sign, an
    optional [0x] prefix, then digits. [None] is [NaN]. The result is
    exact here; JavaScript rounds it to binary64 above [2^53], where it
    equals none of the small constants it is compared with. *)
Definition parseInt (s : string) : option Z :=
  let s1 := trimStart s in
  let '(sign, s2) :=
    match s1 with
    | String "-" r => (-1, r)
    | String "+" r => (1, r)
    | _ => (1, s1)
    end in
  let '(radix, s3) :=
    match s2 with
    | String "0" (String "x" r) => (16, r)
    | String "0" (String "X" r) => (16, r)
    | _ => (10, s2)
    end in
  (fun v => sign * v) <$> digitsFrom radix None s3.

(** [parseInt(undefined)] is [NaN]. *)
Definition parseIntOpt (o : option string) : option Z :=
  match o with Some s => parseInt s | None => None end.

(** Truthiness of a number: [NaN] and [0] are falsy. *)
Definition truthyNum (o : option Z) : bool :=
  match o with Some v => negb (v =? 0) | None => false end.

Definition digitChar (d : Z) : ascii := fromCharCode (48 + d).

Fixpoint natDigits (fuel : nat) (n : Z) (acc : string) : string :=
  match fuel with
  | O => acc
  | S f =>
      let acc' := String (digitChar (n mod 10)) acc in
      if n <? 10 then acc' else natDigits f (n / 10) acc'
  end.

(** A number in a template literal: decimal digits of an integer (exact
    below [2^53]; larger values print rounded in JavaScript). *)
Definition numToString (o : option Z) : string :=
  match o with
  | None => "NaN"
  | Some n =>
      if n <? 0 then String "-" (natDigits (Z.to_nat (Z.log2 (- n)) + 1) (- n) "")
      else natDigits (Z.to_nat (Z.log2 n) + 1) n ""
  end.

End JS.

(** ** Buffers *)

Abbreviation Buffer := (list byte).

Module Buf.

Definition u8 (b : byte) : Z := Z.of_N (Byte.to_N b).

(** The byte whose value is [z mod 256], as [writeUInt8] stores it. *)
Definition ofZ (z : Z) : byte :=
  default x00 (Byte.of_N (Z.to_N (z mod 256))).

(** [buffer[i]]: [None] is [undefined]. *)
Definition get (data : Buffer) (i : nat) : option Z := u8 <$> data !! i.

(** [buffer[i] || d] *)
Definition getOr (d : Z) (data : Buffer) (i : nat) : Z :=
  match get data i with
  | Some v => if v =? 0 then d else v
  | None => d
  end.

(** [buffer.slice(i)] and [buffer.slice(i, j)] *)
Definition slice (data : Buffer) (i : nat) : Buffer := drop i data.
Definition slice2 (data : Buffer) (i j : nat) : Buffer := take (j - i) (drop i data).

(** [buffer.toString("latin1")] *)
Definition latin1 (data : Buffer) : string := string_of_list_byte data.

(** [Buffer.from(s, "ascii")]: one byte per code unit. *)
Definition fromString (s : string) : Buffer := list_byte_of_string s.

Definition toInt8 (z : Z) : Z := if z <? 128 then z else z - 256.
Definition toInt16 (z : Z) : Z := if z <? 32768 then z else z - 65536.
Definition toInt32 (z : Z) : Z :=
  let m := z mod 4294967296 in if m <? 2147483648 then m else m - 4294967296.

(** The [readXxxLE] methods: [None] is the [RangeError] they throw when
    the field does not lie inside the buffer. *)
Definition readUInt16LE (data : Buffer) (i : nat) : option Z :=
  b0 ← get data i; b1 ← get data (i + 1)%nat; Some (b0 + 256 * b1).

Definition readInt16LE (data : Buffer) (i : nat) : option Z :=
  toInt16 <$> readUInt16LE data i.

Definition readUInt32LE (data : Buffer) (i : nat) : option Z :=
  b0 ← get data i; b1 ← get data (i + 1)%nat;
  b2 ← get data (i + 2)%nat; b3 ← get data (i + 3)%nat;
  Some (b0 + 256 * b1 + 65536 * b2 + 16777216 * b3).

Definition readInt32LE (data : Buffer) (i : nat) : option Z :=
  toInt32 <$> readUInt32LE data i.

(** [writeUInt16LE] and [writeUInt32LE] into a fresh buffer. *)
Definition writeUInt16LE (z : Z) : Buffer :=
  [ofZ z; ofZ (z / 256)].
Definition writeUInt32LE (z : Z) : Buffer :=
  [ofZ z; ofZ (z / 256); ofZ (z / 65536); ofZ (z / 16777216)].

End Buf.

(** A buffer given by the values of its bytes. *)
Definition bytes (l : list Z) : Buffer := Buf.ofZ <$> l.

(** ** Reads with a cursor (the [readXxx] helpers of the client)

    Each returns the value and [nextIndex]. At the end of the buffer the
    numeric readers return 0 and park the cursor on [buffer.length]. *)

Record Read (A : Type) := mkRead { value : A; nextIndex : nat }.
Arguments mkRead {A} _ _.
Arguments value {A} _.
Arguments nextIndex {A} _.

(** Number of bytes before the first NUL (or before the end). *)
Fixpoint scanNul (l : Buffer) : nat :=
  match l with
  | [] => O
  | b :: l' => if Buf.u8 b =? 0 then O else S (scanNul l')
  end.

Definition readCString (buffer : Buffer) (startIndex : nat) : Read string :=
  let n := scanNul (drop startIndex buffer) in
  mkRead (Buf.latin1 (Buf.slice2 buffer startIndex (startIndex + n)))
         (startIndex + n + 1).

Definition readInt16 (buffer : Buffer) (idx : nat) : Read Z :=
  match Buf.readInt16LE buffer idx with
  | Some v => mkRead v (idx + 2)
  | None => mkRead 0 (length buffer)
  end.

Definition readUInt16 (buffer : Buffer) (idx : nat) : Read Z :=
  match Buf.readUInt16LE buffer idx with
  | Some v => mkRead v (idx + 2)
  | None => mkRead 0 (length buffer)
  end.

Definition readInt32 (buffer : Buffer) (idx : nat) : Read Z :=
  match Buf.readInt32LE buffer idx with
  | Some v => mkRead v (idx + 4)
  | None => mkRead 0 (length buffer)
  end.

(** The value is the raw short; the source scales it by 0.125. *)
Definition readCoord (buffer : Buffer) (idx : nat) : Read Z :=
  readInt16 buffer idx.

(** The value is the raw byte; the source scales it by 360/256. *)
Definition readAngle (buffer : Buffer) (idx : nat) : Read Z :=
  match Buf.get buffer idx with
  | Some v => mkRead v (idx + 1)
  | None => mkRead 0 (length buffer)
  end.

(** The value is the raw short; the source scales it by 360/65536. *)
Definition readAngle16 (buffer : Buffer) (idx : nat) : Read Z :=
  readInt16 buffer idx.

(** Colour bytes lose their high bit, printable ASCII is kept, CR and LF
    become LF, everything else is dropped; the result is trimmed. *)
Fixpoint cleanChars (str : string) : string :=
  match str with
  | EmptyString => EmptyString
  | String ch rest =>
      let c := JS.charCode ch in
      let c := if 128 <=? c then c - 128 else c in
      if (32 <=? c) && (c <? 127) then String (JS.fromCharCode c) (cleanChars rest)
      else if (c =? 10) || (c =? 13) then String (JS.fromCharCode 10) (cleanChars rest)
      else cleanChars rest
  end.

Definition cleanQuakeString (str : string) : string := JS.trim (cleanChars str).

(** ** Protocol constants *)

Module PROTOCOL.
Definition VERSION_OLD : Z := 26.
Definition VERSION_DEFAULT : Z := 34.
Definition VERSION_R1Q2 : Z := 35.
Definition VERSION_Q2PRO : Z := 36.
Definition VERSION_MVD : Z := 37.
Definition VERSION_AQTION : Z := 38.
End PROTOCOL.

Module PROTOCOL_MINOR.
Definition Q2PRO_CURRENT : Z := 1024.
Definition AQTION_CURRENT : Z := 3015.
Definition R1Q2_CURRENT : Z := 1905.
End PROTOCOL_MINOR.

Module SVC.
Definition BAD : Z := 0.
Definition MUZZLEFLASH : Z := 1.
Definition MUZZLEFLASH2 : Z := 2.
Definition TEMP_ENTITY : Z := 3.
Definition LAYOUT : Z := 4.
Definition INVENTORY : Z := 5.
Definition NOP : Z := 6.
Definition DISCONNECT : Z := 7.
Definition RECONNECT : Z := 8.
Definition SOUND : Z := 9.
Definition PRINT : Z := 10.
Definition STUFFTEXT : Z := 11.
Definition SERVERDATA : Z := 12.
Definition CONFIGSTRING : Z := 13.
Definition SPAWNBASELINE : Z := 14.
Definition CENTERPRINT : Z := 15.
Definition DOWNLOAD : Z := 16.
Definition PLAYERINFO : Z := 17.
Definition PACKETENTITIES : Z := 18.
Definition DELTAPACKETENTITIES : Z := 19.
Definition FRAME : Z := 20.
Definition ZPACKET : Z := 21.
Definition ZDOWNLOAD : Z := 22.
Definition GAMESTATE : Z := 23.
Definition SETTING : Z := 24.
Definition CONFIGSTRINGSTREAM : Z := 25.
Definition BASELINESTREAM : Z := 26.
Definition GHUDUPDATE : Z := 29.
Definition EXTEND : Z := 30.
Definition USERSTATISTIC : Z := 31.
Definition CVARSYNC : Z := 32.
End SVC.

Definition SVCMD_BITS : Z := 5.
Definition SVCMD_MASK : Z := Z.shiftl 1 SVCMD_BITS - 1.

Module CLC.
Definition NOP : Z := 1.
Definition STRINGCMD : Z := 4.
End CLC.

Definition REL_BIT : Z := 0x80000000.
Definition FRG_BIT : Z := 0x40000000.
Definition NEW_MASK : Z := FRG_BIT - 1.

Definition MAX_EDICTS : Z := 1024.
Definition MAX_CLIENTS : Z := 256.

(** ** The packet classifier *)

Record SeqPacket := mkSeqPacket {
  sequence : Z;
  reliable : bool;
  fragmented : bool;
  fragmentOffset : nat;
  moreFragments : bool;
  ack : Z;
  reliableAck : bool;
  hasData : bool;
  data : option Buffer            (* [null] is [None] *)
}.

(** What [parseOOBPacket] returns, by its [type] field. *)
Inductive Parsed :=
| PChallenge (challengeId : option Z) (supportedProtocols : list (option Z))
| PPrint (message : string)
| PClientConnect (params : gmap string string) (message : string)
| PDisconnect (reason : string)
| PAck
| PStatusResponse (content : string)
| PInfo (content : string)
| PUnknownOob (raw : string)
| PSequencedError (error : string)
| PSequenced (p : SeqPacket).

Definition parsedType (p : Parsed) : string :=
  match p with
  | PChallenge _ _ => "challenge"
  | PPrint _ => "print"
  | PClientConnect _ _ => "client_connect"
  | PDisconnect _ => "disconnect"
  | PAck => "ack"
  | PStatusResponse _ => "statusResponse"
  | PInfo _ => "info"
  | PUnknownOob _ => "unknown_oob"
  | PSequencedError _ => "sequenced"
  | PSequenced _ => "sequenced"
  end.

(** [None] is an exception escaping the function. *)
Definition parseSequencedPacket (buffer : Buffer) : option Parsed :=
  if (length buffer <? 8)%nat then Some (PSequencedError "Packet too short")
  else
    sequenceRaw ← Buf.readUInt32LE buffer 0;
    ackRaw ← Buf.readUInt32LE buffer 4;
    let reliable := negb (Z.land sequenceRaw REL_BIT =? 0) in
    let fragmented := negb (Z.land sequenceRaw FRG_BIT =? 0) in
    let reliableAck := negb (Z.land ackRaw REL_BIT =? 0) in
    let sequence := Z.land sequenceRaw NEW_MASK in
    let ack := Z.land ackRaw NEW_MASK in
    '(dataOffset, fragmentOffset, moreFragments) ←
      (if fragmented && (10 <=? length buffer)%nat then
         fragHeader ← Buf.readUInt16LE buffer 8;
         Some (10%nat, Z.to_nat (Z.land fragHeader 0x7fff),
               negb (Z.land fragHeader 0x8000 =? 0))
       else Some (8%nat, 0%nat, false));
    let data :=
      if (dataOffset <? length buffer)%nat then Some (Buf.slice buffer dataOffset)
      else None in
    Some (PSequenced {|
      sequence := sequence;
      reliable := reliable;
      fragmented := fragmented;
      fragmentOffset := fragmentOffset;
      moreFragments := moreFragments;
      ack := ack;
      reliableAck := reliableAck;
      hasData := match data with Some d => (0 <? length d)%nat | None => false end;
      data := data |}).

Definition isOOB (buffer : Buffer) : bool :=
  (4 <=? length buffer)%nat &&
  bool_decide (Buf.get buffer 0 = Some 255) &&
  bool_decide (Buf.get buffer 1 = Some 255) &&
  bool_decide (Buf.get buffer 2 = Some 255) &&
  bool_decide (Buf.get buffer 3 = Some 255).

Definition LF : ascii := "010"%char.

(** The loop over [parts[2..]] of a challenge line: the last token that
    starts with [p=] gives the list. *)
Definition challengeProtocols (parts : list string) : list (option Z) :=
  foldl (fun acc part =>
           if JS.startsWith part "p=" then
             JS.parseInt <$> JS.split "," (JS.substring 2 part)
           else acc)
        [] (drop 2 parts).

(** The loop over [parts[1..]] of a client_connect line:
    [const [key, value] = parts[i].split("="); if (key && value) ...]. *)
Definition connectParams (parts : list string) : gmap string string :=
  foldl (fun params part =>
           let kv := JS.split "=" part in
           match kv !! 0%nat, kv !! 1%nat with
           | Some key, Some value =>
               if JS.truthy key && JS.truthy value then <[key := value]> params
               else params
           | _, _ => params
           end)
        ∅ (drop 1 parts).

(** The body of the [try] block. *)
Definition parseOOBPacketBody (buffer : Buffer) : option Parsed :=
  if negb (isOOB buffer) then parseSequencedPacket buffer
  else
    let content := Buf.latin1 (Buf.slice buffer 4) in
    let lines := JS.split LF content in
    line0 ← lines !! 0%nat;       (* [lines[0].trim()] throws on [undefined] *)
    let firstLine := JS.trim line0 in
    if JS.startsWith firstLine "challenge" then
      let parts := JS.splitWs firstLine in
      Some (PChallenge (JS.parseIntOpt (parts !! 1%nat)) (challengeProtocols parts))
    else if JS.startsWith firstLine "print" then
      Some (PPrint (cleanQuakeString (JS.trim (JS.substring 6 content))))
    else if JS.startsWith firstLine "client_connect" then
      Some (PClientConnect (connectParams (JS.splitWs firstLine)) content)
    else if JS.startsWith firstLine "disconnect" then
      Some (PDisconnect (JS.trim (JS.substring 10 content)))
    else if String.eqb firstLine "ack" then Some PAck
    else if JS.startsWith firstLine "statusResponse" then Some (PStatusResponse content)
    else if JS.startsWith firstLine "info" then Some (PInfo content)
    else Some (PUnknownOob content).

(** [try { ... } catch (error) { return null; }]: the result [None] is
    [null]. *)
Definition parseOOBPacket (buffer : Buffer) : option Parsed :=
  parseOOBPacketBody buffer.

(** ** Entity state

    [origin], [angles] and [old_origin] of an entity, and the [pmove] block
    of a player state, are JavaScript objects that a shallow copy
    ([{ ...baseline }], [Object.assign]) shares with its source. They are
    kept in a heap and the records hold their addresses. *)

Record Vec3 := mkVec3 { x : Z; y : Z; z : Z }.
Record Angles := mkAngles { pitch : Z; yaw : Z; roll : Z }.

Definition set_x (v : Z) (r : Vec3) : Vec3 := mkVec3 v (y r) (z r).
Definition set_y (v : Z) (r : Vec3) : Vec3 := mkVec3 (x r) v (z r).
Definition set_z (v : Z) (r : Vec3) : Vec3 := mkVec3 (x r) (y r) v.
Definition set_pitch (v : Z) (r : Angles) : Angles := mkAngles v (yaw r) (roll r).
Definition set_yaw (v : Z) (r : Angles) : Angles := mkAngles (pitch r) v (roll r).
Definition set_roll (v : Z) (r : Angles) : Angles := mkAngles (pitch r) (yaw r) v.

(** The [pmove] block; its [origin], [velocity] and [delta_angles] are only ever replaced whole. *)
Record PMove := mkPMove {
  pm_type : Z;
  pm_origin : Vec3;
  pm_velocity : Vec3;
  pm_flags : Z;
  pm_time : Z;
  gravity : Z;
  delta_angles : Angles
}.

Definition set_pm_type (v : Z) (r : PMove) : PMove :=
  mkPMove v (pm_origin r) (pm_velocity r) (pm_flags r) (pm_time r) (gravity r) (delta_angles r).
Definition set_pm_origin (v : Vec3) (r : PMove) : PMove :=
  mkPMove (pm_type r) v (pm_velocity r) (pm_flags r) (pm_time r) (gravity r) (delta_angles r).
Definition set_pm_velocity (v : Vec3) (r : PMove) : PMove :=
  mkPMove (pm_type r) (pm_origin r) v (pm_flags r) (pm_time r) (gravity r) (delta_angles r).
Definition set_pm_flags (v : Z) (r : PMove) : PMove :=
  mkPMove (pm_type r) (pm_origin r) (pm_velocity r) v (pm_time r) (gravity r) (delta_angles r).
Definition set_pm_time (v : Z) (r : PMove) : PMove :=
  mkPMove (pm_type r) (pm_origin r) (pm_velocity r) (pm_flags r) v (gravity r) (delta_angles r).
Definition set_gravity (v : Z) (r : PMove) : PMove :=
  mkPMove (pm_type r) (pm_origin r) (pm_velocity r) (pm_flags r) (pm_time r) v (delta_angles r).
Definition set_delta_angles (v : Angles) (r : PMove) : PMove :=
  mkPMove (pm_type r) (pm_origin r) (pm_velocity r) (pm_flags r) (pm_time r) (gravity r) v.

(** The objects that are shared by reference. *)
Record Heap := mkHeap {
  vecs : list Vec3;
  angs : list Angles;
  pmoves : list PMove
}.

Definition emptyHeap : Heap := mkHeap [] [] [].

Definition allocVec (v : Vec3) (h : Heap) : nat * Heap :=
  (length (vecs h), mkHeap (vecs h ++ [v]) (angs h) (pmoves h)).
Definition allocAngles (a : Angles) (h : Heap) : nat * Heap :=
  (length (angs h), mkHeap (vecs h) (angs h ++ [a]) (pmoves h)).
Definition allocPMove (p : PMove) (h : Heap) : nat * Heap :=
  (length (pmoves h), mkHeap (vecs h) (angs h) (pmoves h ++ [p])).

(** In-place mutation of a shared object. *)
Definition updVec (l : nat) (f : Vec3 -> Vec3) (h : Heap) : Heap :=
  mkHeap (alter f l (vecs h)) (angs h) (pmoves h).
Definition updAngles (l : nat) (f : Angles -> Angles) (h : Heap) : Heap :=
  mkHeap (vecs h) (alter f l (angs h)) (pmoves h).
Definition updPMove (l : nat) (f : PMove -> PMove) (h : Heap) : Heap :=
  mkHeap (vecs h) (angs h) (alter f l (pmoves h)).

(** An entity object. [removed] is an own property that is only ever absent or [true]; absent is [false]. *)
Record Entity := mkEntity {
  number : Z;
  modelindex : Z;
  modelindex2 : Z;
  modelindex3 : Z;
  modelindex4 : Z;
  frame : Z;
  skinnum : Z;
  effects : Z;
  renderfx : Z;
  origin : nat;
  angles : nat;
  old_origin : nat;
  sound : Z;
  event : Z;
  solid : Z;
  active : bool;
  removed : bool
}.

Definition set_number (v : Z) (r : Entity) : Entity :=
  mkEntity v (modelindex r) (modelindex2 r) (modelindex3 r) (modelindex4 r) (frame r) (skinnum r) (effects r) (renderfx r) (origin r) (angles r) (old_origin r) (sound r) (event r) (solid r) (active r) (removed r).
Definition set_modelindex (v : Z) (r : Entity) : Entity :=
  mkEntity (number r) v (modelindex2 r) (modelindex3 r) (modelindex4 r) (frame r) (skinnum r) (effects r) (renderfx r) (origin r) (angles r) (old_origin r) (sound r) (event r) (solid r) (active r) (removed r).
Definition set_modelindex2 (v : Z) (r : Entity) : Entity :=
  mkEntity (number r) (modelindex r) v (modelindex3 r) (modelindex4 r) (frame r) (skinnum r) (effects r) (renderfx r) (origin r) (angles r) (old_origin r) (sound r) (event r) (solid r) (active r) (removed r).
Definition set_modelindex3 (v : Z) (r : Entity) : Entity :=
  mkEntity (number r) (modelindex r) (modelindex2 r) v (modelindex4 r) (frame r) (skinnum r) (effects r) (renderfx r) (origin r) (angles r) (old_origin r) (sound r) (event r) (solid r) (active r) (removed r).
Definition set_modelindex4 (v : Z) (r : Entity) : Entity :=
  mkEntity (number r) (modelindex r) (modelindex2 r) (modelindex3 r) v (frame r) (skinnum r) (effects r) (renderfx r) (origin r) (angles r) (old_origin r) (sound r) (event r) (solid r) (active r) (removed r).
Definition set_frame (v : Z) (r : Entity) : Entity :=
  mkEntity (number r) (modelindex r) (modelindex2 r) (modelindex3 r) (modelindex4 r) v (skinnum r) (effects r) (renderfx r) (origin r) (angles r) (old_origin r) (sound r) (event r) (solid r) (active r) (removed r).
Definition set_skinnum (v : Z) (r : Entity) : Entity :=
  mkEntity (number r) (modelindex r) (modelindex2 r) (modelindex3 r) (modelindex4 r) (frame r) v (effects r) (renderfx r) (origin r) (angles r) (old_origin r) (sound r) (event r) (solid r) (active r) (removed r).
Definition set_effects (v : Z) (r : Entity) : Entity :=
  mkEntity (number r) (modelindex r) (modelindex2 r) (modelindex3 r) (modelindex4 r) (frame r) (skinnum r) v (renderfx r) (origin r) (angles r) (old_origin r) (sound r) (event r) (solid r) (active r) (removed r).
Definition set_renderfx (v : Z) (r : Entity) : Entity :=
  mkEntity (number r) (modelindex r) (modelindex2 r) (modelindex3 r) (modelindex4 r) (frame r) (skinnum r) (effects r) v (origin r) (angles r) (old_origin r) (sound r) (event r) (solid r) (active r) (removed r).
Definition set_origin (v : nat) (r : Entity) : Entity :=
  mkEntity (number r) (modelindex r) (modelindex2 r) (modelindex3 r) (modelindex4 r) (frame r) (skinnum r) (effects r) (renderfx r) v (angles r) (old_origin r) (sound r) (event r) (solid r) (active r) (removed r).
Definition set_angles (v : nat) (r : Entity) : Entity :=
  mkEntity (number r) (modelindex r) (modelindex2 r) (modelindex3 r) (modelindex4 r) (frame r) (skinnum r) (effects r) (renderfx r) (origin r) v (old_origin r) (sound r) (event r) (solid r) (active r) (removed r).
Definition set_old_origin (v : nat) (r : Entity) : Entity :=
  mkEntity (number r) (modelindex r) (modelindex2 r) (modelindex3 r) (modelindex4 r) (frame r) (skinnum r) (effects r) (renderfx r) (origin r) (angles r) v (sound r) (event r) (solid r) (active r) (removed r).
Definition set_sound (v : Z) (r : Entity) : Entity :=
  mkEntity (number r) (modelindex r) (modelindex2 r) (modelindex3 r) (modelindex4 r) (frame r) (skinnum r) (effects r) (renderfx r) (origin r) (angles r) (old_origin r) v (event r) (solid r) (active r) (removed r).
Definition set_event (v : Z) (r : Entity) : Entity :=
  mkEntity (number r) (modelindex r) (modelindex2 r) (modelindex3 r) (modelindex4 r) (frame r) (skinnum r) (effects r) (renderfx r) (origin r) (angles r) (old_origin r) (sound r) v (solid r) (active r) (removed r).
Definition set_solid (v : Z) (r : Entity) : Entity :=
  mkEntity (number r) (modelindex r) (modelindex2 r) (modelindex3 r) (modelindex4 r) (frame r) (skinnum r) (effects r) (renderfx r) (origin r) (angles r) (old_origin r) (sound r) (event r) v (active r) (removed r).
Definition set_active (v : bool) (r : Entity) : Entity :=
  mkEntity (number r) (modelindex r) (modelindex2 r) (modelindex3 r) (modelindex4 r) (frame r) (skinnum r) (effects r) (renderfx r) (origin r) (angles r) (old_origin r) (sound r) (event r) (solid r) v (removed r).
Definition set_removed (v : bool) (r : Entity) : Entity :=
  mkEntity (number r) (modelindex r) (modelindex2 r) (modelindex3 r) (modelindex4 r) (frame r) (skinnum r) (effects r) (renderfx r) (origin r) (angles r) (old_origin r) (sound r) (event r) (solid r) (active r) v.

(** A player state object; [pmove] is the address of its block. *)
Record PlayerState := mkPlayerState {
  pmove : nat;
  viewoffset : Vec3;
  viewangles : Angles;
  kick_angles : Angles;
  gunindex : Z;
  gunframe : Z;
  blend : list Z;
  fov : Z;
  rdflags : Z;
  stats : list Z
}.

Definition set_pmove (v : nat) (r : PlayerState) : PlayerState :=
  mkPlayerState v (viewoffset r) (viewangles r) (kick_angles r) (gunindex r) (gunframe r) (blend r) (fov r) (rdflags r) (stats r).
Definition set_viewoffset (v : Vec3) (r : PlayerState) : PlayerState :=
  mkPlayerState (pmove r) v (viewangles r) (kick_angles r) (gunindex r) (gunframe r) (blend r) (fov r) (rdflags r) (stats r).
Definition set_viewangles (v : Angles) (r : PlayerState) : PlayerState :=
  mkPlayerState (pmove r) (viewoffset r) v (kick_angles r) (gunindex r) (gunframe r) (blend r) (fov r) (rdflags r) (stats r).
Definition set_kick_angles (v : Angles) (r : PlayerState) : PlayerState :=
  mkPlayerState (pmove r) (viewoffset r) (viewangles r) v (gunindex r) (gunframe r) (blend r) (fov r) (rdflags r) (stats r).
Definition set_gunindex (v : Z) (r : PlayerState) : PlayerState :=
  mkPlayerState (pmove r) (viewoffset r) (viewangles r) (kick_angles r) v (gunframe r) (blend r) (fov r) (rdflags r) (stats r).
Definition set_gunframe (v : Z) (r : PlayerState) : PlayerState :=
  mkPlayerState (pmove r) (viewoffset r) (viewangles r) (kick_angles r) (gunindex r) v (blend r) (fov r) (rdflags r) (stats r).
Definition set_blend (v : list Z) (r : PlayerState) : PlayerState :=
  mkPlayerState (pmove r) (viewoffset r) (viewangles r) (kick_angles r) (gunindex r) (gunframe r) v (fov r) (rdflags r) (stats r).
Definition set_fov (v : Z) (r : PlayerState) : PlayerState :=
  mkPlayerState (pmove r) (viewoffset r) (viewangles r) (kick_angles r) (gunindex r) (gunframe r) (blend r) v (rdflags r) (stats r).
Definition set_rdflags (v : Z) (r : PlayerState) : PlayerState :=
  mkPlayerState (pmove r) (viewoffset r) (viewangles r) (kick_angles r) (gunindex r) (gunframe r) (blend r) (fov r) v (stats r).
Definition set_stats (v : list Z) (r : PlayerState) : PlayerState :=
  mkPlayerState (pmove r) (viewoffset r) (viewangles r) (kick_angles r) (gunindex r) (gunframe r) (blend r) (fov r) (rdflags r) v.

(** ** The entity tracker *)

Record EntityTracker := mkEntityTracker {
  baselines : list Entity;
  entities : list Entity;
  playerState : PlayerState;
  previousPlayerState : PlayerState
}.

Definition set_baselines (v : list Entity) (r : EntityTracker) : EntityTracker :=
  mkEntityTracker v (entities r) (playerState r) (previousPlayerState r).
Definition set_entities (v : list Entity) (r : EntityTracker) : EntityTracker :=
  mkEntityTracker (baselines r) v (playerState r) (previousPlayerState r).

Definition createEmptyEntity (h : Heap) : Entity * Heap :=
  let '(o, h) := allocVec (mkVec3 0 0 0) h in
  let '(a, h) := allocAngles (mkAngles 0 0 0) h in
  let '(oo, h) := allocVec (mkVec3 0 0 0) h in
  (mkEntity 0 0 0 0 0 0 0 0 0 o a oo 0 0 0 false false, h).

Definition createEmptyPlayerState (h : Heap) : PlayerState * Heap :=
  let '(pm, h) :=
    allocPMove (mkPMove 0 (mkVec3 0 0 0) (mkVec3 0 0 0) 0 0 0 (mkAngles 0 0 0)) h in
  (mkPlayerState pm (mkVec3 0 0 0) (mkAngles 0 0 0) (mkAngles 0 0 0) 0 0
                 [0; 0; 0; 0] 90 0 (replicate 32 0), h).

(** [new Array(n).fill(null).map(() => this.createEmptyEntity())] *)
Fixpoint createEntityArray (n : nat) (h : Heap) : list Entity * Heap :=
  match n with
  | O => ([], h)
  | S n' =>
      let '(e, h) := createEmptyEntity h in
      let '(l, h) := createEntityArray n' h in
      (e :: l, h)
  end.

(** The constructor of [EntityTracker], and its [reset], which builds the
    same four tables afresh. *)
Definition newEntityTracker (h : Heap) : EntityTracker * Heap :=
  let '(b, h) := createEntityArray (Z.to_nat MAX_EDICTS) h in
  let '(e, h) := createEntityArray (Z.to_nat MAX_EDICTS) h in
  let '(ps, h) := createEmptyPlayerState h in
  let '(pps, h) := createEmptyPlayerState h in
  (mkEntityTracker b e ps pps, h).

Definition resetTracker (t : EntityTracker) (h : Heap) : EntityTracker * Heap :=
  newEntityTracker h.

Definition inRange (entityNum : Z) : bool :=
  (0 <=? entityNum) && (entityNum <? MAX_EDICTS).

(** [this.baselines[entityNum] = { ...state }]: the copy shares the
    objects behind [origin], [angles] and [old_origin]. *)
Definition setBaseline (entityNum : Z) (state : Entity) (t : EntityTracker)
  : EntityTracker :=
  if inRange entityNum then
    set_baselines (<[Z.to_nat entityNum := state]> (baselines t)) t
  else t.

(** [Object.assign(entity, deltaState)] copies every own property of
    [deltaState]: all the fields of an entity, and [removed] when it is
    there. *)
Definition assignEntity (entity deltaState : Entity) : Entity :=
  set_removed (removed deltaState || removed entity) deltaState.

(** A value that may be [null] or [undefined]. *)
Inductive Nullable (A : Type) :=
| JNull
| JUndefined
| JObj (a : A).
Arguments JNull {A}.
Arguments JUndefined {A}.
Arguments JObj {A} _.

(** [updateEntity]: [None] is the [TypeError] of [Object.assign] on a slot
    that holds no object; otherwise the tracker and the returned value,
    [null] or the entity, named by its slot. *)
Definition updateEntity (entityNum : Z) (deltaState : Entity) (t : EntityTracker)
  : option (EntityTracker * option nat) :=
  if negb (inRange entityNum) then Some (t, None)
  else
    let n := Z.to_nat entityNum in
    entity ← entities t !! n;
    let entity := assignEntity entity deltaState in
    let entity := set_number entityNum entity in
    let entity := set_active (negb (removed deltaState)) entity in
    Some (set_entities (<[n := entity]> (entities t)) t, Some n).

Definition getEntity (t : EntityTracker) (entityNum : Z) : Nullable Entity :=
  if inRange entityNum then
    match entities t !! Z.to_nat entityNum with
    | Some e => JObj e
    | None => JUndefined
    end
  else JNull.

(** [previousPlayerState = { ...playerState }; Object.assign(playerState,
    delta)]: [delta] carries every field. *)
Definition updatePlayerState (delta : PlayerState) (t : EntityTracker)
  : EntityTracker :=
  mkEntityTracker (baselines t) (entities t) delta (playerState t).

(** ** Entity deltas *)

Definition U_ORIGIN1 : Z := Z.shiftl 1 0.
Definition U_ORIGIN2 : Z := Z.shiftl 1 1.
Definition U_ANGLE2 : Z := Z.shiftl 1 2.
Definition U_ANGLE3 : Z := Z.shiftl 1 3.
Definition U_FRAME8 : Z := Z.shiftl 1 4.
Definition U_EVENT : Z := Z.shiftl 1 5.
Definition U_REMOVE : Z := Z.shiftl 1 6.
Definition U_MOREBITS1 : Z := Z.shiftl 1 7.
Definition U_NUMBER16 : Z := Z.shiftl 1 8.
Definition U_ORIGIN3 : Z := Z.shiftl 1 9.
Definition U_ANGLE1 : Z := Z.shiftl 1 10.
Definition U_MODEL : Z := Z.shiftl 1 11.
Definition U_RENDERFX8 : Z := Z.shiftl 1 12.
Definition U_EFFECTS8 : Z := Z.shiftl 1 14.
Definition U_MOREBITS2 : Z := Z.shiftl 1 15.
Definition U_SKIN8 : Z := Z.shiftl 1 16.
Definition U_FRAME16 : Z := Z.shiftl 1 17.
Definition U_RENDERFX16 : Z := Z.shiftl 1 18.
Definition U_EFFECTS16 : Z := Z.shiftl 1 19.
Definition U_MODEL2 : Z := Z.shiftl 1 20.
Definition U_MODEL3 : Z := Z.shiftl 1 21.
Definition U_MODEL4 : Z := Z.shiftl 1 22.
Definition U_MOREBITS3 : Z := Z.shiftl 1 23.
Definition U_OLDORIGIN : Z := Z.shiftl 1 24.
Definition U_SKIN16 : Z := Z.shiftl 1 25.
Definition U_SOUND : Z := Z.shiftl 1 26.
Definition U_SOLID : Z := Z.shiftl 1 27.

(** [bits & FLAG] used as a condition. [bits] is a 32-bit signed value. *)
Definition flag (bits mask : Z) : bool := negb (Z.land bits mask =? 0).

(** [data[idx] << k], a 32-bit signed shift. *)
Definition shl32 (v k : Z) : Z := Buf.toInt32 (Z.shiftl v k).

Definition parseEntityBits (data : Buffer) (idx : nat) : Read Z :=
  match Buf.get data idx with
  | None => mkRead 0 idx
  | Some b0 =>
      let bits := b0 in
      let idx := S idx in
      let more (mask k : Z) (k' : Read Z -> Read Z) (r : Read Z) : Read Z :=
        if flag (value r) mask then
          match Buf.get data (nextIndex r) with
          | None => r
          | Some b => k' (mkRead (Z.lor (value r) (shl32 b k)) (S (nextIndex r)))
          end
        else k' r in
      more U_MOREBITS1 8 (more U_MOREBITS2 16 (more U_MOREBITS3 24 id))
           (mkRead bits idx)
  end.

(** The state being built, the cursor and the heap. *)
Definition EState : Type := Entity * nat * Heap.

Definition when (c : bool) {S : Type} (f : S -> S) : S -> S :=
  fun s => if c then f s else s.

(** [state.f = data[idx++] || 0] *)
Definition byteField (data : Buffer) (set : Z -> Entity -> Entity) : EState -> EState :=
  fun '(state, idx, h) => (set (Buf.getOr 0 data idx) state, S idx, h).

(** [const r = this.readXxx(data, idx); state.f = r.value; idx = r.nextIndex] *)
Definition readField (rd : Buffer -> nat -> Read Z) (data : Buffer)
    (set : Z -> Entity -> Entity) : EState -> EState :=
  fun '(state, idx, h) =>
    let r := rd data idx in (set (value r) state, nextIndex r, h).

(** [state.origin.x = coord.value]: a write into the shared object. *)
Definition originField (data : Buffer) (set : Z -> Vec3 -> Vec3) : EState -> EState :=
  fun '(state, idx, h) =>
    let coord := readCoord data idx in
    (state, nextIndex coord, updVec (origin state) (set (value coord)) h).

Definition angleField (data : Buffer) (set : Z -> Angles -> Angles) : EState -> EState :=
  fun '(state, idx, h) =>
    let angle := readAngle data idx in
    (state, nextIndex angle, updAngles (angles state) (set (value angle)) h).

(** [state.old_origin = { x, y, z }]: a fresh object. *)
Definition oldOriginField (data : Buffer) : EState -> EState :=
  fun '(state, idx, h) =>
    let rx := readCoord data idx in
    let ry := readCoord data (nextIndex rx) in
    let rz := readCoord data (nextIndex ry) in
    let '(l, h) := allocVec (mkVec3 (value rx) (value ry) (value rz)) h in
    (set_old_origin l state, nextIndex rz, h).

(** One of the three width-dependent fields (skin, effects, renderfx). *)
Definition wideField (data : Buffer) (bits m8 m16 : Z)
    (set : Z -> Entity -> Entity) : EState -> EState :=
  if flag bits m8 && flag bits m16 then readField readInt32 data set
  else if flag bits m8 then byteField data set
  else if flag bits m16 then readField readUInt16 data set
  else id.

Definition run {S : Type} (steps : list (S -> S)) (s : S) : S :=
  foldl (fun s f => f s) s steps.

Definition parseEntityStateFromBits (data : Buffer) (idx : nat) (bits : Z)
    (baseline : Entity) (entityNum : Z) (h : Heap) : EState :=
  let state := set_number entityNum baseline in      (* { ...baseline } *)
  if flag bits U_REMOVE then
    (set_active false (set_removed true state), idx, h)
  else
    run [ when (flag bits U_MODEL) (byteField data set_modelindex);
          when (flag bits U_MODEL2) (byteField data set_modelindex2);
          when (flag bits U_MODEL3) (byteField data set_modelindex3);
          when (flag bits U_MODEL4) (byteField data set_modelindex4);
          when (flag bits U_FRAME8) (byteField data set_frame);
          when (flag bits U_FRAME16) (readField readUInt16 data set_frame);
          wideField data bits U_SKIN8 U_SKIN16 set_skinnum;
          wideField data bits U_EFFECTS8 U_EFFECTS16 set_effects;
          wideField data bits U_RENDERFX8 U_RENDERFX16 set_renderfx;
          when (flag bits U_ORIGIN1) (originField data set_x);
          when (flag bits U_ORIGIN2) (originField data set_y);
          when (flag bits U_ORIGIN3) (originField data set_z);
          when (flag bits U_ANGLE1) (angleField data set_pitch);
          when (flag bits U_ANGLE2) (angleField data set_yaw);
          when (flag bits U_ANGLE3) (angleField data set_roll);
          when (flag bits U_OLDORIGIN) (oldOriginField data);
          when (flag bits U_SOUND) (byteField data set_sound);
          when (flag bits U_EVENT) (byteField data set_event);
          when (flag bits U_SOLID) (readField readUInt16 data set_solid);
          fun '(state, idx, h) => (set_active true state, idx, h) ]
        (state, idx, h).

(** The entity number that follows the bits: a short under [U_NUMBER16],
    else [data[idx++] || 0]. *)
Definition readEntityNum (data : Buffer) (idx : nat) (bits : Z) : Read Z :=
  if flag bits U_NUMBER16 then readUInt16 data idx
  else mkRead (Buf.getOr 0 data idx) (S idx).

(** ** The client

    The fields of a [Q2Client] instance, grouped by the comments that
    group them in the constructor. The last field, [log], is not a field of
    the instance: it is the trace of what the client did to its
    environment, oldest first. *)

Inductive ConnectionState :=
| Disconnected | Challenging | Connecting | Connected | Spawned.

(** The callbacks handed to [setTimeout]. *)
Inductive TimerAction :=
| TConnectToServer (challengeId : option Z)
| TSendNewCommand
| TSendBeginCommand
| TRequestChallenge.

(** The [data] of an emitted event. *)
Inductive EventData :=
| EvConnection (status : string) (reason : option string) (passive : bool)
               (attempt : option (Z * Z * Z))  (* attempt, maxAttempts, delay *)
| EvMapChange (previousMap map : string)
| EvConnected (map gameDir : string) (protocol : Z)
| EvPlayerInfo (playerId : Z) (name : string)
| EvMapName (map : string)
| EvConsoleMessage (level text : string).

Inductive Effect :=
| Emit (type : string) (data : EventData)     (* [this.emit(type, event)] *)
| Send (packet : Buffer)                      (* [this.socket.send(packet, ...)] *)
| SetTimeout (action : TimerAction) (delay : Z)
| StatusResponse (content : string).          (* [this.handleStatusResponse(content)] *)

(** Configuration, fixed by the constructor. *)
Record Options := mkOptions {
  serverIp : string;
  serverPort : Z;
  passiveMode : bool;
  monitorMode : bool;
  monitorInterval : Z;
  debug : bool;
  playerName : string;
  maxReconnectAttempts : Z
}.


(** Socket, connection and protocol state. [socket] tells whether [this.socket] is non-null; an interval field holds the period of the running interval. *)
Record Conn := mkConn {
  socket : bool;
  isConnected : bool;
  connectionState : ConnectionState;
  reconnectAttempts : Z;
  clientChallengeId : Z;
  clientQport : Z;
  serverProtocol : Z;
  serverProtocolMinor : Z;
  netchanType : Z;
  heartbeatInterval : option Z;
  keepAliveInterval : option Z;
  monitorPollInterval : option Z;
  lastPacketTime : Z
}.

Definition set_socket (v : bool) (r : Conn) : Conn :=
  mkConn v (isConnected r) (connectionState r) (reconnectAttempts r) (clientChallengeId r) (clientQport r) (serverProtocol r) (serverProtocolMinor r) (netchanType r) (heartbeatInterval r) (keepAliveInterval r) (monitorPollInterval r) (lastPacketTime r).
Definition set_isConnected (v : bool) (r : Conn) : Conn :=
  mkConn (socket r) v (connectionState r) (reconnectAttempts r) (clientChallengeId r) (clientQport r) (serverProtocol r) (serverProtocolMinor r) (netchanType r) (heartbeatInterval r) (keepAliveInterval r) (monitorPollInterval r) (lastPacketTime r).
Definition set_connectionState (v : ConnectionState) (r : Conn) : Conn :=
  mkConn (socket r) (isConnected r) v (reconnectAttempts r) (clientChallengeId r) (clientQport r) (serverProtocol r) (serverProtocolMinor r) (netchanType r) (heartbeatInterval r) (keepAliveInterval r) (monitorPollInterval r) (lastPacketTime r).
Definition set_reconnectAttempts (v : Z) (r : Conn) : Conn :=
  mkConn (socket r) (isConnected r) (connectionState r) v (clientChallengeId r) (clientQport r) (serverProtocol r) (serverProtocolMinor r) (netchanType r) (heartbeatInterval r) (keepAliveInterval r) (monitorPollInterval r) (lastPacketTime r).
Definition set_clientChallengeId (v : Z) (r : Conn) : Conn :=
  mkConn (socket r) (isConnected r) (connectionState r) (reconnectAttempts r) v (clientQport r) (serverProtocol r) (serverProtocolMinor r) (netchanType r) (heartbeatInterval r) (keepAliveInterval r) (monitorPollInterval r) (lastPacketTime r).
Definition set_clientQport (v : Z) (r : Conn) : Conn :=
  mkConn (socket r) (isConnected r) (connectionState r) (reconnectAttempts r) (clientChallengeId r) v (serverProtocol r) (serverProtocolMinor r) (netchanType r) (heartbeatInterval r) (keepAliveInterval r) (monitorPollInterval r) (lastPacketTime r).
Definition set_serverProtocol (v : Z) (r : Conn) : Conn :=
  mkConn (socket r) (isConnected r) (connectionState r) (reconnectAttempts r) (clientChallengeId r) (clientQport r) v (serverProtocolMinor r) (netchanType r) (heartbeatInterval r) (keepAliveInterval r) (monitorPollInterval r) (lastPacketTime r).
Definition set_serverProtocolMinor (v : Z) (r : Conn) : Conn :=
  mkConn (socket r) (isConnected r) (connectionState r) (reconnectAttempts r) (clientChallengeId r) (clientQport r) (serverProtocol r) v (netchanType r) (heartbeatInterval r) (keepAliveInterval r) (monitorPollInterval r) (lastPacketTime r).
Definition set_netchanType (v : Z) (r : Conn) : Conn :=
  mkConn (socket r) (isConnected r) (connectionState r) (reconnectAttempts r) (clientChallengeId r) (clientQport r) (serverProtocol r) (serverProtocolMinor r) v (heartbeatInterval r) (keepAliveInterval r) (monitorPollInterval r) (lastPacketTime r).
Definition set_heartbeatInterval (v : option Z) (r : Conn) : Conn :=
  mkConn (socket r) (isConnected r) (connectionState r) (reconnectAttempts r) (clientChallengeId r) (clientQport r) (serverProtocol r) (serverProtocolMinor r) (netchanType r) v (keepAliveInterval r) (monitorPollInterval r) (lastPacketTime r).
Definition set_keepAliveInterval (v : option Z) (r : Conn) : Conn :=
  mkConn (socket r) (isConnected r) (connectionState r) (reconnectAttempts r) (clientChallengeId r) (clientQport r) (serverProtocol r) (serverProtocolMinor r) (netchanType r) (heartbeatInterval r) v (monitorPollInterval r) (lastPacketTime r).
Definition set_monitorPollInterval (v : option Z) (r : Conn) : Conn :=
  mkConn (socket r) (isConnected r) (connectionState r) (reconnectAttempts r) (clientChallengeId r) (clientQport r) (serverProtocol r) (serverProtocolMinor r) (netchanType r) (heartbeatInterval r) (keepAliveInterval r) v (lastPacketTime r).
Definition set_lastPacketTime (v : Z) (r : Conn) : Conn :=
  mkConn (socket r) (isConnected r) (connectionState r) (reconnectAttempts r) (clientChallengeId r) (clientQport r) (serverProtocol r) (serverProtocolMinor r) (netchanType r) (heartbeatInterval r) (keepAliveInterval r) (monitorPollInterval r) v.

(** Netchan and fragmentation state. *)
Record Netchan := mkNetchan {
  incomingSequence : Z;
  incomingAcknowledged : Z;
  incomingReliableAcknowledged : Z;
  incomingReliableSequence : Z;
  outgoingSequence : Z;
  reliableSequence : Z;
  lastReliableSequence : Z;
  fragmentSequence : Z;
  fragmentBuffer : Buffer
}.

Definition set_incomingSequence (v : Z) (r : Netchan) : Netchan :=
  mkNetchan v (incomingAcknowledged r) (incomingReliableAcknowledged r) (incomingReliableSequence r) (outgoingSequence r) (reliableSequence r) (lastReliableSequence r) (fragmentSequence r) (fragmentBuffer r).
Definition set_incomingAcknowledged (v : Z) (r : Netchan) : Netchan :=
  mkNetchan (incomingSequence r) v (incomingReliableAcknowledged r) (incomingReliableSequence r) (outgoingSequence r) (reliableSequence r) (lastReliableSequence r) (fragmentSequence r) (fragmentBuffer r).
Definition set_incomingReliableAcknowledged (v : Z) (r : Netchan) : Netchan :=
  mkNetchan (incomingSequence r) (incomingAcknowledged r) v (incomingReliableSequence r) (outgoingSequence r) (reliableSequence r) (lastReliableSequence r) (fragmentSequence r) (fragmentBuffer r).
Definition set_incomingReliableSequence (v : Z) (r : Netchan) : Netchan :=
  mkNetchan (incomingSequence r) (incomingAcknowledged r) (incomingReliableAcknowledged r) v (outgoingSequence r) (reliableSequence r) (lastReliableSequence r) (fragmentSequence r) (fragmentBuffer r).
Definition set_outgoingSequence (v : Z) (r : Netchan) : Netchan :=
  mkNetchan (incomingSequence r) (incomingAcknowledged r) (incomingReliableAcknowledged r) (incomingReliableSequence r) v (reliableSequence r) (lastReliableSequence r) (fragmentSequence r) (fragmentBuffer r).
Definition set_reliableSequence (v : Z) (r : Netchan) : Netchan :=
  mkNetchan (incomingSequence r) (incomingAcknowledged r) (incomingReliableAcknowledged r) (incomingReliableSequence r) (outgoingSequence r) v (lastReliableSequence r) (fragmentSequence r) (fragmentBuffer r).
Definition set_lastReliableSequence (v : Z) (r : Netchan) : Netchan :=
  mkNetchan (incomingSequence r) (incomingAcknowledged r) (incomingReliableAcknowledged r) (incomingReliableSequence r) (outgoingSequence r) (reliableSequence r) v (fragmentSequence r) (fragmentBuffer r).
Definition set_fragmentSequence (v : Z) (r : Netchan) : Netchan :=
  mkNetchan (incomingSequence r) (incomingAcknowledged r) (incomingReliableAcknowledged r) (incomingReliableSequence r) (outgoingSequence r) (reliableSequence r) (lastReliableSequence r) v (fragmentBuffer r).
Definition set_fragmentBuffer (v : Buffer) (r : Netchan) : Netchan :=
  mkNetchan (incomingSequence r) (incomingAcknowledged r) (incomingReliableAcknowledged r) (incomingReliableSequence r) (outgoingSequence r) (reliableSequence r) (lastReliableSequence r) (fragmentSequence r) v.

(** Game state. *)
Record Game := mkGame {
  serverCount : Z;
  spawnCount : Z;
  lastFrameNum : Z;
  currentMapName : string;
  configStrings : gmap Z string;
  playerNames : gmap Z string
}.

Definition set_serverCount (v : Z) (r : Game) : Game :=
  mkGame v (spawnCount r) (lastFrameNum r) (currentMapName r) (configStrings r) (playerNames r).
Definition set_spawnCount (v : Z) (r : Game) : Game :=
  mkGame (serverCount r) v (lastFrameNum r) (currentMapName r) (configStrings r) (playerNames r).
Definition set_lastFrameNum (v : Z) (r : Game) : Game :=
  mkGame (serverCount r) (spawnCount r) v (currentMapName r) (configStrings r) (playerNames r).
Definition set_currentMapName (v : string) (r : Game) : Game :=
  mkGame (serverCount r) (spawnCount r) (lastFrameNum r) v (configStrings r) (playerNames r).
Definition set_configStrings (v : gmap Z string) (r : Game) : Game :=
  mkGame (serverCount r) (spawnCount r) (lastFrameNum r) (currentMapName r) v (playerNames r).
Definition set_playerNames (v : gmap Z string) (r : Game) : Game :=
  mkGame (serverCount r) (spawnCount r) (lastFrameNum r) (currentMapName r) (configStrings r) v.

(** Handshake flags. *)
Record Handshake := mkHandshake {
  hasSentNew : bool;
  hasSentBegin : bool;
  precacheReceived : bool;
  hasServerData : bool;
  respondedVersion : bool;
  respondedAcToken : bool;
  sentConfigstrings : bool;
  sentBaselines : bool;
  pendingCommands : list string;
  awaitingBegin : bool
}.

Definition set_hasSentNew (v : bool) (r : Handshake) : Handshake :=
  mkHandshake v (hasSentBegin r) (precacheReceived r) (hasServerData r) (respondedVersion r) (respondedAcToken r) (sentConfigstrings r) (sentBaselines r) (pendingCommands r) (awaitingBegin r).
Definition set_hasSentBegin (v : bool) (r : Handshake) : Handshake :=
  mkHandshake (hasSentNew r) v (precacheReceived r) (hasServerData r) (respondedVersion r) (respondedAcToken r) (sentConfigstrings r) (sentBaselines r) (pendingCommands r) (awaitingBegin r).
Definition set_precacheReceived (v : bool) (r : Handshake) : Handshake :=
  mkHandshake (hasSentNew r) (hasSentBegin r) v (hasServerData r) (respondedVersion r) (respondedAcToken r) (sentConfigstrings r) (sentBaselines r) (pendingCommands r) (awaitingBegin r).
Definition set_hasServerData (v : bool) (r : Handshake) : Handshake :=
  mkHandshake (hasSentNew r) (hasSentBegin r) (precacheReceived r) v (respondedVersion r) (respondedAcToken r) (sentConfigstrings r) (sentBaselines r) (pendingCommands r) (awaitingBegin r).
Definition set_respondedVersion (v : bool) (r : Handshake) : Handshake :=
  mkHandshake (hasSentNew r) (hasSentBegin r) (precacheReceived r) (hasServerData r) v (respondedAcToken r) (sentConfigstrings r) (sentBaselines r) (pendingCommands r) (awaitingBegin r).
Definition set_respondedAcToken (v : bool) (r : Handshake) : Handshake :=
  mkHandshake (hasSentNew r) (hasSentBegin r) (precacheReceived r) (hasServerData r) (respondedVersion r) v (sentConfigstrings r) (sentBaselines r) (pendingCommands r) (awaitingBegin r).
Definition set_sentConfigstrings (v : bool) (r : Handshake) : Handshake :=
  mkHandshake (hasSentNew r) (hasSentBegin r) (precacheReceived r) (hasServerData r) (respondedVersion r) (respondedAcToken r) v (sentBaselines r) (pendingCommands r) (awaitingBegin r).
Definition set_sentBaselines (v : bool) (r : Handshake) : Handshake :=
  mkHandshake (hasSentNew r) (hasSentBegin r) (precacheReceived r) (hasServerData r) (respondedVersion r) (respondedAcToken r) (sentConfigstrings r) v (pendingCommands r) (awaitingBegin r).
Definition set_pendingCommands (v : list string) (r : Handshake) : Handshake :=
  mkHandshake (hasSentNew r) (hasSentBegin r) (precacheReceived r) (hasServerData r) (respondedVersion r) (respondedAcToken r) (sentConfigstrings r) (sentBaselines r) v (awaitingBegin r).
Definition set_awaitingBegin (v : bool) (r : Handshake) : Handshake :=
  mkHandshake (hasSentNew r) (hasSentBegin r) (precacheReceived r) (hasServerData r) (respondedVersion r) (respondedAcToken r) (sentConfigstrings r) (sentBaselines r) (pendingCommands r) v.

Record Q2Client := mkQ2Client {
  options : Options;
  conn : Conn;
  netchan : Netchan;
  game : Game;
  handshake : Handshake;
  entityTracker : EntityTracker;
  heap : Heap;
  log : list Effect
}.

Definition set_options (v : Options) (r : Q2Client) : Q2Client :=
  mkQ2Client v (conn r) (netchan r) (game r) (handshake r) (entityTracker r) (heap r) (log r).
Definition set_conn (v : Conn) (r : Q2Client) : Q2Client :=
  mkQ2Client (options r) v (netchan r) (game r) (handshake r) (entityTracker r) (heap r) (log r).
Definition set_netchan (v : Netchan) (r : Q2Client) : Q2Client :=
  mkQ2Client (options r) (conn r) v (game r) (handshake r) (entityTracker r) (heap r) (log r).
Definition set_game (v : Game) (r : Q2Client) : Q2Client :=
  mkQ2Client (options r) (conn r) (netchan r) v (handshake r) (entityTracker r) (heap r) (log r).
Definition set_handshake (v : Handshake) (r : Q2Client) : Q2Client :=
  mkQ2Client (options r) (conn r) (netchan r) (game r) v (entityTracker r) (heap r) (log r).
Definition set_entityTracker (v : EntityTracker) (r : Q2Client) : Q2Client :=
  mkQ2Client (options r) (conn r) (netchan r) (game r) (handshake r) v (heap r) (log r).
Definition set_heap (v : Heap) (r : Q2Client) : Q2Client :=
  mkQ2Client (options r) (conn r) (netchan r) (game r) (handshake r) (entityTracker r) v (log r).
Definition set_log (v : list Effect) (r : Q2Client) : Q2Client :=
  mkQ2Client (options r) (conn r) (netchan r) (game r) (handshake r) (entityTracker r) (heap r) v.

Definition withConn (f : Conn -> Conn) (st : Q2Client) : Q2Client :=
  set_conn (f (conn st)) st.
Definition withNetchan (f : Netchan -> Netchan) (st : Q2Client) : Q2Client :=
  set_netchan (f (netchan st)) st.
Definition withGame (f : Game -> Game) (st : Q2Client) : Q2Client :=
  set_game (f (game st)) st.
Definition withHandshake (f : Handshake -> Handshake) (st : Q2Client) : Q2Client :=
  set_handshake (f (handshake st)) st.
Definition withTracker (f : EntityTracker -> EntityTracker) (st : Q2Client) : Q2Client :=
  set_entityTracker (f (entityTracker st)) st.
Definition logEffect (e : Effect) (st : Q2Client) : Q2Client :=
  set_log (log st ++ [e]) st.


(** ** Player state deltas *)

Definition PS_M_TYPE : Z := Z.shiftl 1 0.
Definition PS_M_ORIGIN : Z := Z.shiftl 1 1.
Definition PS_M_VELOCITY : Z := Z.shiftl 1 2.
Definition PS_M_TIME : Z := Z.shiftl 1 3.
Definition PS_M_FLAGS : Z := Z.shiftl 1 4.
Definition PS_M_GRAVITY : Z := Z.shiftl 1 5.
Definition PS_M_DELTA_ANGLES : Z := Z.shiftl 1 6.
Definition PS_VIEWOFFSET : Z := Z.shiftl 1 7.
Definition PS_VIEWANGLES : Z := Z.shiftl 1 8.
Definition PS_KICKANGLES : Z := Z.shiftl 1 9.
Definition PS_BLEND : Z := Z.shiftl 1 10.
Definition PS_FOV : Z := Z.shiftl 1 11.
Definition PS_WEAPONINDEX : Z := Z.shiftl 1 12.
Definition PS_WEAPONFRAME : Z := Z.shiftl 1 13.
Definition PS_RDFLAGS : Z := Z.shiftl 1 14.

(** The state being built, the cursor and the heap. *)
Definition PState : Type := PlayerState * nat * Heap.

(** [ps.pmove.f = data[idx++] || 0]: a write into the shared block. *)
Definition pmByte (data : Buffer) (set : Z -> PMove -> PMove) : PState -> PState :=
  fun '(ps, idx, h) =>
    (ps, S idx, updPMove (pmove ps) (set (Buf.getOr 0 data idx)) h).

(** Three [readInt16] in a row. *)
Definition readInt16x3 (data : Buffer) (idx : nat) : Z * Z * Z * nat :=
  let a := readInt16 data idx in
  let b := readInt16 data (nextIndex a) in
  let c := readInt16 data (nextIndex b) in
  (value a, value b, value c, nextIndex c).

Definition pmVec (data : Buffer) (set : Vec3 -> PMove -> PMove) : PState -> PState :=
  fun '(ps, idx, h) =>
    let '(a, b, c, idx) := readInt16x3 data idx in
    (ps, idx, updPMove (pmove ps) (set (mkVec3 a b c)) h).

Definition pmGravity (data : Buffer) : PState -> PState :=
  fun '(ps, idx, h) =>
    let g := readInt16 data idx in
    (ps, nextIndex g, updPMove (pmove ps) (set_gravity (value g)) h).

Definition pmDeltaAngles (data : Buffer) : PState -> PState :=
  fun '(ps, idx, h) =>
    let '(a, b, c, idx) := readInt16x3 data idx in
    (ps, idx, updPMove (pmove ps) (set_delta_angles (mkAngles a b c)) h).

(** [{ a: data[idx++] || 0, b: data[idx++] || 0, c: data[idx++] || 0 }] *)
Definition bytes3 (data : Buffer) (idx : nat) : Z * Z * Z :=
  (Buf.getOr 0 data idx, Buf.getOr 0 data (idx + 1)%nat, Buf.getOr 0 data (idx + 2)%nat).

Definition psViewOffset (data : Buffer) : PState -> PState :=
  fun '(ps, idx, h) =>
    let '(a, b, c) := bytes3 data idx in
    (set_viewoffset (mkVec3 a b c) ps, (idx + 3)%nat, h).

Definition psViewAngles (data : Buffer) : PState -> PState :=
  fun '(ps, idx, h) =>
    let a := readAngle16 data idx in
    let b := readAngle16 data (nextIndex a) in
    let c := readAngle16 data (nextIndex b) in
    (set_viewangles (mkAngles (value a) (value b) (value c)) ps, nextIndex c, h).

Definition psKickAngles (data : Buffer) : PState -> PState :=
  fun '(ps, idx, h) =>
    let '(a, b, c) := bytes3 data idx in
    (set_kick_angles (mkAngles a b c) ps, (idx + 3)%nat, h).

Definition psByte (d : Z) (data : Buffer) (set : Z -> PlayerState -> PlayerState)
  : PState -> PState :=
  fun '(ps, idx, h) => (set (Buf.getOr d data idx) ps, S idx, h).

Definition psBlend (data : Buffer) : PState -> PState :=
  fun '(ps, idx, h) =>
    (set_blend [Buf.getOr 0 data idx; Buf.getOr 0 data (idx + 1)%nat;
                Buf.getOr 0 data (idx + 2)%nat; Buf.getOr 0 data (idx + 3)%nat] ps,
     (idx + 4)%nat, h).

(** [{ ...this.entityTracker.playerState }] and the fields the flags
    select. The stats are left alone. *)
Definition parsePlayerState (data : Buffer) (idx : nat) (flags : Z)
    (t : EntityTracker) (h : Heap) : PState :=
  run [ when (flag flags PS_M_TYPE) (pmByte data set_pm_type);
        when (flag flags PS_M_ORIGIN) (pmVec data set_pm_origin);
        when (flag flags PS_M_VELOCITY) (pmVec data set_pm_velocity);
        when (flag flags PS_M_TIME) (pmByte data set_pm_time);
        when (flag flags PS_M_FLAGS) (pmByte data set_pm_flags);
        when (flag flags PS_M_GRAVITY) (pmGravity data);
        when (flag flags PS_M_DELTA_ANGLES) (pmDeltaAngles data);
        when (flag flags PS_VIEWOFFSET) (psViewOffset data);
        when (flag flags PS_VIEWANGLES) (psViewAngles data);
        when (flag flags PS_KICKANGLES) (psKickAngles data);
        when (flag flags PS_WEAPONINDEX) (psByte 0 data set_gunindex);
        when (flag flags PS_WEAPONFRAME) (psByte 0 data set_gunframe);
        when (flag flags PS_BLEND) (psBlend data);
        when (flag flags PS_FOV) (psByte 90 data set_fov);
        when (flag flags PS_RDFLAGS) (psByte 0 data set_rdflags) ]
      (playerState t, idx, h).

(** ** Packet entities *)

(** The loop of [parsePacketEntities]. [None] is an exception; [updates]
    lists the slots of the entities pushed, which are references to the
    live objects of [entities]. The loop reads at least one byte per turn,
    so [fuel = data.length] turns are enough. *)
Fixpoint parsePacketEntitiesLoop (fuel : nat) (data : Buffer) (idx : nat)
    (t : EntityTracker) (h : Heap) (updates : list nat)
  : option (EntityTracker * Heap * list nat * nat) :=
  if (idx <? length data)%nat then
    match fuel with
    | O => None
    | S fuel' =>
        let bitsResult := parseEntityBits data idx in
        let idx := nextIndex bitsResult in
        let bits := value bitsResult in
        if bits =? 0 then Some (t, h, updates, idx)
        else
          let num := readEntityNum data idx bits in
          let entityNum := value num in
          let idx := nextIndex num in
          if (entityNum =? 0) || (MAX_EDICTS <=? entityNum) then
            Some (t, h, updates, idx)
          else
            let '(baseline, h) :=
              match baselines t !! Z.to_nat entityNum with
              | Some b => (b, h)
              | None => createEmptyEntity h
              end in
            let '(state, idx, h) :=
              parseEntityStateFromBits data idx bits baseline entityNum h in
            '(t, entity) ← updateEntity entityNum state t;
            let updates :=
              match entity with
              | Some n => updates ++ [n]
              | None => updates
              end in
            parsePacketEntitiesLoop fuel' data idx t h updates
    end
  else Some (t, h, updates, idx).

Definition parsePacketEntities (data : Buffer) (idx : nat)
    (t : EntityTracker) (h : Heap)
  : option (EntityTracker * Heap * list nat * nat) :=
  parsePacketEntitiesLoop (length data) data idx t h [].

(** ** Decoded messages *)

Inductive Msg :=
| MServerData (protocol serverCount : Z) (attractloop : Z) (gameDir : string)
              (clientNum : Z) (mapName : string)
| MConfigString (index : Z) (text : string)
| MPrint (level : Z) (text : string)
| MCenterPrint (text : string)
| MStuffText (text : string)
| MServerDisconnect
| MReconnect
| MPlayerState (position velocity : Vec3) (viewangles : Angles) (weapon fov : Z)
| MEntityState (entity : nat).          (* a reference to [entities[entity]] *)

(** ** The game-message decoder *)

(** What one turn of the [while] loop of [parseGameMessage] does: go on
    with the next opcode, [return messages], or let an exception escape.
    [msgs] are the messages pushed during the turn. *)
Inductive Step :=
| Continue (st : Q2Client) (idx : nat) (msgs : list Msg)
| Return (st : Q2Client) (msgs : list Msg)
| Throw (st : Q2Client).

(** A [Buffer] read that may throw. *)
Definition try_ {A : Type} (st : Q2Client) (o : option A) (k : A -> Step) : Step :=
  match o with
  | Some a => k a
  | None => Throw st
  end.

Definition skipTempEntity (teType : Z) : nat :=
  if (20 <=? teType) && (teType <=? 29) then 12%nat else 6%nat.

(** The protocol-specific tail of [SVC.SERVERDATA]. *)
Definition serverDataTail (st : Q2Client) (data : Buffer) (proto : Z) (idx : nat)
    (k : Q2Client -> nat -> Step) : Step :=
  if proto =? PROTOCOL.VERSION_R1Q2 then
    if (idx + 5 <=? length data)%nat then
      let idx := S idx in                                   (* enhanced *)
      try_ st (Buf.readUInt16LE data idx) (fun minorVersion =>
        let idx := (idx + 2)%nat in
        let st := withConn (set_serverProtocolMinor minorVersion) st in
        k st (idx + 2)%nat)                 (* advancedDeltas + strafejumpHack *)
    else k st idx
  else if proto =? PROTOCOL.VERSION_Q2PRO then
    if (idx + 3 <=? length data)%nat then
      try_ st (Buf.readUInt16LE data idx) (fun minorVersion =>
        let idx := (idx + 2)%nat in
        let st := withConn (set_serverProtocolMinor minorVersion) st in
        let idx := S idx in                                 (* serverState *)
        if 1024 <=? serverProtocolMinor (conn st) then
          k st (if (idx + 2 <=? length data)%nat then (idx + 2)%nat else idx)
        else
          k st (if (idx + 3 <=? length data)%nat then (idx + 3)%nat else idx))
    else k st idx
  else if proto =? PROTOCOL.VERSION_AQTION then
    if (idx + 6 <=? length data)%nat then
      try_ st (Buf.readUInt16LE data idx) (fun minorVersion =>
        let idx := (idx + 2)%nat in
        let st := withConn (set_serverProtocolMinor minorVersion) st in
        k st (idx + 4)%nat)      (* serverState + strafejump + qw + waterjump *)
    else k st idx
  else k st idx.

Definition parseServerData (st : Q2Client) (data : Buffer) (idx : nat) : Step :=
  if (length data <? idx + 9)%nat then Return st []
  else
    try_ st (Buf.readInt32LE data idx) (fun proto =>
      let idx := (idx + 4)%nat in
      let st := withConn (set_serverProtocol proto) st in
      try_ st (Buf.readInt32LE data idx) (fun srvCount =>
        let idx := (idx + 4)%nat in
        let attractloop := Buf.get data idx in
        let idx := S idx in
        let gameDir := readCString data idx in
        let idx := nextIndex gameDir in
        let clientNum := readInt16 data idx in
        let idx := nextIndex clientNum in
        let mapName := readCString data idx in
        let idx := nextIndex mapName in
        serverDataTail st data proto idx (fun st idx =>
          Continue st idx
            [MServerData proto srvCount (default 0 attractloop) (value gameDir)
                         (value clientNum) (cleanQuakeString (value mapName))]))).

Definition parseConfigString (st : Q2Client) (data : Buffer) (idx : nat) : Step :=
  if (length data <? idx + 2)%nat then Return st []
  else
    try_ st (Buf.readUInt16LE data idx) (fun csIndex =>
      let idx := (idx + 2)%nat in
      let r := readCString data idx in
      let cleanText := cleanQuakeString (value r) in
      Continue st (nextIndex r)
        (if JS.truthy cleanText then [MConfigString csIndex cleanText] else [])).

Definition parseSpawnBaseline (st : Q2Client) (data : Buffer) (idx : nat) : Step :=
  let bitsResult := parseEntityBits data idx in
  let idx := nextIndex bitsResult in
  if value bitsResult =? 0 then Continue st idx []
  else
    let num := readEntityNum data idx (value bitsResult) in
    let entityNum := value num in
    let idx := nextIndex num in
    let '(baseline, h) := createEmptyEntity (heap st) in
    let '(state, idx, h) :=
      parseEntityStateFromBits data idx (value bitsResult) baseline entityNum h in
    Continue (withTracker (setBaseline entityNum state) (set_heap h st)) idx [].

Definition parseSound (st : Q2Client) (data : Buffer) (idx : nat) : Step :=
  match Buf.get data idx with
  | None => Return st []
  | Some flags =>
      let idx := S idx in
      let idx := if flag flags 0x20 then (idx + 2)%nat else S idx in
      let idx := if flag flags 1 then S idx else idx in
      let idx := if flag flags 2 then S idx else idx in
      let idx := if flag flags 0x10 then S idx else idx in
      let idx := if flag flags 8 then (idx + 2)%nat else idx in
      let idx := if flag flags 4 then (idx + 6)%nat else idx in
      Continue st idx []
  end.

Definition isExtendedProtocol (st : Q2Client) : bool :=
  (serverProtocol (conn st) =? PROTOCOL.VERSION_Q2PRO) ||
  (serverProtocol (conn st) =? PROTOCOL.VERSION_AQTION) ||
  (serverProtocol (conn st) =? PROTOCOL.VERSION_R1Q2).

(** The area bits and the player-state flags that follow the frame
    numbers, both read only when they lie inside the buffer. *)
Definition frameAreaAndFlags (st : Q2Client) (data : Buffer) (idx : nat)
    (k : nat -> Z -> Step) : Step :=
  let idx :=
    match Buf.get data idx with
    | Some areabytes => (S idx + Z.to_nat areabytes)%nat
    | None => idx
    end in
  if (idx + 2 <=? length data)%nat then
    try_ st (Buf.readUInt16LE data idx) (fun psFlags => k (idx + 2)%nat psFlags)
  else k idx 0.

(** The player state and the packet entities of a frame. *)
Definition frameBody (st : Q2Client) (data : Buffer) (idx : nat) (psFlags : Z) : Step :=
  let '(st, idx, psMsgs, ok) :=
    if negb (psFlags =? 0) && (idx <? length data)%nat then
      let '(ps, idx, h) :=
        parsePlayerState data idx psFlags (entityTracker st) (heap st) in
      let st := withTracker (updatePlayerState ps) (set_heap h st) in
      match pmoves h !! pmove ps with
      | Some pm =>
          (st, idx,
           [MPlayerState (pm_origin pm) (pm_velocity pm) (viewangles ps)
                         (gunindex ps) (fov ps)], true)
      | None => (st, idx, [], false)   (* [ps.pmove.origin] of no object *)
      end
    else (st, idx, [], true) in
  if negb ok then Throw st
  else if (idx <? length data)%nat then
    match parsePacketEntities data idx (entityTracker st) (heap st) with
    | Some (t, h, updates, idx) =>
        Continue (set_entityTracker t (set_heap h st)) idx
                 (psMsgs ++ (MEntityState <$> updates))
    | None => Throw st
    end
  else Continue st idx psMsgs.

Definition parseFrame (st : Q2Client) (data : Buffer) (idx : nat) : Step :=
  if (length data <? idx + 4)%nat then Return st []
  else if isExtendedProtocol st then
    try_ st (Buf.readUInt32LE data idx) (fun frameData =>
      let idx := (idx + 4)%nat in
      let frameNum := Z.land frameData 0x07ffffff in
      let st := withGame (set_lastFrameNum frameNum) st in
      let idx := if (idx <? length data)%nat then S idx else idx in (* suppressFlags *)
      frameAreaAndFlags st data idx (fun idx psFlags => frameBody st data idx psFlags))
  else
    try_ st (Buf.readInt32LE data idx) (fun frameNum =>
      let idx := (idx + 4)%nat in
      let st := withGame (set_lastFrameNum frameNum) st in
      let idx := if (idx + 4 <=? length data)%nat then (idx + 4)%nat else idx in (* deltaNum *)
      let idx := if (idx <? length data)%nat then S idx else idx in (* suppresscount *)
      frameAreaAndFlags st data idx (fun idx psFlags => frameBody st data idx psFlags)).

Definition parseDownload (st : Q2Client) (data : Buffer) (idx : nat) : Step :=
  if (length data <? idx + 2)%nat then Return st []
  else
    try_ st (Buf.readInt16LE data idx) (fun size =>
      let idx := (idx + 3)%nat in
      Continue st (if 0 <? size then (idx + Z.to_nat size)%nat else idx) []).

(** The loop of [SVC.GAMESTATE] over [index, string] pairs. Each turn
    reads at least three bytes. [None] is fuel running out. *)
Fixpoint gameStateLoop (fuel : nat) (data : Buffer) (idx : nat) (msgs : list Msg)
  : option (list Msg) :=
  if (idx + 2 <=? length data)%nat then
    match fuel with
    | O => None
    | S fuel' =>
        match Buf.readUInt16LE data idx with
        | None => None
        | Some csIndex =>
            let idx := (idx + 2)%nat in
            if (csIndex =? 0x7fff) || (2080 <=? csIndex) then Some msgs
            else
              let r := readCString data idx in
              let cleanText := cleanQuakeString (value r) in
              gameStateLoop fuel' data (nextIndex r)
                (if JS.truthy cleanText then msgs ++ [MConfigString csIndex cleanText]
                 else msgs)
        end
    end
  else Some msgs.

(** [if (cmd === SVC.EXTEND && idx < data.length) cmd = data[idx++]] *)
Definition extendCommand (data : Buffer) (cmd : Z) (idx : nat) : Z * nat :=
  if (cmd =? SVC.EXTEND) && (idx <? length data)%nat
  then (default 0 (Buf.get data idx), S idx)
  else (cmd, idx).

Section Decoder.

(** [zlib.inflateRawSync]; [None] is the exception it throws on data
    that is not a raw deflate stream. *)
Variable inflateRawSync : Buffer -> option Buffer.

(** [try { return zlib.inflateRawSync(data) } catch (e) { return null }] *)
Definition decompressZlib (data : Buffer) : option Buffer := inflateRawSync data.

(** The result of a call of [parseGameMessage]: the state it left and
    the messages, or [None] when an exception escaped. *)
Definition Decoded : Type := Q2Client * option (list Msg).

Section Step.

(** The recursive call of [SVC.ZPACKET]. *)
Variable parseNested : Q2Client -> Buffer -> Decoded.

Definition parseZPacket (st : Q2Client) (data : Buffer) (idx : nat) : Step :=
  if (length data <? idx + 4)%nat then Return st []
  else
    try_ st (Buf.readUInt16LE data idx) (fun inlen =>
      let idx := (idx + 2)%nat in
      try_ st (Buf.readUInt16LE data idx) (fun outlen =>
        let idx := (idx + 2)%nat in
        if (length data <? idx + Z.to_nat inlen)%nat then Return st []
        else
          let compressed := Buf.slice2 data idx (idx + Z.to_nat inlen) in
          let idx := (idx + Z.to_nat inlen)%nat in
          match decompressZlib compressed with
          | Some decompressed =>
              match parseNested st decompressed with
              | (st, Some innerMsgs) => Continue st idx innerMsgs
              | (st, None) => Throw st
              end
          | None => Continue st idx []
          end)).

(** The [switch (cmd)], with [idx] past the opcode. *)
Definition dispatch (st : Q2Client) (data : Buffer) (isNested : bool)
    (cmd : Z) (idx : nat) : Step :=
  if cmd =? SVC.NOP then Continue st idx []
  else if (cmd =? SVC.MUZZLEFLASH) || (cmd =? SVC.MUZZLEFLASH2) then
    Continue st (idx + 3)%nat []
  else if cmd =? SVC.TEMP_ENTITY then
    match Buf.get data idx with
    | None => Return st []
    | Some teType => Continue st (S idx + skipTempEntity teType)%nat []
    end
  else if cmd =? SVC.LAYOUT then
    Continue st (nextIndex (readCString data idx)) []
  else if cmd =? SVC.INVENTORY then Continue st (idx + 256 * 2)%nat []
  else if cmd =? SVC.SERVERDATA then parseServerData st data idx
  else if cmd =? SVC.CONFIGSTRING then parseConfigString st data idx
  else if cmd =? SVC.SPAWNBASELINE then parseSpawnBaseline st data idx
  else if cmd =? SVC.PRINT then
    match Buf.get data idx with
    | None => Return st []
    | Some level =>
        let r := readCString data (S idx) in
        let cleanText := cleanQuakeString (value r) in
        Continue st (nextIndex r)
          (if JS.truthy cleanText then [MPrint level cleanText] else [])
    end
  else if cmd =? SVC.CENTERPRINT then
    let r := readCString data idx in
    let cleanText := cleanQuakeString (value r) in
    Continue st (nextIndex r)
      (if JS.truthy cleanText then [MCenterPrint cleanText] else [])
  else if cmd =? SVC.STUFFTEXT then
    let r := readCString data idx in
    let stuffCmd := JS.trim (value r) in
    Continue st (nextIndex r)
      (if JS.truthy stuffCmd then [MStuffText stuffCmd] else [])
  else if cmd =? SVC.SOUND then parseSound st data idx
  else if cmd =? SVC.DISCONNECT then Return st [MServerDisconnect]
  else if cmd =? SVC.RECONNECT then Return st [MReconnect]
  else if cmd =? SVC.FRAME then parseFrame st data idx
  else if (cmd =? SVC.PLAYERINFO) || (cmd =? SVC.PACKETENTITIES)
          || (cmd =? SVC.DELTAPACKETENTITIES) then Return st []
  else if cmd =? SVC.DOWNLOAD then parseDownload st data idx
  else if cmd =? SVC.ZPACKET then parseZPacket st data idx
  else if cmd =? SVC.GAMESTATE then
    match gameStateLoop (length data) data idx [] with
    | Some msgs => Return st msgs
    | None => Throw st
    end
  else if cmd =? SVC.SETTING then
    if (length data <? idx + 8)%nat then Return st []
    else Continue st (idx + 8)%nat []
  else if (cmd =? SVC.CONFIGSTRINGSTREAM) || (cmd =? SVC.BASELINESTREAM) then
    Return st []
  else if isNested then Continue st idx []
  else Return st [].

(** One turn of the loop, entered with [idx < data.length]: the opcode
    byte, its low five bits, and the command byte that follows
    [SVC.EXTEND]. *)
Definition parseStep (st : Q2Client) (data : Buffer) (isNested : bool)
    (idx : nat) : Step :=
  let opcode := default 0 (Buf.get data idx) in
  let idx := S idx in
  if (length data <? idx)%nat then Return st []
  else
    let '(cmd, idx) := extendCommand data (Z.land opcode SVCMD_MASK) idx in
    dispatch st data isNested cmd idx.

(** The [while (idx < data.length)] loop. Every turn moves the cursor
    forward, so [data.length] turns are enough; [None] also stands for
    fuel running out. *)
Fixpoint parseLoop (fuel : nat) (st : Q2Client) (data : Buffer)
    (isNested : bool) (idx : nat) (messages : list Msg) : Decoded :=
  if (idx <? length data)%nat then
    match fuel with
    | O => (st, None)
    | S fuel' =>
        match parseStep st data isNested idx with
        | Continue st idx msgs =>
            parseLoop fuel' st data isNested idx (messages ++ msgs)
        | Return st msgs => (st, Some (messages ++ msgs))
        | Throw st => (st, None)
        end
    end
  else (st, Some messages).

End Step.

(** [parseGameMessage(data, isNested)]. [depth] bounds the nesting of
    compressed packets inside compressed packets, as the call stack
    does; running out of it is the exception of a stack overflow. *)
Fixpoint parseGameMessage (depth : nat) (st : Q2Client) (data : Buffer)
    (isNested : bool) : Decoded :=
  match depth with
  | O => (st, None)
  | S depth' =>
      parseLoop (fun st decompressed => parseGameMessage depth' st decompressed true)
                (length data) st data isNested 0 []
  end.

(** The compressed packets of [data] nest at most [n] deep. A compressed
    packet of a payload is a slice of it that inflates; none does when [n]
    is 0, and each inflates to a payload whose own compressed packets nest
    at most [n - 1] deep. *)
Fixpoint nestsWithin (n : nat) (data : Buffer) : Prop :=
  match n with
  | O =>
      forall i j decompressed,
        inflateRawSync (Buf.slice2 data i j) = Some decompressed -> False
  | S n' =>
      forall i j decompressed,
        inflateRawSync (Buf.slice2 data i j) = Some decompressed ->
        nestsWithin n' decompressed
  end.

End Decoder.

(** ** Sending *)

(** [None] below is an exception that nothing catches. *)
Definition Action : Type := option Q2Client.

(** [this.emit(type, event)], and once more as [raw_message] under
    [debug]. The time stamp that [emitEvent] adds is left out. *)
Definition emitEvent (type : string) (data : EventData) (st : Q2Client) : Q2Client :=
  let st := logEffect (Emit type data) st in
  if debug (options st) then logEffect (Emit "raw_message" data) st else st.

(** [this.socket.send(packet, ...)]: a [TypeError] when the socket is
    [null]. *)
Definition socketSend (packet : Buffer) (st : Q2Client) : Action :=
  if socket (conn st) then Some (logEffect (Send packet) st) else None.

Definition DQUOTE : ascii := "034"%char.
Definition DEL : ascii := "127"%char.
Definition BACKSLASH : ascii := "092"%char.

Definition str (c : ascii) : string := String c EmptyString.

Definition num (v : Z) : string := JS.numToString (Some v).

Fixpoint join (l : list string) : string :=
  match l with
  | [] => EmptyString
  | a :: l' => a +:+ join l'
  end.

Definition createOOBPacket (command : string) : Buffer :=
  [xff; xff; xff; xff] ++ Buf.fromString (command +:+ str LF).

Definition userinfo (st : Q2Client) : string :=
  join [ "\name\" +:+ playerName (options st);
         "\skin\male/grunt"; "\rate\25000"; "\msg\1"; "\hand\2"; "\fov\90";
         "\spectator\1" ].

(** [createConnectPacket(challenge, protocol)]; an absent or zero
    argument is falsy. *)
Definition createConnectPacket (challenge : Z) (protocol : option Z)
    (st : Q2Client) : Buffer :=
  let protocol :=
    if JS.truthyNum protocol then default 0 protocol
    else if negb (serverProtocol (conn st) =? 0) then serverProtocol (conn st)
    else PROTOCOL.VERSION_DEFAULT in
  let challengeId :=
    if negb (challenge =? 0) then challenge else clientChallengeId (conn st) in
  let head :=
    join [ "connect "; num protocol; " "; num (clientQport (conn st)); " ";
           num challengeId; " "; str DQUOTE; userinfo st; str DQUOTE ] in
  let connectCommand :=
    if protocol =? PROTOCOL.VERSION_Q2PRO then
      join [ head; " "; num 1390; " "; num (netchanType (conn st)); " "; num 1;
             " "; num PROTOCOL_MINOR.Q2PRO_CURRENT ]
    else if protocol =? PROTOCOL.VERSION_AQTION then
      join [ head; " "; num 1390; " "; num (netchanType (conn st)); " "; num 1;
             " "; num PROTOCOL_MINOR.AQTION_CURRENT ]
    else if protocol =? PROTOCOL.VERSION_R1Q2 then
      join [ head; " "; num 1390; " "; num PROTOCOL_MINOR.R1Q2_CURRENT ]
    else head in
  createOOBPacket connectCommand.

(** [w >>> 0] *)
Definition toUInt32 (w : Z) : Z := w mod 4294967296.

Definition createSequencedPacket (data : option Buffer) (reliable : bool)
    (st : Q2Client) : Buffer * Q2Client :=
  let w1 := outgoingSequence (netchan st) in
  let '(w1, st) :=
    if reliable then
      (Z.lor (toUInt32 w1) 0x80000000,
       withNetchan (fun n =>
         set_lastReliableSequence (outgoingSequence n)
           (set_reliableSequence (Z.lxor (reliableSequence n) 1) n)) st)
    else (toUInt32 w1, st) in
  let w2 := incomingSequence (netchan st) in
  let w2 :=
    if negb (incomingReliableSequence (netchan st) =? 0)
    then Z.lor (toUInt32 w2) 0x80000000 else toUInt32 w2 in
  let qportBuffer :=
    if PROTOCOL.VERSION_R1Q2 <=? serverProtocol (conn st)
    then [Buf.ofZ (Z.land (clientQport (conn st)) 0xff)]
    else Buf.writeUInt16LE (Z.land (clientQport (conn st)) 0xffff) in
  let payload :=
    match data with
    | Some d => if (0 <? length d)%nat then d else []
    | None => []
    end in
  (Buf.writeUInt32LE w1 ++ Buf.writeUInt32LE w2 ++ qportBuffer ++ payload,
   withNetchan (fun n => set_outgoingSequence (outgoingSequence n + 1) n) st).

Definition sendSequencedResponse (data : option Buffer) (reliable : bool)
    (st : Q2Client) : Action :=
  if negb (isConnected (conn st)) || negb (socket (conn st)) then Some st
  else
    let '(packet, st) := createSequencedPacket data reliable st in
    socketSend packet st.

Definition sendStringCmd (cmd : string) (st : Q2Client) : Action :=
  if negb (isConnected (conn st)) then Some st
  else
    let cleanCmd := JS.trim (JS.stripNewlines cmd) in
    let cmdBuffer := [Buf.ofZ CLC.STRINGCMD] ++ Buf.fromString cleanCmd ++ [x00] in
    let '(packet, st) := createSequencedPacket (Some cmdBuffer) true st in
    socketSend packet st.

(** ** Connection handling *)

Definition requestChallenge (st : Q2Client) : Action :=
  let st := withConn (set_connectionState Challenging) st in
  let st := emitEvent "connection" (EvConnection "connecting" None false None) st in
  socketSend (createOOBPacket "getchallenge") st.

Definition connectToServer (challengeId : option Z) (st : Q2Client) : Action :=
  let st :=
    if JS.truthyNum challengeId
    then withConn (set_clientChallengeId (default 0 challengeId)) st else st in
  let st := withConn (set_connectionState Connecting) st in
  socketSend (createConnectPacket (clientChallengeId (conn st)) None st) st.

Definition sendNewCommand (st : Q2Client) : Action :=
  if hasSentNew (handshake st) then Some st
  else sendStringCmd "new" (withHandshake (set_hasSentNew true) st).

Definition sendBeginCommand (st : Q2Client) : Action :=
  if hasSentBegin (handshake st) then Some st
  else
    let st := withHandshake (set_hasSentBegin true) st in
    let beginCount :=
      if negb (spawnCount (game st) =? 0) then spawnCount (game st)
      else serverCount (game st) in
    st ← sendStringCmd ("begin " +:+ num beginCount) st;
    let st := withConn (set_connectionState Spawned) st in
    Some (emitEvent "connection" (EvConnection "spawned" None false None) st).

(** What a timer does when it fires. *)
Definition runTimer (a : TimerAction) (st : Q2Client) : Action :=
  match a with
  | TConnectToServer challengeId => connectToServer challengeId st
  | TSendNewCommand => sendNewCommand st
  | TSendBeginCommand => sendBeginCommand st
  | TRequestChallenge => requestChallenge st
  end.

Definition setTimeout (a : TimerAction) (delay : Z) (st : Q2Client) : Q2Client :=
  logEffect (SetTimeout a delay) st.

Definition startHeartbeat (st : Q2Client) : Q2Client :=
  withConn (fun c =>
    set_keepAliveInterval (Some 10000)
      (set_heartbeatInterval
         (Some (match connectionState c with Spawned => 100 | _ => 300 end)) c)) st.

Definition resetConnectionState (st : Q2Client) : Q2Client :=
  let st := withHandshake (fun hs =>
    mkHandshake false false false false false false false false [] false) st in
  let st := withNetchan (fun n =>
    mkNetchan 0 0 0 0 1 0 0 (fragmentSequence n) (fragmentBuffer n)) st in
  let st := withGame (fun g => mkGame (serverCount g) (spawnCount g) (-1) "" ∅ ∅) st in
  let '(t, h) := resetTracker (entityTracker st) (heap st) in
  set_entityTracker t (set_heap h st).

Definition handleDisconnect (reason : string) (st : Q2Client) : Q2Client :=
  let st := withConn (fun c =>
    set_keepAliveInterval None
      (set_heartbeatInterval None
         (set_connectionState Disconnected (set_isConnected false c)))) st in
  if reconnectAttempts (conn st) <? maxReconnectAttempts (options st) then
    let st := withConn (fun c => set_reconnectAttempts (reconnectAttempts c + 1) c) st in
    let delay := Z.min (5000 * reconnectAttempts (conn st)) 30000 in
    let st :=
      emitEvent "connection"
        (EvConnection "reconnecting" (Some reason) false
           (Some (reconnectAttempts (conn st), maxReconnectAttempts (options st), delay)))
        st in
    let st := resetConnectionState st in
    setTimeout TRequestChallenge delay st
  else
    emitEvent "connection"
      (EvConnection "disconnected" (Some "max_reconnect_attempts") false None) st.

(** ** Stufftext *)

(** The longest prefix of decimal digits. *)
Fixpoint takeDigits (s : string) : string :=
  match s with
  | EmptyString => EmptyString
  | String c s' => if JS.isDigit c then String c (takeDigits s') else EmptyString
  end.

(** [cmd.match(re)] where [re] is a literal, any white space, then a
    group of any digits, on a [cmd] that starts with the literal, of length
    [n]: the match is at the start, and its group is the digits after the
    white space. The source takes ["0"] for an empty group. *)
Definition offsetAfter (n : nat) (cmd : string) : string :=
  let digits := takeDigits (JS.trimStart (JS.substring n cmd)) in
  if JS.truthy digits then digits else "0".

(** [cmd.match(/precache\s+(\d+)/)]: the group of the leftmost match. *)
Fixpoint precacheMatch (cmd : string) : option string :=
  let here :=
    if JS.startsWith cmd "precache" then
      match JS.substring 8 cmd with
      | String c rest =>
          if JS.isWhiteSpace c then
            let digits := takeDigits (JS.trimStart rest) in
            if JS.truthy digits then Some digits else None
          else None
      | EmptyString => None
      end
    else None in
  match here with
  | Some d => Some d
  | None =>
      match cmd with
      | EmptyString => None
      | String _ cmd' => precacheMatch cmd'
      end
  end.

Definition pushPending (cmd : string) (st : Q2Client) : Q2Client :=
  withHandshake (fun hs => set_pendingCommands (pendingCommands hs ++ [cmd]) hs) st.

(** What the precache and skins branches share. *)
Definition enterSpawn (st : Q2Client) : Q2Client :=
  if passiveMode (options st) then
    let st := withConn (set_connectionState Spawned) st in
    emitEvent "connection" (EvConnection "spawned" None true None) st
  else withHandshake (set_awaitingBegin true) st.

(** The [while] loop of [processPendingCommands]. *)
Fixpoint drainPending (cmds : list string) (st : Q2Client) : Action :=
  match cmds with
  | [] => Some st
  | cmd :: rest =>
      let st := withHandshake (set_pendingCommands rest) st in
      st ← sendStringCmd cmd st;
      drainPending rest st
  end.

Definition processPendingCommands (st : Q2Client) : Action :=
  if (length (pendingCommands (handshake st)) =? 0)%nat
     && negb (awaitingBegin (handshake st)) then Some st
  else
    st ← drainPending (pendingCommands (handshake st)) st;
    if awaitingBegin (handshake st) && negb (hasSentBegin (handshake st)) then
      Some (setTimeout TSendBeginCommand 500
              (withHandshake (set_awaitingBegin false) st))
    else Some st.

(** One line of a stufftext: the state, and whether the loop goes on
    ([true]) or the function returns at once ([false]). *)
Definition stufftextLine (line : string) (st : Q2Client) : Q2Client * bool :=
  let cmd := JS.trim line in
  if JS.isEmpty cmd then (st, true)
  else if JS.includes cmd (String DEL "c version") || JS.includes cmd "c version $version" then
    ((if respondedVersion (handshake st) then st
      else pushPending (join [String DEL "c version "; playerName (options st); " 1.0"])
             (withHandshake (set_respondedVersion true) st)), true)
  else if JS.includes cmd (String DEL "c actoken") || JS.includes cmd "c actoken $actoken" then
    ((if respondedAcToken (handshake st) then st
      else pushPending (String DEL "c actoken 0")
             (withHandshake (set_respondedAcToken true) st)), true)
  else if JS.includes cmd (String DEL "c check") || JS.includes cmd "c check" then
    (pushPending (String DEL "c check 0") st, true)
  else if JS.startsWith cmd "cmd configstrings" then
    ((if sentConfigstrings (handshake st) then st
      else pushPending ("configstrings " +:+ offsetAfter 17 cmd)
             (withHandshake (set_sentConfigstrings true) st)), true)
  else if JS.startsWith cmd "cmd baselines" then
    ((if sentBaselines (handshake st) then st
      else pushPending ("baselines " +:+ offsetAfter 13 cmd)
             (withHandshake (set_sentBaselines true) st)), true)
  else if JS.startsWith cmd "precache" && negb (precacheReceived (handshake st)) then
    let st := withHandshake (set_precacheReceived true) st in
    let st :=
      match precacheMatch cmd with
      | Some digits => withGame (set_spawnCount (default 0 (JS.parseInt digits))) st
      | None => withGame (fun g => set_spawnCount (serverCount g) g) st
      end in
    (enterSpawn st, true)
  else if String.eqb cmd "skins" && negb (precacheReceived (handshake st)) then
    let st := withHandshake (set_precacheReceived true) st in
    let st := withGame (fun g => set_spawnCount (serverCount g) g) st in
    (enterSpawn st, true)
  else if String.eqb cmd "reconnect" || JS.startsWith cmd "reconnect" then
    let st :=
      emitEvent "connection"
        (EvConnection "reconnecting" (Some "server_request") false None) st in
    let st := resetConnectionState st in
    (setTimeout TRequestChallenge 500 st, false)
  else if String.eqb cmd "disconnect" then
    (handleDisconnect "server_request" st, false)
  else (st, true).

Fixpoint stufftextLines (lines : list string) (st : Q2Client) : Q2Client * bool :=
  match lines with
  | [] => (st, true)
  | line :: rest =>
      match stufftextLine line st with
      | (st, true) => stufftextLines rest st
      | (st, false) => (st, false)
      end
  end.

Definition handleStufftext (text : string) (st : Q2Client) : Action :=
  match stufftextLines (JS.split LF text) st with
  | (st, true) => processPendingCommands st
  | (st, false) => Some st
  end.

(** ** Incoming packets *)

Section Client.

Variable inflateRawSync : Buffer -> option Buffer.

(** The depth of call stack that [parseGameMessage] may use. *)
Variable stackDepth : nat.

Definition decode (st : Q2Client) (data : Buffer) : Decoded :=
  parseGameMessage inflateRawSync stackDepth st data false.

(** A [try] block around inflation and decoding: [inl] is its [return],
    [inr] the state in which the code after the block runs. *)
Definition tryInflated (st : Q2Client) (compressed : Buffer)
  : (Q2Client * list Msg) + Q2Client :=
  match inflateRawSync compressed with
  | Some decompressed =>
      if (0 <? length decompressed)%nat then
        match decode st decompressed with
        | (st, Some msgs) => inl (st, msgs)
        | (st, None) => inr st
        end
      else inr st
  | None => inr st
  end.

Definition processServerData (st : Q2Client) (data : Buffer) : Decoded :=
  if (length data <? 5)%nat then decode st data
  else
    let firstByte := default 0 (Buf.get data 0) in
    if (SVC.NOP <=? firstByte) && (firstByte <=? SVC.CVARSYNC) then decode st data
    else if (firstByte =? 0) || flag firstByte 0x80 then
      match tryInflated st data with
      | inl (st, msgs) => (st, Some msgs)
      | inr st =>
          match Buf.readUInt16LE data 0, Buf.readUInt16LE data 2 with
          | Some inlen, Some outlen =>
              if (0 <? inlen) && (inlen <? Z.of_nat (length data) - 4)
                 && (0 <? outlen) && (outlen <? 65536) then
                match tryInflated st (Buf.slice2 data 4 (4 + Z.to_nat inlen)) with
                | inl (st, msgs) => (st, Some msgs)
                | inr st => decode st data
                end
              else decode st data
          | _, _ => (st, None)
          end
      end
    else decode st data.

Definition printLevel (level : Z) : string :=
  if level =? 0 then "LOW"
  else if level =? 1 then "MEDIUM"
  else if level =? 2 then "HIGH"
  else if level =? 3 then "CHAT"
  else "MSG".

(** One turn of the loop over the decoded messages: the state, and
    whether the loop goes on ([true]) or [handleServerPacket] returns
    ([false]). *)
Definition handleMessage (m : Msg) (st : Q2Client) : option (Q2Client * bool) :=
  match m with
  | MServerData protocol srvCount _ gameDir _ mapName =>
      if JS.truthy (currentMapName (game st))
         && negb (String.eqb (currentMapName (game st)) mapName) then
        let st :=
          emitEvent "server_info" (EvMapChange (currentMapName (game st)) mapName) st in
        let st := withGame (fun g =>
          mkGame srvCount 0 (-1) mapName ∅ (playerNames g)) st in
        let st := withConn (set_serverProtocol protocol) st in
        let st := withHandshake (fun hs =>
          mkHandshake false false (precacheReceived hs) false false false
                      (sentConfigstrings hs) (sentBaselines hs) [] false) st in
        let '(t, h) := resetTracker (entityTracker st) (heap st) in
        let st := set_entityTracker t (set_heap h st) in
        let st := setTimeout TSendNewCommand 500 st in
        st ← sendSequencedResponse None false st;
        Some (st, false)
      else
        let st :=
          emitEvent "server_info" (EvConnected mapName gameDir protocol) st in
        let st := withGame (fun g => set_serverCount srvCount (set_currentMapName mapName g)) st in
        let st := withHandshake (set_hasServerData true) st in
        let st := withConn (set_serverProtocol protocol) st in
        Some (st, true)
  | MConfigString index text =>
      let st := withGame (fun g => set_configStrings (<[index := text]> (configStrings g)) g) st in
      if (1408 <=? index) && (index <? 1664) && JS.truthy text then
        let playerNum := index - 1408 in
        let name := default EmptyString (JS.split BACKSLASH text !! 0%nat) in
        if JS.truthy name
           && negb (bool_decide (playerNames (game st) !! playerNum = Some name)) then
          let st := withGame (fun g => set_playerNames (<[playerNum := name]> (playerNames g)) g) st in
          Some (emitEvent "server_info" (EvPlayerInfo playerNum name) st, true)
        else Some (st, true)
      else if (index =? 0) && JS.truthy text then
        Some (emitEvent "server_info" (EvMapName text) st, true)
      else Some (st, true)
  | MPrint level text =>
      if JS.truthy text then
        Some (emitEvent "console_message" (EvConsoleMessage (printLevel level) text) st, true)
      else Some (st, true)
  | MCenterPrint text =>
      if JS.truthy text then
        Some (emitEvent "console_message" (EvConsoleMessage "CENTER" text) st, true)
      else Some (st, true)
  | MStuffText text =>
      st ← handleStufftext text st; Some (st, true)
  | MServerDisconnect =>
      Some (handleDisconnect "server_disconnect" st, false)
  | MReconnect =>
      let st := emitEvent "connection" (EvConnection "reconnecting" None false None) st in
      let st := resetConnectionState st in
      Some (setTimeout TRequestChallenge 1000 st, false)
  | MPlayerState _ _ _ _ _ => Some (st, true)
  | MEntityState _ => Some (st, true)
  end.

Fixpoint handleMessages (msgs : list Msg) (st : Q2Client) : option (Q2Client * bool) :=
  match msgs with
  | [] => Some (st, true)
  | m :: rest =>
      r ← handleMessage m st;
      match r with
      | (st, true) => handleMessages rest st
      | (st, false) => Some (st, false)
      end
  end.

(** What the netchan part of the [sequenced] case decides. *)
Inductive Netchan_result :=
| Dropped (st : Q2Client)                    (* [return] before the commit *)
| Accepted (st : Q2Client) (hasData : bool) (data : option Buffer).

(** [this.incomingAcknowledged = parsed.ack] and the reliable bit the
    server reports. *)
Definition recordAck (parsed : SeqPacket) (st : Q2Client) : Q2Client :=
  let st := withNetchan (set_incomingAcknowledged (ack parsed)) st in
  if negb (Bool.eqb (reliableAck parsed)
                    (incomingReliableAcknowledged (netchan st) =? 1))
  then withNetchan (set_incomingReliableAcknowledged
                      (if reliableAck parsed then 1 else 0)) st
  else st.

(** A fragment of another message starts a new buffer. *)
Definition startFragments (parsed : SeqPacket) (st : Q2Client) : Q2Client :=
  if negb (fragmentSequence (netchan st) =? sequence parsed)
  then withNetchan (fun n =>
         set_fragmentBuffer [] (set_fragmentSequence (sequence parsed) n)) st
  else st.

(** [if (parsed.data && parsed.data.length > 0) this.fragmentBuffer =
    Buffer.concat([this.fragmentBuffer, parsed.data])] *)
Definition appendFragment (parsed : SeqPacket) (st : Q2Client) : Q2Client :=
  match data parsed with
  | Some d =>
      if (0 <? length d)%nat
      then withNetchan (fun n => set_fragmentBuffer (fragmentBuffer n ++ d) n) st
      else st
  | None => st
  end.

(** [this.incomingSequence = parsed.sequence] and the flip of the
    reliable bit. *)
Definition commit (parsed : SeqPacket) (st : Q2Client) : Q2Client :=
  let st := withNetchan (set_incomingSequence (sequence parsed)) st in
  if reliable parsed
  then withNetchan (fun n =>
         set_incomingReliableSequence (Z.lxor (incomingReliableSequence n) 1) n) st
  else st.

(** The [sequenced] case up to and including the commit of
    [incomingSequence] and of the reliable bit. *)
Definition netchanProcess (parsed : SeqPacket) (st : Q2Client) : Netchan_result :=
  if (sequence parsed <=? incomingSequence (netchan st))
     && (0 <? incomingSequence (netchan st))
     && negb (fragmented parsed) then Dropped st
  else
    let st := recordAck parsed st in
    if fragmented parsed then
      let st := startFragments parsed st in
      if negb (fragmentOffset parsed =? length (fragmentBuffer (netchan st)))%nat
      then Dropped st
      else
        let st := appendFragment parsed st in
        if moreFragments parsed then Dropped st
        else
          let buffer := fragmentBuffer (netchan st) in
          Accepted (commit parsed (withNetchan (set_fragmentBuffer []) st))
                   (0 <? length buffer)%nat (Some buffer)
    else Accepted (commit parsed st) (hasData parsed) (data parsed).

(** The [sequenced] case. *)
Definition handleSequenced (parsed : SeqPacket) (st : Q2Client) : Action :=
  match netchanProcess parsed st with
  | Dropped st => Some st
  | Accepted st hasData data =>
      match (if hasData then data else None) with
      | Some payload =>
          match processServerData st payload with
          | (st, Some msgs) =>
              r ← handleMessages msgs st;
              match r with
              | (st, true) => sendSequencedResponse None false st
              | (st, false) => Some st
              end
          | (_, None) => None
          end
      | None => sendSequencedResponse None false st
      end
  end.

(** The [challenge] case: the protocol picked from the list. *)
Definition selectProtocol (supportedProtocols : list (option Z)) (st : Q2Client)
  : Q2Client :=
  let has (v : Z) := bool_decide (Some v ∈ supportedProtocols) in
  if (0 <? length supportedProtocols)%nat then
    if has PROTOCOL.VERSION_AQTION then
      withConn (set_serverProtocol PROTOCOL.VERSION_AQTION) st
    else if has PROTOCOL.VERSION_Q2PRO then
      withConn (set_serverProtocol PROTOCOL.VERSION_Q2PRO) st
    else if has PROTOCOL.VERSION_R1Q2 then
      withConn (set_serverProtocol PROTOCOL.VERSION_R1Q2) st
    else if has PROTOCOL.VERSION_DEFAULT then
      withConn (set_serverProtocol PROTOCOL.VERSION_DEFAULT) st
    else st
  else st.

(** [handleServerPacket(buffer)]; [now] is what [Date.now()] returns. *)
Definition handleServerPacket (now : Z) (buffer : Buffer) (st : Q2Client) : Action :=
  let st := withConn (set_lastPacketTime now) st in
  match parseOOBPacket buffer with
  | None => Some st
  | Some parsed =>
      match parsed with
      | PChallenge challengeId supportedProtocols =>
          let st := selectProtocol supportedProtocols st in
          Some (setTimeout (TConnectToServer challengeId) 100 st)
      | PClientConnect params _ =>
          let st :=
            match params !! "nc" with
            | Some nc =>
                if JS.truthy nc then
                  withConn (set_netchanType
                              (if JS.truthyNum (JS.parseInt nc)
                               then default 1 (JS.parseInt nc) else 1)) st
                else st
            | None => st
            end in
          let st := withConn (fun c =>
            set_reconnectAttempts 0
              (set_connectionState Connected (set_isConnected true c))) st in
          let st := emitEvent "connection" (EvConnection "connected" None false None) st in
          let st := startHeartbeat st in
          Some (setTimeout TSendNewCommand 200 st)
      | PPrint message =>
          if JS.truthy (JS.trim message) then
            Some (emitEvent "console_message" (EvConsoleMessage "SERVER" message) st)
          else Some st
      | PDisconnect reason => Some (handleDisconnect reason st)
      | PStatusResponse content => Some (logEffect (StatusResponse content) st)
      | PSequencedError _ => Some st
      | PSequenced p => handleSequenced p st
      | PAck | PInfo _ | PUnknownOob _ => Some st
      end
  end.

End Client.

(** The constructor: [challenge] and [qport] are the two random draws,
    [now] the clock. *)
Definition newQ2Client (opts : Options) (challenge qport now : Z) : Q2Client :=
  let '(t, h) := newEntityTracker emptyHeap in
  mkQ2Client opts
    (mkConn false false Disconnected 0 challenge qport PROTOCOL.VERSION_DEFAULT 0 1
            None None None now)
    (mkNetchan 0 0 0 0 1 0 0 0 [])
    (mkGame 0 0 (-1) "" ∅ ∅)
    (mkHandshake false false false false false false false false [] false)
    t h [].

(** [Q2Client.getEntity(entityNum)] *)
Definition Q2Client_getEntity (st : Q2Client) (entityNum : Z) : Nullable Entity :=
  getEntity (entityTracker st) entityNum.

(** Both tables of a tracker hold [MAX_EDICTS] objects: the constructor
    and [reset] build them so, and nothing changes their length. *)
Definition tablesFull (t : EntityTracker) : Prop :=
  length (baselines t) = Z.to_nat MAX_EDICTS /\
  length (entities t) = Z.to_nat MAX_EDICTS.

(** ** Runs of fragments *)

Definition resultState (r : Netchan_result) : Q2Client :=
  match r with
  | Dropped st => st
  | Accepted st _ _ => st
  end.

(** The netchan part of the [sequenced] case over consecutive packets. *)
Fixpoint netchanFeed (ps : list SeqPacket) (st : Q2Client) : Q2Client :=
  match ps with
  | [] => st
  | p :: rest => netchanFeed rest (resultState (netchanProcess p st))
  end.

Definition payloadOf (p : SeqPacket) : Buffer := default [] (data p).

(** In the words of the specification: the payloads of the fragments that
    are accepted, in offset order. A fragment is accepted when its offset
    is the number of bytes accepted before it ([have]). *)
Fixpoint acceptedPayloads (have : nat) (frags : list SeqPacket) : list Buffer :=
  match frags with
  | [] => []
  | p :: rest =>
      if (fragmentOffset p =? have)%nat
      then payloadOf p :: acceptedPayloads (have + length (payloadOf p)) rest
      else acceptedPayloads have rest
  end.

(** The bytes of message [s] that the client holds: the reassembly buffer
    when it belongs to [s], nothing otherwise (the buffer is emptied when a
    fragment of another message arrives). *)
Definition held (s : Z) (st : Q2Client) : Buffer :=
  if fragmentSequence (netchan st) =? s then fragmentBuffer (netchan st) else [].

(** A fragment of the message numbered [s]. *)
Definition fragmentOf (s : Z) (p : SeqPacket) : Prop :=
  fragmented p = true /\ sequence p = s.

(** ** The wire form of a CONFIGSTRING record

    The client only decodes. This is the record as the specification lays
    it out: opcode 13, the index as a little-endian u16, the string, a
    NUL. *)
Definition encodeConfigString (index : Z) (s : string) : Buffer :=
  [Buf.ofZ SVC.CONFIGSTRING] ++ Buf.writeUInt16LE index ++ Buf.fromString s ++ [x00].

Fixpoint nulFree (s : string) : bool :=
  match s with
  | EmptyString => true
  | String c s' => negb (JS.charCode c =? 0) && nulFree s'
  end.

(** Printable ASCII, 0x20 to 0x7E. *)
Fixpoint allPrintable (s : string) : bool :=
  match s with
  | EmptyString => true
  | String c s' => (32 <=? JS.charCode c) && (JS.charCode c <? 127) && allPrintable s'
  end.

Definition startsWithSpace (s : string) : bool :=
  match s with
  | String c _ => JS.charCode c =? 32
  | EmptyString => false
  end.

Fixpoint endsWithSpace (s : string) : bool :=
  match s with
  | EmptyString => false
  | String c EmptyString => JS.charCode c =? 32
  | String _ s' => endsWithSpace s'
  end.

(** ** The wire form of a SERVERDATA record

    As the specification lays it out: opcode 12, i32 protocol, i32
    server_count, u8 attract_loop, the game directory and a NUL, i16
    client_num, the map name and a NUL, then the tail of the protocol.
    The two numbers that play no part below are given by their bytes. *)
Definition serverDataRecord (protocol : Z) (serverCount : Buffer) (attractLoop : byte)
    (gameDir : string) (clientNum : Buffer) (mapName : string) (tail : Buffer)
  : Buffer :=
  [Buf.ofZ SVC.SERVERDATA] ++ Buf.writeUInt32LE protocol ++ serverCount
  ++ [attractLoop] ++ Buf.fromString gameDir ++ [x00] ++ clientNum
  ++ Buf.fromString mapName ++ [x00] ++ tail.

(** The minor version that opens the tail of protocols 36 and 38, and
    follows the first byte of the tail of protocol 35. *)
Definition tailMinor (protocol : Z) (tail : Buffer) : Z :=
  default 0 (Buf.readUInt16LE tail (if protocol =? PROTOCOL.VERSION_R1Q2 then 1 else 0)).

(** The length of the tail, by protocol: none for 34; five bytes for 35;
    for 36 the minor version, the server state and then two bytes of flags
    from minor version 1024 on, three bytes before; six bytes for 38. *)
Definition tailLength (protocol : Z) (tail : Buffer) : nat :=
  if protocol =? PROTOCOL.VERSION_R1Q2 then 5
  else if protocol =? PROTOCOL.VERSION_Q2PRO then
    if 1024 <=? tailMinor protocol tail then 5 else 6
  else if protocol =? PROTOCOL.VERSION_AQTION then 6
  else 0.

(** The payload of the vanilla scenario of the specification. *)
Definition vanillaServerData : Buffer :=
  serverDataRecord 34 (bytes [1; 0; 0; 0]) x00 "baseq2" (bytes [5; 0]) "q2dm1" [].

(** ** Truncated opcodes

    The command that a turn of the loop finds at [idx], and the cursor
    past it. *)
Definition commandAt (data : Buffer) (idx : nat) : Z * nat :=
  extendCommand data (Z.land (default 0 (Buf.get data idx)) SVCMD_MASK) (S idx).

(** The leading fields of the command do not fit in what is left of the
    payload, in the cases that the decoder tests for: the first byte of
    TEMP_ENTITY, PRINT and SOUND; the two bytes that open CONFIGSTRING and
    DOWNLOAD; the four that open FRAME and ZPACKET, and the compressed
    bytes that ZPACKET announces; the eight of SETTING; the nine of
    SERVERDATA. *)
Definition cutShort (data : Buffer) (cmd : Z) (idx : nat) : bool :=
  let need (n : nat) := (length data <? idx + n)%nat in
  ((cmd =? SVC.TEMP_ENTITY) || (cmd =? SVC.PRINT) || (cmd =? SVC.SOUND)) && need 1%nat
  || ((cmd =? SVC.CONFIGSTRING) || (cmd =? SVC.DOWNLOAD)) && need 2%nat
  || ((cmd =? SVC.FRAME) || (cmd =? SVC.ZPACKET)) && need 4%nat
  || (cmd =? SVC.ZPACKET)
     && need (4 + Z.to_nat (default 0%Z (Buf.readUInt16LE data idx)))%nat
  || (cmd =? SVC.SETTING) && need 8%nat
  || (cmd =? SVC.SERVERDATA) && need 9%nat.

(** The tables are full and the [pmove] block of the player state is an
    object of the heap. Objects are only ever allocated, so this holds of
    every client that the constructor built. *)
Definition wellFormed (st : Q2Client) : Prop :=
  tablesFull (entityTracker st) /\
  (pmove (playerState (entityTracker st)) < length (pmoves (heap st)))%nat.

(** ** Concrete packets and clients, for the examples *)

(** An out-of-band datagram carrying [s]. *)
Definition oob (s : string) : Buffer := [xff; xff; xff; xff] ++ Buf.fromString s.

(** A server-to-client sequenced datagram: the two header words, then the
    payload. *)
Definition sequenced (w1 w2 : Z) (payload : Buffer) : Buffer :=
  Buf.writeUInt32LE w1 ++ Buf.writeUInt32LE w2 ++ payload.

Definition defaultOptions : Options :=
  mkOptions "127.0.0.1" 27910 false false 5000 false "Q2Client" 5.

(** No input is a deflate stream. *)
Definition noInflate : Buffer -> option Buffer := fun _ => None.

(** A SERVERDATA record that ends after its attract-loop byte; an inflater
    that takes the one byte 200 for that record, compressed; and a payload
    that is a compressed packet holding that byte. *)
Definition cutServerData : Buffer := bytes [12; 36; 0; 0; 0; 1; 0; 0; 0; 0].

Definition inflateOne : Buffer -> option Buffer :=
  fun compressed =>
    if bool_decide (Buf.u8 <$> compressed = [200]) then Some cutServerData else None.

Definition packedServerData : Buffer := bytes [SVC.ZPACKET; 1; 0; 10; 0; 200].

(** A client just built, after [connect()] has opened its socket. *)
Definition freshClient : Q2Client :=
  withConn (set_socket true) (newQ2Client defaultOptions 777 42 0).

(** Consecutive calls of [handleServerPacket], all at time [now = 1]. *)
Fixpoint receive (packets : list Buffer) (st : Q2Client) : Action :=
  match packets with
  | [] => Some st
  | b :: rest => st ← handleServerPacket noInflate 8 1 b st; receive rest st
  end.

(** The client once the server has accepted the connection. *)
Definition connectedClient : Q2Client :=
  default freshClient (receive [oob ("client_connect" +:+ str LF)] freshClient).

(** What a trace holds of each kind. *)
Definition sentOf (st : Q2Client) : list Buffer :=
  omap (fun e => match e with Send b => Some b | _ => None end) (log st).
Definition emitted (st : Q2Client) : list (string * EventData) :=
  omap (fun e => match e with Emit t d => Some (t, d) | _ => None end) (log st).
Definition timersOf (st : Q2Client) : list (TimerAction * Z) :=
  omap (fun e => match e with SetTimeout a d => Some (a, d) | _ => None end) (log st).

(** ** Inputs of the examples, witnesses and counterexamples *)

(** The client after a first sequenced packet, numbered 1. *)
Definition afterFirstPacket : Q2Client :=
  default connectedClient (receive [sequenced 1 0 []] connectedClient).

(** Three fragments of message 5: the first two bytes of a print record,
    a stray fragment at offset 7, and the rest of the record. *)
Definition frag1 : SeqPacket :=
  mkSeqPacket 5 false true 0 true 0 false true (Some (bytes [10; 2; 104])).

Definition frag2 : SeqPacket :=
  mkSeqPacket 5 false true 7 true 0 false true (Some (bytes [88])).

Definition frag3 : SeqPacket :=
  mkSeqPacket 5 false true 3 false 0 false true (Some (bytes [105; 0])).

(** The types that an out-of-band datagram can be given. *)
Definition oobTypes : list string :=
  ["challenge"; "print"; "client_connect"; "disconnect"; "ack";
   "statusResponse"; "info"; "unknown_oob"].

(** The datagram of the challenge scenario of the specification. *)
Definition challengePacket : Buffer :=
  oob ("challenge 12345 p=34,35,36,38" +:+ str LF).

(** A baseline for entity 5 with model 3; a frame whose delta for entity 5
    selects the model alone and sets it to 7; a frame whose delta for
    entity 5 selects the animation frame alone and sets it to 9. *)
Definition baseline5 : Buffer :=
  sequenced 1 0 (bytes [14; 128; 8; 5; 3]).

Definition frameModel7 : Buffer :=
  sequenced 2 0 (bytes [20; 1; 0; 0; 0; 255; 255; 255; 255; 0; 0; 0; 0;
                        128; 8; 5; 7; 0]).

Definition frameFrame9 : Buffer :=
  sequenced 3 0 (bytes [20; 2; 0; 0; 0; 1; 0; 0; 0; 0; 0; 0; 0;
                        16; 5; 9; 0]).

(** The model and the animation frame of the entity in slot [n], and the
    model of its baseline. *)
Definition modelAndFrame (n : nat) (st : Q2Client) : option (Z * Z) * option Z :=
  ((fun e => (modelindex e, frame e)) <$> entities (entityTracker st) !! n,
   modelindex <$> baselines (entityTracker st) !! n).

(** The client after a SERVERDATA record has been decoded. *)
Definition afterServerData (proto : Z) (tail : Buffer) (st : Q2Client) : Q2Client :=
  let st := withConn (set_serverProtocol proto) st in
  if proto =? 34 then st
  else withConn (set_serverProtocolMinor (tailMinor proto tail)) st.


(** * Further parts of the client *)

(** ** What the readers and the cleaner guarantee *)

(** A reader of [w] bytes that never fails: inside the buffer it moves the
    cursor by [w] and returns a value from [lo] up to, not including,
    [hi]; with fewer than [w] bytes left it returns 0 and parks the cursor
    on [buffer.length]. *)
Definition lenientRead (w : nat) (lo hi : Z) (rd : Buffer -> nat -> Read Z) : Prop :=
  forall (buffer : Buffer) (idx : nat),
    (nextIndex (rd buffer idx) <= length buffer)%nat /\
    ((idx + w <= length buffer)%nat ->
       nextIndex (rd buffer idx) = (idx + w)%nat /\
       lo <= value (rd buffer idx) < hi) /\
    ((length buffer < idx + w)%nat ->
       rd buffer idx = mkRead 0 (length buffer)).

(** Printable ASCII or a line feed. *)
Definition isCleanChar (c : ascii) : bool :=
  (32 <=? JS.charCode c) && (JS.charCode c <? 127) || (JS.charCode c =? 10).

Fixpoint allClean (s : string) : bool :=
  match s with
  | EmptyString => true
  | String c s' => isCleanChar c && allClean s'
  end.

Definition startsWithWhiteSpace (s : string) : bool :=
  match s with
  | String c _ => JS.isWhiteSpace c
  | EmptyString => false
  end.

Fixpoint endsWithWhiteSpace (s : string) : bool :=
  match s with
  | EmptyString => false
  | String c EmptyString => JS.isWhiteSpace c
  | String _ s' => endsWithWhiteSpace s'
  end.

(** The string with the high bit of every code unit cleared: Quake's
    coloured text, uncoloured. *)
Fixpoint clearHighBit (s : string) : string :=
  match s with
  | EmptyString => EmptyString
  | String c s' => String (JS.fromCharCode (JS.charCode c mod 128)) (clearHighBit s')
  end.

(** ** What an update leaves of an entity *)

(** The fields of an entity that a delta carries as they are: all but
    [number], [active] and [removed]. *)
Definition sameFields (a b : Entity) : Prop :=
  modelindex a = modelindex b /\ modelindex2 a = modelindex2 b /\
  modelindex3 a = modelindex3 b /\ modelindex4 a = modelindex4 b /\
  frame a = frame b /\ skinnum a = skinnum b /\ effects a = effects b /\
  renderfx a = renderfx b /\ origin a = origin b /\ angles a = angles b /\
  old_origin a = old_origin b /\ sound a = sound b /\ event a = event b /\
  solid a = solid b.

(** A tracker as the constructor builds it, and an entity state, for the
    examples. *)
(** The cursor of [parseEntityStateFromBits] when it comes to the origin:
    behind the model indices, the frame, the skin, the effects and the
    renderfx that [bits] select. *)
Definition originCursor (data : Buffer) (idx : nat) (bits : Z) : nat :=
  let byte (mask : Z) (idx : nat) := if flag bits mask then S idx else idx in
  let wide (m8 m16 : Z) (idx : nat) :=
    if flag bits m8 && flag bits m16 then nextIndex (readInt32 data idx)
    else if flag bits m8 then S idx
    else if flag bits m16 then nextIndex (readUInt16 data idx)
    else idx in
  let idx := byte U_MODEL idx in
  let idx := byte U_MODEL2 idx in
  let idx := byte U_MODEL3 idx in
  let idx := byte U_MODEL4 idx in
  let idx := byte U_FRAME8 idx in
  let idx := if flag bits U_FRAME16 then nextIndex (readUInt16 data idx) else idx in
  let idx := wide U_SKIN8 U_SKIN16 idx in
  let idx := wide U_EFFECTS8 U_EFFECTS16 idx in
  wide U_RENDERFX8 U_RENDERFX16 idx.

Definition newTracker : EntityTracker := (newEntityTracker emptyHeap).1.
Definition newHeap : Heap := (newEntityTracker emptyHeap).2.
Definition someEntity : Entity :=
  mkEntity 0 3 0 0 0 7 0 0 0 0 0 1 0 0 0 false false.

(** The empty entity that the constructor puts in slot 5 of both tables. *)
Definition emptyBaseline5 : Entity :=
  mkEntity 0 0 0 0 0 0 0 0 0 10 5 11 0 0 0 false false.

(** ** Packets that the client sends *)

(** The bytes that carry the qport after the two header words: one byte
    from protocol 35 on, two before. *)
Definition qportBytes (st : Q2Client) : Buffer :=
  if PROTOCOL.VERSION_R1Q2 <=? serverProtocol (conn st)
  then [Buf.ofZ (Z.land (clientQport (conn st)) 0xff)]
  else Buf.writeUInt16LE (Z.land (clientQport (conn st)) 0xffff).

(** [data && data.length > 0 ? data : nothing] *)
Definition payloadBytes (data : option Buffer) : Buffer :=
  match data with
  | Some d => if (0 <? length d)%nat then d else []
  | None => []
  end.

(** No carriage return and no line feed. *)
Fixpoint noNewline (s : string) : bool :=
  match s with
  | EmptyString => true
  | String c s' =>
      negb ((JS.charCode c =? 10) || (JS.charCode c =? 13)) && noNewline s'
  end.

(** ** Opening and closing the connection *)

(** [cleanup()]: the three intervals are cleared, a connected client
    tells the server, the socket is closed. *)
Definition cleanup (st : Q2Client) : Q2Client :=
  let st := withConn (fun c =>
    set_monitorPollInterval None
      (set_keepAliveInterval None (set_heartbeatInterval None c))) st in
  let st :=
    if isConnected (conn st) && socket (conn st)
    then logEffect (Send (createOOBPacket "disconnect")) st else st in
  let st := withConn (set_socket false) st in
  withConn (fun c => set_connectionState Disconnected (set_isConnected false c)) st.

(** [disconnect()] *)
Definition disconnect (st : Q2Client) : Q2Client :=
  emitEvent "connection" (EvConnection "disconnected" (Some "user") false None)
            (cleanup st).

(** [connect()] up to the call of [bind]: an open client is disconnected
    first, then a socket is created. *)
Definition connect (st : Q2Client) : Q2Client :=
  let st := if socket (conn st) then disconnect st else st in
  withConn (set_socket true) st.

(** The handler of the socket's [error] event. *)
Definition socketError (message : string) (st : Q2Client) : Q2Client :=
  cleanup (emitEvent "connection" (EvConnection "error" (Some message) false None) st).

(** The callback of the heartbeat interval, and the one of the keep-alive
    interval. *)
Definition heartbeatTick (st : Q2Client) : Action :=
  if negb (isConnected (conn st)) then Some st
  else
    match connectionState (conn st) with
    | Spawned => sendSequencedResponse (Some [Buf.ofZ CLC.NOP]) false st
    | _ => sendSequencedResponse None false st
    end.

Definition keepAliveTick (st : Q2Client) : Action :=
  if isConnected (conn st)
  then sendSequencedResponse (Some [Buf.ofZ CLC.NOP]) false st
  else Some st.

(** ** What happens to a client that is not in monitor mode

    The calls that the application and the event loop make on a client
    whose [monitorMode] is off: [connect()], the callback of [bind], a
    datagram with the time at which it arrives, a timer or an interval
    that fires, an error of the socket, [disconnect()]. With [monitorMode]
    off the callback of [bind] installs [handleServerPacket] as the
    handler of datagrams and calls [requestChallenge]. (With [monitorMode]
    on it installs [handleMonitorPacket] and calls [startMonitorMode]
    instead; that is the matter of the module [Monitor] below, and the
    properties of runs are stated for clients with [monitorMode] off.) *)
Inductive Input :=
| Connect
| Bound
| Datagram (now : Z) (buffer : Buffer)
| Fire (action : TimerAction)
| Heartbeat
| KeepAlive
| SocketError (message : string)
| Disconnect.

#[global] Instance TimerAction_eq_dec : EqDecision TimerAction.
Proof. solve_decision. Defined.

Section Runs.

Variable inflateRawSync : Buffer -> option Buffer.
Variable stackDepth : nat.

Definition input (i : Input) (st : Q2Client) : Action :=
  match i with
  | Connect => Some (connect st)
  | Bound => requestChallenge st
  | Datagram now buffer => handleServerPacket inflateRawSync stackDepth now buffer st
  | Fire action => runTimer action st
  | Heartbeat => heartbeatTick st
  | KeepAlive => keepAliveTick st
  | SocketError message => Some (socketError message st)
  | Disconnect => Some (disconnect st)
  end.

(** One call after the other; [None] as soon as an exception escapes. *)
Fixpoint inputs (l : list Input) (st : Q2Client) : Action :=
  match l with
  | [] => Some st
  | i :: rest => st ← input i st; inputs rest st
  end.

(** Whether a [setTimeout] with callback [a] has been called. *)
Definition scheduled (a : TimerAction) (st : Q2Client) : bool :=
  bool_decide (a ∈ (timersOf st).*1).

(** Whether, along [l], a timeout fires only after it was set. *)
Fixpoint firesScheduled (l : list Input) (st : Q2Client) : bool :=
  match l with
  | [] => true
  | i :: rest =>
      match i with Fire a => scheduled a st | _ => true end
      && match input i st with
         | Some st => firesScheduled rest st
         | None => true
         end
  end.

End Runs.

(** [getPlayerState()]: a shallow copy, which shares the [pmove] block. *)
Definition getPlayerState (st : Q2Client) : PlayerState :=
  playerState (entityTracker st).

(** [getActiveEntities()] *)
Definition getActiveEntities (st : Q2Client) : list Entity :=
  List.filter active (entities (entityTracker st)).

(** A short life of a client. *)
Definition shortLife : list Input :=
  [Connect; Bound; Datagram 1 (oob ("client_connect" +:+ str LF));
   Fire TSendNewCommand; Datagram 2 baseline5; Datagram 3 frameModel7;
   Heartbeat; Disconnect].

(** The default options with [passiveMode] set. *)
Definition passiveOptions : Options :=
  mkOptions "127.0.0.1" 27910 true false 5000 false "Q2Client" 5.

(** A life in which player 0 is announced as [hi] and the server then
    sends [precache]. *)
Definition playerJoins : list Input :=
  [Connect; Bound; Datagram 1 (oob ("client_connect" +:+ str LF));
   Fire TSendNewCommand;
   Datagram 2 (sequenced 1 0 (bytes [13; 128; 5; 104; 105; 0]));
   Datagram 3 (sequenced 2 0 (bytes [11; 112; 114; 101; 99; 97; 99; 104; 101; 10; 0]));
   Heartbeat].

(** Whether an action returned. *)
Definition returned (a : Action) : bool :=
  match a with Some _ => true | None => false end.

(** ** What decoding may change

    [st] differs from [st0] at most in the protocol and its minor
    version, in [lastFrameNum], and in the entity tracker and its
    objects. *)
Definition decoderFrame (st0 st : Q2Client) : Prop :=
  options st = options st0 /\ netchan st = netchan st0 /\
  handshake st = handshake st0 /\ log st = log st0 /\
  (exists p m, conn st = set_serverProtocolMinor m (set_serverProtocol p (conn st0))) /\
  (exists f, game st = set_lastFrameNum f (game st0)).

(** ** Players *)

(** An element of the list that [getPlayers] returns. *)
Record PlayerInfo := mkPlayerInfo {
  player_id : Z;
  player_name : string;
  player_entity : Nullable Entity
}.

(** [Object.entries(this.playerNames)]: the keys of [playerNames] are
    array indices (player numbers), which JavaScript lists in ascending
    order. *)
Definition keyLe (a b : Z * string) : Prop := a.1 <= b.1.

#[global] Instance keyLe_dec (a b : Z * string) : Decision (keyLe a b) :=
  decide (a.1 <= b.1).

Definition playerEntries (names : gmap Z string) : list (Z * string) :=
  merge_sort keyLe (map_to_list names).

(** [getPlayers()]: the entity of player [num] is entity [num + 1]. *)
Definition getPlayers (st : Q2Client) : list PlayerInfo :=
  (fun '(num, name) =>
     mkPlayerInfo num name (getEntity (entityTracker st) (num + 1)))
  <$> playerEntries (playerNames (game st)).

(** ** Invariants of the handshake

    Every known player has a number from 0 to 255 and a name that is not
    empty. *)
Definition playersKnown (st : Q2Client) : Prop :=
  forall k name, playerNames (game st) !! k = Some name ->
                 0 <= k < MAX_CLIENTS /\ name <> EmptyString.

(** In passive mode the client does not wait to send [begin], and has
    scheduled no timer that sends it. *)
Definition staysPassive (st : Q2Client) : Prop :=
  passiveMode (options st) = true ->
  awaitingBegin (handshake st) = false /\
  Forall (fun t => t.1 <> TSendBeginCommand) (timersOf st).

(** ** Monitor mode

    In monitor mode the client polls the server with [status] queries and
    turns the answers into events. *)

Module Monitor.

(** An element of [players] of a parsed status. *)
Record Player := mkPlayer {
  score : option Z;
  ping : option Z;
  name : string
}.

(** What [parseStatusResponse] returns. *)
Record Status := mkStatus {
  info : gmap string string;
  players : list Player
}.

(** [result.info[parts[i]] = parts[i + 1]] for [i = 0, 2, ...] while
    [i < parts.length - 1]. An assignment of a string to the key
    [__proto__] of a plain object gives it no property. *)
Fixpoint infoPairs (parts : list string) (info : gmap string string)
  : gmap string string :=
  match parts with
  | key :: value :: rest =>
      infoPairs rest
        (if String.eqb key "__proto__" then info else <[key := value]> info)
  | _ => info
  end.

(** The longest prefix of [s] whose characters satisfy [p], and the
    rest. *)
Fixpoint span (p : ascii -> bool) (s : string) : string * string :=
  match s with
  | String c s' =>
      if p c then let '(a, b) := span p s' in (String c a, b)
      else (EmptyString, s)
  | EmptyString => (EmptyString, EmptyString)
  end.

(** What [.] does not match in a regular expression, below 256. *)
Definition isLineTerminator (c : ascii) : bool :=
  (JS.charCode c =? 10) || (JS.charCode c =? 13).

(** [s] without its last character, and that character. *)
Fixpoint unsnoc (s : string) : option (string * ascii) :=
  match s with
  | EmptyString => None
  | String c s' =>
      match unsnoc s' with
      | Some (body, last) => Some (String c body, last)
      | None => Some (EmptyString, c)
      end
  end.

Fixpoint noLineTerminator (s : string) : bool :=
  match s with
  | EmptyString => true
  | String c s' => negb (isLineTerminator c) && noLineTerminator s'
  end.

(** [s.match(/^(-?\d+)\s+(\d+)\s+"(.+)"$/)]: the three groups of the
    match, if there is one. The classes of digits, of white space and the
    quote are disjoint, so each [+] takes a whole run; the greedy [.+]
    has to stop before a quote that ends the string. *)
Definition matchPlayerLine (s : string) : option (string * string * string) :=
  let '(sign, s1) :=
    match s with
    | String "-" r => ("-", r)
    | _ => (EmptyString, s)
    end in
  let '(digits1, s2) := span JS.isDigit s1 in
  let '(space1, s3) := span JS.isWhiteSpace s2 in
  let '(digits2, s4) := span JS.isDigit s3 in
  let '(space2, s5) := span JS.isWhiteSpace s4 in
  if JS.truthy digits1 && JS.truthy space1 && JS.truthy digits2 && JS.truthy space2 then
    match s5 with
    | String c rest =>
        if Ascii.eqb c DQUOTE then
          match unsnoc rest with
          | Some (body, last) =>
              if Ascii.eqb last DQUOTE && JS.truthy body && noLineTerminator body
              then Some (sign +:+ digits1, digits2, body)
              else None
          | None => None
          end
        else None
    | EmptyString => None
    end
  else None.

(** One turn of the loop over the player lines. *)
Definition parsePlayerLine (line : string) : option Player :=
  let playerLine := JS.trim line in
  if JS.isEmpty playerLine then None
  else
    match matchPlayerLine playerLine with
    | Some (m1, m2, m3) =>
        Some (mkPlayer (JS.parseInt m1) (JS.parseInt m2) (cleanQuakeString m3))
    | None => None
    end.

(** [parseStatusResponse(content)] *)
Definition parseStatusResponse (content : string) : Status :=
  let lines := JS.split LF content in
  let info :=
    match lines !! 1%nat with
    | Some infoLine =>
        infoPairs (List.filter JS.truthy (JS.split BACKSLASH infoLine)) ∅
    | None => ∅
    end in
  mkStatus info (omap parsePlayerLine (drop 2 lines)).

(** The [data] of the events that [handleStatusResponse] emits. *)
Inductive StatusEvent :=
| PlayerJoin (name : string) (ping : option Z)
| PlayerLeave (name : string)
| MapChange (previousMap : option string) (map : string)
| StatusInfo (hostname map : string) (players : nat) (maxPlayers : Z)
             (gameDir : string) (playerList : list Player).

(** An instance in monitor mode: the client, [lastServerStatus] ([None]
    is [null]) and the events emitted by [handleStatusResponse], oldest
    first, each with its type. *)
Record Instance := mkInstance {
  client : Q2Client;
  lastServerStatus : option Status;
  statusEvents : list (string * StatusEvent)
}.

(** [emitEvent("server_info", data)] for such an event. *)
Definition emitStatus (data : StatusEvent) (m : Instance) : Instance :=
  let events := statusEvents m ++ [("server_info", data)] in
  mkInstance (client m) (lastServerStatus m)
    (if debug (options (client m)) then events ++ [("raw_message", data)]
     else events).

(** [o || d] for a property [o] that may be [undefined]. *)
Definition orElse (o : option string) (d : string) : string :=
  match o with
  | Some s => if JS.truthy s then s else d
  | None => d
  end.

(** The two loops of [handleStatusResponse]; [known] is the set of names
    on the other side. *)
Definition emitJoins (known : list string) (ps : list Player) (m : Instance)
  : Instance :=
  foldl (fun m player =>
           if bool_decide (name player ∈ known) then m
           else emitStatus (PlayerJoin (name player) (ping player)) m)
        m ps.

Definition emitLeaves (known : list string) (ps : list Player) (m : Instance)
  : Instance :=
  foldl (fun m player =>
           if bool_decide (name player ∈ known) then m
           else emitStatus (PlayerLeave (name player)) m)
        m ps.

(** [handleStatusResponse(content)] *)
Definition handleStatusResponse (content : string) (m : Instance) : Instance :=
  let status := parseStatusResponse content in
  let m :=
    match lastServerStatus m with
    | Some last =>
        let oldPlayers := name <$> players last in
        let newPlayers := name <$> players status in
        let m := emitJoins oldPlayers (players status) m in
        let m := emitLeaves newPlayers (players last) m in
        match info status !! "mapname" with
        | Some map =>
            if JS.truthy map
               && negb (bool_decide (info last !! "mapname" = Some map))
            then emitStatus (MapChange (info last !! "mapname") map) m
            else m
        | None => m
        end
    | None =>
        let maxPlayers :=
          match info status !! "maxclients" with
          | Some s => default 0 (JS.parseInt s)
          | None => 0
          end in
        emitStatus
          (StatusInfo
             (cleanQuakeString (orElse (info status !! "hostname") "Quake 2 Server"))
             (orElse (info status !! "mapname") "unknown")
             (length (players status))
             maxPlayers
             (orElse (info status !! "game") "baseq2")
             (players status)) m
    end in
  mkInstance (client m) (Some status) (statusEvents m).

(** [lines.slice(1).join("\n")] *)
Fixpoint joinLines (lines : list string) : string :=
  match lines with
  | [] => EmptyString
  | [line] => line
  | line :: rest => line +:+ String LF (joinLines rest)
  end.

(** [handleMonitorPacket(buffer)] *)
Definition handleMonitorPacket (buffer : Buffer) (m : Instance) : Instance :=
  if negb (isOOB buffer) then m
  else
    let content := Buf.latin1 (Buf.slice buffer 4) in
    let lines := JS.split LF content in
    let firstLine := JS.trim (default EmptyString (lines !! 0%nat)) in
    if String.eqb firstLine "statusResponse" || JS.startsWith firstLine "statusResponse"
    then handleStatusResponse content m
    else if JS.startsWith firstLine "print"
            && (2 <=? length lines)%nat
            && JS.startsWith (default EmptyString (lines !! 1%nat)) (str BACKSLASH)
    then
      let fakeStatus := "statusResponse" +:+ String LF (joinLines (drop 1 lines)) in
      handleStatusResponse fakeStatus m
    else if JS.startsWith firstLine "print" then
      let message := cleanQuakeString (JS.substring 6 content) in
      if JS.truthy (JS.trim message) then
        mkInstance
          (emitEvent "console_message" (EvConsoleMessage "SERVER" message) (client m))
          (lastServerStatus m) (statusEvents m)
      else m
    else m.

(** [sendStatusQuery()] and [startMonitorMode()]; [None] is the
    [TypeError] of a [null] socket. *)
Definition sendStatusQuery (m : Instance) : option Instance :=
  st ← socketSend (createOOBPacket "status") (client m);
  Some (mkInstance st (lastServerStatus m) (statusEvents m)).

Definition startMonitorMode (m : Instance) : option Instance :=
  let st := emitEvent "connection" (EvConnection "monitoring" None false None) (client m) in
  m ← sendStatusQuery (mkInstance st (lastServerStatus m) (statusEvents m));
  Some (mkInstance
          (withConn (set_monitorPollInterval (Some (monitorInterval (options (client m)))))
                    (client m))
          (lastServerStatus m) (statusEvents m)).

(** The responses [contents] handled one after the other. *)
Definition poll (contents : list string) (m : Instance) : Instance :=
  foldl (fun m content => handleStatusResponse content m) m contents.

(** The instance that the constructor builds. *)
Definition newInstance (opts : Options) (challenge qport now : Z) : Instance :=
  mkInstance (newQ2Client opts challenge qport now) None [].

(** The events of kind [status] among [events]. *)
Definition isStatusInfo (e : string * StatusEvent) : bool :=
  match e.2 with StatusInfo _ _ _ _ _ _ => true | _ => false end.

End Monitor.

(** ** Status answers of the examples *)

(** A player line, and an answer with header [head], the map [map] and
    the player lines [lines]. *)
Definition statusLine (score ping name : string) : string :=
  join [score; " "; ping; " "; str DQUOTE; name; str DQUOTE].

Definition statusAnswer (head map : string) (lines : list string) : string :=
  Monitor.joinLines
    (head :: join ["\mapname\"; map; "\maxclients\16\__proto__\x"] :: lines).

(** Bob and Amy on q2dm1; the same a poll later, with other scores and
    pings; then Amy gone, Eve there and the map changed. *)
Definition answer1 : string :=
  statusAnswer "statusResponse" "q2dm1"
    [statusLine "5" "30" "bob"; statusLine "-2" "45" "amy"].

Definition answer2 : string :=
  statusAnswer "statusResponse" "q2dm1"
    [statusLine "1" "40" "amy"; statusLine "7" "31" "bob"].

Definition answer3 : string :=
  statusAnswer "statusResponse" "q2dm2"
    [statusLine "7" "31" "bob"; statusLine "0" "12" "eve"].

(** The second answer, sent as a [print]. *)
Definition printAnswer : Buffer :=
  oob (statusAnswer "print" "q2dm1"
         [statusLine "1" "40" "amy"; statusLine "7" "31" "bob"]).

(** An instance that has handled the first answer. *)
Definition polledOnce : Monitor.Instance :=
  Monitor.handleStatusResponse answer1 (Monitor.newInstance defaultOptions 777 42 0).
(** * Properties *)

(** ** The model on the examples of the specification *)

Example parseInt_ex1 : JS.parseInt "38" = Some 38. Proof. reflexivity. Qed.
Example parseInt_ex2 : JS.parseInt " -12abc" = Some (-12). Proof. reflexivity. Qed.
Example parseInt_ex3 : JS.parseInt "0x26" = Some 38. Proof. reflexivity. Qed.
Example parseInt_ex4 : JS.parseInt "" = None. Proof. reflexivity. Qed.
Example splitWs_ex1 :
  JS.splitWs "challenge 12345  p=34,35" = ["challenge"; "12345"; "p=34,35"].
Proof. reflexivity. Qed.
Example splitWs_ex2 : JS.splitWs "" = [""]. Proof. reflexivity. Qed.
Example trim_ex1 : JS.trim "  a b  " = "a b". Proof. reflexivity. Qed.
Example numToString_ex1 : JS.numToString (Some 12345) = "12345". Proof. reflexivity. Qed.
Example numToString_ex2 : JS.numToString (Some 0) = "0". Proof. reflexivity. Qed.
Example numToString_ex3 : JS.numToString (Some (-7)) = "-7". Proof. reflexivity. Qed.

Example parseOOB_challenge :
  parseOOBPacket (oob ("challenge 12345 p=34,35,36,38" +:+ str LF))
  = Some (PChallenge (Some 12345) [Some 34; Some 35; Some 36; Some 38]).
Proof. vm_compute. reflexivity. Qed.

Example parseOOB_sequenced :
  parseOOBPacket (bytes [1;0;0;192; 2;0;0;128; 3;128; 65;66])
  = Some (PSequenced (mkSeqPacket 1 true true 3 true 2 true true (Some (bytes [65;66])))).
Proof. vm_compute. reflexivity. Qed.

(** The print record of the specification: level CHAT, text "Player: hi". *)
Example print_record :
  emitted <$> receive [sequenced 1 0 (bytes [10; 3] ++ Buf.fromString "Player: hi" ++ [x00])]
                      connectedClient
  = Some [("connection", EvConnection "connected" None false None);
          ("console_message", EvConsoleMessage "CHAT" "Player: hi")].
Proof. vm_compute. reflexivity. Qed.

(** Stufftext precache outside passive mode: the spawn count is taken and
    the begin command is put on a 500 ms timer. *)
Example precache_record :
  (fun st => (spawnCount (game st), timersOf st))
    <$> receive [sequenced 1 0 (bytes [11] ++ Buf.fromString "precache 7" ++ [x00])]
                connectedClient
  = Some (7, [(TSendNewCommand, 200); (TSendBeginCommand, 500)]).
Proof. vm_compute. reflexivity. Qed.

(** ** Generic facts *)

Lemma netchan_withConn f st : netchan (withConn f st) = netchan st.
Proof. reflexivity. Qed.

Lemma createEntityArray_length n h : length (createEntityArray n h).1 = n.
Proof.
  revert h. induction n as [|n IH]; intros h; simpl; [done|].
  destruct (createEntityArray n _) as [l h'] eqn:E.
  simpl. f_equal. specialize (IH (mkHeap
    ((vecs h ++ [mkVec3 0 0 0]) ++ [mkVec3 0 0 0]) (angs h ++ [mkAngles 0 0 0]) (pmoves h))).
  unfold allocVec, allocAngles in E. simpl in E. rewrite E in IH. exact IH.
Qed.

Lemma newEntityTracker_full h : tablesFull (newEntityTracker h).1.
Proof.
  unfold newEntityTracker, tablesFull.
  pose proof (createEntityArray_length (Z.to_nat MAX_EDICTS) h) as Hb.
  destruct (createEntityArray (Z.to_nat MAX_EDICTS) h) as [b h1].
  pose proof (createEntityArray_length (Z.to_nat MAX_EDICTS) h1) as He.
  destruct (createEntityArray (Z.to_nat MAX_EDICTS) h1) as [e h2].
  simpl in *. auto.
Qed.

Lemma setBaseline_full n s t : tablesFull t -> tablesFull (setBaseline n s t).
Proof.
  unfold tablesFull, setBaseline. intros [Hb He].
  destruct (inRange n); simpl; [|done].
  by rewrite length_insert.
Qed.

Lemma updateEntity_full n s t t' r :
  tablesFull t -> updateEntity n s t = Some (t', r) -> tablesFull t'.
Proof.
  unfold tablesFull, updateEntity. intros [Hb He] H.
  destruct (inRange n); simpl in H; [|by inversion H; subst].
  destruct (entities t !! Z.to_nat n); simpl in H; [|done].
  inversion H; subst; simpl. by rewrite length_insert.
Qed.

Lemma newQ2Client_full opts c q now : tablesFull (entityTracker (newQ2Client opts c q now)).
Proof.
  unfold newQ2Client.
  pose proof (newEntityTracker_full emptyHeap) as H.
  destruct (newEntityTracker emptyHeap) as [t h]. exact H.
Qed.

(** ** C9: the public lookup of an entity *)

(** C9. For every integer [n], [getEntity(n)] is [null] when [n] is negative
    or at least [MAX_EDICTS], and the stored entity object otherwise; the
    function has no exceptional path. The table holds [MAX_EDICTS] objects
    ([newQ2Client_full], [updateEntity_full]). *)
Theorem getEntity_total (st : Q2Client) (n : Z) :
  length (entities (entityTracker st)) = Z.to_nat MAX_EDICTS ->
  (n < 0 \/ MAX_EDICTS <= n -> Q2Client_getEntity st n = JNull) /\
  (0 <= n < MAX_EDICTS ->
   exists e, entities (entityTracker st) !! Z.to_nat n = Some e /\
             Q2Client_getEntity st n = JObj e).
Proof.
  intros Hlen. unfold Q2Client_getEntity, getEntity, inRange. split.
  - intros Hn.
    destruct (0 <=? n) eqn:E1; [|done].
    destruct (n <? MAX_EDICTS) eqn:E2; [|done]. lia.
  - intros [H0 H1].
    destruct (lookup_lt_is_Some_2 (entities (entityTracker st)) (Z.to_nat n)) as [e He].
    { rewrite Hlen. lia. }
    exists e. split; [done|].
    rewrite He.
    replace (0 <=? n) with true by (symmetry; lia).
    replace (n <? MAX_EDICTS) with true by (symmetry; lia). done.
Qed.

Lemma getEntity_total_witness :
  (5 < 0 \/ MAX_EDICTS <= 5 -> Q2Client_getEntity freshClient 5 = JNull) /\
  (0 <= 5 < MAX_EDICTS ->
   exists e, entities (entityTracker freshClient) !! Z.to_nat 5 = Some e /\
             Q2Client_getEntity freshClient 5 = JObj e).
Proof. apply (getEntity_total freshClient 5). vm_compute. reflexivity. Defined.

(** ** C1: duplicates *)

(** C1, as amended. A received sequenced packet that is not fragmented and
    whose sequence number is at most [incomingSequence] is dropped whenever
    [incomingSequence] is positive: no field of the client changes other
    than [lastPacketTime], and nothing is sent, emitted or scheduled. *)
Theorem duplicate_is_dropped inflate depth now buffer st p :
  parseOOBPacket buffer = Some (PSequenced p) ->
  fragmented p = false ->
  sequence p <= incomingSequence (netchan st) ->
  0 < incomingSequence (netchan st) ->
  handleServerPacket inflate depth now buffer st
  = Some (withConn (set_lastPacketTime now) st).
Proof.
  intros Hp Hf Hle Hpos.
  unfold handleServerPacket. rewrite Hp.
  unfold handleSequenced, netchanProcess.
  rewrite netchan_withConn, Hf.
  replace (sequence p <=? incomingSequence (netchan st)) with true by (symmetry; lia).
  replace (0 <? incomingSequence (netchan st)) with true by (symmetry; lia).
  reflexivity.
Qed.

Lemma duplicate_is_dropped_witness :
  handleServerPacket noInflate 8 2 (sequenced 1 0 []) afterFirstPacket
  = Some (withConn (set_lastPacketTime 2) afterFirstPacket).
Proof.
  apply (duplicate_is_dropped noInflate 8 2 (sequenced 1 0 []) afterFirstPacket
           (mkSeqPacket 1 false false 0 false 0 false false None)).
  - vm_compute; reflexivity.
  - reflexivity.
  - vm_compute; discriminate.
  - vm_compute; reflexivity.
Defined.

(** C1 as stated fails at [incomingSequence = 0]: on a connected client
    that has received nothing yet, a packet numbered 0 is not dropped; its
    acknowledgement word is recorded and an acknowledgement is sent. *)
Lemma duplicate_at_zero_is_processed :
  let st := connectedClient in
  let buffer := sequenced 0 5 [] in
  (exists p,
     parseOOBPacket buffer = Some (PSequenced p) /\
     fragmented p = false /\
     sequence p <= incomingSequence (netchan st)) /\
  (incomingAcknowledged (netchan st), sentOf st) = (0, []) /\
  (fun st' => (incomingAcknowledged (netchan st'), sentOf st'))
    <$> handleServerPacket noInflate 8 1 buffer st
  = Some (5, [sequenced 1 0 (bytes [42; 0])]).
Proof.
  split.
  - eexists. split; [vm_compute; reflexivity|].
    split; [reflexivity|]. vm_compute; discriminate.
  - split; vm_compute; reflexivity.
Qed.

(** ** C3: the reliable bit *)

(** What the netchan part does to the sequence number and to the reliable
    bit. *)
Lemma netchanProcess_commit (p : SeqPacket) (st : Q2Client) :
  match netchanProcess p st with
  | Accepted st' _ _ =>
      incomingSequence (netchan st') = sequence p /\
      incomingReliableSequence (netchan st')
      = if reliable p then Z.lxor (incomingReliableSequence (netchan st)) 1
        else incomingReliableSequence (netchan st)
  | Dropped st' =>
      incomingSequence (netchan st') = incomingSequence (netchan st) /\
      incomingReliableSequence (netchan st') = incomingReliableSequence (netchan st)
  end.
Proof.
  unfold netchanProcess.
  destruct ((sequence p <=? incomingSequence (netchan st))
            && (0 <? incomingSequence (netchan st)) && negb (fragmented p)); [done|].
  unfold recordAck, startFragments, appendFragment, commit.
  destruct (negb (Bool.eqb (reliableAck p) _));
    destruct (fragmented p); simpl;
    repeat match goal with
           | |- context [if ?c then _ else _] => destruct c; simpl
           | |- context [match data p with _ => _ end] => destruct (data p); simpl
           end; done.
Qed.

(** C3 as stated fails in two ways. A reliable fragment that is in order
    and announces more fragments is taken into the reassembly buffer and
    the bit stays; and a reliable packet that is committed and carries
    [SVC.RECONNECT] leaves the bit at 0, where it was, because the
    connection state is reset after the commit. *)
Lemma reliable_bit_not_flipped :
  let st := connectedClient in
  let fragment := sequenced 0xC0000001 0 (bytes [0; 128; 65; 66]) in
  let reconnect := sequenced 0x80000001 0 (bytes [8]) in
  incomingReliableSequence (netchan st) = 0 /\
  (exists p, parseOOBPacket fragment = Some (PSequenced p) /\
             reliable p = true /\ fragmented p = true) /\
  (fun st' => (incomingReliableSequence (netchan st'), fragmentBuffer (netchan st')))
    <$> handleServerPacket noInflate 8 1 fragment st
  = Some (0, bytes [65; 66]) /\
  (exists p, parseOOBPacket reconnect = Some (PSequenced p) /\
             reliable p = true /\ fragmented p = false) /\
  (fun st' => (incomingReliableSequence (netchan st'), incomingSequence (netchan st')))
    <$> handleServerPacket noInflate 8 1 reconnect st
  = Some (0, 0).
Proof.
  split; [vm_compute; reflexivity|].
  split; [eexists; split; [vm_compute; reflexivity|split; reflexivity]|].
  split; [vm_compute; reflexivity|].
  split; [eexists; split; [vm_compute; reflexivity|split; reflexivity]|].
  vm_compute; reflexivity.
Qed.

(** ** C2: reassembly of fragments *)

(** The netchan fields that each step of the [sequenced] case leaves
    alone. *)
Lemma recordAck_fragments p st :
  fragmentSequence (netchan (recordAck p st)) = fragmentSequence (netchan st) /\
  fragmentBuffer (netchan (recordAck p st)) = fragmentBuffer (netchan st).
Proof. unfold recordAck. destruct (negb _); done. Qed.

Lemma appendFragment_fragments p st :
  fragmentSequence (netchan (appendFragment p st)) = fragmentSequence (netchan st) /\
  fragmentBuffer (netchan (appendFragment p st))
  = fragmentBuffer (netchan st) ++ payloadOf p.
Proof.
  unfold appendFragment, payloadOf.
  destruct (data p) as [d|]; simpl; [|by rewrite app_nil_r].
  destruct d; simpl; [by rewrite app_nil_r|done].
Qed.

Lemma commit_fragments p st :
  fragmentSequence (netchan (commit p st)) = fragmentSequence (netchan st) /\
  fragmentBuffer (netchan (commit p st)) = fragmentBuffer (netchan st).
Proof. unfold commit. destruct (reliable p); done. Qed.

Lemma startFragments_fragments p st :
  fragmentSequence (netchan (startFragments p st)) = sequence p /\
  fragmentBuffer (netchan (startFragments p st)) = held (sequence p) st.
Proof.
  unfold startFragments, held.
  destruct (fragmentSequence (netchan st) =? sequence p) eqn:E; simpl; [|done].
  apply Z.eqb_eq in E. done.
Qed.

(** What the netchan does with one fragment of message [s]. *)
Lemma netchanProcess_fragment s p st :
  fragmentOf s p ->
  let b := held s st in
  match netchanProcess p st with
  | Dropped st' =>
      fragmentSequence (netchan st') = s /\
      ((fragmentOffset p <> length b /\ fragmentBuffer (netchan st') = b) \/
       (fragmentOffset p = length b /\ moreFragments p = true /\
        fragmentBuffer (netchan st') = b ++ payloadOf p))
  | Accepted st' hasData d =>
      fragmentOffset p = length b /\ moreFragments p = false /\
      d = Some (b ++ payloadOf p) /\
      hasData = (0 <? length (b ++ payloadOf p))%nat /\
      fragmentBuffer (netchan st') = [] /\
      fragmentSequence (netchan st') = s
  end.
Proof.
  intros [Hf Hs]. subst s. unfold netchanProcess. rewrite Hf.
  rewrite andb_false_r.
  destruct (startFragments_fragments p (recordAck p st)) as [Hseq Hbuf].
  assert (Hheld : held (sequence p) (recordAck p st) = held (sequence p) st).
  { unfold held. by destruct (recordAck_fragments p st) as [-> ->]. }
  rewrite Hheld in Hbuf. clear Hheld.
  set (st1 := startFragments p (recordAck p st)) in *.
  destruct (appendFragment_fragments p st1) as [Hseq2 Hbuf2].
  rewrite Hbuf.
  destruct (fragmentOffset p =? length (held (sequence p) st))%nat eqn:Eo; simpl negb; cbv iota.
  - apply Nat.eqb_eq in Eo.
    destruct (moreFragments p) eqn:Em.
    + split; [congruence|]. right. split; [done|]. split; [done|]. congruence.
    + rewrite Hbuf2, Hbuf.
      destruct (commit_fragments p (withNetchan (set_fragmentBuffer []) (appendFragment p st1)))
        as [-> ->].
      repeat split; try done. simpl. congruence.
  - apply Nat.eqb_neq in Eo. split; [done|]. left. done.
Qed.

Lemma netchanFeed_held s ps st :
  Forall (fun p => fragmentOf s p /\ moreFragments p = true) ps ->
  held s (netchanFeed ps st)
  = held s st ++ concat (acceptedPayloads (length (held s st)) ps).
Proof.
  intros H. revert st. induction H as [|p ps [Hp Hm] _ IH]; intros st; simpl.
  { by rewrite app_nil_r. }
  rewrite IH. clear IH.
  pose proof (netchanProcess_fragment s p st Hp) as Hstep. simpl in Hstep.
  destruct (netchanProcess p st) as [st'|st' hd d]; simpl.
  - destruct Hstep as [Hseq [[Hne Hb]|[He [_ Hb]]]].
    + assert (Hh : held s st' = held s st).
      { unfold held at 1. by rewrite Hseq, Z.eqb_refl. }
      rewrite Hh.
      by replace (fragmentOffset p =? length (held s st))%nat with false
        by (symmetry; by apply Nat.eqb_neq).
    + assert (Hh : held s st' = held s st ++ payloadOf p).
      { unfold held at 1. by rewrite Hseq, Z.eqb_refl. }
      rewrite Hh, He, Nat.eqb_refl. simpl.
      by rewrite length_app, <- app_assoc.
  - destruct Hstep as (_ & Hm' & _). congruence.
Qed.

(** ** C3, as amended *)

(** C3, as amended. The netchan part of [handleServerPacket] commits a
    packet exactly when it is not a duplicate (a packet that is no
    fragment and whose number is not above a number already held, which is
    not 0) and, if it is a fragment, it is the last one and in order (its
    offset is the number of bytes held for its message and it announces no
    more). A packet that is committed gives its number to
    [incomingSequence], and [incomingReliableSequence] is flipped once if
    the reliable flag of the packet is set and left alone otherwise. Every
    other packet is dropped, and leaves both the number and the bit as
    they were: so does a reliable fragment that is out of order or
    announces more fragments. *)
Theorem reliable_bit_flips_on_commit (p : SeqPacket) (st : Q2Client) :
  let duplicate :=
    fragmented p = false /\ 0 < incomingSequence (netchan st) /\
    sequence p <= incomingSequence (netchan st) in
  let lastInOrder :=
    fragmentOffset p = length (held (sequence p) st) /\ moreFragments p = false in
  (~ duplicate -> (fragmented p = true -> lastInOrder) ->
   exists st' hasData d,
     netchanProcess p st = Accepted st' hasData d /\
     incomingSequence (netchan st') = sequence p /\
     incomingReliableSequence (netchan st')
     = if reliable p then Z.lxor (incomingReliableSequence (netchan st)) 1
       else incomingReliableSequence (netchan st)) /\
  (duplicate \/ (fragmented p = true /\ ~ lastInOrder) ->
   exists st',
     netchanProcess p st = Dropped st' /\
     incomingSequence (netchan st') = incomingSequence (netchan st) /\
     incomingReliableSequence (netchan st') = incomingReliableSequence (netchan st)).
Proof.
  cbv zeta.
  pose proof (netchanProcess_commit p st) as Hc.
  assert (Hdup : fragmented p = false ->
                 forall st', netchanProcess p st = Dropped st' ->
                             0 < incomingSequence (netchan st) /\
                             sequence p <= incomingSequence (netchan st)).
  { intros Ef st' E. unfold netchanProcess in E. rewrite Ef in E.
    cbn [negb] in E. rewrite andb_true_r in E.
    destruct ((sequence p <=? incomingSequence (netchan st))
              && (0 <? incomingSequence (netchan st))) eqn:Ec; [|discriminate E].
    apply andb_true_iff in Ec as [E1 E2]. lia. }
  split.
  - intros Hnd Hlast. destruct (fragmented p) eqn:Ef.
    + destruct (Hlast eq_refl) as [Ho Hm].
      pose proof (netchanProcess_fragment (sequence p) p st (conj Ef eq_refl)) as Hf.
      cbv zeta in Hf.
      destruct (netchanProcess p st) as [st'|st' hasData d].
      * destruct Hf as [_ [[Hne _]|(_ & Hmore & _)]]; [done|congruence].
      * by exists st', hasData, d.
    + destruct (netchanProcess p st) as [st'|st' hasData d] eqn:E.
      * destruct Hnd. split; [done|]. by apply (Hdup eq_refl st').
      * by exists st', hasData, d.
  - intros [(Ef & Hpos & Hle)|[Ef Hn]].
    + exists st. unfold netchanProcess. rewrite Ef.
      replace (sequence p <=? incomingSequence (netchan st)) with true
        by (symmetry; lia).
      replace (0 <? incomingSequence (netchan st)) with true by (symmetry; lia).
      done.
    + pose proof (netchanProcess_fragment (sequence p) p st (conj Ef eq_refl)) as Hf.
      cbv zeta in Hf.
      destruct (netchanProcess p st) as [st'|st' hasData d].
      * by exists st'.
      * destruct Hn. by destruct Hf as (Ho & Hm & _).
Qed.

(** A reliable packet numbered 1 is committed on a client that has
    received nothing, and flips the bit from 0 to 1. *)
Lemma reliable_bit_flips_on_commit_witness :
  exists st' hasData d,
    netchanProcess (mkSeqPacket 1 true false 0 false 0 false true (Some (bytes [6])))
                   connectedClient
    = Accepted st' hasData d /\
    incomingSequence (netchan st') = 1 /\
    incomingReliableSequence (netchan st') = 1.
Proof.
  destruct (proj1 (reliable_bit_flips_on_commit
                     (mkSeqPacket 1 true false 0 false 0 false true (Some (bytes [6])))
                     connectedClient))
    as (st' & hasData & d & E & Hs & Hb).
  - intros (_ & H & _). vm_compute in H. discriminate H.
  - intros H. discriminate H.
  - exists st', hasData, d. split; [exact E|]. split; [exact Hs|].
    rewrite Hb. vm_compute. reflexivity.
Defined.

(** ** C2, as amended *)

(** C2, as amended. Take a run of fragments of one message [s]: fragments
    [ps] that announce more, then a last one [q] that does not, received
    when the client holds nothing of [s], with [q] in order. The payload
    handed on at [q] is the concatenation of the payloads of the accepted
    fragments in offset order, and the buffer is empty again. A fragment of
    the message in progress whose offset is not the length of the buffer is
    itself dropped: the buffer and its sequence number stay as they were,
    and nothing is committed. *)
Theorem fragments_reassemble (s : Z) (ps : list SeqPacket) (q : SeqPacket)
    (st : Q2Client) :
  Forall (fun p => fragmentOf s p /\ moreFragments p = true) ps ->
  fragmentOf s q -> moreFragments q = false ->
  held s st = [] ->
  fragmentOffset q = length (concat (acceptedPayloads 0 ps)) ->
  (let whole := concat (acceptedPayloads 0 (ps ++ [q])) in
   exists st',
     netchanProcess q (netchanFeed ps st)
     = Accepted st' (0 <? length whole)%nat (Some whole) /\
     fragmentBuffer (netchan st') = []) /\
  (forall (p : SeqPacket) (st0 : Q2Client),
     fragmentOf (fragmentSequence (netchan st0)) p ->
     fragmentOffset p <> length (fragmentBuffer (netchan st0)) ->
     exists st',
       netchanProcess p st0 = Dropped st' /\
       fragmentBuffer (netchan st') = fragmentBuffer (netchan st0) /\
       fragmentSequence (netchan st') = fragmentSequence (netchan st0) /\
       incomingSequence (netchan st') = incomingSequence (netchan st0)).
Proof.
  intros Hps Hq Hm Hheld Hoff. split.
  - pose proof (netchanFeed_held s ps st Hps) as Hfeed.
    rewrite Hheld in Hfeed. simpl in Hfeed.
    pose proof (netchanProcess_fragment s q (netchanFeed ps st) Hq) as Hstep.
    simpl in Hstep. rewrite Hfeed in Hstep.
    assert (Hacc : forall n l, (fragmentOffset q = n + length (concat (acceptedPayloads n l)))%nat ->
               concat (acceptedPayloads n (l ++ [q]))
               = concat (acceptedPayloads n l) ++ payloadOf q).
    { intros n l. revert n. induction l as [|a l IH]; intros n Hn; simpl in *.
      - rewrite Nat.add_0_r in Hn. rewrite Hn, Nat.eqb_refl. simpl. by rewrite app_nil_r.
      - destruct (fragmentOffset a =? n)%nat; simpl in *.
        + rewrite IH; [by rewrite app_assoc|]. rewrite length_app in Hn. lia.
        + by apply IH. }
    rewrite (Hacc 0%nat ps Hoff).
    destruct (netchanProcess q (netchanFeed ps st)) as [st'|st' hd d].
    + destruct Hstep as [_ [[Hne _]|[_ [Hm' _]]]]; congruence.
    + destruct Hstep as (_ & _ & -> & -> & Hb & _). by exists st'.
  - intros p st0 Hp Hne.
    pose proof (netchanProcess_fragment _ p st0 Hp) as Hstep. simpl in Hstep.
    assert (Hh : held (fragmentSequence (netchan st0)) st0 = fragmentBuffer (netchan st0)).
    { unfold held. by rewrite Z.eqb_refl. }
    rewrite Hh in Hstep.
    pose proof (netchanProcess_commit p st0) as Hbit.
    destruct (netchanProcess p st0) as [st'|st' hd d].
    + exists st'. destruct Hstep as [Hseq [[_ Hb]|[He _]]]; [|done].
      destruct Hbit as [Hi _]. done.
    + destruct Hstep as [He _]. done.
Qed.

Lemma fragments_reassemble_witness :
  (let whole := concat (acceptedPayloads 0 ([frag1; frag2] ++ [frag3])) in
   exists st',
     netchanProcess frag3 (netchanFeed [frag1; frag2] connectedClient)
     = Accepted st' (0 <? length whole)%nat (Some whole) /\
     fragmentBuffer (netchan st') = []) /\
  (forall (p : SeqPacket) (st0 : Q2Client),
     fragmentOf (fragmentSequence (netchan st0)) p ->
     fragmentOffset p <> length (fragmentBuffer (netchan st0)) ->
     exists st',
       netchanProcess p st0 = Dropped st' /\
       fragmentBuffer (netchan st') = fragmentBuffer (netchan st0) /\
       fragmentSequence (netchan st') = fragmentSequence (netchan st0) /\
       incomingSequence (netchan st') = incomingSequence (netchan st0)).
Proof.
  apply (fragments_reassemble 5 [frag1; frag2] frag3 connectedClient).
  - repeat constructor.
  - repeat constructor.
  - reflexivity.
  - vm_compute. reflexivity.
  - reflexivity.
Defined.

Example accepted_ex :
  concat (acceptedPayloads 0 [frag1; frag2; frag3]) = bytes [10; 2; 104; 105; 0].
Proof. reflexivity. Qed.

(** C2 as stated fails in its second half: the stray fragment at offset 7
    does not discard the reassembly in progress. The three bytes already
    held stay in the buffer, and the fragment that follows completes the
    record, which is decoded and delivered. *)
Lemma stray_fragment_keeps_buffer :
  let st := connectedClient in
  let b1 := sequenced 0x40000005 0 (bytes [0; 128; 10; 2; 104]) in
  let b2 := sequenced 0x40000005 0 (bytes [7; 128; 88]) in
  let b3 := sequenced 0x40000005 0 (bytes [3; 0; 105; 0]) in
  parseOOBPacket b2 = Some (PSequenced frag2) /\
  (fun st' => fragmentBuffer (netchan st')) <$> receive [b1] st
  = Some (bytes [10; 2; 104]) /\
  (fun st' => fragmentBuffer (netchan st')) <$> receive [b1; b2] st
  = Some (bytes [10; 2; 104]) /\
  emitted <$> receive [b1; b2; b3] st
  = Some [("connection", EvConnection "connected" None false None);
          ("console_message", EvConsoleMessage "HIGH" "hi")].
Proof. repeat split; vm_compute; reflexivity. Qed.

(** ** C10: the packet classifier *)

Lemma split_not_nil sep s : JS.split sep s <> [].
Proof.
  destruct s as [|c s]; simpl; [done|].
  destruct (Ascii.eqb c sep); [done|]. by destruct (JS.split sep s).
Qed.

Lemma get_Some data i : (i < length data)%nat -> exists v, Buf.get data i = Some v.
Proof.
  intros H. unfold Buf.get.
  destruct (lookup_lt_is_Some_2 data i H) as [b ->]. by eexists.
Qed.

Lemma get_None data i : (length data <= i)%nat -> Buf.get data i = None.
Proof. intros H. unfold Buf.get. by rewrite lookup_ge_None_2. Qed.

Lemma readUInt16LE_Some data i :
  (i + 2 <= length data)%nat -> exists v, Buf.readUInt16LE data i = Some v.
Proof.
  intros H. unfold Buf.readUInt16LE.
  destruct (get_Some data i) as [v0 ->]; [lia|].
  destruct (get_Some data (i + 1)) as [v1 ->]; [lia|]. by eexists.
Qed.

Lemma readUInt32LE_Some data i :
  (i + 4 <= length data)%nat -> exists v, Buf.readUInt32LE data i = Some v.
Proof.
  intros H. unfold Buf.readUInt32LE.
  destruct (get_Some data i) as [v0 ->]; [lia|].
  destruct (get_Some data (i + 1)) as [v1 ->]; [lia|].
  destruct (get_Some data (i + 2)) as [v2 ->]; [lia|].
  destruct (get_Some data (i + 3)) as [v3 ->]; [lia|]. by eexists.
Qed.

Lemma readInt16LE_Some data i :
  (i + 2 <= length data)%nat -> exists v, Buf.readInt16LE data i = Some v.
Proof.
  intros H. unfold Buf.readInt16LE.
  destruct (readUInt16LE_Some data i H) as [v ->]. by eexists.
Qed.

Lemma readInt32LE_Some data i :
  (i + 4 <= length data)%nat -> exists v, Buf.readInt32LE data i = Some v.
Proof.
  intros H. unfold Buf.readInt32LE.
  destruct (readUInt32LE_Some data i H) as [v ->]. by eexists.
Qed.

Lemma parseSequencedPacket_total buffer :
  exists p, parseSequencedPacket buffer = Some p /\ parsedType p = "sequenced" /\
            ((length buffer < 8)%nat -> exists e, p = PSequencedError e).
Proof.
  unfold parseSequencedPacket.
  destruct (length buffer <? 8)%nat eqn:E.
  { eexists. split; [done|]. split; [done|]. by eexists. }
  apply Nat.ltb_ge in E.
  destruct (readUInt32LE_Some buffer 0) as [w1 ->]; [lia|].
  destruct (readUInt32LE_Some buffer 4) as [w2 ->]; [lia|].
  cbn -[Nat.leb Nat.ltb Z.land].
  destruct (negb (Z.land w1 FRG_BIT =? 0) && (10 <=? length buffer)%nat) eqn:Ef.
  - apply andb_true_iff in Ef as [_ Hl]. apply Nat.leb_le in Hl.
    destruct (readUInt16LE_Some buffer 8) as [fh ->]; [lia|].
    cbn -[Nat.leb Nat.ltb Z.land].
    eexists. split; [done|]. split; [done|]. lia.
  - cbn -[Nat.leb Nat.ltb Z.land].
    eexists. split; [done|]. split; [done|]. lia.
Qed.

Lemma u8_255 b : Buf.u8 b = 255 -> b = xff.
Proof. destruct b; vm_compute; intros H; try discriminate H; reflexivity. Qed.

Lemma isOOB_prefix buffer :
  isOOB buffer = true <-> exists rest, buffer = xff :: xff :: xff :: xff :: rest.
Proof.
  split.
  - unfold isOOB, Buf.get. intros H.
    repeat (apply andb_true_iff in H as [H ?]).
    destruct buffer as [|b0 [|b1 [|b2 [|b3 rest]]]]; simpl in *; try discriminate.
    repeat match goal with
           | H : bool_decide _ = true |- _ =>
               apply bool_decide_eq_true in H; injection H as H; apply u8_255 in H
           end.
    subst. by eexists.
  - intros [rest ->]. reflexivity.
Qed.

(** C10. [parseOOBPacket] returns a record for every buffer and no
    exception arises in it ([None], the [null] of the [catch], never
    comes). A buffer that begins with four bytes 0xFF gets one of the eight
    out-of-band types; any other buffer gets what [parseSequencedPacket]
    returns, which for fewer than 8 bytes is the error record. *)
Theorem classifier_total (buffer : Buffer) :
  exists p,
    parseOOBPacket buffer = Some p /\
    (forall rest, buffer = xff :: xff :: xff :: xff :: rest ->
                  parsedType p ∈ oobTypes) /\
    ((forall rest, buffer <> xff :: xff :: xff :: xff :: rest) ->
     parseSequencedPacket buffer = Some p /\
     parsedType p = "sequenced" /\
     ((length buffer < 8)%nat -> exists e, p = PSequencedError e)).
Proof.
  unfold parseOOBPacket, parseOOBPacketBody.
  destruct (isOOB buffer) eqn:E; simpl negb; cbv iota.
  - apply isOOB_prefix in E as Hpre.
    destruct (JS.split LF (Buf.latin1 (Buf.slice buffer 4))) as [|line0 lines] eqn:El.
    { by apply split_not_nil in El. }
    simpl.
    assert (Hno : (forall rest, buffer <> xff :: xff :: xff :: xff :: rest) -> False).
    { intros Hn. destruct Hpre as [rest ->]. by apply (Hn rest). }
    unfold oobTypes.
    repeat match goal with
           | |- context [if ?c then _ else _] => destruct c
           end;
      (eexists; split; [reflexivity|];
       split; [intros; simpl; repeat constructor|intros; by exfalso]).
  - destruct (parseSequencedPacket_total buffer) as (p & Hp & Ht & Hs).
    exists p. split; [done|]. split; [|done].
    intros rest ->. discriminate E.
Qed.

(** ** C8: the protocol picked at the challenge *)

Lemma fromString_app a b :
  Buf.fromString (a +:+ b) = Buf.fromString a ++ Buf.fromString b.
Proof.
  unfold Buf.fromString, list_byte_of_string.
  induction a as [|c a IH]; simpl; [done|]. by rewrite IH.
Qed.

Lemma fromString_join (l : list string) :
  Buf.fromString (join l) = concat (Buf.fromString <$> l).
Proof.
  induction l as [|a l IH]; [done|].
  change (join (a :: l)) with (a +:+ join l).
  rewrite fromString_app, IH. reflexivity.
Qed.

Lemma connect_packet_38 (st : Q2Client) (c : Z) :
  serverProtocol (conn st) = 38 -> c <> 0 ->
  exists rest,
    createConnectPacket c None st
    = oob (join ["connect 38 "; num (clientQport (conn st)); " "; num c; " ";
                 str DQUOTE]) ++ rest.
Proof.
  intros Hp Hc.
  exists (concat (Buf.fromString <$>
                    [userinfo st; str DQUOTE; " "; num 1390; " ";
                     num (netchanType (conn st)); " "; num 1; " ";
                     num PROTOCOL_MINOR.AQTION_CURRENT])
          ++ Buf.fromString (str LF)).
  unfold createConnectPacket. rewrite Hp. simpl JS.truthyNum. cbv iota.
  replace (negb (c =? 0)) with true by (symmetry; apply negb_true_iff; lia).
  simpl negb. cbv iota.
  change (38 =? PROTOCOL.VERSION_Q2PRO) with false.
  change (38 =? PROTOCOL.VERSION_AQTION) with true. cbv iota.
  unfold createOOBPacket, oob. rewrite <- app_assoc. f_equal.
  rewrite fromString_app, !fromString_join.
  cbn [fmap list_fmap concat].
  rewrite !fromString_join. cbn [fmap list_fmap concat].
  repeat (rewrite <- app_assoc || rewrite app_nil_r).
  reflexivity.
Qed.

(** C8, as amended. On a challenge whose protocol list is not empty the
    client takes 38 if the list has it, else 36, else 35, else 34 if the
    list has it, and else keeps the protocol it had (34 on a new client);
    the connect command is put on a 100 ms timer. For the list
    34,35,36,38 the protocol is 38, and when the timer fires the datagram
    sent begins with the four bytes 0xFF, then [connect 38 <qport> 12345 ]
    and the double quote that opens the userinfo. *)
Theorem challenge_selects_protocol :
  (forall inflate depth now (buffer : Buffer) (st : Q2Client) cid (l : list (option Z)),
     parseOOBPacket buffer = Some (PChallenge cid l) ->
     l <> [] ->
     exists st',
       handleServerPacket inflate depth now buffer st = Some st' /\
       log st' = log st ++ [SetTimeout (TConnectToServer cid) 100] /\
       serverProtocol (conn st')
       = if decide (Some 38 ∈ l) then 38
         else if decide (Some 36 ∈ l) then 36
         else if decide (Some 35 ∈ l) then 35
         else if decide (Some 34 ∈ l) then 34
         else serverProtocol (conn st)) /\
  (forall inflate depth now (st : Q2Client),
     socket (conn st) = true ->
     exists st1 st2 rest,
       handleServerPacket inflate depth now challengePacket st = Some st1 /\
       serverProtocol (conn st1) = 38 /\
       log st1 = log st ++ [SetTimeout (TConnectToServer (Some 12345)) 100] /\
       runTimer (TConnectToServer (Some 12345)) st1 = Some st2 /\
       log st2
       = log st1
         ++ [Send (oob (join ["connect 38 "; num (clientQport (conn st));
                              " 12345 "; str DQUOTE]) ++ rest)]).
Proof.
  split.
  - intros inflate depth now buffer st cid l Hp Hl.
    unfold handleServerPacket. rewrite Hp.
    eexists. split; [reflexivity|].
    unfold selectProtocol, setTimeout.
    destruct l as [|a l]; [done|]. simpl length. cbn [Nat.ltb Nat.leb].
    split.
    + repeat case_bool_decide; reflexivity.
    + repeat case_bool_decide; repeat case_decide; done.
  - intros inflate depth now st Hs.
    set (st1 := setTimeout (TConnectToServer (Some 12345)) 100
                  (withConn (set_serverProtocol 38)
                     (withConn (set_lastPacketTime now) st))).
    destruct (connect_packet_38 (withConn (set_clientChallengeId 12345) st1) 12345)
      as [rest Hrest]; [reflexivity|done|].
    exists st1, (logEffect (Send (createConnectPacket 12345 None
                                    (withConn (set_clientChallengeId 12345) st1)))
                   (withConn (set_connectionState Connecting)
                      (withConn (set_clientChallengeId 12345) st1))), rest.
    split.
    { unfold handleServerPacket.
      replace (parseOOBPacket challengePacket)
        with (Some (PChallenge (Some 12345) [Some 34; Some 35; Some 36; Some 38]))
        by (vm_compute; reflexivity).
      reflexivity. }
    split; [reflexivity|]. split; [reflexivity|].
    split.
    { unfold runTimer, connectToServer, socketSend. simpl. rewrite Hs. reflexivity. }
    simpl. rewrite Hrest. reflexivity.
Qed.

Lemma challenge_selects_protocol_witness :
  (exists st',
     handleServerPacket noInflate 8 1 (oob ("challenge 7 p=35,34" +:+ str LF)) freshClient
     = Some st' /\
     log st' = log freshClient ++ [SetTimeout (TConnectToServer (Some 7)) 100] /\
     serverProtocol (conn st')
     = if decide (Some 38 ∈ [Some 35; Some 34]) then 38
       else if decide (Some 36 ∈ [Some 35; Some 34]) then 36
       else if decide (Some 35 ∈ [Some 35; Some 34]) then 35
       else if decide (Some 34 ∈ [Some 35; Some 34]) then 34
       else serverProtocol (conn freshClient)) /\
  (exists st1 st2 rest,
     handleServerPacket noInflate 8 1 challengePacket freshClient = Some st1 /\
     serverProtocol (conn st1) = 38 /\
     log st1 = log freshClient ++ [SetTimeout (TConnectToServer (Some 12345)) 100] /\
     runTimer (TConnectToServer (Some 12345)) st1 = Some st2 /\
     log st2
     = log st1
       ++ [Send (oob (join ["connect 38 "; num (clientQport (conn freshClient));
                            " 12345 "; str DQUOTE]) ++ rest)]).
Proof.
  split.
  - apply (proj1 challenge_selects_protocol noInflate 8%nat 1
             (oob ("challenge 7 p=35,34" +:+ str LF)) freshClient (Some 7)
             [Some 35; Some 34]).
    + vm_compute. reflexivity.
    + discriminate.
  - apply (proj2 challenge_selects_protocol noInflate 8%nat 1 freshClient).
    reflexivity.
Defined.

(** C8 as stated fails in its last case: when the list names none of the
    four protocols the client does not fall back to 34, it keeps the
    protocol it had. Here a first challenge selects 38 and a second one,
    whose list is 37 alone, leaves 38 selected; the connect command that
    follows says 38. *)
Lemma unlisted_protocol_keeps_previous :
  let first := oob ("challenge 1 p=38" +:+ str LF) in
  let second := oob ("challenge 2 p=37" +:+ str LF) in
  parseOOBPacket second = Some (PChallenge (Some 2) [Some 37]) /\
  (fun st => serverProtocol (conn st)) <$> receive [first] freshClient = Some 38 /\
  (fun st => serverProtocol (conn st)) <$> receive [first; second] freshClient = Some 38 /\
  (fun st => take 15 <$> sentOf st)
    <$> (receive [first; second] freshClient ≫= runTimer (TConnectToServer (Some 2)))
  = Some [oob "connect 38 "].
Proof. repeat split; vm_compute; reflexivity. Qed.

(** ** C4: a CONFIGSTRING record, encoded and decoded *)

Lemma u8_bound b : 0 <= Buf.u8 b < 256.
Proof. unfold Buf.u8. pose proof (Byte.to_N_bounded b). lia. Qed.

Lemma u8_ofZ z : Buf.u8 (Buf.ofZ z) = z mod 256.
Proof.
  unfold Buf.u8, Buf.ofZ.
  assert (Hm : 0 <= z mod 256 < 256) by (apply Z.mod_pos_bound; lia).
  destruct (Byte.of_N (Z.to_N (z mod 256))) as [b|] eqn:E.
  - apply Byte.to_of_N in E. simpl. rewrite E. lia.
  - apply Byte.of_N_None_iff in E. lia.
Qed.

Lemma u8_byte_of_ascii c : Buf.u8 (byte_of_ascii c) = JS.charCode c.
Proof.
  unfold Buf.u8, JS.charCode. f_equal.
  apply Byte.to_of_N. symmetry. apply byte_of_ascii_via_N.
Qed.

Lemma fromString_cons c s :
  Buf.fromString (String c s) = byte_of_ascii c :: Buf.fromString s.
Proof. reflexivity. Qed.

Lemma fromString_length s : length (Buf.fromString s) = String.length s.
Proof. induction s as [|c s IH]; [done|]. rewrite fromString_cons. simpl. by rewrite IH. Qed.

(** A string without NUL, followed by a NUL, is read back whole. *)
Lemma scanNul_string s rest :
  nulFree s = true ->
  scanNul (Buf.fromString s ++ x00 :: rest) = String.length s.
Proof.
  induction s as [|c s IH]; intros H; [reflexivity|].
  simpl in H. apply andb_true_iff in H as [Hc Hs].
  rewrite fromString_cons. simpl. rewrite u8_byte_of_ascii.
  apply negb_true_iff in Hc. rewrite Hc. by rewrite IH.
Qed.

Lemma readCString_string pre s rest :
  nulFree s = true ->
  readCString (pre ++ Buf.fromString s ++ x00 :: rest) (length pre)
  = mkRead s (length pre + String.length s + 1).
Proof.
  intros H. unfold readCString, Buf.slice2, Buf.latin1.
  rewrite drop_app_length, (scanNul_string s rest H).
  f_equal.
  replace (length pre + String.length s - length pre)%nat with (String.length s) by lia.
  rewrite <- fromString_length, take_app_length.
  apply string_of_list_byte_of_string.
Qed.

Lemma allPrintable_nulFree s : allPrintable s = true -> nulFree s = true.
Proof.
  induction s as [|c s IH]; simpl; [done|]. intros H.
  apply andb_true_iff in H as [H Hs]. apply andb_true_iff in H as [H1 H2].
  rewrite (IH Hs), andb_true_r. apply negb_true_iff. lia.
Qed.

Lemma fromCharCode_charCode c : JS.fromCharCode (JS.charCode c) = c.
Proof.
  unfold JS.fromCharCode, JS.charCode. rewrite N2Z.id. apply ascii_N_embedding.
Qed.

Lemma cleanChars_printable s : allPrintable s = true -> cleanChars s = s.
Proof.
  induction s as [|c s IH]; simpl; [done|]. intros H.
  apply andb_true_iff in H as [H Hs]. apply andb_true_iff in H as [H1 H2].
  replace (128 <=? JS.charCode c) with false by (symmetry; lia).
  rewrite H1, H2. simpl. by rewrite fromCharCode_charCode, IH.
Qed.

Lemma isWhiteSpace_printable c :
  (32 <=? JS.charCode c) && (JS.charCode c <? 127) = true ->
  JS.isWhiteSpace c = (JS.charCode c =? 32).
Proof.
  intros H. apply andb_true_iff in H as [H1 H2]. unfold JS.isWhiteSpace.
  destruct (JS.charCode c =? 32) eqn:E.
  - by rewrite orb_true_r.
  - replace (JS.charCode c <=? 13) with false by (symmetry; lia).
    replace (JS.charCode c =? 160) with false by (symmetry; lia).
    by rewrite andb_false_r.
Qed.

Lemma trimEnd_plain s :
  allPrintable s = true -> endsWithSpace s = false -> JS.trimEnd s = s.
Proof.
  induction s as [|c s IH]; [done|]. intros Hp He.
  simpl in Hp. apply andb_true_iff in Hp as [Hc Hs].
  simpl JS.trimEnd. rewrite (isWhiteSpace_printable c Hc).
  destruct s as [|d s].
  - simpl in He. rewrite He. reflexivity.
  - rewrite (IH Hs He). simpl. by rewrite andb_false_r.
Qed.

Lemma trim_plain s :
  allPrintable s = true -> startsWithSpace s = false -> endsWithSpace s = false ->
  JS.trim s = s.
Proof.
  intros Hp Hs He. unfold JS.trim.
  assert (Hstart : JS.trimStart s = s).
  { destruct s as [|c s]; [done|]. simpl in *.
    apply andb_true_iff in Hp as [Hc _].
    by rewrite (isWhiteSpace_printable c Hc), Hs. }
  rewrite Hstart. by apply trimEnd_plain.
Qed.

Lemma cleanQuakeString_plain s :
  allPrintable s = true -> startsWithSpace s = false -> endsWithSpace s = false ->
  cleanQuakeString s = s.
Proof.
  intros Hp Hs He. unfold cleanQuakeString.
  rewrite (cleanChars_printable s Hp). by apply trim_plain.
Qed.

(** *** Reading what was laid out *)

Lemma get_app_r (pre l : Buffer) i :
  Buf.get (pre ++ l) (length pre + i) = Buf.get l i.
Proof.
  unfold Buf.get. rewrite lookup_app_r by lia.
  by replace (length pre + i - length pre)%nat with i by lia.
Qed.

Lemma get_app_0 (pre l : Buffer) : Buf.get (pre ++ l) (length pre) = Buf.get l 0.
Proof. rewrite <- (get_app_r pre l 0). f_equal. lia. Qed.

Lemma readUInt16LE_app_r (pre l : Buffer) :
  Buf.readUInt16LE (pre ++ l) (length pre) = Buf.readUInt16LE l 0.
Proof.
  unfold Buf.readUInt16LE.
  by rewrite get_app_0, (get_app_r pre l 1).
Qed.

Lemma readUInt32LE_app_r (pre l : Buffer) :
  Buf.readUInt32LE (pre ++ l) (length pre) = Buf.readUInt32LE l 0.
Proof.
  unfold Buf.readUInt32LE.
  by rewrite get_app_0, (get_app_r pre l 1), (get_app_r pre l 2), (get_app_r pre l 3).
Qed.

Lemma readUInt16LE_write v rest :
  0 <= v < 65536 -> Buf.readUInt16LE (Buf.writeUInt16LE v ++ rest) 0 = Some v.
Proof.
  intros Hv. unfold Buf.readUInt16LE, Buf.writeUInt16LE, Buf.get. simpl.
  rewrite !u8_ofZ. f_equal.
  rewrite (Z.mod_small (v / 256)) by (split; [apply Z.div_pos; lia|apply Z.div_lt_upper_bound; lia]).
  pose proof (Z.div_mod v 256). lia.
Qed.

(** *** The loop, one turn at a time *)

Section LoopFacts.

Variable inflateRawSync : Buffer -> option Buffer.
Variable parseNested : Q2Client -> Buffer -> Decoded.

Let step := parseStep inflateRawSync parseNested.
Let loop := parseLoop inflateRawSync parseNested.

Lemma parseLoop_end fuel st data isNested idx acc :
  (length data <= idx)%nat ->
  loop fuel st data isNested idx acc = (st, Some acc).
Proof.
  intros H. subst loop. destruct fuel; simpl;
    by replace (idx <? length data)%nat with false by (symmetry; apply Nat.ltb_ge; lia).
Qed.

Lemma parseLoop_continue fuel st data isNested idx acc st' idx' msgs :
  (idx < length data)%nat ->
  step st data isNested idx = Continue st' idx' msgs ->
  loop (S fuel) st data isNested idx acc
  = loop fuel st' data isNested idx' (acc ++ msgs).
Proof.
  intros H Hs. subst loop step. simpl.
  replace (idx <? length data)%nat with true by (symmetry; apply Nat.ltb_lt; lia).
  by rewrite Hs.
Qed.

Lemma parseLoop_return fuel st data isNested idx acc st' msgs :
  (idx < length data)%nat ->
  step st data isNested idx = Return st' msgs ->
  loop (S fuel) st data isNested idx acc = (st', Some (acc ++ msgs)).
Proof.
  intros H Hs. subst loop step. simpl.
  replace (idx <? length data)%nat with true by (symmetry; apply Nat.ltb_lt; lia).
  by rewrite Hs.
Qed.

(** The turn that starts on an opcode other than [SVC.EXTEND]. *)
Lemma parseStep_opcode st data isNested idx op :
  Buf.get data idx = Some op ->
  Z.land op SVCMD_MASK <> SVC.EXTEND ->
  step st data isNested idx
  = dispatch inflateRawSync parseNested st data isNested
             (Z.land op SVCMD_MASK) (S idx).
Proof.
  intros Hg Hne. subst step. unfold parseStep. rewrite Hg. simpl default.
  assert (idx < length data)%nat.
  { unfold Buf.get in Hg. destruct (data !! idx) eqn:E; [|done].
    by apply lookup_lt_Some in E. }
  replace (length data <? S idx)%nat with false by (symmetry; apply Nat.ltb_ge; lia).
  unfold extendCommand.
  replace (Z.land op SVCMD_MASK =? SVC.EXTEND) with false by (symmetry; lia).
  reflexivity.
Qed.

End LoopFacts.

(** What the decoder makes of one CONFIGSTRING record whose string has no
    NUL in it. *)
Lemma decode_configstring inflate depth st index s :
  0 <= index < 65536 ->
  nulFree s = true ->
  parseGameMessage inflate (S depth) st (encodeConfigString index s) false
  = (st, Some (if JS.truthy (cleanQuakeString s)
               then [MConfigString index (cleanQuakeString s)] else [])).
Proof.
  intros Hi Hs. cbn [parseGameMessage].
  set (rec := fun st0 d => parseGameMessage inflate depth st0 d true).
  set (data := encodeConfigString index s).
  assert (Hlen : length data = (4 + String.length s)%nat).
  { subst data. unfold encodeConfigString. rewrite !length_app, fromString_length.
    simpl. lia. }
  rewrite Hlen. cbn [Nat.add].
  assert (Hstep : parseStep inflate rec st data false 0
                  = Continue st (length data)
                      (if JS.truthy (cleanQuakeString s)
                       then [MConfigString index (cleanQuakeString s)] else [])).
  { rewrite (parseStep_opcode inflate rec st data false 0 13); [|reflexivity|done].
    change (dispatch inflate rec st data false (Z.land 13 SVCMD_MASK) 1)
      with (parseConfigString st data 1).
    unfold parseConfigString.
    replace (length data <? 1 + 2)%nat with false by (symmetry; apply Nat.ltb_ge; lia).
    assert (Hr : Buf.readUInt16LE data 1 = Some index).
    { subst data. unfold encodeConfigString.
      change 1%nat with (length [Buf.ofZ SVC.CONFIGSTRING]).
      rewrite readUInt16LE_app_r. by apply readUInt16LE_write. }
    rewrite Hr. cbn [try_].
    assert (Hc : readCString data (1 + 2) = mkRead s (length data)).
    { subst data. unfold encodeConfigString. rewrite app_assoc.
      change (1 + 2)%nat with (length ([Buf.ofZ SVC.CONFIGSTRING] ++ Buf.writeUInt16LE index)).
      rewrite (readCString_string _ s [] Hs).
      f_equal. rewrite !length_app, fromString_length. simpl. lia. }
    rewrite Hc. reflexivity. }
  rewrite (parseLoop_continue inflate rec _ st data false 0 [] _ _ _ ltac:(lia) Hstep).
  rewrite parseLoop_end by lia. reflexivity.
Qed.

(** C4, as amended. Encoding a CONFIGSTRING record for an index that fits
    sixteen bits (0..2080 in particular) and a string without NUL, then
    decoding it, yields the index and the string as [cleanQuakeString]
    leaves it (high bits stripped, unprintable characters dropped, CR and
    LF as LF, trimmed), and nothing when that is empty. The round trip is
    lossless exactly for what [cleanQuakeString] keeps: in particular for
    every non-empty string of printable ASCII that neither begins nor ends
    with a space. *)
Theorem configstring_round_trip inflate depth st index s :
  0 <= index < 65536 ->
  nulFree s = true ->
  parseGameMessage inflate (S depth) st (encodeConfigString index s) false
  = (st, Some (if JS.truthy (cleanQuakeString s)
               then [MConfigString index (cleanQuakeString s)] else [])) /\
  (s <> EmptyString -> allPrintable s = true ->
   startsWithSpace s = false -> endsWithSpace s = false ->
   parseGameMessage inflate (S depth) st (encodeConfigString index s) false
   = (st, Some [MConfigString index s])).
Proof.
  intros Hi Hs. split; [by apply decode_configstring|].
  intros Hne Hp Hss Hes.
  rewrite (decode_configstring inflate depth st index s Hi Hs).
  rewrite (cleanQuakeString_plain s Hp Hss Hes).
  destruct s; [done|reflexivity].
Qed.

Lemma configstring_round_trip_witness :
  parseGameMessage noInflate 1 freshClient (encodeConfigString 1408 "Player\male/grunt") false
  = (freshClient,
     Some (if JS.truthy (cleanQuakeString "Player\male/grunt")
           then [MConfigString 1408 (cleanQuakeString "Player\male/grunt")] else [])) /\
  ("Player\male/grunt" <> EmptyString -> allPrintable "Player\male/grunt" = true ->
   startsWithSpace "Player\male/grunt" = false ->
   endsWithSpace "Player\male/grunt" = false ->
   parseGameMessage noInflate 1 freshClient (encodeConfigString 1408 "Player\male/grunt") false
   = (freshClient, Some [MConfigString 1408 "Player\male/grunt"])).
Proof.
  apply (configstring_round_trip noInflate 0 freshClient 1408 "Player\male/grunt").
  - lia.
  - reflexivity.
Defined.

(** C4 as stated fails: the round trip is not lossless for every latin-1
    string. A leading space is trimmed away, a colour byte loses its high
    bit, and an empty string yields no message at all. *)
Lemma configstring_round_trip_lossy :
  snd (parseGameMessage noInflate 1 freshClient (encodeConfigString 5 " a") false)
  = Some [MConfigString 5 "a"] /\
  snd (parseGameMessage noInflate 1 freshClient
         (encodeConfigString 5 (String (JS.fromCharCode 225) "")) false)
  = Some [MConfigString 5 "a"] /\
  snd (parseGameMessage noInflate 1 freshClient (encodeConfigString 5 "") false)
  = Some [].
Proof. repeat split; vm_compute; reflexivity. Qed.

(** ** C5: deltas of packet entities *)

(** C5 on the code. After the first frame entity 5 has model 7; the second
    delta does not select the model, and yet the model is 3 afterwards, the
    value of the baseline: [parsePacketEntities] rebuilds the state from
    [baselines[5]] on every delta and [updateEntity] copies it whole. *)
Theorem delta_reverts_to_baseline :
  modelAndFrame 5 <$> receive [baseline5; frameModel7] connectedClient
  = Some (Some (7, 0), Some 3) /\
  modelAndFrame 5 <$> receive [baseline5; frameModel7; frameFrame9] connectedClient
  = Some (Some (3, 9), Some 3).
Proof. split; vm_compute; reflexivity. Qed.

(** ** C6: SERVERDATA *)

Example vanillaServerData_bytes :
  vanillaServerData
  = bytes [12; 34; 0; 0; 0; 1; 0; 0; 0; 0] ++ Buf.fromString "baseq2" ++ [x00]
    ++ bytes [5; 0] ++ Buf.fromString "q2dm1" ++ [x00].
Proof. reflexivity. Qed.

(** *** Reading at a cursor, by what lies ahead of it *)

Lemma drop_lookup (data : Buffer) idx b suf :
  drop idx data = b :: suf -> data !! idx = Some b.
Proof.
  intros H. rewrite <- (Nat.add_0_r idx), <- lookup_drop. by rewrite H.
Qed.

Lemma drop_next (data : Buffer) idx l suf :
  drop idx data = l ++ suf -> drop (idx + length l) data = suf.
Proof. intros H. by rewrite <- drop_drop, H, drop_app_length. Qed.

Lemma drop_length (data : Buffer) idx l :
  drop idx data = l -> l <> [] -> length data = (idx + length l)%nat.
Proof.
  intros H Hne. pose proof (length_drop data idx) as Hl. rewrite H in Hl.
  destruct l; [done|]. simpl in *. lia.
Qed.

Lemma get_drop (data : Buffer) idx b suf :
  drop idx data = b :: suf -> Buf.get data idx = Some (Buf.u8 b).
Proof. intros H. unfold Buf.get. by rewrite (drop_lookup data idx b suf H). Qed.

Lemma readUInt16LE_drop (data : Buffer) idx b0 b1 suf :
  drop idx data = b0 :: b1 :: suf ->
  Buf.readUInt16LE data idx = Some (Buf.u8 b0 + 256 * Buf.u8 b1).
Proof.
  intros H. unfold Buf.readUInt16LE.
  rewrite (get_drop data idx b0 _ H).
  rewrite (get_drop data (idx + 1) b1 suf); [done|].
  apply (drop_next data idx [b0] _ H).
Qed.

Lemma readUInt32LE_drop (data : Buffer) idx b0 b1 b2 b3 suf :
  drop idx data = b0 :: b1 :: b2 :: b3 :: suf ->
  Buf.readUInt32LE data idx
  = Some (Buf.u8 b0 + 256 * Buf.u8 b1 + 65536 * Buf.u8 b2 + 16777216 * Buf.u8 b3).
Proof.
  intros H. unfold Buf.readUInt32LE.
  rewrite (get_drop data idx b0 _ H).
  rewrite (get_drop data (idx + 1) b1 (b2 :: b3 :: suf)) by apply (drop_next data idx [b0] _ H).
  rewrite (get_drop data (idx + 2) b2 (b3 :: suf)) by apply (drop_next data idx [b0; b1] _ H).
  rewrite (get_drop data (idx + 3) b3 suf) by apply (drop_next data idx [b0; b1; b2] _ H).
  done.
Qed.

Lemma readCString_drop (data : Buffer) idx s suf :
  drop idx data = Buf.fromString s ++ x00 :: suf ->
  nulFree s = true ->
  readCString data idx = mkRead s (idx + String.length s + 1).
Proof.
  intros H Hs. unfold readCString, Buf.slice2, Buf.latin1.
  rewrite H, (scanNul_string s suf Hs). f_equal.
  replace (idx + String.length s - idx)%nat with (String.length s) by lia.
  rewrite <- fromString_length, take_app_length.
  apply string_of_list_byte_of_string.
Qed.

Lemma readInt16_drop (data : Buffer) idx b0 b1 suf :
  drop idx data = b0 :: b1 :: suf ->
  readInt16 data idx = mkRead (Buf.toInt16 (Buf.u8 b0 + 256 * Buf.u8 b1)) (idx + 2).
Proof.
  intros H. unfold readInt16, Buf.readInt16LE.
  by rewrite (readUInt16LE_drop data idx b0 b1 suf H).
Qed.

Lemma length_drop_ge (data : Buffer) idx l :
  drop idx data = l -> (idx + length l <= length data \/ l = [])%nat.
Proof.
  intros H. destruct l as [|b l]; [by right|]. left.
  rewrite (drop_length data idx (b :: l) H); [lia|done].
Qed.

(** The cursor after the fixed part of a SERVERDATA record: the decoder
    has read the protocol, the server count, the attract-loop byte, both
    strings and the client number, and stands on the tail. *)
Lemma serverData_head (st : Q2Client) (data : Buffer) p0 p1 p2 p3 s0 s1 s2 s3 attract
    gameDir c0 c1 mapName suf (k : Z -> Q2Client -> nat -> Step) :
  drop 1 data
  = p0 :: p1 :: p2 :: p3 :: s0 :: s1 :: s2 :: s3 :: attract
       :: Buf.fromString gameDir ++ x00 :: c0 :: c1
       :: Buf.fromString mapName ++ x00 :: suf ->
  nulFree gameDir = true -> nulFree mapName = true ->
  let proto := Buf.toInt32 (Buf.u8 p0 + 256 * Buf.u8 p1 + 65536 * Buf.u8 p2
                            + 16777216 * Buf.u8 p3) in
  let srvCount := Buf.toInt32 (Buf.u8 s0 + 256 * Buf.u8 s1 + 65536 * Buf.u8 s2
                               + 16777216 * Buf.u8 s3) in
  let idx := (14 + String.length gameDir + String.length mapName)%nat in
  parseServerData st data 1
  = serverDataTail (withConn (set_serverProtocol proto) st) data proto idx
      (fun st idx =>
         Continue st idx
           [MServerData proto srvCount (Buf.u8 attract) gameDir
              (Buf.toInt16 (Buf.u8 c0 + 256 * Buf.u8 c1))
              (cleanQuakeString mapName)])
  /\ drop idx data = suf.
Proof.
  intros H Hg Hm proto srvCount idx.
  set (l1 := Buf.fromString gameDir ++ x00 :: c0 :: c1 :: Buf.fromString mapName ++ x00 :: suf) in *.
  assert (H5 : drop 5 data = s0 :: s1 :: s2 :: s3 :: attract :: l1)
    by apply (drop_next data 1 [p0; p1; p2; p3] _ H).
  assert (H9 : drop 9 data = attract :: l1)
    by apply (drop_next data 5 [s0; s1; s2; s3] _ H5).
  assert (H10 : drop 10 data = l1) by apply (drop_next data 9 [attract] _ H9).
  subst l1.
  set (l2 := Buf.fromString mapName ++ x00 :: suf) in *.
  assert (H11 : drop (10 + String.length gameDir + 1) data = c0 :: c1 :: l2).
  { rewrite <- fromString_length.
    replace (10 + length (Buf.fromString gameDir) + 1)%nat
      with (10 + length (Buf.fromString gameDir ++ [x00]))%nat
      by (rewrite length_app; simpl; lia).
    apply drop_next. rewrite H10, <- app_assoc. reflexivity. }
  assert (H13 : drop (10 + String.length gameDir + 1 + 2) data = l2)
    by apply (drop_next data _ [c0; c1] _ H11).
  subst l2.
  assert (Hend : drop idx data = suf).
  { subst idx. rewrite <- (fromString_length mapName).
    replace (14 + String.length gameDir + length (Buf.fromString mapName))%nat
      with (10 + String.length gameDir + 1 + 2 + length (Buf.fromString mapName ++ [x00]))%nat
      by (rewrite length_app; simpl; lia).
    apply drop_next. rewrite H13, <- app_assoc. reflexivity. }
  split; [|exact Hend].
  unfold parseServerData.
  assert (Hlen : (10 <= length data)%nat).
  { rewrite (drop_length data 1 _ H) by done. simpl. lia. }
  replace (length data <? 1 + 9)%nat with false by (symmetry; apply Nat.ltb_ge; lia).
  unfold Buf.readInt32LE.
  rewrite (readUInt32LE_drop data 1 p0 p1 p2 p3 _ H). cbn [fmap option_fmap option_map try_].
  change (1 + 4)%nat with 5%nat.
  rewrite (readUInt32LE_drop data 5 s0 s1 s2 s3 _ H5). cbn [fmap option_fmap option_map try_].
  change (5 + 4)%nat with 9%nat.
  rewrite (get_drop data 9 attract _ H9). cbn [default].
  rewrite (readCString_drop data 10 gameDir _ H10 Hg). cbn [nextIndex value].
  rewrite (readInt16_drop data _ c0 c1 _ H11). cbn [nextIndex value].
  rewrite (readCString_drop data _ mapName _ H13 Hm). cbn [nextIndex value].
  replace (10 + String.length gameDir + 1 + 2 + String.length mapName + 1)%nat with idx
    by (subst idx; lia).
  reflexivity.
Qed.

(** The tail of each protocol is consumed whole, and nothing more. *)
Lemma serverDataTail_cursor (st : Q2Client) (data : Buffer) proto idx tail rest
    (k : Q2Client -> nat -> Step) :
  drop idx data = tail ++ rest ->
  proto = 34 \/ proto = 35 \/ proto = 36 \/ proto = 38 ->
  length tail = tailLength proto tail ->
  serverDataTail st data proto idx k
  = k (if proto =? 34 then st
       else withConn (set_serverProtocolMinor (tailMinor proto tail)) st)
      (idx + length tail)%nat.
Proof.
  intros H Hp Hl.
  assert (Hlen : tail <> [] -> length data = (idx + length tail + length rest)%nat).
  { intros Hne. rewrite (drop_length data idx _ H), length_app; [lia|].
    by destruct tail. }
  destruct Hp as [-> | [-> | [-> | ->]]]; unfold serverDataTail.
  - change (length tail = 0%nat) in Hl. rewrite Hl, Nat.add_0_r. reflexivity.
  - change (length tail = 5%nat) in Hl.
    destruct tail as [|t0 [|t1 [|t2 [|t3 [|t4 [|]]]]]]; try discriminate Hl.
    specialize (Hlen ltac:(done)). simpl length in *.
    change (35 =? PROTOCOL.VERSION_R1Q2) with true. cbv iota.
    replace (idx + 5 <=? length data)%nat with true by (symmetry; apply Nat.leb_le; lia).
    rewrite (readUInt16LE_drop data (S idx) t1 t2 (t3 :: t4 :: rest)).
    2:{ rewrite <- Nat.add_1_r. apply (drop_next data idx [t0] _ H). }
    cbn [try_]. change (35 =? 34) with false. cbv iota.
    replace (S idx + 2 + 2)%nat with (idx + 5)%nat by lia. reflexivity.
  - change (36 =? PROTOCOL.VERSION_R1Q2) with false.
    change (36 =? PROTOCOL.VERSION_Q2PRO) with true. cbv iota.
    change (36 =? 34) with false. cbv iota.
    unfold tailLength in Hl.
    change (36 =? PROTOCOL.VERSION_R1Q2) with false in Hl.
    change (36 =? PROTOCOL.VERSION_Q2PRO) with true in Hl. cbv iota in Hl.
    destruct (1024 <=? tailMinor 36 tail) eqn:Em.
    + destruct tail as [|t0 [|t1 [|t2 [|t3 [|t4 [|]]]]]]; try discriminate Hl.
      specialize (Hlen ltac:(done)). simpl length in *.
      change (tailMinor 36 [t0; t1; t2; t3; t4]) with (Buf.u8 t0 + 256 * Buf.u8 t1) in *.
      replace (idx + 3 <=? length data)%nat with true
        by (symmetry; apply Nat.leb_le; lia).
      rewrite (readUInt16LE_drop data idx t0 t1 _ H). cbn [try_].
      change (serverProtocolMinor (conn (withConn (set_serverProtocolMinor ?m) st)))
        with m.
      rewrite Em.
      replace (S (idx + 2) + 2 <=? length data)%nat with true
        by (symmetry; apply Nat.leb_le; lia).
      replace (S (idx + 2) + 2)%nat with (idx + 5)%nat by lia. reflexivity.
    + destruct tail as [|t0 [|t1 [|t2 [|t3 [|t4 [|t5 [|]]]]]]]; try discriminate Hl.
      specialize (Hlen ltac:(done)). simpl length in *.
      change (tailMinor 36 [t0; t1; t2; t3; t4; t5]) with (Buf.u8 t0 + 256 * Buf.u8 t1) in *.
      replace (idx + 3 <=? length data)%nat with true
        by (symmetry; apply Nat.leb_le; lia).
      rewrite (readUInt16LE_drop data idx t0 t1 _ H). cbn [try_].
      change (serverProtocolMinor (conn (withConn (set_serverProtocolMinor ?m) st)))
        with m.
      rewrite Em.
      replace (S (idx + 2) + 3 <=? length data)%nat with true
        by (symmetry; apply Nat.leb_le; lia).
      replace (S (idx + 2) + 3)%nat with (idx + 6)%nat by lia. reflexivity.
  - change (length tail = 6%nat) in Hl.
    destruct tail as [|t0 [|t1 [|t2 [|t3 [|t4 [|t5 [|]]]]]]]; try discriminate Hl.
    specialize (Hlen ltac:(done)). simpl length in *.
    change (38 =? PROTOCOL.VERSION_R1Q2) with false.
    change (38 =? PROTOCOL.VERSION_Q2PRO) with false.
    change (38 =? PROTOCOL.VERSION_AQTION) with true. cbv iota.
    replace (idx + 6 <=? length data)%nat with true by (symmetry; apply Nat.leb_le; lia).
    rewrite (readUInt16LE_drop data idx t0 t1 _ H). cbn [try_].
    change (38 =? 34) with false. cbv iota.
    replace (idx + 2 + 4)%nat with (idx + 6)%nat by lia. reflexivity.
Qed.

(** One turn of the loop on a SERVERDATA record followed by anything:
    the cursor ends on the first byte after the record. *)
Lemma parseStep_serverData inflate rec (st : Q2Client) isNested proto
    (sc : Buffer) attract gameDir (cn : Buffer) mapName (tail rest : Buffer) :
  proto = 34 \/ proto = 35 \/ proto = 36 \/ proto = 38 ->
  length sc = 4%nat -> length cn = 2%nat ->
  nulFree gameDir = true -> nulFree mapName = true ->
  length tail = tailLength proto tail ->
  let record := serverDataRecord proto sc attract gameDir cn mapName tail in
  parseStep inflate rec st (record ++ rest) isNested 0
  = Continue (afterServerData proto tail st) (length record)
      [MServerData proto (default 0 (Buf.readInt32LE sc 0)) (Buf.u8 attract) gameDir
         (default 0 (Buf.readInt16LE cn 0)) (cleanQuakeString mapName)].
Proof.
  intros Hp Hsc Hcn Hg Hm Hl record.
  destruct sc as [|s0 [|s1 [|s2 [|s3 [|]]]]]; try discriminate Hsc.
  destruct cn as [|c0 [|c1 [|]]]; try discriminate Hcn.
  assert (Hrec : exists p0 p1 p2 p3,
             Buf.writeUInt32LE proto = [p0; p1; p2; p3] /\
             Buf.toInt32 (Buf.u8 p0 + 256 * Buf.u8 p1 + 65536 * Buf.u8 p2
                          + 16777216 * Buf.u8 p3) = proto).
  { destruct Hp as [-> | [-> | [-> | ->]]]; by eexists _, _, _, _. }
  destruct Hrec as (p0 & p1 & p2 & p3 & Hw & Hv).
  assert (Hdata : drop 1 (record ++ rest)
                  = p0 :: p1 :: p2 :: p3 :: s0 :: s1 :: s2 :: s3 :: attract
                       :: Buf.fromString gameDir ++ x00 :: c0 :: c1
                       :: Buf.fromString mapName ++ x00 :: (tail ++ rest)).
  { subst record. unfold serverDataRecord. rewrite Hw.
    rewrite <- !app_assoc. reflexivity. }
  assert (Hlen : length record
                 = (14 + String.length gameDir + String.length mapName + length tail)%nat).
  { subst record. unfold serverDataRecord. rewrite Hw.
    rewrite !length_app, !fromString_length. simpl. lia. }
  rewrite (parseStep_opcode inflate rec st (record ++ rest) isNested 0 12);
    [|reflexivity|done].
  change (dispatch inflate rec st (record ++ rest) isNested (Z.land 12 SVCMD_MASK) 1)
    with (parseServerData st (record ++ rest) 1).
  destruct (serverData_head st (record ++ rest) p0 p1 p2 p3 s0 s1 s2 s3 attract
              gameDir c0 c1 mapName (tail ++ rest)
              (fun _ st idx => Continue st idx []) Hdata Hg Hm) as [Hhead Hdrop].
  rewrite Hhead, Hv.
  rewrite (serverDataTail_cursor _ _ proto _ tail rest _ Hdrop Hp Hl).
  rewrite Hlen. reflexivity.
Qed.

Lemma decode_vanillaServerData inflate depth (st : Q2Client) :
  parseGameMessage inflate (S depth) st vanillaServerData false
  = (withConn (set_serverProtocol 34) st,
     Some [MServerData 34 1 0 "baseq2" 5 "q2dm1"]).
Proof.
  cbn [parseGameMessage].
  set (rec := fun st0 d => parseGameMessage inflate depth st0 d true).
  pose proof (parseStep_serverData inflate rec st false 34 (bytes [1; 0; 0; 0]) x00
                "baseq2" (bytes [5; 0]) "q2dm1" [] []) as Hstep.
  cbv zeta in Hstep. rewrite app_nil_r in Hstep.
  change (serverDataRecord 34 (bytes [1; 0; 0; 0]) x00 "baseq2" (bytes [5; 0]) "q2dm1" [])
    with vanillaServerData in Hstep.
  specialize (Hstep ltac:(by left) eq_refl eq_refl eq_refl eq_refl eq_refl).
  change (length vanillaServerData) with 25%nat in *.
  rewrite (parseLoop_continue inflate rec _ st vanillaServerData false 0 [] _ _ _
             ltac:(change (length vanillaServerData) with 25%nat; lia) Hstep).
  rewrite parseLoop_end by (change (length vanillaServerData) with 25%nat; lia).
  reflexivity.
Qed.

Lemma recordAck_game p st : game (recordAck p st) = game st.
Proof. unfold recordAck. by destruct (negb _). Qed.

Lemma commit_game p st : game (commit p st) = game st.
Proof. unfold commit. by destruct (reliable p). Qed.

Lemma recordAck_log p st : log (recordAck p st) = log st.
Proof. unfold recordAck. by destruct (negb _). Qed.

Lemma commit_log p st : log (commit p st) = log st.
Proof. unfold commit. by destruct (reliable p). Qed.

Lemma emitEvent_log type data st :
  Emit type data ∈ log (emitEvent type data st).
Proof.
  unfold emitEvent. destruct (debug (options _)); simpl;
    rewrite ?elem_of_app, ?list_elem_of_singleton; auto.
Qed.

(** The acknowledgement that closes [handleServerPacket] never throws; it
    adds at most a datagram to the trace. *)
Lemma sendSequencedResponse_ok (st : Q2Client) :
  exists st', sendSequencedResponse None false st = Some st' /\
              game st' = game st /\
              (forall e, e ∈ log st -> e ∈ log st').
Proof.
  unfold sendSequencedResponse.
  destruct (isConnected (conn st)) eqn:Ec; simpl; [|by eexists].
  destruct (socket (conn st)) eqn:Es; simpl; [|by eexists].
  unfold socketSend, createSequencedPacket. simpl. rewrite Es.
  eexists. split; [reflexivity|]. split; [reflexivity|].
  intros e He. simpl. rewrite elem_of_app. by left.
Qed.

(** C6. The first sequenced packet of a connection, carrying the vanilla
    SERVERDATA payload of the specification, makes the client emit
    [server_info] with event connected, map q2dm1, game directory baseq2
    and protocol 34, and leaves [currentMapName] at q2dm1 (the client knew
    no map, or that one). And for each of the protocols 34, 35, 36 and 38,
    decoding a SERVERDATA record with the tail of that protocol leaves the
    cursor on the first byte after the record, whatever follows it. *)
Theorem serverdata_decoded :
  (forall inflate depth now (st : Q2Client),
     incomingSequence (netchan st) <= 0 ->
     currentMapName (game st) = "" \/ currentMapName (game st) = "q2dm1" ->
     exists st',
       handleServerPacket inflate (S depth) now (sequenced 1 0 vanillaServerData) st
       = Some st' /\
       Emit "server_info" (EvConnected "q2dm1" "baseq2" 34) ∈ log st' /\
       currentMapName (game st') = "q2dm1") /\
  (forall inflate rec (st : Q2Client) isNested proto (sc : Buffer) attract gameDir
          (cn : Buffer) mapName (tail rest : Buffer),
     proto = 34 \/ proto = 35 \/ proto = 36 \/ proto = 38 ->
     length sc = 4%nat -> length cn = 2%nat ->
     nulFree gameDir = true -> nulFree mapName = true ->
     length tail = tailLength proto tail ->
     let record := serverDataRecord proto sc attract gameDir cn mapName tail in
     parseStep inflate rec st (record ++ rest) isNested 0
     = Continue (afterServerData proto tail st) (length record)
         [MServerData proto (default 0 (Buf.readInt32LE sc 0)) (Buf.u8 attract)
            gameDir (default 0 (Buf.readInt16LE cn 0)) (cleanQuakeString mapName)]).
Proof.
  split; [|exact parseStep_serverData].
  intros inflate depth now st Hseq Hmap.
  unfold handleServerPacket.
  replace (parseOOBPacket (sequenced 1 0 vanillaServerData))
    with (Some (PSequenced (mkSeqPacket 1 false false 0 false 0 false true
                              (Some vanillaServerData))))
    by (vm_compute; reflexivity).
  set (p := mkSeqPacket 1 false false 0 false 0 false true (Some vanillaServerData)).
  set (st0 := withConn (set_lastPacketTime now) st).
  unfold handleSequenced, netchanProcess.
  change (incomingSequence (netchan st0)) with (incomingSequence (netchan st)).
  change (sequence p) with 1. change (fragmented p) with false.
  replace (1 <=? incomingSequence (netchan st)) with false by (symmetry; lia).
  cbn [andb negb hasData data p].
  set (st1 := commit p (recordAck p st0)).
  assert (Hgame : game st1 = game st).
  { subst st1. by rewrite commit_game, recordAck_game. }
  unfold processServerData, decode.
  change (length vanillaServerData <? 5)%nat with false. cbv iota.
  change (default 0 (Buf.get vanillaServerData 0)) with 12.
  change ((SVC.NOP <=? 12) && (12 <=? SVC.CVARSYNC)) with true. cbv iota.
  rewrite decode_vanillaServerData.
  cbn [handleMessages handleMessage mbind option_bind].
  change (game (withConn (set_serverProtocol 34) st1)) with (game st1).
  rewrite Hgame.
  assert (Hno : JS.truthy (currentMapName (game st))
                && negb (String.eqb (currentMapName (game st)) "q2dm1") = false).
  { by destruct Hmap as [-> | ->]. }
  rewrite Hno. cbn [mbind option_bind].
  match goal with
  | |- context [sendSequencedResponse None false ?s] =>
      destruct (sendSequencedResponse_ok s) as (st' & -> & Hg & Hl)
  end.
  exists st'. split; [reflexivity|]. split.
  - apply Hl. cbn [log withConn withHandshake withGame set_conn set_handshake set_game].
    apply emitEvent_log.
  - rewrite Hg. reflexivity.
Qed.

Lemma serverdata_decoded_witness :
  (exists st',
     handleServerPacket noInflate 1 1 (sequenced 1 0 vanillaServerData) connectedClient
     = Some st' /\
     Emit "server_info" (EvConnected "q2dm1" "baseq2" 34) ∈ log st' /\
     currentMapName (game st') = "q2dm1") /\
  (let record :=
     serverDataRecord 36 (bytes [1; 0; 0; 0]) x00 "baseq2" (bytes [5; 0]) "q2dm1"
                      (bytes [0; 4; 2; 0; 0]) in
   parseStep noInflate (fun st _ => (st, None)) freshClient (record ++ bytes [6]) false 0
   = Continue (afterServerData 36 (bytes [0; 4; 2; 0; 0]) freshClient) (length record)
       [MServerData 36 (default 0 (Buf.readInt32LE (bytes [1; 0; 0; 0]) 0)) (Buf.u8 x00)
          "baseq2" (default 0 (Buf.readInt16LE (bytes [5; 0]) 0))
          (cleanQuakeString "q2dm1")]).
Proof.
  split.
  - apply (proj1 serverdata_decoded noInflate 0%nat 1 connectedClient).
    + vm_compute. discriminate.
    + left. vm_compute. reflexivity.
  - apply (proj2 serverdata_decoded noInflate (fun st _ => (st, None)) freshClient false
             36 (bytes [1; 0; 0; 0]) x00 "baseq2" (bytes [5; 0]) "q2dm1"
             (bytes [0; 4; 2; 0; 0]) (bytes [6])).
    + right. right. left. reflexivity.
    + reflexivity.
    + reflexivity.
    + reflexivity.
    + reflexivity.
    + reflexivity.
Defined.

(** The scenario on a connected client, in full: the event, and the
    acknowledgement that follows. *)
Example vanilla_serverdata_scenario :
  (fun st => (emitted st, currentMapName (game st), serverProtocol (conn st)))
    <$> receive [sequenced 1 0 vanillaServerData] connectedClient
  = Some ([("connection", EvConnection "connected" None false None);
           ("server_info", EvConnected "q2dm1" "baseq2" 34)], "q2dm1", 34).
Proof. vm_compute. reflexivity. Qed.


(** ** The decoder raises no exception *)

(** *** The cursor never moves back below a floor

    A reader that finds too few bytes parks the cursor on [data.length],
    which may lie before the cursor it was given. It never lies before a
    floor [m] that is itself inside the buffer. *)

(** An invariant of every step is an invariant of the run. *)
Lemma run_inv {S : Type} (P : S -> Prop) (steps : list (S -> S)) (s : S) :
  Forall (fun f => forall s, P s -> P (f s)) steps -> P s -> P (run steps s).
Proof.
  intros H. revert s. unfold run.
  induction H as [|f steps Hf _ IH]; intros s Hs; simpl; [done|].
  apply IH. by apply Hf.
Qed.

(** The loop of packet entities reads a byte when there is one. *)
Lemma parseEntityBits_advances (data : Buffer) idx :
  (idx < length data)%nat -> (idx < nextIndex (parseEntityBits data idx))%nat.
Proof.
  unfold parseEntityBits. intros H.
  destruct (get_Some data idx H) as [b ->]. simpl.
  repeat match goal with
         | |- context [if ?c then _ else _] => destruct c; simpl
         | |- context [match Buf.get data ?i with _ => _ end] =>
             destruct (Buf.get data i); simpl
         end; lia.
Qed.

Section Floor.

Variable data : Buffer.
Variable m : nat.
Hypothesis m_inside : (m <= length data)%nat.

Lemma readInt16_floor idx : (m <= idx)%nat -> (m <= nextIndex (readInt16 data idx))%nat.
Proof. unfold readInt16. destruct (Buf.readInt16LE data idx); simpl; lia. Qed.

Lemma readUInt16_floor idx : (m <= idx)%nat -> (m <= nextIndex (readUInt16 data idx))%nat.
Proof. unfold readUInt16. destruct (Buf.readUInt16LE data idx); simpl; lia. Qed.

Lemma readInt32_floor idx : (m <= idx)%nat -> (m <= nextIndex (readInt32 data idx))%nat.
Proof. unfold readInt32. destruct (Buf.readInt32LE data idx); simpl; lia. Qed.

Lemma readAngle_floor idx : (m <= idx)%nat -> (m <= nextIndex (readAngle data idx))%nat.
Proof. unfold readAngle. destruct (Buf.get data idx); simpl; lia. Qed.

Lemma readCString_floor idx : (m <= idx)%nat -> (m <= nextIndex (readCString data idx))%nat.
Proof. unfold readCString. simpl. lia. Qed.

Lemma readEntityNum_floor idx bits :
  (m <= idx)%nat -> (m <= nextIndex (readEntityNum data idx bits))%nat.
Proof.
  unfold readEntityNum. intros H.
  destruct (flag bits U_NUMBER16); [by apply readUInt16_floor|simpl; lia].
Qed.

Lemma parseEntityBits_floor idx :
  (m <= idx)%nat -> (m <= nextIndex (parseEntityBits data idx))%nat.
Proof.
  unfold parseEntityBits. intros H.
  destruct (Buf.get data idx); simpl; [|lia].
  repeat match goal with
         | |- context [if ?c then _ else _] => destruct c; simpl
         | |- context [match Buf.get data ?i with _ => _ end] =>
             destruct (Buf.get data i); simpl
         end; lia.
Qed.

(** A step of a field-by-field parser keeps the cursor above the floor. *)
Local Abbreviation keepsFloorE f :=
  (forall s : EState, (m <= s.1.2)%nat -> (m <= (f s).1.2)%nat).
Local Abbreviation keepsFloorP f :=
  (forall s : PState, (m <= s.1.2)%nat -> (m <= (f s).1.2)%nat).

Lemma when_floorE c (f : EState -> EState) : keepsFloorE f -> keepsFloorE (when c f).
Proof. intros Hf s Hs. unfold when. destruct c; auto. Qed.

Lemma when_floorP c (f : PState -> PState) : keepsFloorP f -> keepsFloorP (when c f).
Proof. intros Hf s Hs. unfold when. destruct c; auto. Qed.

Lemma run_floorE steps (s : EState) :
  Forall (fun f => keepsFloorE f) steps ->
  (m <= s.1.2)%nat -> (m <= (run steps s).1.2)%nat.
Proof. intros H. by apply (run_inv (fun s : EState => (m <= s.1.2)%nat)). Qed.

Lemma run_floorP steps (s : PState) :
  Forall (fun f => keepsFloorP f) steps ->
  (m <= s.1.2)%nat -> (m <= (run steps s).1.2)%nat.
Proof. intros H. by apply (run_inv (fun s : PState => (m <= s.1.2)%nat)). Qed.

Lemma byteField_floor set : keepsFloorE (byteField data set).
Proof. intros [[e i] h] H. simpl in *. lia. Qed.

Lemma readField_floor rd set :
  (forall idx, (m <= idx)%nat -> (m <= nextIndex (rd data idx))%nat) ->
  keepsFloorE (readField rd data set).
Proof. intros Hrd [[e i] h] H. simpl in *. by apply Hrd. Qed.

Lemma originField_floor set : keepsFloorE (originField data set).
Proof. intros [[e i] h] H. simpl in *. by apply readInt16_floor. Qed.

Lemma angleField_floor set : keepsFloorE (angleField data set).
Proof. intros [[e i] h] H. simpl in *. by apply readAngle_floor. Qed.

Lemma oldOriginField_floor : keepsFloorE (oldOriginField data).
Proof.
  intros [[e i] h] H. simpl in *. unfold readCoord.
  by do 3 apply readInt16_floor.
Qed.

Lemma wideField_floor bits m8 m16 set : keepsFloorE (wideField data bits m8 m16 set).
Proof.
  unfold wideField.
  destruct (flag bits m8 && flag bits m16);
    [apply readField_floor, readInt32_floor|].
  destruct (flag bits m8); [apply byteField_floor|].
  destruct (flag bits m16); [apply readField_floor, readUInt16_floor|].
  by intros s Hs.
Qed.

Lemma parseEntityStateFromBits_floor idx bits baseline entityNum h :
  (m <= idx)%nat ->
  (m <= (parseEntityStateFromBits data idx bits baseline entityNum h).1.2)%nat.
Proof.
  intros H. unfold parseEntityStateFromBits.
  destruct (flag bits U_REMOVE); [done|].
  apply run_floorE; [|done].
  repeat first
    [ apply Forall_nil_2
    | apply Forall_cons_2
    | apply when_floorE
    | apply byteField_floor
    | apply wideField_floor
    | apply originField_floor
    | apply angleField_floor
    | apply oldOriginField_floor
    | apply readField_floor, readUInt16_floor ].
  by intros [[e i] h0] Hs.
Qed.

Lemma parsePlayerState_floor idx flags t h :
  (m <= idx)%nat -> (m <= (parsePlayerState data idx flags t h).1.2)%nat.
Proof.
  intros H. unfold parsePlayerState.
  apply run_floorP; [|done].
  repeat first [ apply Forall_nil_2 | apply Forall_cons_2 | apply when_floorP ];
    intros [[ps i] h0] Hs; simpl in *;
    unfold readInt16x3, bytes3, readAngle16;
    repeat match goal with
           | |- context [let '(_, _) := ?p in _] => destruct p
           end; simpl;
    try lia;
    try (by do 3 apply readInt16_floor);
    try (by apply readInt16_floor).
Qed.

End Floor.

(** *** What the parsers leave in place *)

Lemma parseEntityStateFromBits_pmoves data idx bits baseline entityNum h :
  length (pmoves (parseEntityStateFromBits data idx bits baseline entityNum h).2)
  = length (pmoves h).
Proof.
  unfold parseEntityStateFromBits.
  destruct (flag bits U_REMOVE); [done|].
  apply (run_inv (fun s : EState => length (pmoves s.2) = length (pmoves h))); [|done].
  assert (Hwhen : forall c (f : EState -> EState),
             (forall s, length (pmoves (f s).2) = length (pmoves s.2)) ->
             forall s, length (pmoves s.2) = length (pmoves h) ->
                       length (pmoves (when c f s).2) = length (pmoves h)).
  { intros c f Hf s Hs. unfold when. destruct c; [by rewrite Hf|done]. }
  assert (Hwide : forall m8 m16 set s,
             length (pmoves s.2) = length (pmoves h) ->
             length (pmoves (wideField data bits m8 m16 set s).2) = length (pmoves h)).
  { intros m8 m16 set [[e i] h0] Hs. unfold wideField.
    destruct (flag bits m8 && flag bits m16); [done|].
    destruct (flag bits m8); [done|]. by destruct (flag bits m16). }
  repeat first
    [ apply Forall_nil_2
    | apply Forall_cons_2
    | apply Hwide
    | apply Hwhen; intros [[e i] h0]; reflexivity ].
  by intros [[e i] h0] Hs.
Qed.

Lemma parsePlayerState_blocks data idx flags t h :
  pmove (parsePlayerState data idx flags t h).1.1 = pmove (playerState t) /\
  length (pmoves (parsePlayerState data idx flags t h).2) = length (pmoves h).
Proof.
  unfold parsePlayerState.
  apply (run_inv (fun s : PState =>
                    pmove s.1.1 = pmove (playerState t) /\
                    length (pmoves s.2) = length (pmoves h))); [|done].
  repeat first [ apply Forall_nil_2 | apply Forall_cons_2 ];
    intros [[ps i] h0] [Hp Hl]; unfold when;
    match goal with |- context [if ?c then _ else _] => destruct c end;
    try done; simpl in *;
    unfold readInt16x3, bytes3;
    repeat match goal with
           | |- context [let '(_, _) := ?p in _] => destruct p
           end; simpl;
    rewrite ?length_alter; done.
Qed.

Lemma createEmptyEntity_pmoves h :
  length (pmoves (createEmptyEntity h).2) = length (pmoves h).
Proof. reflexivity. Qed.

Lemma updateEntity_inRange entityNum state t :
  tablesFull t -> inRange entityNum = true ->
  exists t', updateEntity entityNum state t = Some (t', Some (Z.to_nat entityNum)) /\
             tablesFull t' /\ playerState t' = playerState t.
Proof.
  intros [Hb He] Hr. unfold updateEntity. rewrite Hr. simpl.
  unfold inRange, MAX_EDICTS in Hr. apply andb_true_iff in Hr as [H0 H1].
  destruct (lookup_lt_is_Some_2 (entities t) (Z.to_nat entityNum)) as [e Hl].
  { rewrite He. unfold MAX_EDICTS. lia. }
  rewrite Hl. simpl. eexists. split; [reflexivity|].
  split; [|reflexivity].
  split; simpl; [done|]. by rewrite length_insert.
Qed.

(** The loop of packet entities comes to an end, and leaves the tables
    full, the player state and the [pmove] blocks alone, and the cursor
    above any floor it started above. *)
Lemma parsePacketEntitiesLoop_total (data : Buffer) fuel :
  forall idx t h updates m,
    (length data - idx <= fuel)%nat ->
    tablesFull t ->
    (m <= length data)%nat -> (m <= idx)%nat ->
    exists t' h' updates' idx',
      parsePacketEntitiesLoop fuel data idx t h updates = Some (t', h', updates', idx') /\
      tablesFull t' /\ playerState t' = playerState t /\
      length (pmoves h') = length (pmoves h) /\
      (m <= idx')%nat.
Proof.
  induction fuel as [|fuel IH]; intros idx t h updates m Hfuel Ht Hm Hidx.
  - simpl. replace (idx <? length data)%nat with false by (symmetry; apply Nat.ltb_ge; lia).
    eexists _, _, _, _. split; [reflexivity|]. split; [exact Ht|]. done.
  - cbn [parsePacketEntitiesLoop].
    destruct (idx <? length data)%nat eqn:E;
      [|eexists _, _, _, _; split; [reflexivity|]; split; [exact Ht|]; done].
    apply Nat.ltb_lt in E.
    pose proof (parseEntityBits_advances data idx E) as Hadv.
    set (r := parseEntityBits data idx) in *.
    destruct (value r =? 0);
      [eexists _, _, _, _; split; [reflexivity|]; split; [exact Ht|];
       split; [reflexivity|]; split; [reflexivity|lia]|].
    pose proof (readEntityNum_floor data (S idx) ltac:(lia) (nextIndex r) (value r)
                  ltac:(lia)) as Hnum.
    set (num := readEntityNum data (nextIndex r) (value r)) in *.
    destruct ((value num =? 0) || (MAX_EDICTS <=? value num)) eqn:En;
      [eexists _, _, _, _; split; [reflexivity|]; split; [exact Ht|];
       split; [reflexivity|]; split; [reflexivity|lia]|].
    apply orb_false_iff in En as [En0 En1].
    assert (Hr : inRange (value num) = true).
    { unfold inRange. apply andb_true_iff. split; [|lia].
      assert (0 <= value num); [|lia].
      subst num. unfold readEntityNum.
      destruct (flag (value r) U_NUMBER16).
      - unfold readUInt16, Buf.readUInt16LE, Buf.get.
        destruct (data !! nextIndex r) as [b0|]; simpl; [|lia].
        destruct (data !! (nextIndex r + 1)%nat) as [b1|]; simpl; [|lia].
        pose proof (u8_bound b0). pose proof (u8_bound b1). lia.
      - simpl. unfold Buf.getOr, Buf.get.
        destruct (data !! nextIndex r) as [b0|]; simpl; [|lia].
        pose proof (u8_bound b0). destruct (Buf.u8 b0 =? 0); lia. }
    set (bh := match baselines t !! Z.to_nat (value num) with
               | Some b => (b, h)
               | None => createEmptyEntity h
               end).
    assert (Hbh : length (pmoves bh.2) = length (pmoves h)).
    { subst bh. by destruct (baselines t !! _). }
    destruct bh as [baseline h0]. simpl in Hbh.
    pose proof (parseEntityStateFromBits_floor data (S idx) ltac:(lia) (nextIndex num)
                  (value r) baseline (value num) h0 Hnum) as Hfl.
    pose proof (parseEntityStateFromBits_pmoves data (nextIndex num) (value r) baseline
                  (value num) h0) as Hpm.
    destruct (parseEntityStateFromBits data (nextIndex num) (value r) baseline
                (value num) h0) as [[state idx1] h1].
    simpl in Hfl, Hpm.
    destruct (updateEntity_inRange (value num) state t Ht Hr) as (t1 & -> & Ht1 & Hps1).
    cbn [mbind option_bind].
    destruct (IH idx1 t1 h1 (updates ++ [Z.to_nat (value num)]) m ltac:(lia) Ht1 Hm ltac:(lia))
      as (t' & h' & updates' & idx' & -> & Ht' & Hps' & Hpm' & Hidx').
    eexists _, _, _, _. split; [reflexivity|].
    split; [exact Ht'|]. split; [congruence|]. split; [congruence|exact Hidx'].
Qed.

(** The loop of [SVC.GAMESTATE] comes to an end. *)
Lemma gameStateLoop_total (data : Buffer) fuel :
  forall idx msgs,
    (length data - idx <= fuel)%nat ->
    exists msgs', gameStateLoop fuel data idx msgs = Some msgs'.
Proof.
  induction fuel as [|fuel IH]; intros idx msgs Hfuel.
  - simpl. replace (idx + 2 <=? length data)%nat with false
      by (symmetry; apply Nat.leb_gt; lia).
    by eexists.
  - cbn [gameStateLoop].
    destruct (idx + 2 <=? length data)%nat eqn:E; [|by eexists].
    apply Nat.leb_le in E.
    destruct (readUInt16LE_Some data idx E) as [csIndex ->].
    destruct ((csIndex =? 32767) || (2080 <=? csIndex)); [by eexists|].
    apply IH. unfold readCString. simpl. lia.
Qed.

(** *** One turn of the loop *)

(** A turn that ends well: the cursor is above the floor and the client
    is well formed; [T] is what an exception that escapes leaves. *)
Local Abbreviation stepOK T m s :=
  (match s with
   | Continue st' idx' _ => (m <= idx')%nat /\ wellFormed st'
   | Return st' _ => wellFormed st'
   | Throw st' => T st'
   end).

(** A turn that ends well and raises nothing. *)
Local Abbreviation goodStep m s := (stepOK (fun _ : Q2Client => False) m s).

Lemma goodStep_weaken (T : Q2Client -> Prop) m s : goodStep m s -> stepOK T m s.
Proof. by destruct s. Qed.

Lemma wellFormed_withConn f st : wellFormed st -> wellFormed (withConn f st).
Proof. done. Qed.

Lemma wellFormed_withGame f st : wellFormed st -> wellFormed (withGame f st).
Proof. done. Qed.

Section GoodStep.

Variable data : Buffer.
Variable m : nat.
Hypothesis m_inside : (m <= length data)%nat.

Lemma serverDataTail_good st proto idx (k : Q2Client -> nat -> Step) :
  wellFormed st -> (m <= idx)%nat ->
  (forall st' idx', wellFormed st' -> (m <= idx')%nat -> goodStep m (k st' idx')) ->
  goodStep m (serverDataTail st data proto idx k).
Proof.
  intros Hst Hidx Hk. unfold serverDataTail.
  destruct (proto =? PROTOCOL.VERSION_R1Q2).
  { destruct (idx + 5 <=? length data)%nat eqn:E; [|by apply Hk].
    apply Nat.leb_le in E.
    destruct (readUInt16LE_Some data (S idx)) as [v ->]; [lia|].
    apply Hk; [by apply wellFormed_withConn|lia]. }
  destruct (proto =? PROTOCOL.VERSION_Q2PRO).
  { destruct (idx + 3 <=? length data)%nat eqn:E; [|by apply Hk].
    apply Nat.leb_le in E.
    destruct (readUInt16LE_Some data idx) as [v ->]; [lia|].
    cbn [try_].
    destruct (1024 <=? _);
      (apply Hk; [by apply wellFormed_withConn|]);
      match goal with |- context [if ?c then _ else _] => destruct c end; lia. }
  destruct (proto =? PROTOCOL.VERSION_AQTION); [|by apply Hk].
  destruct (idx + 6 <=? length data)%nat eqn:E; [|by apply Hk].
  apply Nat.leb_le in E.
  destruct (readUInt16LE_Some data idx) as [v ->]; [lia|].
  apply Hk; [by apply wellFormed_withConn|lia].
Qed.

Lemma parseServerData_good st idx :
  wellFormed st -> (m <= idx)%nat -> goodStep m (parseServerData st data idx).
Proof.
  intros Hst Hidx. unfold parseServerData.
  destruct (length data <? idx + 9)%nat eqn:E; [done|].
  apply Nat.ltb_ge in E.
  destruct (readInt32LE_Some data idx) as [proto ->]; [lia|].
  cbn [try_].
  destruct (readInt32LE_Some data (idx + 4)) as [srvCount ->]; [lia|].
  cbn [try_].
  apply serverDataTail_good; [by apply wellFormed_withConn| |done].
  apply readCString_floor; [done|]. apply readInt16_floor; [done|].
  apply readCString_floor; [done|]. lia.
Qed.

Lemma parseConfigString_good st idx :
  wellFormed st -> (m <= idx)%nat -> goodStep m (parseConfigString st data idx).
Proof.
  intros Hst Hidx. unfold parseConfigString.
  destruct (length data <? idx + 2)%nat eqn:E; [done|].
  apply Nat.ltb_ge in E.
  destruct (readUInt16LE_Some data idx) as [csIndex ->]; [lia|].
  cbn [try_]. split; [|done]. apply readCString_floor; [done|lia].
Qed.

Lemma parseSpawnBaseline_good st idx :
  wellFormed st -> (m <= idx)%nat -> goodStep m (parseSpawnBaseline st data idx).
Proof.
  intros [Ht Hp] Hidx. unfold parseSpawnBaseline.
  pose proof (parseEntityBits_floor data m m_inside idx Hidx) as Hb.
  destruct (value (parseEntityBits data idx) =? 0); [done|].
  pose proof (readEntityNum_floor data m m_inside _ (value (parseEntityBits data idx)) Hb)
    as Hn.
  set (num := readEntityNum data _ _) in *.
  destruct (createEmptyEntity (heap st)) as [baseline h0] eqn:Ec.
  assert (Hh0 : length (pmoves h0) = length (pmoves (heap st))).
  { replace h0 with (createEmptyEntity (heap st)).2 by (by rewrite Ec). reflexivity. }
  pose proof (parseEntityStateFromBits_floor data m m_inside (nextIndex num)
                (value (parseEntityBits data idx)) baseline (value num) h0 Hn) as Hfl.
  pose proof (parseEntityStateFromBits_pmoves data (nextIndex num)
                (value (parseEntityBits data idx)) baseline (value num) h0) as Hpm.
  destruct (parseEntityStateFromBits data (nextIndex num) _ baseline (value num) h0)
    as [[state idx1] h1].
  simpl in Hfl, Hpm. split; [done|].
  split; simpl.
  - by apply setBaseline_full.
  - unfold setBaseline. destruct (inRange (value num)); simpl; lia.
Qed.

Lemma parseSound_good st idx :
  wellFormed st -> (m <= idx)%nat -> goodStep m (parseSound st data idx).
Proof.
  intros Hst Hidx. unfold parseSound.
  destruct (Buf.get data idx) as [flags|]; [|done].
  split; [|done].
  repeat match goal with |- context [if ?c then _ else _] => destruct c end; lia.
Qed.

Lemma parseDownload_good st idx :
  wellFormed st -> (m <= idx)%nat -> goodStep m (parseDownload st data idx).
Proof.
  intros Hst Hidx. unfold parseDownload.
  destruct (length data <? idx + 2)%nat eqn:E; [done|].
  apply Nat.ltb_ge in E.
  destruct (readInt16LE_Some data idx) as [size ->]; [lia|].
  cbn [try_]. split; [|done]. destruct (0 <? size); lia.
Qed.

Lemma frameBody_good st idx psFlags :
  wellFormed st -> (m <= idx)%nat -> goodStep m (frameBody st data idx psFlags).
Proof.
  intros [Ht Hp] Hidx. unfold frameBody.
  set (first :=
         if negb (psFlags =? 0) && (idx <? length data)%nat
         then _ else (st, idx, [], true)).
  assert (Hfirst : wellFormed first.1.1.1 /\ (m <= first.1.1.2)%nat /\ first.2 = true).
  { subst first. destruct (negb (psFlags =? 0) && (idx <? length data)%nat); [|done].
    pose proof (parsePlayerState_floor data m m_inside idx psFlags (entityTracker st)
                  (heap st) Hidx) as Hfl.
    destruct (parsePlayerState_blocks data idx psFlags (entityTracker st) (heap st))
      as [Hpm Hlen].
    destruct (parsePlayerState data idx psFlags (entityTracker st) (heap st))
      as [[ps idx1] h1].
    simpl in Hfl, Hpm, Hlen.
    destruct (lookup_lt_is_Some_2 (pmoves h1) (pmove ps)) as [pm ->]; [lia|].
    simpl. split; [|done]. split; [done|]. simpl. lia. }
  destruct first as [[[st1 idx1] psMsgs] ok]. simpl in Hfirst.
  destruct Hfirst as ([Ht1 Hp1] & Hidx1 & ->). simpl negb. cbv iota.
  destruct (idx1 <? length data)%nat; [|done].
  destruct (parsePacketEntitiesLoop_total data (length data) idx1 (entityTracker st1)
              (heap st1) [] m ltac:(lia) Ht1 m_inside Hidx1)
    as (t' & h' & updates' & idx' & Hloop & Ht' & Hps' & Hpm' & Hidx').
  unfold parsePacketEntities. rewrite Hloop.
  split; [done|]. split; simpl; [done|]. rewrite Hps', Hpm'. done.
Qed.

Lemma frameAreaAndFlags_good st idx (k : nat -> Z -> Step) :
  (m <= idx)%nat ->
  (forall idx' psFlags, (m <= idx')%nat -> goodStep m (k idx' psFlags)) ->
  goodStep m (frameAreaAndFlags st data idx k).
Proof.
  intros Hidx Hk. unfold frameAreaAndFlags.
  set (idx1 := match Buf.get data idx with
               | Some areabytes => (S idx + Z.to_nat areabytes)%nat
               | None => idx
               end).
  assert (Hidx1 : (m <= idx1)%nat).
  { subst idx1. destruct (Buf.get data idx); lia. }
  destruct (idx1 + 2 <=? length data)%nat eqn:E; [|by apply Hk].
  apply Nat.leb_le in E.
  destruct (readUInt16LE_Some data idx1) as [psFlags ->]; [lia|].
  cbn [try_]. apply Hk. lia.
Qed.

Lemma parseFrame_good st idx :
  wellFormed st -> (m <= idx)%nat -> goodStep m (parseFrame st data idx).
Proof.
  intros Hst Hidx. unfold parseFrame.
  destruct (length data <? idx + 4)%nat eqn:E; [done|].
  apply Nat.ltb_ge in E.
  destruct (isExtendedProtocol st).
  - destruct (readUInt32LE_Some data idx) as [frameData ->]; [lia|].
    cbn [try_]. apply frameAreaAndFlags_good.
    + destruct (idx + 4 <? length data)%nat; lia.
    + intros idx' psFlags Hidx'. apply frameBody_good; [|done].
      by apply wellFormed_withGame.
  - destruct (readInt32LE_Some data idx) as [frameNum ->]; [lia|].
    cbn [try_]. apply frameAreaAndFlags_good.
    + repeat match goal with |- context [if ?c then _ else _] => destruct c end; lia.
    + intros idx' psFlags Hidx'. apply frameBody_good; [|done].
      by apply wellFormed_withGame.
Qed.

End GoodStep.

(** *** The loop *)

(** What a call of the decoder leaves: a well-formed client with the
    messages, or [T] of the client when an exception escaped. *)
Local Abbreviation decodedOK T r :=
  (match r with
   | (st', Some _) => wellFormed st'
   | (st', None) => T st'
   end).

Section LoopTotal.

Variable inflateRawSync : Buffer -> option Buffer.
Variable parseNested : Q2Client -> Buffer -> Decoded.
Variable T : Q2Client -> Prop.

(** The payload that is decoded. *)
Variable data : Buffer.

(** The nested call ends well on what the inflater makes of a slice of
    the payload: a compressed packet of the payload is such a slice. *)
Hypothesis nested_ok : forall st i j decompressed,
  wellFormed st ->
  inflateRawSync (Buf.slice2 data i j) = Some decompressed ->
  decodedOK T (parseNested st decompressed).

Lemma parseZPacket_ok m st idx :
  wellFormed st -> (m <= idx)%nat ->
  stepOK T m (parseZPacket inflateRawSync parseNested st data idx).
Proof.
  intros Hst Hidx. unfold parseZPacket.
  destruct (length data <? idx + 4)%nat eqn:E; [done|].
  apply Nat.ltb_ge in E.
  destruct (readUInt16LE_Some data idx) as [inlen ->]; [lia|].
  cbn [try_].
  destruct (readUInt16LE_Some data (idx + 2)) as [outlen ->]; [lia|].
  cbn [try_].
  destruct (length data <? _)%nat; [done|].
  unfold decompressZlib.
  destruct (inflateRawSync _) as [decompressed|] eqn:Ei.
  - pose proof (nested_ok st _ _ _ Hst Ei) as Hn.
    destruct (parseNested st decompressed) as [st' [msgs|]]; [|done].
    split; [lia|done].
  - split; [lia|done].
Qed.

Lemma dispatch_ok m st isNested cmd idx :
  (m <= length data)%nat -> wellFormed st -> (m <= idx)%nat ->
  stepOK T m (dispatch inflateRawSync parseNested st data isNested cmd idx).
Proof.
  intros Hm Hst Hidx. unfold dispatch.
  repeat match goal with
         | |- context [if ?c then _ else _] =>
             lazymatch c with
             | (_ =? _) => destruct c
             | (_ || _) => destruct c
             end
         end.
  - done.
  - split; [lia|done].
  - destruct (Buf.get data idx); [|done]. split; [lia|done].
  - split; [|done]. by apply readCString_floor.
  - split; [lia|done].
  - by apply goodStep_weaken, parseServerData_good.
  - by apply goodStep_weaken, parseConfigString_good.
  - by apply goodStep_weaken, parseSpawnBaseline_good.
  - destruct (Buf.get data idx); [|done]. split; [|done].
    apply readCString_floor; [done|lia].
  - split; [|done]. by apply readCString_floor.
  - split; [|done]. by apply readCString_floor.
  - by apply goodStep_weaken, parseSound_good.
  - done.
  - done.
  - by apply goodStep_weaken, parseFrame_good.
  - done.
  - by apply goodStep_weaken, parseDownload_good.
  - by apply parseZPacket_ok.
  - destruct (gameStateLoop_total data (length data) idx [] ltac:(lia)) as [msgs ->].
    done.
  - destruct (length data <? idx + 8)%nat; [done|]. split; [lia|done].
  - done.
  - destruct isNested; done.
Qed.

(** A turn of the loop moves the cursor forward and keeps the client
    well formed; it raises only what a nested call raised. *)
Lemma parseStep_ok st isNested idx :
  wellFormed st -> (idx < length data)%nat ->
  stepOK T (S idx) (parseStep inflateRawSync parseNested st data isNested idx).
Proof.
  intros Hst Hidx. unfold parseStep.
  destruct (length data <? S idx)%nat eqn:E; [done|].
  destruct (extendCommand data _ (S idx)) as [cmd idx1] eqn:Ex.
  apply dispatch_ok; [lia|done|].
  unfold extendCommand in Ex.
  destruct (_ && _) in Ex; injection Ex as <- <-; lia.
Qed.

(** The fuel that [parseGameMessage] gives the loop is enough. *)
Lemma parseLoop_ok isNested fuel : forall st idx messages,
  wellFormed st -> (length data - idx <= fuel)%nat ->
  decodedOK T (parseLoop inflateRawSync parseNested fuel st data isNested idx messages).
Proof.
  induction fuel as [|fuel IH]; intros st idx messages Hst Hfuel; simpl.
  - destruct (idx <? length data)%nat eqn:E; [|done].
    apply Nat.ltb_lt in E. lia.
  - destruct (idx <? length data)%nat eqn:E; [|done].
    apply Nat.ltb_lt in E.
    pose proof (parseStep_ok st isNested idx Hst E) as Hgood.
    destruct (parseStep inflateRawSync parseNested st data isNested idx)
      as [st1 idx1 msgs1|st1 msgs1|st1].
    + destruct Hgood as [Hidx1 Hst1]. apply IH; [done|lia].
    + done.
    + done.
Qed.

End LoopTotal.

(** The decoder keeps the client well formed, whether it returns or
    raises. *)
Lemma parseGameMessage_wellFormed inflateRawSync depth : forall st data isNested,
  wellFormed st ->
  wellFormed (parseGameMessage inflateRawSync depth st data isNested).1.
Proof.
  induction depth as [|depth IH]; intros st data isNested Hst; [done|].
  simpl.
  pose proof (parseLoop_ok inflateRawSync
                (fun st decompressed => parseGameMessage inflateRawSync depth st decompressed true)
                wellFormed data) as H.
  specialize (H ltac:(intros st0 i j d Hst0 _; specialize (IH st0 d true Hst0);
                      by destruct (parseGameMessage inflateRawSync depth st0 d true)
                        as [? [?|]])
                isNested (length data) st 0%nat [] Hst ltac:(lia)).
  by destruct (parseLoop _ _ _ _ _ _ _ _) as [? [?|]].
Qed.

(** A call of the decoder returns as soon as the calls nested in it, one
    for each compressed packet of the payload that inflates, return. *)
Lemma parseGameMessage_total inflateRawSync depth st data isNested :
  wellFormed st ->
  (forall st0 i j decompressed,
      wellFormed st0 ->
      inflateRawSync (Buf.slice2 data i j) = Some decompressed ->
      exists msgs,
        (parseGameMessage inflateRawSync depth st0 decompressed true).2 = Some msgs) ->
  exists msgs,
    (parseGameMessage inflateRawSync (S depth) st data isNested).2 = Some msgs.
Proof.
  intros Hst Hnested. simpl.
  pose proof (parseLoop_ok inflateRawSync
                (fun st decompressed => parseGameMessage inflateRawSync depth st decompressed true)
                (fun _ => False) data) as H.
  specialize (H ltac:(intros st0 i j d Hst0 Hi;
                      destruct (Hnested st0 i j d Hst0 Hi) as [msgs Hm];
                      pose proof (parseGameMessage_wellFormed inflateRawSync depth
                                    st0 d true Hst0) as Hwf;
                      destruct (parseGameMessage inflateRawSync depth st0 d true)
                        as [? [?|]]; [exact Hwf|discriminate Hm])
                isNested (length data) st 0%nat [] Hst ltac:(lia)).
  destruct (parseLoop _ _ _ _ _ _ _ _) as [? [msgs|]]; [by exists msgs|done].
Qed.

(** The decoder returns when the call stack has room for the compressed
    packets of the payload, one inside the other. *)
Lemma parseGameMessage_nested inflateRawSync n : forall st data isNested,
  wellFormed st ->
  nestsWithin inflateRawSync n data ->
  exists msgs,
    (parseGameMessage inflateRawSync (S n) st data isNested).2 = Some msgs.
Proof.
  induction n as [|n IH]; intros st data isNested Hst Hn;
    apply parseGameMessage_total; try done.
  - intros st0 i j d _ Hi. destruct (Hn i j d Hi).
  - intros st0 i j d Hst0 Hi. apply IH; [done|]. exact (Hn i j d Hi).
Qed.

(** The constructor builds a well-formed client. *)
Lemma newQ2Client_wellFormed opts c q now : wellFormed (newQ2Client opts c q now).
Proof. split; [apply newQ2Client_full|]. vm_compute. lia. Qed.

(** *** The client stays well formed *)

(** What an action leaves when it returns. *)
Local Abbreviation actionOK a :=
  (match a with Some st' => wellFormed st' | None => True end).

Lemma newEntityTracker_pmove h :
  (pmove (playerState (newEntityTracker h).1) < length (pmoves (newEntityTracker h).2))%nat.
Proof.
  unfold newEntityTracker.
  destruct (createEntityArray (Z.to_nat MAX_EDICTS) h) as [b h1].
  destruct (createEntityArray (Z.to_nat MAX_EDICTS) h1) as [e h2].
  simpl. rewrite !length_app. simpl. lia.
Qed.

Lemma resetTracker_wellFormed st t h :
  resetTracker (entityTracker st) (heap st) = (t, h) ->
  wellFormed (set_entityTracker t (set_heap h st)).
Proof.
  unfold resetTracker. intros E.
  pose proof (newEntityTracker_full (heap st)) as Hf.
  pose proof (newEntityTracker_pmove (heap st)) as Hp.
  rewrite E in Hf, Hp. by split.
Qed.

Lemma emitEvent_wellFormed type d st : wellFormed st -> wellFormed (emitEvent type d st).
Proof. unfold emitEvent. by destruct (debug _). Qed.

Lemma socketSend_wellFormed packet st : wellFormed st -> actionOK (socketSend packet st).
Proof. unfold socketSend. by destruct (socket _). Qed.

Lemma createSequencedPacket_wellFormed d reliable st :
  wellFormed st -> wellFormed (createSequencedPacket d reliable st).2.
Proof. unfold createSequencedPacket. by destruct reliable. Qed.

Lemma sendSequencedResponse_wellFormed d reliable st :
  wellFormed st -> actionOK (sendSequencedResponse d reliable st).
Proof.
  intros Hst. unfold sendSequencedResponse.
  destruct (_ || _); [done|].
  pose proof (createSequencedPacket_wellFormed d reliable st Hst) as H.
  destruct (createSequencedPacket d reliable st) as [packet st1].
  by apply socketSend_wellFormed.
Qed.

Lemma sendStringCmd_wellFormed cmd st : wellFormed st -> actionOK (sendStringCmd cmd st).
Proof.
  intros Hst. unfold sendStringCmd.
  destruct (negb _); [done|].
  match goal with
  | |- context [createSequencedPacket ?d true st] =>
      pose proof (createSequencedPacket_wellFormed d true st Hst) as H;
      destruct (createSequencedPacket d true st) as [packet st1]
  end.
  by apply socketSend_wellFormed.
Qed.

Lemma requestChallenge_wellFormed st : wellFormed st -> actionOK (requestChallenge st).
Proof.
  intros Hst. unfold requestChallenge.
  by apply socketSend_wellFormed, emitEvent_wellFormed.
Qed.

Lemma connectToServer_wellFormed c st : wellFormed st -> actionOK (connectToServer c st).
Proof.
  intros Hst. unfold connectToServer.
  apply socketSend_wellFormed. by destruct (JS.truthyNum c).
Qed.

Lemma sendNewCommand_wellFormed st : wellFormed st -> actionOK (sendNewCommand st).
Proof.
  intros Hst. unfold sendNewCommand.
  destruct (hasSentNew _); [done|]. by apply sendStringCmd_wellFormed.
Qed.

Lemma sendBeginCommand_wellFormed st : wellFormed st -> actionOK (sendBeginCommand st).
Proof.
  intros Hst. unfold sendBeginCommand.
  destruct (hasSentBegin _); [done|].
  match goal with
  | |- context [sendStringCmd ?c ?s] =>
      pose proof (sendStringCmd_wellFormed c s Hst) as H;
      destruct (sendStringCmd c s) as [st1|]; [|done]
  end.
  cbn [mbind option_bind]. by apply emitEvent_wellFormed.
Qed.

(** A timer that fires keeps the client well formed. *)
Lemma runTimer_wellFormed a st : wellFormed st -> actionOK (runTimer a st).
Proof.
  intros Hst. destruct a; cbn [runTimer].
  - by apply connectToServer_wellFormed.
  - by apply sendNewCommand_wellFormed.
  - by apply sendBeginCommand_wellFormed.
  - by apply requestChallenge_wellFormed.
Qed.

Lemma setTimeout_wellFormed a delay st :
  wellFormed st -> wellFormed (setTimeout a delay st).
Proof. done. Qed.

Lemma resetConnectionState_wellFormed st : wellFormed (resetConnectionState st).
Proof.
  unfold resetConnectionState.
  match goal with
  | |- context [resetTracker (entityTracker ?s) (heap ?s)] =>
      pose proof (resetTracker_wellFormed s) as H;
      destruct (resetTracker (entityTracker s) (heap s)) as [t h]
  end.
  by apply H.
Qed.

Lemma handleDisconnect_wellFormed reason st :
  wellFormed st -> wellFormed (handleDisconnect reason st).
Proof.
  intros Hst. unfold handleDisconnect.
  destruct (_ <? _).
  - cbv zeta. apply setTimeout_wellFormed, resetConnectionState_wellFormed.
  - by apply emitEvent_wellFormed.
Qed.

Lemma enterSpawn_wellFormed st : wellFormed st -> wellFormed (enterSpawn st).
Proof.
  intros Hst. unfold enterSpawn.
  destruct (passiveMode _); [by apply emitEvent_wellFormed|done].
Qed.

Lemma drainPending_wellFormed cmds : forall st,
  wellFormed st -> actionOK (drainPending cmds st).
Proof.
  induction cmds as [|cmd rest IH]; intros st Hst; cbn [drainPending]; [done|].
  match goal with
  | |- context [sendStringCmd ?c ?s] =>
      pose proof (sendStringCmd_wellFormed c s Hst) as H;
      destruct (sendStringCmd c s) as [st1|]; [|done]
  end.
  cbn [mbind option_bind]. by apply IH.
Qed.

Lemma processPendingCommands_wellFormed st :
  wellFormed st -> actionOK (processPendingCommands st).
Proof.
  intros Hst. unfold processPendingCommands.
  destruct (_ && _); [done|].
  pose proof (drainPending_wellFormed (pendingCommands (handshake st)) st Hst) as H.
  destruct (drainPending _ st) as [st1|]; [|done].
  cbn [mbind option_bind]. by destruct (_ && _).
Qed.

Lemma stufftextLine_wellFormed line st :
  wellFormed st -> wellFormed (stufftextLine line st).1.
Proof.
  intros Hst. unfold stufftextLine. cbv zeta.
  set (cmd := JS.trim line). clearbody cmd.
  repeat lazymatch goal with
         | |- wellFormed (fst (if ?c then _ else _)) => destruct c
         end;
    cbn [fst].
  - done.
  - by destruct (respondedVersion _).
  - by destruct (respondedAcToken _).
  - done.
  - by destruct (sentConfigstrings _).
  - by destruct (sentBaselines _).
  - apply enterSpawn_wellFormed. by destruct (precacheMatch cmd).
  - by apply enterSpawn_wellFormed.
  - apply setTimeout_wellFormed, resetConnectionState_wellFormed.
  - by apply handleDisconnect_wellFormed.
  - done.
Qed.

Lemma stufftextLines_wellFormed lines : forall st,
  wellFormed st -> wellFormed (stufftextLines lines st).1.
Proof.
  induction lines as [|line rest IH]; intros st Hst; cbn [stufftextLines]; [done|].
  pose proof (stufftextLine_wellFormed line st Hst) as H.
  destruct (stufftextLine line st) as [st1 [|]]; [by apply IH|done].
Qed.

Lemma handleStufftext_wellFormed text st :
  wellFormed st -> actionOK (handleStufftext text st).
Proof.
  intros Hst. unfold handleStufftext.
  pose proof (stufftextLines_wellFormed (JS.split LF text) st Hst) as H.
  destruct (stufftextLines _ st) as [st1 [|]]; [|done].
  by apply processPendingCommands_wellFormed.
Qed.

Section ClientWellFormed.

Variable inflateRawSync : Buffer -> option Buffer.
Variable stackDepth : nat.

Lemma decode_wellFormed st data :
  wellFormed st -> wellFormed (decode inflateRawSync stackDepth st data).1.
Proof. apply parseGameMessage_wellFormed. Qed.

Lemma tryInflated_wellFormed st compressed :
  wellFormed st ->
  match tryInflated inflateRawSync stackDepth st compressed with
  | inl (st', _) => wellFormed st'
  | inr st' => wellFormed st'
  end.
Proof.
  intros Hst. unfold tryInflated.
  destruct (inflateRawSync compressed) as [d|]; [|done].
  destruct (0 <? length d)%nat; [|done].
  pose proof (decode_wellFormed st d Hst) as H.
  by destruct (decode _ _ st d) as [st1 [msgs|]].
Qed.

Lemma processServerData_wellFormed st data :
  wellFormed st -> wellFormed (processServerData inflateRawSync stackDepth st data).1.
Proof.
  intros Hst. unfold processServerData.
  destruct (length data <? 5)%nat; [by apply decode_wellFormed|].
  destruct (_ && _); [by apply decode_wellFormed|].
  destruct (_ || _); [|by apply decode_wellFormed].
  pose proof (tryInflated_wellFormed st data Hst) as H1.
  destruct (tryInflated _ _ st data) as [[st1 msgs]|st1]; [done|].
  destruct (Buf.readUInt16LE data 0) as [inlen|]; [|done].
  destruct (Buf.readUInt16LE data 2) as [outlen|]; [|done].
  destruct (_ && _); [|by apply decode_wellFormed].
  match goal with
  | |- context [tryInflated _ _ st1 ?c] =>
      pose proof (tryInflated_wellFormed st1 c H1) as H2;
      destruct (tryInflated inflateRawSync stackDepth st1 c) as [[st2 msgs]|st2]
  end; [done|by apply decode_wellFormed].
Qed.

Lemma handleMessage_wellFormed msg st :
  wellFormed st ->
  match handleMessage msg st with
  | Some (st', _) => wellFormed st'
  | None => True
  end.
Proof.
  intros Hst. destruct msg; cbn [handleMessage]; cbv zeta.
  - destruct (_ && _).
    + match goal with
      | |- context [resetTracker (entityTracker ?s) (heap ?s)] =>
          pose proof (resetTracker_wellFormed s) as H;
          destruct (resetTracker (entityTracker s) (heap s)) as [t h]
      end.
      specialize (H t h eq_refl).
      match goal with
      | |- context [sendSequencedResponse None false ?s] =>
          pose proof (sendSequencedResponse_wellFormed None false s
                        (setTimeout_wellFormed _ _ _ H)) as H';
          destruct (sendSequencedResponse None false s)
      end; done.
    + by apply emitEvent_wellFormed.
  - repeat lazymatch goal with
           | |- match (if ?c then _ else _) with _ => _ end => destruct c
           end; try done; by apply emitEvent_wellFormed.
  - destruct (JS.truthy _); [by apply emitEvent_wellFormed|done].
  - destruct (JS.truthy _); [by apply emitEvent_wellFormed|done].
  - pose proof (handleStufftext_wellFormed text st Hst) as H.
    by destruct (handleStufftext text st).
  - by apply handleDisconnect_wellFormed.
  - apply setTimeout_wellFormed, resetConnectionState_wellFormed.
  - done.
  - done.
Qed.

Lemma handleMessages_wellFormed msgs : forall st,
  wellFormed st ->
  match handleMessages msgs st with
  | Some (st', _) => wellFormed st'
  | None => True
  end.
Proof.
  induction msgs as [|msg rest IH]; intros st Hst; cbn [handleMessages]; [done|].
  pose proof (handleMessage_wellFormed msg st Hst) as H.
  destruct (handleMessage msg st) as [[st1 [|]]|]; cbn [mbind option_bind];
    [by apply IH|done|done].
Qed.

Lemma netchanProcess_wellFormed parsed st :
  wellFormed st -> wellFormed (resultState (netchanProcess parsed st)).
Proof.
  intros Hst. unfold netchanProcess, commit, appendFragment, startFragments, recordAck.
  repeat match goal with
         | |- context [if ?c then _ else _] => destruct c
         | |- context [match data parsed with _ => _ end] => destruct (data parsed)
         end; done.
Qed.

Lemma handleSequenced_wellFormed parsed st :
  wellFormed st -> actionOK (handleSequenced inflateRawSync stackDepth parsed st).
Proof.
  intros Hst. unfold handleSequenced.
  pose proof (netchanProcess_wellFormed parsed st Hst) as H.
  destruct (netchanProcess parsed st) as [st1|st1 hasData d]; cbn [resultState] in H;
    [done|].
  destruct (if hasData then d else None) as [payload|];
    [|by apply sendSequencedResponse_wellFormed].
  pose proof (processServerData_wellFormed st1 payload H) as H1.
  destruct (processServerData _ _ st1 payload) as [st2 [msgs|]]; [|done].
  pose proof (handleMessages_wellFormed msgs st2 H1) as H2.
  destruct (handleMessages msgs st2) as [[st3 [|]]|]; cbn [mbind option_bind];
    [|done|done].
  by apply sendSequencedResponse_wellFormed.
Qed.

Lemma selectProtocol_wellFormed l st : wellFormed st -> wellFormed (selectProtocol l st).
Proof.
  intros Hst. unfold selectProtocol.
  repeat match goal with |- context [if ?c then _ else _] => destruct c end; done.
Qed.

(** Whatever datagram arrives, the client is well formed after it. *)
Lemma handleServerPacket_wellFormed now buffer st :
  wellFormed st ->
  actionOK (handleServerPacket inflateRawSync stackDepth now buffer st).
Proof.
  intros Hst. unfold handleServerPacket.
  destruct (parseOOBPacket buffer) as [parsed|]; [|done].
  destruct parsed; cbv beta iota zeta.
  all: lazymatch goal with
       | |- wellFormed (setTimeout _ _ (selectProtocol _ _)) =>
           by apply setTimeout_wellFormed, selectProtocol_wellFormed
       | |- wellFormed (setTimeout _ _ _) =>
           apply setTimeout_wellFormed, emitEvent_wellFormed;
           destruct (_ !! _) as [nc|]; [|done]; by destruct (JS.truthy nc)
       | |- wellFormed (handleDisconnect _ _) => by apply handleDisconnect_wellFormed
       | |- wellFormed _ => done
       | |- match (if _ then _ else _) with _ => _ end =>
           destruct (JS.truthy _); [by apply emitEvent_wellFormed|done]
       | |- _ => by apply handleSequenced_wellFormed
       end.
Qed.

End ClientWellFormed.

(** ** C7: truncation *)

Section Truncation.

Variable inflateRawSync : Buffer -> option Buffer.
Variable parseNested : Q2Client -> Buffer -> Decoded.

(** An opcode that is cut short makes [dispatch] return at once, with no
    message and the state as it was. *)
Lemma dispatch_cutShort st data isNested cmd idx :
  cutShort data cmd idx = true ->
  dispatch inflateRawSync parseNested st data isNested cmd idx = Return st [].
Proof.
  unfold cutShort. intros H.
  repeat (apply orb_true_iff in H as [H|H]);
    apply andb_true_iff in H as [Hc Hn];
    repeat (apply orb_true_iff in Hc as [Hc|Hc]);
    apply Z.eqb_eq in Hc; subst cmd; apply Nat.ltb_lt in Hn.
  - change (dispatch inflateRawSync parseNested st data isNested SVC.TEMP_ENTITY idx)
      with (match Buf.get data idx with
            | None => Return st []
            | Some teType => Continue st (S idx + skipTempEntity teType)%nat []
            end).
    by rewrite get_None by lia.
  - change (dispatch inflateRawSync parseNested st data isNested SVC.PRINT idx)
      with (match Buf.get data idx with
            | None => Return st []
            | Some level =>
                let r := readCString data (S idx) in
                let cleanText := cleanQuakeString (value r) in
                Continue st (nextIndex r)
                  (if JS.truthy cleanText then [MPrint level cleanText] else [])
            end).
    by rewrite get_None by lia.
  - change (dispatch inflateRawSync parseNested st data isNested SVC.SOUND idx)
      with (parseSound st data idx).
    unfold parseSound. by rewrite get_None by lia.
  - change (dispatch inflateRawSync parseNested st data isNested SVC.CONFIGSTRING idx)
      with (parseConfigString st data idx).
    unfold parseConfigString.
    by replace (length data <? idx + 2)%nat with true by (symmetry; apply Nat.ltb_lt; lia).
  - change (dispatch inflateRawSync parseNested st data isNested SVC.DOWNLOAD idx)
      with (parseDownload st data idx).
    unfold parseDownload.
    by replace (length data <? idx + 2)%nat with true by (symmetry; apply Nat.ltb_lt; lia).
  - change (dispatch inflateRawSync parseNested st data isNested SVC.FRAME idx)
      with (parseFrame st data idx).
    unfold parseFrame.
    by replace (length data <? idx + 4)%nat with true by (symmetry; apply Nat.ltb_lt; lia).
  - change (dispatch inflateRawSync parseNested st data isNested SVC.ZPACKET idx)
      with (parseZPacket inflateRawSync parseNested st data idx).
    unfold parseZPacket.
    by replace (length data <? idx + 4)%nat with true by (symmetry; apply Nat.ltb_lt; lia).
  - change (dispatch inflateRawSync parseNested st data isNested SVC.ZPACKET idx)
      with (parseZPacket inflateRawSync parseNested st data idx).
    unfold parseZPacket.
    destruct (length data <? idx + 4)%nat eqn:E4; [done|].
    apply Nat.ltb_ge in E4.
    destruct (readUInt16LE_Some data idx) as [inlen Hin]; [lia|].
    destruct (readUInt16LE_Some data (idx + 2)) as [outlen Hout]; [lia|].
    rewrite Hin in *. cbn [try_ from_option id] in *. rewrite Hout. cbn [try_].
    by replace (length data <? idx + 2 + 2 + Z.to_nat inlen)%nat with true
      by (symmetry; apply Nat.ltb_lt; lia).
  - change (dispatch inflateRawSync parseNested st data isNested SVC.SETTING idx)
      with (if (length data <? idx + 8)%nat then Return st []
            else Continue st (idx + 8)%nat []).
    by replace (length data <? idx + 8)%nat with true by (symmetry; apply Nat.ltb_lt; lia).
  - change (dispatch inflateRawSync parseNested st data isNested SVC.SERVERDATA idx)
      with (parseServerData st data idx).
    unfold parseServerData.
    by replace (length data <? idx + 9)%nat with true by (symmetry; apply Nat.ltb_lt; lia).
Qed.

Lemma parseStep_cutShort st data isNested idx :
  (idx < length data)%nat ->
  cutShort data (commandAt data idx).1 (commandAt data idx).2 = true ->
  parseStep inflateRawSync parseNested st data isNested idx = Return st [].
Proof.
  intros Hi H. unfold parseStep.
  replace (length data <? S idx)%nat with false by (symmetry; apply Nat.ltb_ge; lia).
  unfold commandAt in H.
  destruct (extendCommand data _ (S idx)) as [cmd idx'].
  by apply dispatch_cutShort.
Qed.

End Truncation.


Lemma slice2_elem (l : Buffer) i j b : b ∈ Buf.slice2 l i j -> b ∈ l.
Proof.
  unfold Buf.slice2. intros H. by apply (subseteq_drop i l), (subseteq_take (j - i)).
Qed.


(** The payload of the witness, decoded from its start: a print record,
    then a CONFIGSTRING with one byte of its index missing. *)
Example truncated_configstring :
  snd (parseGameMessage noInflate 1 freshClient (bytes [10; 1; 104; 105; 0; 13; 5]) false)
  = Some [MPrint 1 "hi"].
Proof. vm_compute. reflexivity. Qed.


(** * Further properties of the client *)

(** ** Strings read from a buffer *)

Lemma fromString_latin1 (l : Buffer) : Buf.fromString (Buf.latin1 l) = l.
Proof. apply list_byte_of_string_of_list_byte. Qed.

Lemma latin1_length (l : Buffer) : String.length (Buf.latin1 l) = length l.
Proof. by rewrite <- fromString_length, fromString_latin1. Qed.

Lemma charCode_ascii_of_byte b : JS.charCode (ascii_of_byte b) = Buf.u8 b.
Proof. by rewrite <- u8_byte_of_ascii, byte_of_ascii_of_byte. Qed.

Lemma scanNul_le (l : Buffer) : (scanNul l <= length l)%nat.
Proof. induction l as [|b l IH]; simpl; [lia|]. destruct (Buf.u8 b =? 0); lia. Qed.

Lemma scanNul_stop (l : Buffer) :
  (scanNul l < length l)%nat -> Buf.u8 <$> l !! scanNul l = Some 0.
Proof.
  induction l as [|b l IH]; simpl; [lia|]. intros H.
  destruct (Buf.u8 b =? 0) eqn:E.
  - simpl. f_equal. lia.
  - simpl. apply IH. lia.
Qed.

Lemma latin1_cons b (l : Buffer) :
  Buf.latin1 (b :: l) = String (ascii_of_byte b) (Buf.latin1 l).
Proof. reflexivity. Qed.

Lemma nulFree_latin1_take (l : Buffer) :
  nulFree (Buf.latin1 (take (scanNul l) l)) = true.
Proof.
  induction l as [|b l IH]; [done|]. cbn [scanNul].
  destruct (Buf.u8 b =? 0) eqn:E; [done|].
  cbn [take]. rewrite latin1_cons. cbn [nulFree].
  by rewrite charCode_ascii_of_byte, E, IH.
Qed.

(** X1. [readCString] returns the bytes from the cursor up to the first
    NUL, or up to the end of the buffer when there is none: the text holds
    no NUL, it is those bytes read as latin-1, and the cursor moves past it
    and one byte more, NUL or not. So the cursor ends one past the end of
    the buffer after an unterminated string, and a read at or beyond the
    end gives the empty string. *)
Theorem readCString_shape (buffer : Buffer) (startIndex : nat) :
  let r := readCString buffer startIndex in
  let len := String.length (value r) in
  nulFree (value r) = true /\
  nextIndex r = (startIndex + len + 1)%nat /\
  Buf.fromString (value r) = take len (drop startIndex buffer) /\
  (len <= length buffer - startIndex)%nat /\
  ((startIndex + len < length buffer)%nat ->
     Buf.get buffer (startIndex + len) = Some 0) /\
  ((length buffer <= startIndex + len)%nat ->
     (length buffer < nextIndex r)%nat).
Proof.
  unfold readCString, Buf.slice2. cbn [value nextIndex].
  set (l := drop startIndex buffer).
  replace (startIndex + scanNul l - startIndex)%nat with (scanNul l) by lia.
  pose proof (scanNul_le l) as Hle.
  assert (Hl : length l = (length buffer - startIndex)%nat)
    by (subst l; apply length_drop).
  assert (Hlen : String.length (Buf.latin1 (take (scanNul l) l)) = scanNul l).
  { rewrite latin1_length, length_take. lia. }
  rewrite Hlen.
  split; [apply nulFree_latin1_take|].
  split; [done|].
  split; [apply fromString_latin1|].
  split; [lia|].
  split; [|lia].
  intros H. unfold Buf.get.
  replace (buffer !! (startIndex + scanNul l)%nat) with (l !! scanNul l)
    by (subst l; apply lookup_drop).
  apply scanNul_stop. lia.
Qed.

(** ** The lenient readers *)

Lemma get_range (data : Buffer) i v : Buf.get data i = Some v -> 0 <= v < 256.
Proof.
  unfold Buf.get. destruct (data !! i) as [b|]; [|done].
  intros [= <-]. apply u8_bound.
Qed.

Lemma readUInt16LE_range (data : Buffer) i :
  (i + 2 <= length data)%nat ->
  exists v, Buf.readUInt16LE data i = Some v /\ 0 <= v < 65536.
Proof.
  intros H. unfold Buf.readUInt16LE.
  destruct (get_Some data i) as [v0 E0]; [lia|].
  destruct (get_Some data (i + 1)) as [v1 E1]; [lia|].
  rewrite E0, E1. simpl. eexists. split; [reflexivity|].
  apply get_range in E0, E1. lia.
Qed.

Lemma readUInt16LE_None (data : Buffer) i :
  (length data < i + 2)%nat -> Buf.readUInt16LE data i = None.
Proof.
  intros H. unfold Buf.readUInt16LE.
  destruct (Buf.get data i) as [v0|]; [|done]. simpl.
  by rewrite get_None by lia.
Qed.

Lemma readUInt32LE_range (data : Buffer) i :
  (i + 4 <= length data)%nat ->
  exists v, Buf.readUInt32LE data i = Some v /\ 0 <= v < 4294967296.
Proof.
  intros H. unfold Buf.readUInt32LE.
  destruct (get_Some data i) as [v0 E0]; [lia|].
  destruct (get_Some data (i + 1)) as [v1 E1]; [lia|].
  destruct (get_Some data (i + 2)) as [v2 E2]; [lia|].
  destruct (get_Some data (i + 3)) as [v3 E3]; [lia|].
  rewrite E0, E1, E2, E3. simpl. eexists. split; [reflexivity|].
  apply get_range in E0, E1, E2, E3. lia.
Qed.

Lemma readUInt32LE_None (data : Buffer) i :
  (length data < i + 4)%nat -> Buf.readUInt32LE data i = None.
Proof.
  intros H. unfold Buf.readUInt32LE.
  destruct (Buf.get data i) as [v0|] eqn:E0; [|done]. simpl.
  destruct (Buf.get data (i + 1)) as [v1|] eqn:E1; [|done]. simpl.
  destruct (Buf.get data (i + 2)) as [v2|] eqn:E2; [|done]. simpl.
  by rewrite get_None by lia.
Qed.

Lemma readUInt16_lenient : lenientRead 2 0 65536 readUInt16.
Proof.
  intros buffer idx. unfold readUInt16.
  destruct (decide (idx + 2 <= length buffer)%nat) as [H|H].
  - destruct (readUInt16LE_range buffer idx H) as (v & -> & Hv).
    cbn [value nextIndex]. repeat split; lia.
  - rewrite readUInt16LE_None by lia. cbn [value nextIndex].
    repeat split; lia.
Qed.

Lemma readInt16_lenient : lenientRead 2 (-32768) 32768 readInt16.
Proof.
  intros buffer idx. unfold readInt16, Buf.readInt16LE.
  destruct (decide (idx + 2 <= length buffer)%nat) as [H|H].
  - destruct (readUInt16LE_range buffer idx H) as (v & -> & Hv).
    cbn [fmap option_fmap option_map value nextIndex]. unfold Buf.toInt16.
    repeat split; try lia; destruct (v <? 32768) eqn:E; lia.
  - rewrite readUInt16LE_None by lia.
    cbn [fmap option_fmap option_map value nextIndex]. repeat split; lia.
Qed.

Lemma readInt32_lenient : lenientRead 4 (-2147483648) 2147483648 readInt32.
Proof.
  intros buffer idx. unfold readInt32, Buf.readInt32LE.
  destruct (decide (idx + 4 <= length buffer)%nat) as [H|H].
  - destruct (readUInt32LE_range buffer idx H) as (v & -> & Hv).
    cbn [fmap option_fmap option_map value nextIndex]. unfold Buf.toInt32.
    rewrite (Z.mod_small v) by lia.
    repeat split; try lia; destruct (v <? 2147483648) eqn:E; lia.
  - rewrite readUInt32LE_None by lia.
    cbn [fmap option_fmap option_map value nextIndex]. repeat split; lia.
Qed.

(** X2. The integer readers never fail and never leave the buffer. With
    enough bytes at the cursor each moves it by its width and returns a
    value of its range: a signed short for [readInt16], an unsigned short
    for [readUInt16], a signed 32-bit number for [readInt32]. With fewer
    bytes left each returns 0 and parks the cursor on [buffer.length], so
    that the cursor is never beyond the end afterwards. *)
Theorem readers_are_lenient :
  lenientRead 2 (-32768) 32768 readInt16 /\
  lenientRead 2 0 65536 readUInt16 /\
  lenientRead 4 (-2147483648) 2147483648 readInt32.
Proof.
  split; [apply readInt16_lenient|].
  split; [apply readUInt16_lenient|apply readInt32_lenient].
Qed.

(** ** [cleanQuakeString] *)

Lemma charCode_range c : 0 <= JS.charCode c < 256.
Proof.
  unfold JS.charCode. pose proof (N_ascii_bounded c). lia.
Qed.

Lemma charCode_fromCharCode z : 0 <= z < 256 -> JS.charCode (JS.fromCharCode z) = z.
Proof.
  intros H. unfold JS.charCode, JS.fromCharCode.
  rewrite N_ascii_embedding by lia. lia.
Qed.

Lemma cleanChars_allClean s : allClean (cleanChars s) = true.
Proof.
  induction s as [|ch s IH]; [done|]. cbn [cleanChars].
  pose proof (charCode_range ch) as Hr.
  set (c := if 128 <=? JS.charCode ch then JS.charCode ch - 128 else JS.charCode ch).
  assert (Hc : 0 <= c < 256) by (subst c; destruct (128 <=? JS.charCode ch) eqn:E; lia).
  destruct ((32 <=? c) && (c <? 127)) eqn:E1.
  - cbn [allClean]. unfold isCleanChar.
    by rewrite (charCode_fromCharCode c Hc), E1, IH.
  - destruct ((c =? 10) || (c =? 13)); [|done].
    cbn [allClean]. unfold isCleanChar.
    rewrite (charCode_fromCharCode 10) by lia. by rewrite IH.
Qed.

Lemma cleanChars_length s : (String.length (cleanChars s) <= String.length s)%nat.
Proof.
  induction s as [|ch s IH]; [done|]. cbn [cleanChars].
  repeat match goal with |- context [if ?c then _ else _] => destruct c end;
    cbn [String.length]; lia.
Qed.

Lemma trimStart_allClean s : allClean s = true -> allClean (JS.trimStart s) = true.
Proof.
  induction s as [|c s IH]; [done|]. intros H. cbn [JS.trimStart].
  destruct (JS.isWhiteSpace c); [|done].
  cbn [allClean] in H. apply andb_true_iff in H as [_ H]. by apply IH.
Qed.

Lemma trimStart_start s : startsWithWhiteSpace (JS.trimStart s) = false.
Proof.
  induction s as [|c s IH]; [done|]. cbn [JS.trimStart].
  destruct (JS.isWhiteSpace c) eqn:E; [done|]. exact E.
Qed.

Lemma trimStart_length s : (String.length (JS.trimStart s) <= String.length s)%nat.
Proof.
  induction s as [|c s IH]; [done|]. cbn [JS.trimStart].
  destruct (JS.isWhiteSpace c); cbn [String.length]; lia.
Qed.

Lemma trimStart_noop s : startsWithWhiteSpace s = false -> JS.trimStart s = s.
Proof. destruct s as [|c s]; [done|]. cbn. by intros ->. Qed.

Lemma trimEnd_allClean s : allClean s = true -> allClean (JS.trimEnd s) = true.
Proof.
  induction s as [|c s IH]; [done|]. intros H.
  cbn [allClean] in H. apply andb_true_iff in H as [Hc H].
  cbn [JS.trimEnd]. destruct (JS.isWhiteSpace c && JS.isEmpty (JS.trimEnd s)); [done|].
  cbn [allClean]. by rewrite Hc, IH.
Qed.

Lemma trimEnd_end s : endsWithWhiteSpace (JS.trimEnd s) = false.
Proof.
  induction s as [|c s IH]; [done|]. cbn [JS.trimEnd].
  destruct (JS.isWhiteSpace c && JS.isEmpty (JS.trimEnd s)) eqn:E; [done|].
  destruct (JS.trimEnd s) as [|d t] eqn:Et.
  - cbn [endsWithWhiteSpace JS.isEmpty] in *. by rewrite andb_true_r in E.
  - exact IH.
Qed.

Lemma trimEnd_start s :
  startsWithWhiteSpace s = false -> startsWithWhiteSpace (JS.trimEnd s) = false.
Proof.
  destruct s as [|c s]; [done|]. cbn [startsWithWhiteSpace JS.trimEnd].
  intros H. rewrite H. cbn [andb startsWithWhiteSpace]. exact H.
Qed.

Lemma trimEnd_length s : (String.length (JS.trimEnd s) <= String.length s)%nat.
Proof.
  induction s as [|c s IH]; [done|]. cbn [JS.trimEnd].
  destruct (JS.isWhiteSpace c && JS.isEmpty (JS.trimEnd s)); cbn [String.length]; lia.
Qed.

Lemma trimEnd_noop s : endsWithWhiteSpace s = false -> JS.trimEnd s = s.
Proof.
  induction s as [|c s IH]; [done|]. intros H. cbn [JS.trimEnd].
  destruct s as [|d s].
  - cbn in H. by rewrite H.
  - rewrite (IH H). cbn. by rewrite andb_false_r.
Qed.

Lemma cleanChars_clean s : allClean s = true -> cleanChars s = s.
Proof.
  induction s as [|ch s IH]; [done|]. intros H.
  cbn [allClean] in H. apply andb_true_iff in H as [Hc H].
  cbn [cleanChars]. rewrite (IH H).
  unfold isCleanChar in Hc.
  pose proof (charCode_range ch) as Hr.
  apply orb_true_iff in Hc as [Hc|Hc].
  - apply andb_true_iff in Hc as [H1 H2].
    replace (128 <=? JS.charCode ch) with false by (symmetry; lia).
    by rewrite H1, H2, fromCharCode_charCode.
  - apply Z.eqb_eq in Hc.
    replace (128 <=? JS.charCode ch) with false by (symmetry; lia).
    replace ((32 <=? JS.charCode ch) && (JS.charCode ch <? 127)) with false
      by (symmetry; apply andb_false_iff; left; lia).
    replace (JS.charCode ch =? 10) with true by (symmetry; lia).
    cbn [orb]. f_equal. rewrite <- Hc. apply fromCharCode_charCode.
Qed.

(** X3. Whatever the input, the string that [cleanQuakeString] returns
    holds only printable ASCII (0x20 to 0x7E) and line feeds, neither
    begins nor ends with white space, and is no longer than the input. *)
Theorem cleanQuakeString_clean (s : string) :
  allClean (cleanQuakeString s) = true /\
  startsWithWhiteSpace (cleanQuakeString s) = false /\
  endsWithWhiteSpace (cleanQuakeString s) = false /\
  (String.length (cleanQuakeString s) <= String.length s)%nat.
Proof.
  unfold cleanQuakeString, JS.trim.
  split; [apply trimEnd_allClean, trimStart_allClean, cleanChars_allClean|].
  split; [apply trimEnd_start, trimStart_start|].
  split; [apply trimEnd_end|].
  pose proof (trimEnd_length (JS.trimStart (cleanChars s))).
  pose proof (trimStart_length (cleanChars s)).
  pose proof (cleanChars_length s). lia.
Qed.

Lemma cleanQuakeString_fixed s :
  allClean s = true -> startsWithWhiteSpace s = false -> endsWithWhiteSpace s = false ->
  cleanQuakeString s = s.
Proof.
  intros Hc Hs He. unfold cleanQuakeString, JS.trim.
  rewrite (cleanChars_clean s Hc), (trimStart_noop s Hs). by apply trimEnd_noop.
Qed.

(** X4. [cleanQuakeString] is idempotent: cleaning a cleaned string changes
    nothing. The names and texts that the client stores and emits are
    therefore stable under a second cleaning. *)
Theorem cleanQuakeString_idempotent (s : string) :
  cleanQuakeString (cleanQuakeString s) = cleanQuakeString s.
Proof.
  apply cleanQuakeString_fixed.
  - apply trimEnd_allClean, trimStart_allClean, cleanChars_allClean.
  - apply trimEnd_start, trimStart_start.
  - apply trimEnd_end.
Qed.

Lemma cleanChars_clearHighBit s : cleanChars (clearHighBit s) = cleanChars s.
Proof.
  induction s as [|ch s IH]; [done|]. cbn [clearHighBit cleanChars].
  pose proof (charCode_range ch) as Hr.
  assert (Hm : 0 <= JS.charCode ch mod 128 < 128) by (apply Z.mod_pos_bound; lia).
  rewrite (charCode_fromCharCode (JS.charCode ch mod 128)) by lia.
  replace (128 <=? JS.charCode ch mod 128) with false by (symmetry; lia).
  rewrite IH.
  destruct (128 <=? JS.charCode ch) eqn:E.
  - replace (JS.charCode ch mod 128) with (JS.charCode ch - 128); [done|].
    apply (Z.mod_unique _ _ 1); lia.
  - by rewrite Z.mod_small by lia.
Qed.

(** X5. [cleanQuakeString] does not see the high bit of a character, which
    Quake uses for coloured text: a string and the same string with the
    high bits cleared are cleaned to the same text, and so are any two
    strings that differ only in high bits. *)
Theorem cleanQuakeString_ignores_high_bit :
  (forall s, cleanQuakeString (clearHighBit s) = cleanQuakeString s) /\
  (forall s1 s2, clearHighBit s1 = clearHighBit s2 ->
                 cleanQuakeString s1 = cleanQuakeString s2).
Proof.
  assert (H : forall s, cleanQuakeString (clearHighBit s) = cleanQuakeString s).
  { intros s. unfold cleanQuakeString. by rewrite cleanChars_clearHighBit. }
  split; [exact H|].
  intros s1 s2 E. by rewrite <- (H s1), <- (H s2), E.
Qed.

(** ** The bits of an entity delta *)

Lemma land_pow2_small a n : 0 <= n -> 0 <= a < 2 ^ n -> Z.land a (2 ^ n) = 0.
Proof.
  intros Hn Ha. apply Z.bits_inj'. intros i Hi.
  rewrite Z.land_spec, Z.bits_0, Z.pow2_bits_eqb by lia.
  destruct (Z.eqb_spec n i) as [<-|_]; [|apply andb_false_r].
  rewrite andb_true_r.
  destruct (Z.eq_dec a 0) as [->|Hz]; [apply Z.bits_0|].
  apply Z.bits_above_log2; [lia|]. apply Z.log2_lt_pow2; lia.
Qed.

Lemma flag_small b mask : 0 <= b < 256 -> In mask [U_MOREBITS2; U_MOREBITS3] ->
  flag b mask = false.
Proof.
  intros Hb [<-|[<-|[]]]; unfold flag; apply negb_false_iff, Z.eqb_eq.
  - apply (land_pow2_small b 15); [lia|]. change (2 ^ 15) with 32768. lia.
  - apply (land_pow2_small b 23); [lia|]. change (2 ^ 23) with 8388608. lia.
Qed.

(** X6. [parseEntityBits] reads one to four bytes and never reads beyond
    the end of the buffer: at the end it returns no bits and leaves the
    cursor where it was; otherwise it moves the cursor forward, by at most
    four bytes and never past the end; and when the first byte does not
    carry [U_MOREBITS1] the bits are that byte alone and the cursor moves
    by one. *)
Theorem parseEntityBits_shape (data : Buffer) (idx : nat) :
  let r := parseEntityBits data idx in
  (idx <= nextIndex r <= idx + 4)%nat /\
  (nextIndex r <= Nat.max idx (length data))%nat /\
  ((length data <= idx)%nat -> r = mkRead 0 idx) /\
  (forall b0, Buf.get data idx = Some b0 ->
     (idx < nextIndex r)%nat /\
     (flag b0 U_MOREBITS1 = false -> r = mkRead b0 (S idx))).
Proof.
  unfold parseEntityBits.
  destruct (Buf.get data idx) as [b0|] eqn:E0.
  - assert (Hin : (idx < length data)%nat).
    { destruct (decide (idx < length data)%nat) as [H|H]; [done|].
      rewrite get_None in E0 by lia. done. }
    assert (Hget : forall i v, Buf.get data i = Some v -> (i < length data)%nat).
    { intros i v Hv. destruct (decide (i < length data)%nat) as [H|H]; [done|].
      rewrite get_None in Hv by lia. done. }
    cbv zeta. cbn [value nextIndex].
    split; [|split; [|split]].
    + repeat match goal with
             | |- context [if ?c then _ else _] => destruct c; cbn [value nextIndex id]
             | |- context [match Buf.get data ?i with _ => _ end] =>
                 destruct (Buf.get data i); cbn [value nextIndex id]
             end; lia.
    + repeat match goal with
             | |- context [if ?c then _ else _] => destruct c; cbn [value nextIndex id]
             | |- context [match Buf.get data ?i with _ => _ end] =>
                 let E := fresh "E" in
                 destruct (Buf.get data i) eqn:E; cbn [value nextIndex id];
                 [apply Hget in E|]
             end; lia.
    + intros H. lia.
    + intros b [= <-]. split.
      * repeat match goal with
               | |- context [if ?c then _ else _] => destruct c; cbn [value nextIndex id]
               | |- context [match Buf.get data ?i with _ => _ end] =>
                   destruct (Buf.get data i); cbn [value nextIndex id]
               end; lia.
      * intros ->. cbn [value nextIndex].
        pose proof (get_range data idx b0 E0) as Hb.
        rewrite (flag_small b0 U_MOREBITS2 Hb) by (cbn; tauto).
        by rewrite (flag_small b0 U_MOREBITS3 Hb) by (cbn; tauto).
  - cbn [value nextIndex]. split; [lia|]. split; [lia|]. split; [done|]. done.
Qed.

(** ** The entity tables *)

Lemma inRange_spec n : inRange n = true <-> 0 <= n < MAX_EDICTS.
Proof. unfold inRange. rewrite andb_true_iff. lia. Qed.

Lemma getEntity_insert_ne t m n e :
  m <> n -> inRange n = true ->
  getEntity (set_entities (<[Z.to_nat n := e]> (entities t)) t) m = getEntity t m.
Proof.
  intros Hne Hn. unfold getEntity. cbn [entities set_entities].
  destruct (inRange m) eqn:Hm; [|done].
  apply inRange_spec in Hm, Hn.
  rewrite list_lookup_insert_ne by lia. done.
Qed.

(** X7. [updateEntity] is local. Out of range it returns [null] and leaves
    the tracker as it was. In range it returns the entity of that slot,
    which [getEntity] then gives back with the number of the slot,
    [active] the negation of the delta's [removed], every other field of
    the delta, and [removed] set if the delta or the entity had it set
    (a removal mark is never cleared); the baselines, the player states
    and every other slot are untouched. *)
Theorem updateEntity_local (t : EntityTracker) (n : Z) (delta : Entity) :
  tablesFull t ->
  (inRange n = false -> updateEntity n delta t = Some (t, None)) /\
  (inRange n = true ->
     exists t' old e,
       getEntity t n = JObj old /\
       updateEntity n delta t = Some (t', Some (Z.to_nat n)) /\
       getEntity t' n = JObj e /\
       number e = n /\ active e = negb (removed delta) /\
       removed e = removed delta || removed old /\
       sameFields e delta /\
       baselines t' = baselines t /\
       playerState t' = playerState t /\
       previousPlayerState t' = previousPlayerState t /\
       tablesFull t' /\
       forall m, m <> n -> getEntity t' m = getEntity t m).
Proof.
  intros [Hb He]. split.
  - intros Hr. unfold updateEntity. by rewrite Hr.
  - intros Hr. unfold updateEntity. rewrite Hr. cbn [negb].
    pose proof (proj1 (inRange_spec n) Hr) as Hn. unfold MAX_EDICTS in *.
    destruct (lookup_lt_is_Some_2 (entities t) (Z.to_nat n)) as [old Hl]; [lia|].
    rewrite Hl. cbn [mbind option_bind].
    eexists _, old, _. split; [|split; [reflexivity|]].
    { unfold getEntity. by rewrite Hr, Hl. }
    split.
    { unfold getEntity. rewrite Hr. cbn [entities set_entities].
      rewrite list_lookup_insert_eq by lia. reflexivity. }
    split; [reflexivity|]. split; [reflexivity|]. split; [reflexivity|].
    split; [by repeat split|].
    split; [reflexivity|]. split; [reflexivity|]. split; [reflexivity|].
    split; [split; cbn [baselines entities set_entities]; [done|by rewrite length_insert]|].
    intros m Hm. by apply getEntity_insert_ne.
Qed.

Lemma updateEntity_local_witness :
  tablesFull newTracker /\
  (exists t' old e,
       getEntity newTracker 5 = JObj old /\
       updateEntity 5 someEntity newTracker = Some (t', Some (Z.to_nat 5)) /\
       getEntity t' 5 = JObj e /\
       number e = 5 /\ active e = negb (removed someEntity) /\
       removed e = removed someEntity || removed old /\
       sameFields e someEntity /\
       baselines t' = baselines newTracker /\
       playerState t' = playerState newTracker /\
       previousPlayerState t' = previousPlayerState newTracker /\
       tablesFull t' /\
       forall m, m <> 5 -> getEntity t' m = getEntity newTracker m).
Proof.
  split; [apply newEntityTracker_full|].
  apply (proj2 (updateEntity_local newTracker 5 someEntity
                  (newEntityTracker_full emptyHeap))).
  reflexivity.
Defined.

(** ** Objects shared between a delta, the entity and its baseline *)

Lemma parseEntityStateFromBits_addresses data idx bits baseline entityNum h :
  let state := (parseEntityStateFromBits data idx bits baseline entityNum h).1.1 in
  origin state = origin baseline /\ angles state = angles baseline /\
  (flag bits U_REMOVE = true \/ flag bits U_OLDORIGIN = false ->
   old_origin state = old_origin baseline).
Proof.
  unfold parseEntityStateFromBits. cbv zeta.
  destruct (flag bits U_REMOVE) eqn:Hrem; [by repeat split|].
  apply (run_inv (fun s : EState =>
                    origin s.1.1 = origin baseline /\ angles s.1.1 = angles baseline /\
                    (false = true \/ flag bits U_OLDORIGIN = false ->
                     old_origin s.1.1 = old_origin baseline)));
    [|by repeat split].
  repeat first [ apply Forall_nil_2 | apply Forall_cons_2 ];
    intros [[e i] h0] (Ho & Ha & Hoo).
  all: try (unfold when;
            match goal with |- context [if ?c then _ else _] => destruct c eqn:? end;
            [|by repeat split]).
  all: try (by repeat split).
  1-3: unfold wideField;
       repeat match goal with |- context [if ?c then _ else _] => destruct c end;
       by repeat split.
  cbn. split; [done|]. split; [done|]. intros [|]; congruence.
Qed.

Lemma e_step_byte (c : bool) data (set : Z -> Entity -> Entity) s i h :
  (forall v e, origin (set v e) = origin e /\ angles (set v e) = angles e) ->
  exists s', when c (byteField data set) (s, i, h) = (s', if c then S i else i, h) /\
             origin s' = origin s /\ angles s' = angles s.
Proof.
  intros Hset. destruct c; [|by exists s].
  eexists. split; [reflexivity|]. apply Hset.
Qed.

Lemma e_step_read (c : bool) rd data (set : Z -> Entity -> Entity) s i h :
  (forall v e, origin (set v e) = origin e /\ angles (set v e) = angles e) ->
  exists s', when c (readField rd data set) (s, i, h)
             = (s', if c then nextIndex (rd data i) else i, h) /\
             origin s' = origin s /\ angles s' = angles s.
Proof.
  intros Hset. destruct c; [|by exists s].
  eexists. split; [reflexivity|]. apply Hset.
Qed.

Lemma e_step_wide data bits m8 m16 (set : Z -> Entity -> Entity) s i h :
  (forall v e, origin (set v e) = origin e /\ angles (set v e) = angles e) ->
  exists s', wideField data bits m8 m16 set (s, i, h)
             = (s', if flag bits m8 && flag bits m16 then nextIndex (readInt32 data i)
                    else if flag bits m8 then S i
                    else if flag bits m16 then nextIndex (readUInt16 data i)
                    else i, h) /\
             origin s' = origin s /\ angles s' = angles s.
Proof.
  intros Hset. unfold wideField.
  destruct (flag bits m8), (flag bits m16); cbn [andb];
    try (eexists; split; [reflexivity|]; apply Hset).
  by exists s.
Qed.

Lemma e_step_origin (c : bool) data set s i h :
  when c (originField data set) (s, i, h)
  = (s, if c then nextIndex (readCoord data i) else i,
     if c then updVec (origin s) (set (value (readCoord data i))) h else h).
Proof. by destruct c. Qed.

Lemma e_step_angle (c : bool) data set s i h :
  when c (angleField data set) (s, i, h)
  = (s, if c then nextIndex (readAngle data i) else i,
     if c then updAngles (angles s) (set (value (readAngle data i))) h else h).
Proof. by destruct c. Qed.

Lemma vecs_cond_upd (c : bool) l f h v :
  vecs h !! l = Some v ->
  vecs (if c then updVec l f h else h) !! l = Some (if c then f v else v).
Proof.
  intros H. destruct c; [|done]. cbn [updVec vecs].
  by rewrite list_lookup_alter_eq, H.
Qed.

Lemma angs_cond_upd (c : bool) l f h a :
  angs h !! l = Some a ->
  angs (if c then updAngles l f h else h) !! l = Some (if c then f a else a).
Proof.
  intros H. destruct c; [|done]. cbn [updAngles angs].
  by rewrite list_lookup_alter_eq, H.
Qed.

Lemma vecs_cond_updAngles (c : bool) l f h :
  vecs (if c then updAngles l f h else h) = vecs h.
Proof. by destruct c. Qed.

Lemma angs_cond_updVec (c : bool) l f h :
  angs (if c then updVec l f h else h) = angs h.
Proof. by destruct c. Qed.

(** What a delta that is no removal leaves in the origin and the angles of
    its baseline. *)
Lemma parseEntityStateFromBits_objects data idx bits b n h v0 a0 :
  flag bits U_REMOVE = false ->
  vecs h !! origin b = Some v0 -> angs h !! angles b = Some a0 ->
  let i0 := originCursor data idx bits in
  let cx := readCoord data i0 in
  let i1 := if flag bits U_ORIGIN1 then nextIndex cx else i0 in
  let cy := readCoord data i1 in
  let i2 := if flag bits U_ORIGIN2 then nextIndex cy else i1 in
  let cz := readCoord data i2 in
  let i3 := if flag bits U_ORIGIN3 then nextIndex cz else i2 in
  let ap := readAngle data i3 in
  let i4 := if flag bits U_ANGLE1 then nextIndex ap else i3 in
  let ay := readAngle data i4 in
  let i5 := if flag bits U_ANGLE2 then nextIndex ay else i4 in
  let ar := readAngle data i5 in
  vecs (parseEntityStateFromBits data idx bits b n h).2 !! origin b
  = Some {| x := if flag bits U_ORIGIN1 then value cx else x v0;
            y := if flag bits U_ORIGIN2 then value cy else y v0;
            z := if flag bits U_ORIGIN3 then value cz else z v0 |} /\
  angs (parseEntityStateFromBits data idx bits b n h).2 !! angles b
  = Some {| pitch := if flag bits U_ANGLE1 then value ap else pitch a0;
            yaw := if flag bits U_ANGLE2 then value ay else yaw a0;
            roll := if flag bits U_ANGLE3 then value ar else roll a0 |}.
Proof.
  intros Hrem Hv Ha. cbv zeta. unfold parseEntityStateFromBits. cbv zeta.
  rewrite Hrem.
  set (rest := [ when (flag bits U_OLDORIGIN) (oldOriginField data);
                 when (flag bits U_SOUND) (byteField data set_sound);
                 when (flag bits U_EVENT) (byteField data set_event);
                 when (flag bits U_SOLID) (readField readUInt16 data set_solid);
                 fun '(state, idx, h) => (set_active true state, idx, h) ]).
  assert (Hrest : forall s : EState,
            angs (foldl (fun s f => f s) s rest).2 = angs s.2 /\
            forall l v, vecs s.2 !! l = Some v ->
                        vecs (foldl (fun s f => f s) s rest).2 !! l = Some v).
  { intros s.
    apply (run_inv (fun s' : EState =>
                      angs s'.2 = angs s.2 /\
                      forall l v, vecs s.2 !! l = Some v -> vecs s'.2 !! l = Some v));
      [|done].
    subst rest. repeat first [ apply Forall_nil_2 | apply Forall_cons_2 ];
      intros [[e i] h0] [Hs1 Hs2]; unfold when;
      try match goal with |- context [if ?c then _ else _] => destruct c end;
      try done.
    unfold oldOriginField, allocVec. cbn [fst snd vecs angs].
    split; [done|]. intros l v Hl. apply lookup_app_l_Some. by apply Hs2. }
  unfold run. cbn [foldl].
  set (s0 := set_number n b).
  do 9 lazymatch goal with
       | |- context [when ?c (byteField data ?set) (?s, ?i, ?h')] =>
           destruct (e_step_byte c data set s i h' ltac:(done)) as (? & -> & ? & ?)
       | |- context [when ?c (readField ?rd data ?set) (?s, ?i, ?h')] =>
           destruct (e_step_read c rd data set s i h' ltac:(done)) as (? & -> & ? & ?)
       | |- context [wideField data bits ?m8 ?m16 ?set (?s, ?i, ?h')] =>
           destruct (e_step_wide data bits m8 m16 set s i h' ltac:(done))
             as (? & -> & ? & ?)
       end.
  lazymatch goal with
  | |- context [when _ (originField data set_x) (?s, _, _)] =>
      assert (Ho : origin s = origin b) by (subst s0; cbn [set_number origin] in *; congruence);
      assert (Hang : angles s = angles b)
        by (subst s0; cbn [set_number angles] in *; congruence)
  end.
  change (if flag bits U_RENDERFX8 && flag bits U_RENDERFX16 then _ else _)
    with (originCursor data idx bits).
  rewrite !e_step_origin, !e_step_angle, Ho, Hang.
  match goal with
  | |- context [foldl _ ?s rest] => destruct (Hrest s) as [Hra Hrv]
  end.
  cbn [snd] in Hra, Hrv. clear Hrest. clearbody rest.
  split.
  - apply Hrv. rewrite !vecs_cond_updAngles.
    etransitivity; [do 3 apply vecs_cond_upd; exact Hv|].
    destruct v0. by destruct (flag bits U_ORIGIN1), (flag bits U_ORIGIN2),
                              (flag bits U_ORIGIN3).
  - rewrite Hra.
    etransitivity;
      [do 3 apply angs_cond_upd; rewrite !angs_cond_updVec; exact Ha|].
    destruct a0. by destruct (flag bits U_ANGLE1), (flag bits U_ANGLE2),
                              (flag bits U_ANGLE3).
Qed.

(** X8. A delta never gets an origin or angles object of its own. The
    state that [parseEntityStateFromBits] builds on a baseline holds the
    very [origin] and [angles] objects of that baseline, whatever the bits,
    and [old_origin] too unless the delta carries one; so the entity that
    [updateEntity] then stores shares them with the baseline, which is
    itself left in its slot. Every coordinate and every angle that a delta
    carries is therefore written into the baseline's own objects: after a
    delta that is no removal, the origin of the baseline holds, for each
    of [x], [y] and [z], the coordinate that [readCoord] returns at its
    place in the stream when the bits select it, and what it held before
    otherwise, and the angles of the baseline hold likewise what
    [readAngle] returns for [pitch], [yaw] and [roll]. A removal leaves
    the heap as it was. *)
Theorem delta_shares_baseline_objects (data : Buffer) (idx : nat) (bits : Z)
    (t : EntityTracker) (n : Z) (b : Entity) (h : Heap) :
  tablesFull t -> inRange n = true ->
  baselines t !! Z.to_nat n = Some b ->
  let r := parseEntityStateFromBits data idx bits b n h in
  (exists t' e,
     updateEntity n r.1.1 t = Some (t', Some (Z.to_nat n)) /\
     getEntity t' n = JObj e /\
     origin e = origin b /\ angles e = angles b /\
     (flag bits U_REMOVE = true \/ flag bits U_OLDORIGIN = false ->
      old_origin e = old_origin b) /\
     baselines t' !! Z.to_nat n = Some b) /\
  (flag bits U_REMOVE = false ->
   forall v0 a0,
     vecs h !! origin b = Some v0 -> angs h !! angles b = Some a0 ->
     let i0 := originCursor data idx bits in
     let cx := readCoord data i0 in
     let i1 := if flag bits U_ORIGIN1 then nextIndex cx else i0 in
     let cy := readCoord data i1 in
     let i2 := if flag bits U_ORIGIN2 then nextIndex cy else i1 in
     let cz := readCoord data i2 in
     let i3 := if flag bits U_ORIGIN3 then nextIndex cz else i2 in
     let ap := readAngle data i3 in
     let i4 := if flag bits U_ANGLE1 then nextIndex ap else i3 in
     let ay := readAngle data i4 in
     let i5 := if flag bits U_ANGLE2 then nextIndex ay else i4 in
     let ar := readAngle data i5 in
     vecs r.2 !! origin b
     = Some {| x := if flag bits U_ORIGIN1 then value cx else x v0;
               y := if flag bits U_ORIGIN2 then value cy else y v0;
               z := if flag bits U_ORIGIN3 then value cz else z v0 |} /\
     angs r.2 !! angles b
     = Some {| pitch := if flag bits U_ANGLE1 then value ap else pitch a0;
               yaw := if flag bits U_ANGLE2 then value ay else yaw a0;
               roll := if flag bits U_ANGLE3 then value ar else roll a0 |}) /\
  (flag bits U_REMOVE = true -> r.2 = h).
Proof.
  intros Hfull Hr Hb r.
  destruct (parseEntityStateFromBits_addresses data idx bits b n h) as (Ho & Ha & Hoo).
  fold r in Ho, Ha, Hoo.
  split; [|split].
  - destruct Hfull as [Hlb Hle].
    pose proof (proj1 (inRange_spec n) Hr) as Hn. unfold MAX_EDICTS in *.
    destruct (lookup_lt_is_Some_2 (entities t) (Z.to_nat n)) as [old Hl]; [lia|].
    unfold updateEntity. rewrite Hr, Hl. cbn [negb mbind option_bind].
    eexists _, _. split; [reflexivity|]. split.
    { unfold getEntity. rewrite Hr. cbn [entities set_entities].
      rewrite list_lookup_insert_eq by lia. reflexivity. }
    repeat split; done.
  - intros Hrem v0 a0 Hv Hang.
    exact (parseEntityStateFromBits_objects data idx bits b n h v0 a0 Hrem Hv Hang).
  - intros Hrem. subst r. unfold parseEntityStateFromBits. cbv zeta. by rewrite Hrem.
Qed.

(** A delta for entity 5 that carries a model, the first and the third
    coordinate and the yaw, on the baseline of a new tracker. *)
Lemma delta_shares_baseline_objects_witness :
  tablesFull newTracker /\ inRange 5 = true /\
  baselines newTracker !! Z.to_nat 5 = Some emptyBaseline5 /\
  vecs newHeap !! origin emptyBaseline5 = Some (mkVec3 0 0 0) /\
  angs newHeap !! angles emptyBaseline5 = Some (mkAngles 0 0 0) /\
  let bits := Z.lor U_MODEL (Z.lor U_ORIGIN1 (Z.lor U_ORIGIN3 U_ANGLE2)) in
  let r := parseEntityStateFromBits (bytes [7; 8; 0; 16; 0; 64]) 0 bits
             emptyBaseline5 5 newHeap in
  vecs r.2 !! origin emptyBaseline5 = Some (mkVec3 8 0 16) /\
  angs r.2 !! angles emptyBaseline5 = Some (mkAngles 0 64 0).
Proof.
  assert (Hb : baselines newTracker !! Z.to_nat 5 = Some emptyBaseline5)
    by (vm_compute; reflexivity).
  assert (Hv : vecs newHeap !! origin emptyBaseline5 = Some (mkVec3 0 0 0))
    by (vm_compute; reflexivity).
  assert (Ha : angs newHeap !! angles emptyBaseline5 = Some (mkAngles 0 0 0))
    by (vm_compute; reflexivity).
  split; [apply newEntityTracker_full|]. split; [reflexivity|].
  split; [exact Hb|]. split; [exact Hv|]. split; [exact Ha|].
  cbv zeta.
  destruct (proj1 (proj2 (delta_shares_baseline_objects
                            (bytes [7; 8; 0; 16; 0; 64]) 0
                            (Z.lor U_MODEL (Z.lor U_ORIGIN1 (Z.lor U_ORIGIN3 U_ANGLE2)))
                            newTracker 5 emptyBaseline5 newHeap
                            (newEntityTracker_full emptyHeap) eq_refl Hb))
              ltac:(vm_compute; reflexivity) _ _ Hv Ha) as [H1 H2].
  split.
  - etransitivity; [exact H1|]. vm_compute. reflexivity.
  - etransitivity; [exact H2|]. vm_compute. reflexivity.
Defined.

Lemma pmoves_cond_upd (c : bool) a f h pm :
  pmoves h !! a = Some pm ->
  pmoves (if c then updPMove a f h else h) !! a = Some (if c then f pm else pm).
Proof.
  intros H. destruct c; [|done]. cbn [updPMove pmoves].
  by rewrite list_lookup_alter_eq, H.
Qed.

Lemma pm_step_byte (c : bool) data set ps i h :
  when c (pmByte data set) (ps, i, h)
  = (ps, if c then S i else i,
     if c then updPMove (pmove ps) (set (Buf.getOr 0 data i)) h else h).
Proof. by destruct c. Qed.

Lemma pm_step_vec (c : bool) data set ps i h :
  when c (pmVec data set) (ps, i, h)
  = (ps, if c then (readInt16x3 data i).2 else i,
     if c then updPMove (pmove ps)
                 (set (mkVec3 (readInt16x3 data i).1.1.1 (readInt16x3 data i).1.1.2
                              (readInt16x3 data i).1.2)) h
     else h).
Proof.
  destruct c; [|done]. unfold when, pmVec.
  by destruct (readInt16x3 data i) as [[[a b] c] i'].
Qed.

Lemma pm_step_gravity (c : bool) data ps i h :
  when c (pmGravity data) (ps, i, h)
  = (ps, if c then nextIndex (readInt16 data i) else i,
     if c then updPMove (pmove ps) (set_gravity (value (readInt16 data i))) h else h).
Proof. by destruct c. Qed.

Lemma pm_step_deltaAngles (c : bool) data ps i h :
  when c (pmDeltaAngles data) (ps, i, h)
  = (ps, if c then (readInt16x3 data i).2 else i,
     if c then updPMove (pmove ps)
                 (set_delta_angles
                    (mkAngles (readInt16x3 data i).1.1.1 (readInt16x3 data i).1.1.2
                              (readInt16x3 data i).1.2)) h
     else h).
Proof.
  destruct c; [|done]. unfold when, pmDeltaAngles.
  by destruct (readInt16x3 data i) as [[[a b] c] i'].
Qed.

(** Outside the movement block of the player state, the heap is as it
    was. *)
Lemma parsePlayerState_frame data idx flags t h :
  vecs (parsePlayerState data idx flags t h).2 = vecs h /\
  angs (parsePlayerState data idx flags t h).2 = angs h /\
  forall l, l <> pmove (playerState t) ->
            pmoves (parsePlayerState data idx flags t h).2 !! l = pmoves h !! l.
Proof.
  unfold parsePlayerState.
  apply (run_inv (fun s : PState =>
                    pmove s.1.1 = pmove (playerState t) /\
                    vecs s.2 = vecs h /\ angs s.2 = angs h /\
                    forall l, l <> pmove (playerState t) ->
                              pmoves s.2 !! l = pmoves h !! l)); [|done].
  repeat first [ apply Forall_nil_2 | apply Forall_cons_2 ];
    intros [[ps i] h0] (Hp & Hv & Ha & Hl); unfold when;
    match goal with |- context [if ?c then _ else _] => destruct c end;
    try done; cbn [fst snd] in *;
    unfold pmByte, pmVec, pmGravity, pmDeltaAngles, psViewOffset, psViewAngles,
      psKickAngles, psByte, psBlend, readInt16x3, bytes3;
    cbn [fst snd updPMove vecs angs pmoves pmove
         set_viewoffset set_viewangles set_kick_angles set_gunindex set_gunframe
         set_blend set_fov set_rdflags];
    (split; [done|]); (split; [done|]); (split; [done|]);
    try exact Hl;
    intros l Hne; rewrite list_lookup_alter_ne by congruence; by apply Hl.
Qed.

(** The movement block after [parsePlayerState]. *)
Lemma parsePlayerState_pmove data idx flags t h pm0 :
  pmoves h !! pmove (playerState t) = Some pm0 ->
  let i1 := if flag flags PS_M_TYPE then S idx else idx in
  let o := readInt16x3 data i1 in
  let i2 := if flag flags PS_M_ORIGIN then o.2 else i1 in
  let v := readInt16x3 data i2 in
  let i3 := if flag flags PS_M_VELOCITY then v.2 else i2 in
  let i4 := if flag flags PS_M_TIME then S i3 else i3 in
  let i5 := if flag flags PS_M_FLAGS then S i4 else i4 in
  let g := readInt16 data i5 in
  let i6 := if flag flags PS_M_GRAVITY then nextIndex g else i5 in
  let d := readInt16x3 data i6 in
  pmoves (parsePlayerState data idx flags t h).2 !! pmove (playerState t)
  = Some {| pm_type := if flag flags PS_M_TYPE then Buf.getOr 0 data idx
                       else pm_type pm0;
            pm_origin := if flag flags PS_M_ORIGIN
                         then mkVec3 o.1.1.1 o.1.1.2 o.1.2 else pm_origin pm0;
            pm_velocity := if flag flags PS_M_VELOCITY
                           then mkVec3 v.1.1.1 v.1.1.2 v.1.2 else pm_velocity pm0;
            pm_flags := if flag flags PS_M_FLAGS then Buf.getOr 0 data i4
                        else pm_flags pm0;
            pm_time := if flag flags PS_M_TIME then Buf.getOr 0 data i3
                       else pm_time pm0;
            gravity := if flag flags PS_M_GRAVITY then value g else gravity pm0;
            delta_angles := if flag flags PS_M_DELTA_ANGLES
                            then mkAngles d.1.1.1 d.1.1.2 d.1.2
                            else delta_angles pm0 |}.
Proof.
  intros Hpm. cbv zeta. unfold parsePlayerState.
  set (rest := [ when (flag flags PS_VIEWOFFSET) (psViewOffset data);
                 when (flag flags PS_VIEWANGLES) (psViewAngles data);
                 when (flag flags PS_KICKANGLES) (psKickAngles data);
                 when (flag flags PS_WEAPONINDEX) (psByte 0 data set_gunindex);
                 when (flag flags PS_WEAPONFRAME) (psByte 0 data set_gunframe);
                 when (flag flags PS_BLEND) (psBlend data);
                 when (flag flags PS_FOV) (psByte 90 data set_fov);
                 when (flag flags PS_RDFLAGS) (psByte 0 data set_rdflags) ]).
  assert (Hrest : forall s : PState, (run rest s).2 = s.2).
  { intros s. apply (run_inv (fun s' : PState => s'.2 = s.2)); [|done].
    subst rest. repeat first [ apply Forall_nil_2 | apply Forall_cons_2 ];
      intros [[ps i] h0] Hs; unfold when;
      match goal with |- context [if ?c then _ else _] => destruct c end;
      try done; unfold psViewOffset, bytes3; exact Hs. }
  unfold run in *. cbn [foldl]. rewrite Hrest. clear Hrest. clearbody rest.
  rewrite pm_step_byte, pm_step_vec, pm_step_vec, pm_step_byte, pm_step_byte,
    pm_step_gravity, pm_step_deltaAngles.
  cbn [snd].
  etransitivity.
  { do 7 apply pmoves_cond_upd. exact Hpm. }
  destruct pm0.
  repeat match goal with |- context [flag flags ?m] => destruct (flag flags m) end;
    reflexivity.
Qed.

(** X9. The player state that [parsePlayerState] decodes keeps the
    [pmove] object of the current player state, and writes the movement
    fields of the delta into it. After [updatePlayerState] the previous and
    the current player state therefore hold the same [pmove] object: the
    movement block of [previousPlayerState] always shows the latest
    values, never the previous ones. After the call that block holds, for
    each of the seven movement fields, what the delta carries for it at
    its place in the stream when the flags select it ([pm_type],
    [pm_time] and [pm_flags] a byte, [gravity] a short, [origin],
    [velocity] and [delta_angles] three shorts each, in the units of the
    wire), and what it held before otherwise; nothing else in the heap
    changes. *)
Theorem player_state_shares_pmove (data : Buffer) (idx : nat) (flags : Z)
    (t : EntityTracker) (h : Heap) (pm0 : PMove) :
  pmoves h !! pmove (playerState t) = Some pm0 ->
  let r := parsePlayerState data idx flags t h in
  let t' := updatePlayerState r.1.1 t in
  let i1 := if flag flags PS_M_TYPE then S idx else idx in
  let o := readInt16x3 data i1 in
  let i2 := if flag flags PS_M_ORIGIN then o.2 else i1 in
  let v := readInt16x3 data i2 in
  let i3 := if flag flags PS_M_VELOCITY then v.2 else i2 in
  let i4 := if flag flags PS_M_TIME then S i3 else i3 in
  let i5 := if flag flags PS_M_FLAGS then S i4 else i4 in
  let g := readInt16 data i5 in
  let i6 := if flag flags PS_M_GRAVITY then nextIndex g else i5 in
  let d := readInt16x3 data i6 in
  (pmove r.1.1 = pmove (playerState t) /\
   playerState t' = r.1.1 /\
   previousPlayerState t' = playerState t /\
   pmove (previousPlayerState t') = pmove (playerState t') /\
   baselines t' = baselines t /\ entities t' = entities t) /\
  pmoves r.2 !! pmove (playerState t)
  = Some {| pm_type := if flag flags PS_M_TYPE then Buf.getOr 0 data idx
                       else pm_type pm0;
            pm_origin := if flag flags PS_M_ORIGIN
                         then mkVec3 o.1.1.1 o.1.1.2 o.1.2 else pm_origin pm0;
            pm_velocity := if flag flags PS_M_VELOCITY
                           then mkVec3 v.1.1.1 v.1.1.2 v.1.2 else pm_velocity pm0;
            pm_flags := if flag flags PS_M_FLAGS then Buf.getOr 0 data i4
                        else pm_flags pm0;
            pm_time := if flag flags PS_M_TIME then Buf.getOr 0 data i3
                       else pm_time pm0;
            gravity := if flag flags PS_M_GRAVITY then value g else gravity pm0;
            delta_angles := if flag flags PS_M_DELTA_ANGLES
                            then mkAngles d.1.1.1 d.1.1.2 d.1.2
                            else delta_angles pm0 |} /\
  vecs r.2 = vecs h /\ angs r.2 = angs h /\
  (forall l, l <> pmove (playerState t) -> pmoves r.2 !! l = pmoves h !! l).
Proof.
  intros Hpm. cbv zeta.
  destruct (parsePlayerState_blocks data idx flags t h) as [Hp _].
  split.
  { cbn [updatePlayerState playerState previousPlayerState baselines entities].
    rewrite Hp. repeat split; done. }
  split; [exact (parsePlayerState_pmove data idx flags t h pm0 Hpm)|].
  apply parsePlayerState_frame.
Qed.

(** A delta that carries the movement type, the velocity and the gravity,
    on a new tracker. *)
Lemma player_state_shares_pmove_witness :
  pmoves newHeap !! pmove (playerState newTracker) = Some (mkPMove 0 (mkVec3 0 0 0)
    (mkVec3 0 0 0) 0 0 0 (mkAngles 0 0 0)) /\
  pmoves (parsePlayerState (bytes [4; 1; 0; 2; 0; 3; 0; 32; 3]) 0
            (Z.lor PS_M_TYPE (Z.lor PS_M_VELOCITY PS_M_GRAVITY)) newTracker newHeap).2
    !! pmove (playerState newTracker)
  = Some (mkPMove 4 (mkVec3 0 0 0) (mkVec3 1 2 3) 0 0 800 (mkAngles 0 0 0)).
Proof.
  assert (H : pmoves newHeap !! pmove (playerState newTracker)
              = Some (mkPMove 0 (mkVec3 0 0 0) (mkVec3 0 0 0) 0 0 0 (mkAngles 0 0 0)))
    by (vm_compute; reflexivity).
  split; [exact H|].
  etransitivity;
    [exact (proj1 (proj2 (player_state_shares_pmove
                            (bytes [4; 1; 0; 2; 0; 3; 0; 32; 3]) 0
                            (Z.lor PS_M_TYPE (Z.lor PS_M_VELOCITY PS_M_GRAVITY))
                            newTracker newHeap _ H)))|].
  vm_compute. reflexivity.
Defined.

(** ** The header of a sequenced packet *)

Lemma land_NEW_MASK v : 0 <= Z.land v NEW_MASK < 1073741824.
Proof.
  change NEW_MASK with (Z.ones 30). rewrite Z.land_ones by lia.
  change (2 ^ 30) with 1073741824. apply Z.mod_pos_bound. lia.
Qed.

Lemma land_7fff v : 0 <= Z.land v 0x7fff < 32768.
Proof.
  change 0x7fff with (Z.ones 15). rewrite Z.land_ones by lia.
  change (2 ^ 15) with 32768. apply Z.mod_pos_bound. lia.
Qed.

(** X10. What [parseSequencedPacket] makes of a datagram of at least eight
    bytes: the sequence and acknowledgement numbers are the low 30 bits of
    the two header words, so they lie below 2^30; a fragment offset lies
    below 2^15; the payload is everything after the header, which is ten
    bytes long for a fragment of at least ten bytes and eight bytes long
    otherwise, and [null] when nothing follows; a fragment shorter than
    ten bytes is given offset 0 and no more-fragments mark. *)
Theorem parseSequencedPacket_fields (buffer : Buffer) (p : SeqPacket) :
  parseSequencedPacket buffer = Some (PSequenced p) ->
  let off := if fragmented p && (10 <=? length buffer)%nat then 10%nat else 8%nat in
  (8 <= length buffer)%nat /\
  0 <= sequence p < 1073741824 /\
  0 <= ack p < 1073741824 /\
  Z.of_nat (fragmentOffset p) < 32768 /\
  data p = (if (off <? length buffer)%nat then Some (drop off buffer) else None) /\
  hasData p = (off <? length buffer)%nat /\
  (fragmented p && (10 <=? length buffer)%nat = false ->
   fragmentOffset p = 0%nat /\ moreFragments p = false).
Proof.
  unfold parseSequencedPacket.
  destruct (length buffer <? 8)%nat eqn:E8; [done|].
  apply Nat.ltb_ge in E8.
  assert (Hd : forall k, (k < length buffer)%nat ->
                         (0 <? length (drop k buffer))%nat = true).
  { intros k Hk. rewrite length_drop. apply Nat.ltb_lt. lia. }
  destruct (readUInt32LE_Some buffer 0) as [w1 ->]; [lia|].
  destruct (readUInt32LE_Some buffer 4) as [w2 ->]; [lia|].
  cbn [mbind option_bind].
  destruct (negb (Z.land w1 FRG_BIT =? 0) && (10 <=? length buffer)%nat) eqn:Ef.
  - apply andb_true_iff in Ef as [Ef E10]. apply Nat.leb_le in E10.
    destruct (readUInt16LE_Some buffer 8) as [fh ->]; [lia|].
    cbn [mbind option_bind]. intros [= <-].
    cbn [sequence ack fragmented fragmentOffset moreFragments data hasData].
    rewrite Ef. replace (10 <=? length buffer)%nat with true by (symmetry; by apply Nat.leb_le).
    cbn [andb].
    split; [lia|]. split; [apply land_NEW_MASK|]. split; [apply land_NEW_MASK|].
    split; [pose proof (land_7fff fh); rewrite Z2Nat.id; lia|].
    split; [done|]. split; [|done].
    unfold Buf.slice. destruct (10 <? length buffer)%nat eqn:E; [|done].
    apply Nat.ltb_lt in E. exact (Hd 10%nat E).
  - cbn [mbind option_bind]. intros [= <-].
    cbn [sequence ack fragmented fragmentOffset moreFragments data hasData].
    rewrite Ef.
    split; [lia|]. split; [apply land_NEW_MASK|]. split; [apply land_NEW_MASK|].
    split; [lia|]. split; [done|]. split; [|done].
    unfold Buf.slice. destruct (8 <? length buffer)%nat eqn:E; [|done].
    apply Nat.ltb_lt in E. exact (Hd 8%nat E).
Qed.

Lemma parseSequencedPacket_fields_witness :
  let buffer := sequenced 7 3 (bytes [6]) in
  let p := mkSeqPacket 7 false false 0 false 3 false true (Some (bytes [6])) in
  let off := if fragmented p && (10 <=? length buffer)%nat then 10%nat else 8%nat in
  parseSequencedPacket buffer = Some (PSequenced p) /\
  (8 <= length buffer)%nat /\
  0 <= sequence p < 1073741824 /\
  0 <= ack p < 1073741824 /\
  Z.of_nat (fragmentOffset p) < 32768 /\
  data p = (if (off <? length buffer)%nat then Some (drop off buffer) else None) /\
  hasData p = (off <? length buffer)%nat /\
  (fragmented p && (10 <=? length buffer)%nat = false ->
   fragmentOffset p = 0%nat /\ moreFragments p = false).
Proof.
  cbv zeta. split; [vm_compute; reflexivity|].
  apply (parseSequencedPacket_fields (sequenced 7 3 (bytes [6]))
           (mkSeqPacket 7 false false 0 false 3 false true (Some (bytes [6])))).
  vm_compute. reflexivity.
Defined.

(** ** Packets built by the client, read back *)

Lemma readUInt32LE_write v rest :
  0 <= v < 4294967296 -> Buf.readUInt32LE (Buf.writeUInt32LE v ++ rest) 0 = Some v.
Proof.
  intros Hv. unfold Buf.readUInt32LE, Buf.writeUInt32LE, Buf.get. cbn.
  rewrite !u8_ofZ. f_equal.
  pose proof (Z.div_mod v 256 ltac:(lia)) as H0.
  pose proof (Z.div_mod (v / 256) 256 ltac:(lia)) as H1.
  pose proof (Z.div_mod (v / 256 / 256) 256 ltac:(lia)) as H2.
  rewrite !Z.div_div in H1, H2 by lia.
  rewrite !Z.div_div in H2 by lia.
  change (256 * 256) with 65536 in *. change (65536 * 256) with 16777216 in *.
  rewrite (Z.mod_small (v / 16777216))
    by (split; [apply Z.div_pos; lia|apply Z.div_lt_upper_bound; lia]).
  lia.
Qed.

Lemma land_lor_same a b : Z.land (Z.lor a b) b = b.
Proof.
  apply Z.bits_inj'. intros i Hi. rewrite Z.land_spec, Z.lor_spec.
  by destruct (Z.testbit a i), (Z.testbit b i).
Qed.

Lemma lor_REL_BIT w :
  0 <= w < 1073741824 ->
  0 <= Z.lor w REL_BIT < 4294967296 /\
  Z.land (Z.lor w REL_BIT) REL_BIT = REL_BIT /\
  Z.land (Z.lor w REL_BIT) FRG_BIT = 0 /\
  Z.land (Z.lor w REL_BIT) NEW_MASK = w /\
  Z.lor w REL_BIT / 16777216 < 192.
Proof.
  intros Hw.
  assert (Hl : Z.land w REL_BIT = 0).
  { apply (land_pow2_small w 31); [lia|]. change (2 ^ 31) with 2147483648. lia. }
  assert (Hsum : Z.lor w REL_BIT = w + REL_BIT).
  { pose proof (Z.add_lor_land w REL_BIT) as H. rewrite Hl in H. lia. }
  split; [rewrite Hsum; unfold REL_BIT; lia|].
  split; [apply land_lor_same|].
  split.
  { rewrite Z.land_lor_distr_l. change (Z.land REL_BIT FRG_BIT) with 0.
    rewrite Z.lor_0_r. apply (land_pow2_small w 30); [lia|].
    change (2 ^ 30) with 1073741824. lia. }
  split.
  { rewrite Z.land_lor_distr_l. change (Z.land REL_BIT NEW_MASK) with 0.
    rewrite Z.lor_0_r. change NEW_MASK with (Z.ones 30).
    rewrite Z.land_ones by lia. apply Z.mod_small.
    change (2 ^ 30) with 1073741824. lia. }
  rewrite Hsum. unfold REL_BIT. apply Z.div_lt_upper_bound; lia.
Qed.

Lemma plain_word w :
  0 <= w < 1073741824 ->
  Z.land w REL_BIT = 0 /\ Z.land w FRG_BIT = 0 /\ Z.land w NEW_MASK = w /\
  w / 16777216 < 192.
Proof.
  intros Hw.
  split; [apply (land_pow2_small w 31); [lia|]; change (2 ^ 31) with 2147483648; lia|].
  split; [apply (land_pow2_small w 30); [lia|]; change (2 ^ 30) with 1073741824; lia|].
  split.
  { change NEW_MASK with (Z.ones 30). rewrite Z.land_ones by lia.
    apply Z.mod_small. change (2 ^ 30) with 1073741824. lia. }
  apply Z.div_lt_upper_bound; lia.
Qed.

(** A header word with its reliable bit, as the client writes it. *)
Lemma header_word w (rel : bool) :
  0 <= w < 1073741824 ->
  let v := if rel then Z.lor (toUInt32 w) 0x80000000 else toUInt32 w in
  0 <= v < 4294967296 /\
  negb (Z.land v REL_BIT =? 0) = rel /\
  negb (Z.land v FRG_BIT =? 0) = false /\
  Z.land v NEW_MASK = w /\
  v / 16777216 < 192.
Proof.
  intros Hw. cbv zeta.
  assert (Hu : toUInt32 w = w) by (unfold toUInt32; apply Z.mod_small; lia).
  rewrite Hu. destruct rel.
  - change 0x80000000 with REL_BIT.
    destruct (lor_REL_BIT w Hw) as (H1 & H2 & H3 & H4 & H5).
    rewrite H2, H3, H4. repeat split; try lia; done.
  - destruct (plain_word w Hw) as (H1 & H2 & H3 & H4).
    rewrite H1, H2, H3. repeat split; try lia; done.
Qed.

Lemma isOOB_header v rest :
  0 <= v < 4294967296 -> v / 16777216 < 192 ->
  isOOB (Buf.writeUInt32LE v ++ rest) = false.
Proof.
  intros Hv Hb. unfold isOOB.
  replace (bool_decide (Buf.get (Buf.writeUInt32LE v ++ rest) 3 = Some 255)) with false;
    [by rewrite andb_false_r|].
  symmetry. apply bool_decide_eq_false.
  unfold Buf.get, Buf.writeUInt32LE. cbn. rewrite u8_ofZ.
  rewrite Z.mod_small by (split; [apply Z.div_pos; lia|lia]).
  intros [= H]. lia.
Qed.

Lemma parse_built_packet w1 w2 (body : Buffer) :
  0 <= w1 < 4294967296 -> w1 / 16777216 < 192 -> 0 <= w2 < 4294967296 ->
  negb (Z.land w1 FRG_BIT =? 0) = false -> (0 < length body)%nat ->
  parseOOBPacket (Buf.writeUInt32LE w1 ++ Buf.writeUInt32LE w2 ++ body)
  = Some (PSequenced
            (mkSeqPacket (Z.land w1 NEW_MASK) (negb (Z.land w1 REL_BIT =? 0)) false
                         0 false (Z.land w2 NEW_MASK) (negb (Z.land w2 REL_BIT =? 0))
                         true (Some body))).
Proof.
  intros Hw1 Hb1 Hw2 Hfrg Hq.
  unfold parseOOBPacket, parseOOBPacketBody.
  rewrite isOOB_header by done. cbn [negb].
  unfold parseSequencedPacket.
  assert (Hlen : length (Buf.writeUInt32LE w1 ++ Buf.writeUInt32LE w2 ++ body)
                 = (8 + length body)%nat).
  { rewrite !length_app. reflexivity. }
  rewrite Hlen.
  replace (8 + length body <? 8)%nat with false by (symmetry; apply Nat.ltb_ge; lia).
  rewrite readUInt32LE_write by done.
  rewrite (readUInt32LE_app_r (Buf.writeUInt32LE w1) (Buf.writeUInt32LE w2 ++ body)
           : Buf.readUInt32LE (Buf.writeUInt32LE w1 ++ Buf.writeUInt32LE w2 ++ body) 4 = _).
  rewrite readUInt32LE_write by done.
  cbn [mbind option_bind].
  rewrite Hfrg. cbn [andb mbind option_bind].
  replace (8 <? 8 + length body)%nat with true by (symmetry; apply Nat.ltb_lt; lia).
  unfold Buf.slice.
  change (drop 8 (Buf.writeUInt32LE w1 ++ Buf.writeUInt32LE w2 ++ body)) with body.
  by replace (0 <? length body)%nat with true by (symmetry; apply Nat.ltb_lt; lia).
Qed.

Lemma createSequencedPacket_spec (payload : option Buffer) (rel : bool) (st : Q2Client) :
  0 <= outgoingSequence (netchan st) < 1073741824 ->
  0 <= incomingSequence (netchan st) < 1073741824 ->
  let packet := (createSequencedPacket payload rel st).1 in
  let st' := (createSequencedPacket payload rel st).2 in
  (exists p,
     parseOOBPacket packet = Some (PSequenced p) /\
     sequence p = outgoingSequence (netchan st) /\
     reliable p = rel /\
     fragmented p = false /\
     ack p = incomingSequence (netchan st) /\
     reliableAck p = negb (incomingReliableSequence (netchan st) =? 0) /\
     data p = Some (qportBytes st ++ payloadBytes payload)) /\
  outgoingSequence (netchan st') = outgoingSequence (netchan st) + 1 /\
  reliableSequence (netchan st')
  = (if rel then Z.lxor (reliableSequence (netchan st)) 1
     else reliableSequence (netchan st)) /\
  incomingSequence (netchan st') = incomingSequence (netchan st) /\
  log st' = log st.
Proof.
  intros Hout Hin. cbv zeta.
  destruct (header_word (outgoingSequence (netchan st)) rel Hout)
    as (Hw1 & Hrel1 & Hfrg1 & Hseq1 & Hb1).
  destruct (header_word (incomingSequence (netchan st))
              (negb (incomingReliableSequence (netchan st) =? 0)) Hin)
    as (Hw2 & Hrel2 & _ & Hseq2 & _).
  assert (Hq : (0 < length (qportBytes st ++ payloadBytes payload))%nat).
  { rewrite length_app. unfold qportBytes.
    destruct (PROTOCOL.VERSION_R1Q2 <=? serverProtocol (conn st)); cbn; lia. }
  pose proof (parse_built_packet _ _ _ Hw1 Hb1 Hw2 Hfrg1 Hq) as Hparse.
  rewrite Hrel1, Hrel2, Hseq1, Hseq2 in Hparse.
  split.
  - eexists. split.
    + etransitivity; [|exact Hparse]. f_equal. by destruct rel.
    + by repeat split.
  - by destruct rel.
Qed.

(** X11. A sequenced packet that the client builds reads back as what it
    meant. While both sequence numbers lie below 2^30, [parseOOBPacket]
    takes the packet of [createSequencedPacket] for a sequenced packet,
    never for an out-of-band one, with the client's outgoing sequence
    number, its reliable flag as asked, no fragment flag, the incoming
    sequence number as acknowledgement and the reliable bit the client last
    received; what follows the header is the qport, one byte from protocol
    35 on and two before, then the payload. Building the packet adds one to
    the outgoing sequence number, flips [reliableSequence] for a reliable
    packet only, and sends nothing. *)
Theorem sequenced_packet_round_trip (payload : option Buffer) (rel : bool) (st : Q2Client) :
  0 <= outgoingSequence (netchan st) < 1073741824 ->
  0 <= incomingSequence (netchan st) < 1073741824 ->
  let packet := (createSequencedPacket payload rel st).1 in
  let st' := (createSequencedPacket payload rel st).2 in
  (exists p,
     parseOOBPacket packet = Some (PSequenced p) /\
     sequence p = outgoingSequence (netchan st) /\
     reliable p = rel /\
     fragmented p = false /\
     ack p = incomingSequence (netchan st) /\
     reliableAck p = negb (incomingReliableSequence (netchan st) =? 0) /\
     data p = Some (qportBytes st ++ payloadBytes payload)) /\
  outgoingSequence (netchan st') = outgoingSequence (netchan st) + 1 /\
  reliableSequence (netchan st')
  = (if rel then Z.lxor (reliableSequence (netchan st)) 1
     else reliableSequence (netchan st)) /\
  incomingSequence (netchan st') = incomingSequence (netchan st) /\
  log st' = log st.
Proof. exact (createSequencedPacket_spec payload rel st). Qed.

Lemma sequenced_packet_round_trip_witness :
  let st := connectedClient in
  let packet := (createSequencedPacket (Some (bytes [1])) true st).1 in
  let st' := (createSequencedPacket (Some (bytes [1])) true st).2 in
  0 <= outgoingSequence (netchan st) < 1073741824 /\
  0 <= incomingSequence (netchan st) < 1073741824 /\
  (exists p,
     parseOOBPacket packet = Some (PSequenced p) /\
     sequence p = outgoingSequence (netchan st) /\
     reliable p = true /\
     fragmented p = false /\
     ack p = incomingSequence (netchan st) /\
     reliableAck p = negb (incomingReliableSequence (netchan st) =? 0) /\
     data p = Some (qportBytes st ++ payloadBytes (Some (bytes [1])))) /\
  outgoingSequence (netchan st') = outgoingSequence (netchan st) + 1 /\
  reliableSequence (netchan st') = Z.lxor (reliableSequence (netchan st)) 1 /\
  incomingSequence (netchan st') = incomingSequence (netchan st) /\
  log st' = log st.
Proof.
  cbv zeta.
  split; [vm_compute; split; [discriminate|reflexivity]|].
  split; [vm_compute; split; [discriminate|reflexivity]|].
  apply (sequenced_packet_round_trip (Some (bytes [1])) true connectedClient);
    vm_compute; split; try discriminate; reflexivity.
Defined.

(** ** The incoming sequence number *)

Lemma netchanProcess_unfragmented (p : SeqPacket) (st : Q2Client) :
  fragmented p = false -> 0 <= sequence p -> 0 <= incomingSequence (netchan st) ->
  match netchanProcess p st with
  | Dropped st' =>
      st' = st /\ 0 < incomingSequence (netchan st) /\
      sequence p <= incomingSequence (netchan st)
  | Accepted st' _ _ =>
      incomingSequence (netchan st') = sequence p /\
      (incomingSequence (netchan st) < sequence p \/ incomingSequence (netchan st) = 0)
  end.
Proof.
  intros Hf Hs Hi. unfold netchanProcess. rewrite Hf. cbn [negb andb].
  rewrite andb_true_r.
  destruct ((sequence p <=? incomingSequence (netchan st))
            && (0 <? incomingSequence (netchan st))) eqn:E.
  - apply andb_true_iff in E as [E1 E2]. split; [done|]. lia.
  - apply andb_false_iff in E.
    split; [|lia].
    unfold commit, recordAck.
    repeat match goal with |- context [if ?c then _ else _] => destruct c end;
      reflexivity.
Qed.



(** ** String commands *)

Lemma stripNewlines_noNewline s : noNewline (JS.stripNewlines s) = true.
Proof.
  induction s as [|c s IH]; [done|]. cbn [JS.stripNewlines].
  destruct ((JS.charCode c =? 10) || (JS.charCode c =? 13)) eqn:E; [done|].
  cbn [noNewline]. by rewrite E, IH.
Qed.

Lemma trimStart_noNewline s : noNewline s = true -> noNewline (JS.trimStart s) = true.
Proof.
  induction s as [|c s IH]; [done|]. intros H. cbn [JS.trimStart].
  destruct (JS.isWhiteSpace c); [|done].
  cbn [noNewline] in H. apply andb_true_iff in H as [_ H]. by apply IH.
Qed.

Lemma trimEnd_noNewline s : noNewline s = true -> noNewline (JS.trimEnd s) = true.
Proof.
  induction s as [|c s IH]; [done|]. intros H.
  cbn [noNewline] in H. apply andb_true_iff in H as [Hc H].
  cbn [JS.trimEnd]. destruct (JS.isWhiteSpace c && JS.isEmpty (JS.trimEnd s)); [done|].
  cbn [noNewline]. by rewrite Hc, IH.
Qed.

(** X13. [sendStringCmd] puts a command on the wire on one line. When the
    client is not connected it does nothing. When it is connected and has
    no socket, an exception escapes. Otherwise it sends exactly one packet,
    which reads back (sequence numbers below 2^30) as a reliable sequenced
    packet with the client's outgoing sequence number, carrying after the
    qport the byte [CLC.STRINGCMD], the command and a NUL; the command is
    the argument without any CR or LF and without white space at either
    end. The outgoing sequence number grows by one and [reliableSequence]
    flips. *)
Theorem string_command_on_the_wire (cmd : string) (st : Q2Client) :
  let c := JS.trim (JS.stripNewlines cmd) in
  (isConnected (conn st) = false -> sendStringCmd cmd st = Some st) /\
  (isConnected (conn st) = true -> socket (conn st) = false ->
   sendStringCmd cmd st = None) /\
  (isConnected (conn st) = true -> socket (conn st) = true ->
   0 <= outgoingSequence (netchan st) < 1073741824 ->
   0 <= incomingSequence (netchan st) < 1073741824 ->
   exists st' packet p,
     sendStringCmd cmd st = Some st' /\
     log st' = log st ++ [Send packet] /\
     parseOOBPacket packet = Some (PSequenced p) /\
     reliable p = true /\ fragmented p = false /\
     sequence p = outgoingSequence (netchan st) /\
     data p = Some (qportBytes st ++ [Buf.ofZ CLC.STRINGCMD] ++ Buf.fromString c ++ [x00]) /\
     outgoingSequence (netchan st') = outgoingSequence (netchan st) + 1 /\
     reliableSequence (netchan st') = Z.lxor (reliableSequence (netchan st)) 1) /\
  noNewline c = true /\ startsWithWhiteSpace c = false /\ endsWithWhiteSpace c = false.
Proof.
  cbv zeta. unfold sendStringCmd.
  split; [by intros ->|]. split.
  { intros -> Hs. cbn [negb].
    destruct (createSequencedPacket _ true st) as [packet st1] eqn:E.
    unfold socketSend.
    replace (socket (conn st1)) with (socket (conn st)); [by rewrite Hs|].
    unfold createSequencedPacket in E. by injection E as <- <-. }
  split.
  { intros -> Hs Hout Hin. cbn [negb].
    set (body := [Buf.ofZ CLC.STRINGCMD]
                 ++ Buf.fromString (JS.trim (JS.stripNewlines cmd)) ++ [x00]).
    destruct (createSequencedPacket_spec (Some body) true st Hout Hin)
      as ((p & Hp & Hseq & Hrel & Hfrg & _ & _ & Hdata) & Ho & Hr & _ & Hl).
    destruct (createSequencedPacket (Some body) true st) as [packet st1] eqn:E.
    cbn [fst snd] in *.
    unfold socketSend.
    replace (socket (conn st1)) with (socket (conn st));
      [|unfold createSequencedPacket in E; by injection E as <- <-].
    rewrite Hs. eexists _, packet, p. split; [reflexivity|].
    split; [cbn [log logEffect set_log]; by rewrite Hl|].
    repeat split; done. }
  unfold JS.trim.
  split; [apply trimEnd_noNewline, trimStart_noNewline, stripNewlines_noNewline|].
  split; [apply trimEnd_start, trimStart_start|apply trimEnd_end].
Qed.

Lemma string_command_on_the_wire_witness :
  let st := connectedClient in
  let cmd := String LF " new " in
  let c := JS.trim (JS.stripNewlines cmd) in
  isConnected (conn st) = true /\ socket (conn st) = true /\
  0 <= outgoingSequence (netchan st) < 1073741824 /\
  0 <= incomingSequence (netchan st) < 1073741824 /\
  c = "new" /\
  exists st' packet p,
    sendStringCmd cmd st = Some st' /\
    log st' = log st ++ [Send packet] /\
    parseOOBPacket packet = Some (PSequenced p) /\
    reliable p = true /\ fragmented p = false /\
    sequence p = outgoingSequence (netchan st) /\
    data p = Some (qportBytes st ++ [Buf.ofZ CLC.STRINGCMD] ++ Buf.fromString c ++ [x00]) /\
    outgoingSequence (netchan st') = outgoingSequence (netchan st) + 1 /\
    reliableSequence (netchan st') = Z.lxor (reliableSequence (netchan st)) 1.
Proof.
  cbv zeta.
  split; [vm_compute; reflexivity|]. split; [vm_compute; reflexivity|].
  split; [vm_compute; split; [discriminate|reflexivity]|].
  split; [vm_compute; split; [discriminate|reflexivity]|].
  split; [vm_compute; reflexivity|].
  apply (proj1 (proj2 (proj2 (string_command_on_the_wire (String LF " new ")
                                connectedClient)))).
  - vm_compute; reflexivity.
  - vm_compute; reflexivity.
  - vm_compute; split; [discriminate|reflexivity].
  - vm_compute; split; [discriminate|reflexivity].
Defined.

(** ** Reconnection *)

Lemma timersOf_logEffect e st :
  timersOf (logEffect e st)
  = timersOf st ++ match e with SetTimeout a d => [(a, d)] | _ => [] end.
Proof.
  unfold timersOf, logEffect. cbn [log set_log]. rewrite omap_app.
  f_equal. by destruct e.
Qed.

Lemma timersOf_eq st st' : log st' = log st -> timersOf st' = timersOf st.
Proof. unfold timersOf. by intros ->. Qed.

Lemma timersOf_emitEvent type d st : timersOf (emitEvent type d st) = timersOf st.
Proof.
  unfold emitEvent. destruct (debug _); rewrite !timersOf_logEffect;
    by rewrite ?app_nil_r.
Qed.

Lemma resetConnectionState_conn st :
  conn (resetConnectionState st) = conn st /\
  options (resetConnectionState st) = options st /\
  log (resetConnectionState st) = log st.
Proof.
  unfold resetConnectionState.
  by destruct (resetTracker _ _).
Qed.

Lemma emitEvent_fields type d st :
  conn (emitEvent type d st) = conn st /\ options (emitEvent type d st) = options st /\
  netchan (emitEvent type d st) = netchan st /\ game (emitEvent type d st) = game st /\
  handshake (emitEvent type d st) = handshake st /\
  entityTracker (emitEvent type d st) = entityTracker st /\
  heap (emitEvent type d st) = heap st.
Proof. unfold emitEvent. by destruct (debug _). Qed.

Lemma handleDisconnect_step reason st :
  let st' := handleDisconnect reason st in
  options st' = options st /\
  isConnected (conn st') = false /\
  (reconnectAttempts (conn st) < maxReconnectAttempts (options st) ->
   reconnectAttempts (conn st') = reconnectAttempts (conn st) + 1 /\
   timersOf st'
   = timersOf st
     ++ [(TRequestChallenge, Z.min (5000 * (reconnectAttempts (conn st) + 1)) 30000)]) /\
  (maxReconnectAttempts (options st) <= reconnectAttempts (conn st) ->
   reconnectAttempts (conn st') = reconnectAttempts (conn st) /\
   timersOf st' = timersOf st).
Proof.
  cbv zeta. unfold handleDisconnect. cbv zeta.
  set (s1 := withConn _ st).
  assert (H1 : options s1 = options st /\ isConnected (conn s1) = false /\
               reconnectAttempts (conn s1) = reconnectAttempts (conn st) /\
               log s1 = log st) by done.
  destruct H1 as (Ho1 & Hi1 & Hr1 & Hl1).
  rewrite Ho1, Hr1.
  destruct (reconnectAttempts (conn st) <? maxReconnectAttempts (options st)) eqn:E.
  - apply Z.ltb_lt in E.
    set (s2 := withConn _ s1).
    assert (H2 : options s2 = options st /\ isConnected (conn s2) = false /\
                 reconnectAttempts (conn s2) = reconnectAttempts (conn st) + 1 /\
                 log s2 = log st).
    { subst s2. cbn [options conn withConn set_conn isConnected reconnectAttempts
                     set_reconnectAttempts log]. by rewrite Ho1, Hi1, Hr1, Hl1. }
    destruct H2 as (Ho2 & Hi2 & Hr2 & Hl2).
    rewrite Ho2, Hr2.
    match goal with
    | |- context [resetConnectionState ?s] =>
        destruct (resetConnectionState_conn s) as (Hc & Ho & Hl);
        destruct (emitEvent_fields "connection"
                    (EvConnection "reconnecting" (Some reason) false
                       (Some (reconnectAttempts (conn st) + 1,
                              maxReconnectAttempts (options st),
                              Z.min (5000 * (reconnectAttempts (conn st) + 1)) 30000)))
                    s2) as (Hec & Heo & _);
        pose proof (timersOf_emitEvent "connection"
                    (EvConnection "reconnecting" (Some reason) false
                       (Some (reconnectAttempts (conn st) + 1,
                              maxReconnectAttempts (options st),
                              Z.min (5000 * (reconnectAttempts (conn st) + 1)) 30000)))
                    s2) as Het;
        set (r := resetConnectionState s) in *; clearbody r
    end.
    unfold setTimeout. rewrite timersOf_logEffect.
    cbn [options conn logEffect set_log].
    rewrite Ho, Hc, Heo, Hec, Ho2, Hi2, Hr2.
    rewrite (timersOf_eq _ _ Hl), Het, (timersOf_eq s2 st Hl2).
    split; [done|]. split; [done|]. split; [done|]. lia.
  - apply Z.ltb_ge in E.
    destruct (emitEvent_fields "connection"
                (EvConnection "disconnected" (Some "max_reconnect_attempts") false None)
                s1) as (Hec & Heo & _).
    rewrite Heo, Hec, timersOf_emitEvent, Ho1, Hi1, Hr1, (timersOf_eq s1 st Hl1).
    split; [done|]. split; [done|]. split; [lia|done].
Qed.

(** X14. The client gives up reconnecting. However many times in a row
    the connection is lost, [handleDisconnect] raises the attempt counter
    by one each time until it reaches [maxReconnectAttempts] and never
    beyond, and schedules one new challenge per attempt and none after
    the last; each is delayed by five seconds per attempt so far, with a
    ceiling of thirty seconds. The client is left not connected. *)
Theorem reconnects_are_bounded (reason : string) (st : Q2Client) (n : nat) :
  0 <= reconnectAttempts (conn st) <= maxReconnectAttempts (options st) ->
  let st' := Nat.iter n (handleDisconnect reason) st in
  reconnectAttempts (conn st')
  = Z.min (reconnectAttempts (conn st) + Z.of_nat n) (maxReconnectAttempts (options st)) /\
  (0 < n -> isConnected (conn st') = false)%nat /\
  exists new,
    timersOf st' = timersOf st ++ new /\
    Z.of_nat (length new)
    = Z.min (Z.of_nat n) (maxReconnectAttempts (options st) - reconnectAttempts (conn st)) /\
    Forall (fun t => t.1 = TRequestChallenge /\ 5000 <= t.2 <= 30000) new.
Proof.
  intros Ha. cbv zeta.
  assert (H : options (Nat.iter n (handleDisconnect reason) st) = options st /\
              reconnectAttempts (conn (Nat.iter n (handleDisconnect reason) st))
              = Z.min (reconnectAttempts (conn st) + Z.of_nat n)
                      (maxReconnectAttempts (options st)) /\
              (0 < n -> isConnected (conn (Nat.iter n (handleDisconnect reason) st))
                        = false)%nat /\
              exists new,
                timersOf (Nat.iter n (handleDisconnect reason) st) = timersOf st ++ new /\
                Z.of_nat (length new)
                = Z.min (Z.of_nat n)
                        (maxReconnectAttempts (options st) - reconnectAttempts (conn st)) /\
                Forall (fun t => t.1 = TRequestChallenge /\ 5000 <= t.2 <= 30000) new);
    [|by destruct H as (_ & ? & ? & ?)].
  induction n as [|n IH].
  - change (Nat.iter 0 (handleDisconnect reason) st) with st.
    split; [done|]. split; [lia|]. split; [intros ?; lia|].
    exists []. rewrite app_nil_r. split; [done|]. split; [cbn; lia|constructor].
  - destruct IH as (Ho & Hr & _ & new & Ht & Hlen & Hall).
    change (Nat.iter (S n) (handleDisconnect reason) st)
      with (handleDisconnect reason (Nat.iter n (handleDisconnect reason) st)).
    set (sn := Nat.iter n (handleDisconnect reason) st) in *.
    destruct (handleDisconnect_step reason sn) as (Ho' & Hi' & Hlt & Hge).
    cbv zeta in Ho', Hi', Hlt, Hge. rewrite Ho in Hlt, Hge.
    split; [by rewrite Ho'|].
    destruct (Z.lt_ge_cases (reconnectAttempts (conn sn))
                (maxReconnectAttempts (options st))) as [Hc|Hc].
    + destruct (Hlt Hc) as [Hr' Ht']. rewrite Hr', Ht', Ht.
      split; [lia|]. split; [done|].
      eexists. split; [by rewrite <- app_assoc|].
      rewrite length_app. cbn [length]. split; [lia|].
      apply Forall_app. split; [done|].
      constructor; [|constructor]. cbn [fst snd]. split; [done|]. lia.
    + destruct (Hge Hc) as [Hr' Ht']. rewrite Hr', Ht', Ht.
      split; [lia|]. split; [done|].
      exists new. split; [done|]. split; [lia|done].
Qed.

Lemma reconnects_are_bounded_witness :
  let st := connectedClient in
  let st' := Nat.iter 7 (handleDisconnect "timeout") st in
  0 <= reconnectAttempts (conn st) <= maxReconnectAttempts (options st) /\
  reconnectAttempts (conn st') = 5 /\
  exists new,
    timersOf st' = timersOf st ++ new /\
    Z.of_nat (length new) = 5 /\
    Forall (fun t => t.1 = TRequestChallenge /\ 5000 <= t.2 <= 30000) new.
Proof.
  cbv zeta.
  assert (Ha : 0 <= reconnectAttempts (conn connectedClient)
               <= maxReconnectAttempts (options connectedClient))
    by (vm_compute; split; discriminate).
  split; [exact Ha|].
  destruct (reconnects_are_bounded "timeout" connectedClient 7 Ha) as (H1 & _ & H3).
  split; [exact H1|exact H3].
Defined.

(** ** Closing the connection *)

Lemma sentOf_logEffect e st :
  sentOf (logEffect e st)
  = sentOf st ++ match e with Send b => [b] | _ => [] end.
Proof.
  unfold sentOf, logEffect. cbn [log set_log]. rewrite omap_app.
  f_equal. by destruct e.
Qed.

Lemma sentOf_eq st st' : log st' = log st -> sentOf st' = sentOf st.
Proof. unfold sentOf. by intros ->. Qed.

Lemma sentOf_emitEvent type d st : sentOf (emitEvent type d st) = sentOf st.
Proof.
  unfold emitEvent. destruct (debug _); rewrite !sentOf_logEffect;
    by rewrite ?app_nil_r.
Qed.

Lemma cleanup_conn st :
  let st' := cleanup st in
  socket (conn st') = false /\ isConnected (conn st') = false /\
  connectionState (conn st') = Disconnected /\
  heartbeatInterval (conn st') = None /\ keepAliveInterval (conn st') = None /\
  monitorPollInterval (conn st') = None /\
  sentOf st'
  = sentOf st ++ (if isConnected (conn st) && socket (conn st)
                  then [createOOBPacket "disconnect"] else []) /\
  netchan st' = netchan st /\ game st' = game st /\ handshake st' = handshake st /\
  entityTracker st' = entityTracker st /\ heap st' = heap st /\
  options st' = options st.
Proof.
  cbv zeta. unfold cleanup. cbv zeta.
  cbn [conn withConn set_conn isConnected socket set_monitorPollInterval
       set_keepAliveInterval set_heartbeatInterval].
  destruct (isConnected (conn st) && socket (conn st)).
  - repeat split; try done.
    etransitivity; [|apply (sentOf_logEffect (Send (createOOBPacket "disconnect")) st)].
    reflexivity.
  - repeat split; try done. by rewrite app_nil_r.
Qed.

Lemma disconnect_fields st :
  conn (disconnect st) = conn (cleanup st) /\
  netchan (disconnect st) = netchan st /\ game (disconnect st) = game st /\
  entityTracker (disconnect st) = entityTracker st /\ heap (disconnect st) = heap st /\
  handshake (disconnect st) = handshake st /\
  sentOf (disconnect st) = sentOf (cleanup st).
Proof.
  unfold disconnect.
  destruct (emitEvent_fields "connection"
              (EvConnection "disconnected" (Some "user") false None) (cleanup st))
    as (Hec & Heo & Hen & Heg & Heh & Het & Hehp).
  destruct (cleanup_conn st)
    as (_ & _ & _ & _ & _ & _ & _ & Hn & Hg & Hhs & Ht & Hhp & _).
  cbv zeta in *.
  rewrite Hec, Hen, Heg, Heh, Het, Hehp, sentOf_emitEvent.
  by rewrite Hn, Hg, Hhs, Ht, Hhp.
Qed.

(** What a client that is not connected and has no socket does when a
    timer or an interval fires. *)
Lemma closed_client_timers st :
  socket (conn st) = false -> isConnected (conn st) = false ->
  heartbeatTick st = Some st /\ keepAliveTick st = Some st /\
  (exists st', runTimer TSendNewCommand st = Some st' /\ sentOf st' = sentOf st) /\
  (exists st', runTimer TSendBeginCommand st = Some st' /\ sentOf st' = sentOf st) /\
  runTimer TRequestChallenge st = None /\
  (forall challengeId, runTimer (TConnectToServer challengeId) st = None).
Proof.
  intros Hs Hi.
  split; [unfold heartbeatTick; by rewrite Hi|].
  split; [unfold keepAliveTick; by rewrite Hi|].
  split.
  { cbn [runTimer]. unfold sendNewCommand, sendStringCmd.
    destruct (hasSentNew (handshake st)); [by eexists|].
    cbn [conn withHandshake set_handshake]. rewrite Hi. cbn [negb].
    eexists. split; [reflexivity|]. apply sentOf_eq. reflexivity. }
  split.
  { cbn [runTimer]. unfold sendBeginCommand, sendStringCmd.
    destruct (hasSentBegin (handshake st)); [by eexists|].
    cbn [conn withHandshake set_handshake]. rewrite Hi.
    cbn [negb mbind option_bind].
    eexists. split; [reflexivity|].
    rewrite sentOf_emitEvent. apply sentOf_eq. reflexivity. }
  split.
  { cbn [runTimer]. unfold requestChallenge, socketSend.
    destruct (emitEvent_fields "connection" (EvConnection "connecting" None false None)
                (withConn (set_connectionState Challenging) st)) as (Hc2 & _).
    rewrite Hc2. cbn [conn withConn set_conn socket set_connectionState].
    by rewrite Hs. }
  intros challengeId. cbn [runTimer]. unfold connectToServer, socketSend.
  destruct (JS.truthyNum challengeId);
    cbn [conn withConn set_conn socket set_connectionState set_clientChallengeId];
    by rewrite Hs.
Qed.

(** X15. [disconnect()] closes everything but cancels no timer. After it
    the client has no socket, is not connected, is in state disconnected
    and has no interval running; the netchan state, the game state and the
    entity tables are as they were. It sends the out-of-band [disconnect]
    to the server exactly when the client was connected and had a socket,
    so a second [disconnect()] sends nothing. A heartbeat or keep-alive
    tick and a pending [new] timer then do nothing, a pending [begin]
    timer sends nothing, but a pending challenge or connect timer that
    fires after [disconnect()] raises an exception. *)
Theorem disconnect_closes (st : Q2Client) :
  let st' := disconnect st in
  (socket (conn st') = false /\ isConnected (conn st') = false /\
   connectionState (conn st') = Disconnected /\
   heartbeatInterval (conn st') = None /\ keepAliveInterval (conn st') = None /\
   monitorPollInterval (conn st') = None) /\
  (netchan st' = netchan st /\ game st' = game st /\
   entityTracker st' = entityTracker st /\ heap st' = heap st) /\
  sentOf st'
  = sentOf st ++ (if isConnected (conn st) && socket (conn st)
                  then [createOOBPacket "disconnect"] else []) /\
  sentOf (disconnect st') = sentOf st' /\
  heartbeatTick st' = Some st' /\ keepAliveTick st' = Some st' /\
  (exists st'', runTimer TSendNewCommand st' = Some st'' /\ sentOf st'' = sentOf st') /\
  (exists st'', runTimer TSendBeginCommand st' = Some st'' /\ sentOf st'' = sentOf st') /\
  runTimer TRequestChallenge st' = None /\
  (forall challengeId, runTimer (TConnectToServer challengeId) st' = None).
Proof.
  cbv zeta.
  destruct (disconnect_fields st) as (Hc & Hn & Hg & Ht & Hh & _ & Hsent).
  destruct (cleanup_conn st) as (Hs & Hi & Hcs & Hhb & Hk & Hm & Hsent0 & _).
  cbv zeta in *.
  split; [by rewrite Hc|].
  split; [done|].
  split; [by rewrite Hsent|].
  assert (Hs' : socket (conn (disconnect st)) = false) by (by rewrite Hc).
  assert (Hi' : isConnected (conn (disconnect st)) = false) by (by rewrite Hc).
  split.
  { destruct (disconnect_fields (disconnect st)) as (_ & _ & _ & _ & _ & _ & ->).
    destruct (cleanup_conn (disconnect st)) as (_ & _ & _ & _ & _ & _ & H & _).
    cbv zeta in H. rewrite H, Hi'. cbn [andb]. by rewrite app_nil_r. }
  by apply closed_client_timers.
Qed.

(** ** Along every run *)

Lemma cleanup_wellFormed st : wellFormed st -> wellFormed (cleanup st).
Proof.
  intros H. destruct (cleanup_conn st) as (_ & _ & _ & _ & _ & _ & _ & _ & _ & _ & Ht & Hh & _).
  cbv zeta in *. unfold wellFormed. by rewrite Ht, Hh.
Qed.

Lemma disconnect_wellFormed st : wellFormed st -> wellFormed (disconnect st).
Proof. intros H. by apply emitEvent_wellFormed, cleanup_wellFormed. Qed.

Lemma connect_wellFormed st : wellFormed st -> wellFormed (connect st).
Proof.
  intros H. unfold connect. apply wellFormed_withConn.
  destruct (socket (conn st)); [by apply disconnect_wellFormed|done].
Qed.

Lemma socketError_wellFormed message st : wellFormed st -> wellFormed (socketError message st).
Proof. intros H. by apply cleanup_wellFormed, emitEvent_wellFormed. Qed.

Lemma input_wellFormed inflate depth i st :
  wellFormed st ->
  match input inflate depth i st with
  | Some st' => wellFormed st'
  | None => True
  end.
Proof.
  intros H. destruct i; cbn [input].
  - by apply connect_wellFormed.
  - by apply requestChallenge_wellFormed.
  - by apply handleServerPacket_wellFormed.
  - by apply runTimer_wellFormed.
  - unfold heartbeatTick. destruct (negb _); [done|].
    destruct (connectionState (conn st)); by apply sendSequencedResponse_wellFormed.
  - unfold keepAliveTick. destruct (isConnected _); [|done].
    by apply sendSequencedResponse_wellFormed.
  - by apply socketError_wellFormed.
  - by apply disconnect_wellFormed.
Qed.

Lemma inputs_wellFormed inflate depth l : forall st st',
  wellFormed st -> inputs inflate depth l st = Some st' -> wellFormed st'.
Proof.
  induction l as [|i l IH]; intros st st' H; cbn [inputs].
  - by intros [= <-].
  - pose proof (input_wellFormed inflate depth i st H) as Hi.
    destruct (input inflate depth i st) as [st1|]; [|done].
    cbn [mbind option_bind]. by apply IH.
Qed.

(** X16. Whatever happens to a client that is not in monitor mode after
    its construction, its entity tables stay whole. After any sequence of
    calls ([connect], datagrams, timers and intervals firing, socket
    errors, [disconnect]) that raises no exception, whatever the datagrams
    hold, [getEntity(n)] is an entity object for every [n] from 0 to 1023
    and [null] for every other [n], never [undefined]; and the [pmove]
    block of the player state that [getPlayerState] returns is an
    object. *)
Theorem entity_tables_stay_whole inflate depth opts challenge qport now
    (l : list Input) (st' : Q2Client) :
  monitorMode opts = false ->
  inputs inflate depth l (newQ2Client opts challenge qport now) = Some st' ->
  (forall n, inRange n = true -> exists e, Q2Client_getEntity st' n = JObj e) /\
  (forall n, inRange n = false -> Q2Client_getEntity st' n = JNull) /\
  is_Some (pmoves (heap st') !! pmove (getPlayerState st')).
Proof.
  intros _ Hrun.
  destruct (inputs_wellFormed inflate depth l _ st'
              (newQ2Client_wellFormed opts challenge qport now) Hrun) as [[Hb He] Hp].
  split; [|split].
  - intros n Hn. unfold Q2Client_getEntity, getEntity. rewrite Hn.
    apply inRange_spec in Hn. unfold MAX_EDICTS in *.
    destruct (lookup_lt_is_Some_2 (entities (entityTracker st')) (Z.to_nat n)) as [e ->];
      [lia|by eexists].
  - intros n Hn. unfold Q2Client_getEntity, getEntity. by rewrite Hn.
  - by apply lookup_lt_is_Some_2.
Qed.

Lemma entity_tables_stay_whole_witness :
  exists st',
    inputs noInflate 8 shortLife (newQ2Client defaultOptions 777 42 0) = Some st' /\
    (forall n, inRange n = true -> exists e, Q2Client_getEntity st' n = JObj e) /\
    (forall n, inRange n = false -> Q2Client_getEntity st' n = JNull) /\
    is_Some (pmoves (heap st') !! pmove (getPlayerState st')).
Proof.
  assert (H : returned (inputs noInflate 8 shortLife (newQ2Client defaultOptions 777 42 0))
              = true) by (vm_compute; reflexivity).
  revert H.
  destruct (inputs noInflate 8 shortLife (newQ2Client defaultOptions 777 42 0))
    as [st'|] eqn:E; intros H; [|discriminate H].
  exists st'. split; [reflexivity|].
  exact (entity_tables_stay_whole noInflate 8 defaultOptions 777 42 0 _ _ eq_refl E).
Defined.

(** ** Decoding has no effect outside the game state *)

Lemma decoderFrame_refl st : decoderFrame st st.
Proof.
  repeat split; try done.
  - exists (serverProtocol (conn st)), (serverProtocolMinor (conn st)).
    by destruct (conn st).
  - exists (lastFrameNum (game st)). by destruct (game st).
Qed.

Lemma decoderFrame_trans st0 st1 st2 :
  decoderFrame st0 st1 -> decoderFrame st1 st2 -> decoderFrame st0 st2.
Proof.
  intros (Ho & Hn & Hh & Hl & (p & m & Hc) & (f & Hg))
         (Ho' & Hn' & Hh' & Hl' & (p' & m' & Hc') & (f' & Hg')).
  repeat split; try congruence.
  - exists p', m'. rewrite Hc', Hc. reflexivity.
  - exists f'. rewrite Hg', Hg. reflexivity.
Qed.

Lemma decoderFrame_protocol st0 st p :
  decoderFrame st0 st -> decoderFrame st0 (withConn (set_serverProtocol p) st).
Proof.
  intros (Ho & Hn & Hh & Hl & (p' & m & Hc) & Hg).
  repeat split; try done.
  exists p, m. cbn [conn withConn set_conn]. rewrite Hc. reflexivity.
Qed.

Lemma decoderFrame_minor st0 st m :
  decoderFrame st0 st -> decoderFrame st0 (withConn (set_serverProtocolMinor m) st).
Proof.
  intros (Ho & Hn & Hh & Hl & (p & m' & Hc) & Hg).
  repeat split; try done.
  exists p, m. cbn [conn withConn set_conn]. rewrite Hc. reflexivity.
Qed.

Lemma decoderFrame_lastFrame st0 st f :
  decoderFrame st0 st -> decoderFrame st0 (withGame (set_lastFrameNum f) st).
Proof.
  intros (Ho & Hn & Hh & Hl & Hc & (f' & Hg)).
  repeat split; try done.
  exists f. cbn [game withGame set_game]. rewrite Hg. reflexivity.
Qed.

Lemma decoderFrame_tracker st0 st t h :
  decoderFrame st0 st -> decoderFrame st0 (set_entityTracker t (set_heap h st)).
Proof. by intros (Ho & Hn & Hh & Hl & Hc & Hg). Qed.

(** What a turn of the loop leaves, whether it goes on, returns or
    raises. *)
Local Abbreviation stepFrame st0 s :=
  (match s with
   | Continue st' _ _ => decoderFrame st0 st'
   | Return st' _ => decoderFrame st0 st'
   | Throw st' => decoderFrame st0 st'
   end).

Lemma serverDataTail_frame st0 st data proto idx (k : Q2Client -> nat -> Step) :
  decoderFrame st0 st ->
  (forall st' idx', decoderFrame st0 st' -> stepFrame st0 (k st' idx')) ->
  stepFrame st0 (serverDataTail st data proto idx k).
Proof.
  intros H Hk. unfold serverDataTail.
  repeat (match goal with
          | |- context [if ?c then _ else _] => destruct c
          | |- context [Buf.readUInt16LE ?d ?i] => destruct (Buf.readUInt16LE d i)
          end; cbn [try_]);
    try done; by apply Hk; try apply decoderFrame_minor.
Qed.

Lemma parseServerData_frame st data idx : stepFrame st (parseServerData st data idx).
Proof.
  unfold parseServerData.
  destruct (length data <? idx + 9)%nat; [apply decoderFrame_refl|].
  destruct (Buf.readInt32LE data idx) as [proto|]; cbn [try_]; [|apply decoderFrame_refl].
  destruct (Buf.readInt32LE data (idx + 4)) as [srvCount|]; cbn [try_];
    [|apply decoderFrame_protocol, decoderFrame_refl].
  apply serverDataTail_frame; [apply decoderFrame_protocol, decoderFrame_refl|].
  by intros st' idx' H.
Qed.

Lemma parseConfigString_frame st data idx : stepFrame st (parseConfigString st data idx).
Proof.
  unfold parseConfigString.
  destruct (length data <? idx + 2)%nat; [apply decoderFrame_refl|].
  destruct (Buf.readUInt16LE data idx); cbn [try_]; apply decoderFrame_refl.
Qed.

Lemma parseSpawnBaseline_frame st data idx : stepFrame st (parseSpawnBaseline st data idx).
Proof.
  unfold parseSpawnBaseline.
  destruct (value (parseEntityBits data idx) =? 0); [apply decoderFrame_refl|].
  destruct (createEmptyEntity (heap st)) as [baseline h0].
  destruct (parseEntityStateFromBits data _ _ baseline _ h0) as [[state idx1] h1].
  unfold withTracker. cbn [entityTracker set_heap].
  apply (decoderFrame_tracker st st), decoderFrame_refl.
Qed.

Lemma parseSound_frame st data idx : stepFrame st (parseSound st data idx).
Proof. unfold parseSound. destruct (Buf.get data idx); apply decoderFrame_refl. Qed.

Lemma parseDownload_frame st data idx : stepFrame st (parseDownload st data idx).
Proof.
  unfold parseDownload.
  destruct (length data <? idx + 2)%nat; [apply decoderFrame_refl|].
  destruct (Buf.readInt16LE data idx); cbn [try_]; apply decoderFrame_refl.
Qed.

Lemma frameBody_frame st0 st data idx psFlags :
  decoderFrame st0 st -> stepFrame st0 (frameBody st data idx psFlags).
Proof.
  intros H. unfold frameBody.
  set (first := if negb (psFlags =? 0) && (idx <? length data)%nat
                then _ else (st, idx, [], true)).
  assert (Hfirst : decoderFrame st0 first.1.1.1).
  { subst first. destruct (negb (psFlags =? 0) && (idx <? length data)%nat); [|done].
    destruct (parsePlayerState data idx psFlags (entityTracker st) (heap st))
      as [[ps idx1] h1].
    unfold withTracker. cbn [entityTracker set_heap].
    destruct (pmoves h1 !! pmove ps); by apply decoderFrame_tracker. }
  destruct first as [[[st1 idx1] psMsgs] ok]. cbn [fst] in Hfirst.
  destruct (negb ok); [done|].
  destruct (idx1 <? length data)%nat; [|done].
  destruct (parsePacketEntities data idx1 (entityTracker st1) (heap st1))
    as [[[[t h] updates] idx2]|]; [|done].
  by apply decoderFrame_tracker.
Qed.

Lemma frameAreaAndFlags_frame st0 st data idx (k : nat -> Z -> Step) :
  decoderFrame st0 st ->
  (forall idx' psFlags, stepFrame st0 (k idx' psFlags)) ->
  stepFrame st0 (frameAreaAndFlags st data idx k).
Proof.
  intros H Hk. unfold frameAreaAndFlags.
  destruct (_ <=? length data)%nat; [|apply Hk].
  destruct (Buf.readUInt16LE data _); cbn [try_]; [apply Hk|done].
Qed.

Lemma parseFrame_frame st data idx : stepFrame st (parseFrame st data idx).
Proof.
  unfold parseFrame.
  destruct (length data <? idx + 4)%nat; [apply decoderFrame_refl|].
  destruct (isExtendedProtocol st).
  - destruct (Buf.readUInt32LE data idx); cbn [try_]; [|apply decoderFrame_refl].
    apply frameAreaAndFlags_frame; [apply decoderFrame_lastFrame, decoderFrame_refl|].
    intros idx' psFlags. apply frameBody_frame, decoderFrame_lastFrame, decoderFrame_refl.
  - destruct (Buf.readInt32LE data idx); cbn [try_]; [|apply decoderFrame_refl].
    apply frameAreaAndFlags_frame; [apply decoderFrame_lastFrame, decoderFrame_refl|].
    intros idx' psFlags. apply frameBody_frame, decoderFrame_lastFrame, decoderFrame_refl.
Qed.

Section DecoderFrame.

Variable inflateRawSync : Buffer -> option Buffer.
Variable parseNested : Q2Client -> Buffer -> Decoded.

Hypothesis nested_frame : forall st d, decoderFrame st (parseNested st d).1.

Lemma parseZPacket_frame st data idx :
  stepFrame st (parseZPacket inflateRawSync parseNested st data idx).
Proof.
  unfold parseZPacket.
  destruct (length data <? idx + 4)%nat; [apply decoderFrame_refl|].
  destruct (Buf.readUInt16LE data idx); cbn [try_]; [|apply decoderFrame_refl].
  destruct (Buf.readUInt16LE data (idx + 2)); cbn [try_]; [|apply decoderFrame_refl].
  destruct (length data <? _)%nat; [apply decoderFrame_refl|].
  destruct (decompressZlib inflateRawSync _) as [d|]; [|apply decoderFrame_refl].
  pose proof (nested_frame st d) as H.
  by destruct (parseNested st d) as [st' [msgs|]].
Qed.

Lemma dispatch_frame st data isNested cmd idx :
  stepFrame st (dispatch inflateRawSync parseNested st data isNested cmd idx).
Proof.
  unfold dispatch.
  repeat match goal with
         | |- context [if ?c then _ else _] =>
             lazymatch c with
             | (_ =? _) => destruct c
             | (_ || _) => destruct c
             end
         end.
  all: try apply decoderFrame_refl.
  all: try (destruct (Buf.get data idx); apply decoderFrame_refl).
  - apply parseServerData_frame.
  - apply parseConfigString_frame.
  - apply parseSpawnBaseline_frame.
  - apply parseSound_frame.
  - apply parseFrame_frame.
  - apply parseDownload_frame.
  - apply parseZPacket_frame.
  - destruct (gameStateLoop _ _ _ _); apply decoderFrame_refl.
  - destruct (length data <? idx + 8)%nat; apply decoderFrame_refl.
  - destruct isNested; apply decoderFrame_refl.
Qed.

Lemma parseStep_frame st data isNested idx :
  stepFrame st (parseStep inflateRawSync parseNested st data isNested idx).
Proof.
  unfold parseStep.
  destruct (length data <? S idx)%nat; [apply decoderFrame_refl|].
  destruct (extendCommand data _ (S idx)) as [cmd idx1].
  apply dispatch_frame.
Qed.

Lemma parseLoop_frame data isNested fuel : forall st idx messages,
  decoderFrame st
    (parseLoop inflateRawSync parseNested fuel st data isNested idx messages).1.
Proof.
  induction fuel as [|fuel IH]; intros st idx messages; cbn [parseLoop].
  - destruct (idx <? length data)%nat; apply decoderFrame_refl.
  - destruct (idx <? length data)%nat; [|apply decoderFrame_refl].
    pose proof (parseStep_frame st data isNested idx) as H.
    destruct (parseStep inflateRawSync parseNested st data isNested idx)
      as [st1 idx1 msgs1|st1 msgs1|st1]; [|done|done].
    exact (decoderFrame_trans _ _ _ H (IH st1 idx1 _)).
Qed.

End DecoderFrame.

Lemma parseGameMessage_frame inflateRawSync depth : forall st data isNested,
  decoderFrame st (parseGameMessage inflateRawSync depth st data isNested).1.
Proof.
  induction depth as [|depth IH]; intros st data isNested;
    [apply decoderFrame_refl|].
  cbn [parseGameMessage]. apply parseLoop_frame.
  intros st0 d. apply IH.
Qed.

Lemma processServerData_frame inflateRawSync depth st data :
  decoderFrame st (processServerData inflateRawSync depth st data).1.
Proof.
  assert (Hdec : forall st0 st1 d, decoderFrame st0 st1 ->
                   decoderFrame st0 (decode inflateRawSync depth st1 d).1).
  { intros st0 st1 d H. eapply decoderFrame_trans; [exact H|].
    apply parseGameMessage_frame. }
  assert (Htry : forall st0 st1 c, decoderFrame st0 st1 ->
                   match tryInflated inflateRawSync depth st1 c with
                   | inl (st', _) => decoderFrame st0 st'
                   | inr st' => decoderFrame st0 st'
                   end).
  { intros st0 st1 c H. unfold tryInflated.
    destruct (inflateRawSync c) as [d|]; [|done].
    destruct (0 <? length d)%nat; [|done].
    pose proof (Hdec st0 st1 d H) as H'.
    by destruct (decode inflateRawSync depth st1 d) as [st' [msgs|]]. }
  unfold processServerData.
  destruct (length data <? 5)%nat; [apply Hdec, decoderFrame_refl|].
  destruct (_ && _); [apply Hdec, decoderFrame_refl|].
  destruct (_ || _); [|apply Hdec, decoderFrame_refl].
  pose proof (Htry st st data (decoderFrame_refl st)) as H1.
  destruct (tryInflated inflateRawSync depth st data) as [[st1 msgs]|st1]; [done|].
  destruct (Buf.readUInt16LE data 0) as [inlen|]; [|done].
  destruct (Buf.readUInt16LE data 2) as [outlen|]; [|done].
  destruct (_ && _); [|by apply Hdec].
  match goal with
  | |- context [tryInflated _ _ st1 ?c] =>
      pose proof (Htry st st1 c H1) as H2;
      destruct (tryInflated inflateRawSync depth st1 c) as [[st2 msgs]|st2]
  end; [done|by apply Hdec].
Qed.

(** X17. Decoding is free of effects on the connection. Whatever the
    payload, compressed or not, and whether decoding returns or raises,
    [parseGameMessage] and [processServerData] send nothing, emit nothing
    and schedule nothing, and leave the options, the netchan state and the
    handshake flags as they were; of the connection they change at most
    the protocol and its minor version, and of the game state at most
    [lastFrameNum]. Everything else they change lies in the entity
    tracker. *)
Theorem decoding_has_no_side_effect inflateRawSync depth (st : Q2Client) (data : Buffer) :
  (forall isNested,
     decoderFrame st (parseGameMessage inflateRawSync depth st data isNested).1) /\
  decoderFrame st (processServerData inflateRawSync depth st data).1.
Proof.
  split; [intros isNested; apply parseGameMessage_frame|apply processServerData_frame].
Qed.

(** ** The acknowledgement of a packet *)

Lemma accept_fields (p : SeqPacket) (st : Q2Client) :
  let st1 := commit p (recordAck p st) in
  conn st1 = conn st /\ log st1 = log st /\ options st1 = options st /\
  outgoingSequence (netchan st1) = outgoingSequence (netchan st) /\
  incomingSequence (netchan st1) = sequence p /\
  incomingAcknowledged (netchan st1) = ack p /\
  incomingReliableSequence (netchan st1)
  = (if reliable p then Z.lxor (incomingReliableSequence (netchan st)) 1
     else incomingReliableSequence (netchan st)).
Proof.
  cbv zeta. unfold commit, recordAck.
  repeat match goal with |- context [if ?c then _ else _] => destruct c end;
    by repeat split.
Qed.

(** X18. The reply to a packet acknowledges that packet. When a connected
    client with a socket accepts a sequenced packet that is not a fragment
    and carries no payload, it sends exactly one packet in reply, which
    reads back (sequence numbers below 2^30) as an unreliable sequenced
    packet whose acknowledgement is the sequence number just received,
    whose reliable-acknowledgement bit is the client's incoming reliable
    bit after the packet (flipped if the packet was reliable), and whose
    sequence number is the client's outgoing one, which then grows by
    one. *)
Theorem reply_acknowledges_packet inflateRawSync depth (p : SeqPacket) (st : Q2Client) :
  isConnected (conn st) = true -> socket (conn st) = true ->
  fragmented p = false -> hasData p = false ->
  0 <= incomingSequence (netchan st) < sequence p -> sequence p < 1073741824 ->
  0 <= outgoingSequence (netchan st) < 1073741824 ->
  exists st' packet a,
    handleSequenced inflateRawSync depth p st = Some st' /\
    log st' = log st ++ [Send packet] /\
    parseOOBPacket packet = Some (PSequenced a) /\
    ack a = sequence p /\
    reliableAck a
    = negb ((if reliable p then Z.lxor (incomingReliableSequence (netchan st)) 1
             else incomingReliableSequence (netchan st)) =? 0) /\
    reliable a = false /\ fragmented a = false /\
    sequence a = outgoingSequence (netchan st) /\
    data a = Some (qportBytes st) /\
    incomingSequence (netchan st') = sequence p /\
    outgoingSequence (netchan st') = outgoingSequence (netchan st) + 1.
Proof.
  intros Hc Hs Hf Hd Hin Hp Hout.
  unfold handleSequenced, netchanProcess. rewrite Hf, Hd. cbn [negb andb].
  replace (sequence p <=? incomingSequence (netchan st)) with false by (symmetry; lia).
  cbn [andb].
  destruct (accept_fields p st) as (Hconn & Hlog & Hopt & Ho & Hi & _ & Hr).
  cbv zeta in *. set (st1 := commit p (recordAck p st)) in *. clearbody st1.
  unfold sendSequencedResponse. rewrite Hconn, Hc, Hs. cbn [negb orb].
  destruct (createSequencedPacket_spec None false st1 ltac:(lia) ltac:(lia))
    as ((a & Ha & Hseq & Hrel & Hfrg & Hack & Hrack & Hdata) & Ho' & _ & Hi' & Hl').
  destruct (createSequencedPacket None false st1) as [packet st2] eqn:E.
  cbn [fst snd] in *.
  unfold socketSend.
  replace (socket (conn st2)) with (socket (conn st));
    [|unfold createSequencedPacket in E; injection E as <- <-; by rewrite <- Hconn].
  rewrite Hs. eexists _, packet, a. split; [reflexivity|].
  split; [cbn [log logEffect set_log]; by rewrite Hl', Hlog|].
  split; [done|]. split; [by rewrite Hack|]. split; [by rewrite Hrack, Hr|].
  split; [done|]. split; [done|]. split; [by rewrite Hseq|].
  split.
  { rewrite Hdata. f_equal. unfold payloadBytes, qportBytes.
    by rewrite Hconn, app_nil_r. }
  cbn [netchan logEffect set_log]. split; [by rewrite Hi'|by rewrite Ho', Ho].
Qed.

Lemma reply_acknowledges_packet_witness :
  let st := connectedClient in
  let p := mkSeqPacket 7 true false 0 false 0 false false None in
  (isConnected (conn st) = true /\ socket (conn st) = true /\
   fragmented p = false /\ hasData p = false /\
   0 <= incomingSequence (netchan st) < sequence p /\ sequence p < 1073741824 /\
   0 <= outgoingSequence (netchan st) < 1073741824) /\
  exists st' packet a,
    handleSequenced noInflate 8 p st = Some st' /\
    log st' = log st ++ [Send packet] /\
    parseOOBPacket packet = Some (PSequenced a) /\
    ack a = 7 /\ reliableAck a = true /\
    reliable a = false /\ fragmented a = false /\
    sequence a = outgoingSequence (netchan st) /\
    data a = Some (qportBytes st) /\
    incomingSequence (netchan st') = 7 /\
    outgoingSequence (netchan st') = outgoingSequence (netchan st) + 1.
Proof.
  cbv zeta.
  split; [vm_compute; repeat split; try discriminate; reflexivity|].
  apply (reply_acknowledges_packet noInflate 8
           (mkSeqPacket 7 true false 0 false 0 false false None) connectedClient);
    vm_compute; repeat split; try discriminate; reflexivity.
Defined.

(** ** Payloads that are not compressed *)

(** X19. [processServerData] decodes a payload as it is unless it
    inflates: a payload of fewer than five bytes, a payload whose first
    byte is one of the opcodes from [SVC.NOP] to [SVC.CVARSYNC], and a
    payload that is no deflate stream, neither whole nor between its
    fourth byte and the length that its first two bytes announce, are
    handed to [parseGameMessage] unchanged, and the result is what
    [parseGameMessage] returns. *)
Theorem plain_payload_is_decoded_as_is inflateRawSync depth (st : Q2Client) (data : Buffer) :
  ((length data < 5)%nat ->
   processServerData inflateRawSync depth st data
   = parseGameMessage inflateRawSync depth st data false) /\
  (forall b, Buf.get data 0 = Some b -> SVC.NOP <= b <= SVC.CVARSYNC ->
   processServerData inflateRawSync depth st data
   = parseGameMessage inflateRawSync depth st data false) /\
  (inflateRawSync data = None ->
   (forall inlen, inflateRawSync (Buf.slice2 data 4 (4 + inlen)) = None) ->
   processServerData inflateRawSync depth st data
   = parseGameMessage inflateRawSync depth st data false).
Proof.
  unfold processServerData, decode.
  split; [|split].
  - intros H. by replace (length data <? 5)%nat with true by (symmetry; apply Nat.ltb_lt; lia).
  - intros b Hb Hr. rewrite Hb. cbn [default from_option id].
    destruct (length data <? 5)%nat; [done|].
    by replace ((SVC.NOP <=? b) && (b <=? SVC.CVARSYNC)) with true
      by (symmetry; apply andb_true_iff; lia).
  - intros H1 H2.
    destruct (length data <? 5)%nat eqn:E5; [done|]. apply Nat.ltb_ge in E5.
    destruct (_ && _); [done|].
    destruct (_ || _); [|done].
    unfold tryInflated. rewrite H1.
    destruct (readUInt16LE_Some data 0) as [inlen ->]; [lia|].
    destruct (readUInt16LE_Some data 2) as [outlen ->]; [lia|].
    destruct (_ && _); [|done]. by rewrite H2.
Qed.

Lemma plain_payload_is_decoded_as_is_witness :
  let data := bytes [0; 0; 10; 2; 104; 105; 0] in
  noInflate data = None /\
  (forall inlen, noInflate (Buf.slice2 data 4 (4 + inlen)) = None) /\
  processServerData noInflate 8 freshClient data
  = parseGameMessage noInflate 8 freshClient data false.
Proof.
  cbv zeta. split; [reflexivity|]. split; [reflexivity|].
  apply (proj2 (proj2 (plain_payload_is_decoded_as_is noInflate 8 freshClient
                         (bytes [0; 0; 10; 2; 104; 105; 0])))); reflexivity.
Defined.

(** ** Invariants of the handshake *)

Section HandshakeInv.

(** Whether the client was made passive. *)
Variable passive : bool.

Local Abbreviation handshakeInv st :=
  ((playersKnown st /\ passiveMode (options st) = passive) /\ staysPassive st).

Local Abbreviation actionInv a :=
  (match a with Some st' => handshakeInv st' | None => True end).

Lemma emitted_logEffect_timers e st :
  (forall d, e <> SetTimeout TSendBeginCommand d) ->
  Forall (fun t => t.1 <> TSendBeginCommand) (timersOf st) ->
  Forall (fun t => t.1 <> TSendBeginCommand) (timersOf (logEffect e st)).
Proof.
  intros He H. rewrite timersOf_logEffect. apply Forall_app. split; [done|].
  destruct e; try constructor; [|constructor].
  cbn [fst]. intros ->. by eapply He.
Qed.

Lemma inv_logEffect e st :
  (forall d, e <> SetTimeout TSendBeginCommand d) ->
  handshakeInv st -> handshakeInv (logEffect e st).
Proof.
  intros He [Hk Hp]. split; [done|]. intros Hpm.
  destruct (Hp Hpm) as [Ha Ht]. split; [done|]. by apply emitted_logEffect_timers.
Qed.

Lemma inv_emitEvent type d st : handshakeInv st -> handshakeInv (emitEvent type d st).
Proof.
  intros H. unfold emitEvent.
  destruct (debug _); repeat apply inv_logEffect; done.
Qed.

Lemma inv_setTimeout a delay st :
  a <> TSendBeginCommand -> handshakeInv st -> handshakeInv (setTimeout a delay st).
Proof. intros Ha H. apply inv_logEffect; [|done]. by intros d [= ->]. Qed.

Lemma inv_socketSend packet st : handshakeInv st -> actionInv (socketSend packet st).
Proof. intros H. unfold socketSend. destruct (socket _); [|done]. by apply inv_logEffect. Qed.

Lemma inv_createSequencedPacket d reliable st :
  handshakeInv st -> handshakeInv (createSequencedPacket d reliable st).2.
Proof. unfold createSequencedPacket. by destruct reliable. Qed.

Lemma inv_sendSequencedResponse d reliable st :
  handshakeInv st -> actionInv (sendSequencedResponse d reliable st).
Proof.
  intros H. unfold sendSequencedResponse. destruct (_ || _); [done|].
  pose proof (inv_createSequencedPacket d reliable st H) as H'.
  destruct (createSequencedPacket d reliable st) as [packet st1].
  by apply inv_socketSend.
Qed.

Lemma inv_sendStringCmd cmd st : handshakeInv st -> actionInv (sendStringCmd cmd st).
Proof.
  intros H. unfold sendStringCmd. destruct (negb _); [done|].
  match goal with
  | |- context [createSequencedPacket ?d true st] =>
      pose proof (inv_createSequencedPacket d true st H) as H';
      destruct (createSequencedPacket d true st) as [packet st1]
  end.
  by apply inv_socketSend.
Qed.

Lemma inv_resetConnectionState st : handshakeInv st -> handshakeInv (resetConnectionState st).
Proof.
  intros [[Hk Ho] Hp]. unfold resetConnectionState.
  destruct (resetTracker _ _) as [t h]. split; [split; [|done]|].
  - intros k name. cbn [game set_entityTracker set_heap withGame set_game playerNames].
    by rewrite lookup_empty.
  - intros Hpm. destruct (Hp Hpm) as [Ha Ht]. by split.
Qed.

Lemma inv_handleDisconnect reason st :
  handshakeInv st -> handshakeInv (handleDisconnect reason st).
Proof.
  intros H. unfold handleDisconnect. cbv zeta.
  destruct (_ <? _).
  - apply inv_setTimeout; [done|]. apply inv_resetConnectionState, inv_emitEvent.
    exact H.
  - apply inv_emitEvent. exact H.
Qed.

Lemma inv_flag (f : Handshake -> Handshake) st :
  (forall hs, awaitingBegin (f hs) = awaitingBegin hs) ->
  handshakeInv st -> handshakeInv (withHandshake f st).
Proof.
  intros Hf [Hk Hp]. split; [done|]. intros Hpm.
  destruct (Hp Hpm) as [Ha Ht]. split; [|done].
  cbn [handshake withHandshake set_handshake]. by rewrite Hf.
Qed.

Lemma inv_pushPending cmd st : handshakeInv st -> handshakeInv (pushPending cmd st).
Proof. intros H. unfold pushPending. by apply inv_flag. Qed.

Lemma inv_enterSpawn st : handshakeInv st -> handshakeInv (enterSpawn st).
Proof.
  intros H. unfold enterSpawn.
  assert (E : exists b, passiveMode (options st) = b) by eauto.
  destruct E as [b E]. rewrite E. destruct b.
  - by apply inv_emitEvent.
  - destruct H as [Hk Hp]. split; [done|].
    unfold staysPassive. cbn [options withHandshake set_handshake].
    intros Hpm. congruence.
Qed.

Lemma inv_drainPending cmds : forall st,
  handshakeInv st -> actionInv (drainPending cmds st).
Proof.
  induction cmds as [|cmd rest IH]; intros st H; cbn [drainPending]; [done|].
  match goal with
  | |- context [sendStringCmd ?c ?s] =>
      pose proof (inv_sendStringCmd c s ltac:(by apply inv_flag)) as H1;
      destruct (sendStringCmd c s) as [st1|]; [|done]
  end.
  cbn [mbind option_bind]. by apply IH.
Qed.

Lemma inv_processPendingCommands st :
  handshakeInv st -> actionInv (processPendingCommands st).
Proof.
  intros H. unfold processPendingCommands.
  destruct (_ && _); [done|].
  pose proof (inv_drainPending (pendingCommands (handshake st)) st H) as H1.
  destruct (drainPending _ st) as [st1|]; [|done].
  cbn [mbind option_bind].
  destruct (awaitingBegin (handshake st1)) eqn:Ea; cbn [andb]; [|done].
  destruct (negb (hasSentBegin (handshake st1))); [|done].
  destruct H1 as [Hk Hp]. split; [done|].
  unfold staysPassive.
  cbn [options setTimeout logEffect set_log withHandshake set_handshake].
  intros Hpm. destruct (Hp Hpm) as [Ha _]. congruence.
Qed.

Lemma inv_withGame_spawn (f : Game -> Game) st :
  (forall g, playerNames (f g) = playerNames g) ->
  handshakeInv st -> handshakeInv (withGame f st).
Proof.
  intros Hf [[Hk Ho] Hp]. split; [split; [|done]|done].
  intros k name. cbn [game withGame set_game]. rewrite Hf. apply Hk.
Qed.

Lemma inv_stufftextLine line st :
  handshakeInv st -> handshakeInv (stufftextLine line st).1.
Proof.
  intros H. unfold stufftextLine. cbv zeta.
  set (cmd := JS.trim line). clearbody cmd.
  repeat lazymatch goal with
         | |- _ /\ staysPassive (fst (if ?c then _ else _)) => destruct c
         end;
    cbn [fst].
  - done.
  - destruct (respondedVersion _); [done|]. by apply inv_pushPending, inv_flag.
  - destruct (respondedAcToken _); [done|]. by apply inv_pushPending, inv_flag.
  - by apply inv_pushPending.
  - destruct (sentConfigstrings _); [done|]. by apply inv_pushPending, inv_flag.
  - destruct (sentBaselines _); [done|]. by apply inv_pushPending, inv_flag.
  - apply inv_enterSpawn.
    destruct (precacheMatch cmd); by apply inv_withGame_spawn, inv_flag.
  - by apply inv_enterSpawn, inv_withGame_spawn, inv_flag.
  - apply inv_setTimeout; [done|]. by apply inv_resetConnectionState, inv_emitEvent.
  - by apply inv_handleDisconnect.
  - done.
Qed.

Lemma inv_stufftextLines lines : forall st,
  handshakeInv st -> handshakeInv (stufftextLines lines st).1.
Proof.
  induction lines as [|line rest IH]; intros st H; cbn [stufftextLines]; [done|].
  pose proof (inv_stufftextLine line st H) as H1.
  destruct (stufftextLine line st) as [st1 [|]]; [by apply IH|done].
Qed.

Lemma inv_handleStufftext text st : handshakeInv st -> actionInv (handleStufftext text st).
Proof.
  intros H. unfold handleStufftext.
  pose proof (inv_stufftextLines (JS.split LF text) st H) as H1.
  destruct (stufftextLines _ st) as [st1 [|]]; [|done].
  by apply inv_processPendingCommands.
Qed.

Lemma inv_decoderFrame st0 st : decoderFrame st0 st -> handshakeInv st0 -> handshakeInv st.
Proof.
  intros (Ho & Hn & Hh & Hl & Hc & (f & Hg)) [[Hk Hq] Hp]. split; [split|].
  - intros k name. rewrite Hg. apply Hk.
  - by rewrite Ho.
  - intros Hpm. rewrite Ho in Hpm. destruct (Hp Hpm) as [Ha Ht].
    rewrite Hh. split; [done|]. by rewrite (timersOf_eq _ _ Hl).
Qed.

Lemma inv_withConn f st : handshakeInv st -> handshakeInv (withConn f st).
Proof. done. Qed.

Lemma inv_withNetchan f st : handshakeInv st -> handshakeInv (withNetchan f st).
Proof. done. Qed.

Lemma inv_resetTracker st t h :
  handshakeInv st -> handshakeInv (set_entityTracker t (set_heap h st)).
Proof. done. Qed.

Lemma inv_flag_off (f : Handshake -> Handshake) st :
  (forall hs, awaitingBegin (f hs) = false) ->
  handshakeInv st -> handshakeInv (withHandshake f st).
Proof.
  intros Hf [Hk Hp]. split; [done|]. intros Hpm.
  destruct (Hp Hpm) as [Ha Ht]. split; [|done].
  cbn [handshake withHandshake set_handshake]. by rewrite Hf.
Qed.

Lemma inv_handleMessage msg st :
  handshakeInv st ->
  match handleMessage msg st with
  | Some (st', _) => handshakeInv st'
  | None => True
  end.
Proof.
  intros H. destruct msg; cbn [handleMessage]; cbv zeta.
  - destruct (_ && _).
    + destruct (resetTracker _ _) as [t h] eqn:Et.
      match goal with
      | |- context [sendSequencedResponse None false ?s] =>
          assert (Hs : handshakeInv s);
          [|pose proof (inv_sendSequencedResponse None false s Hs) as H';
            destruct (sendSequencedResponse None false s); done]
      end.
      apply inv_setTimeout; [done|]. apply inv_resetTracker.
      apply inv_flag_off; [done|]. apply inv_withConn.
      by apply inv_withGame_spawn, inv_emitEvent.
    + apply inv_withConn, inv_flag; [done|].
      by apply inv_withGame_spawn, inv_emitEvent.
  - assert (H0 : handshakeInv
                   (withGame (fun g => set_configStrings (<[index := text]> (configStrings g)) g)
                      st)) by (by apply inv_withGame_spawn).
    lazymatch goal with
    | |- match (if ?c then _ else _) with _ => _ end => destruct c eqn:E
    end.
    + apply andb_true_iff in E as [E Et]. apply andb_true_iff in E as [E1 E2].
      destruct (JS.truthy _ && negb _) eqn:En; [|done].
      apply andb_true_iff in En as [En _].
      apply inv_emitEvent. destruct H0 as [[Hk Ho] Hp]. split; [split; [|done]|done].
      intros k name. cbn [game withGame set_game playerNames set_playerNames].
      destruct (decide (k = index - 1408)) as [->|Hne].
      * rewrite lookup_insert_eq. intros [= <-]. split; [unfold MAX_CLIENTS; lia|].
        intros Hn. rewrite Hn in En. done.
      * rewrite lookup_insert_ne by done. apply Hk.
    + clear E. destruct (_ && _); [by apply inv_emitEvent|done].
  - destruct (JS.truthy _); [by apply inv_emitEvent|done].
  - destruct (JS.truthy _); [by apply inv_emitEvent|done].
  - pose proof (inv_handleStufftext text st H) as H1.
    by destruct (handleStufftext text st).
  - by apply inv_handleDisconnect.
  - apply inv_setTimeout; [done|]. by apply inv_resetConnectionState, inv_emitEvent.
  - done.
  - done.
Qed.

Lemma inv_handleMessages msgs : forall st,
  handshakeInv st ->
  match handleMessages msgs st with
  | Some (st', _) => handshakeInv st'
  | None => True
  end.
Proof.
  induction msgs as [|msg rest IH]; intros st H; cbn [handleMessages]; [done|].
  pose proof (inv_handleMessage msg st H) as H1.
  destruct (handleMessage msg st) as [[st1 [|]]|]; cbn [mbind option_bind];
    [by apply IH|done|done].
Qed.

Lemma inv_netchanProcess parsed st :
  handshakeInv st -> handshakeInv (resultState (netchanProcess parsed st)).
Proof.
  intros H. unfold netchanProcess, commit, appendFragment, startFragments, recordAck.
  repeat match goal with
         | |- context [if ?c then _ else _] => destruct c
         | |- context [match data parsed with _ => _ end] => destruct (data parsed)
         end; done.
Qed.

Section ClientInv.

Variable inflateRawSync : Buffer -> option Buffer.
Variable stackDepth : nat.

Lemma inv_handleSequenced parsed st :
  handshakeInv st -> actionInv (handleSequenced inflateRawSync stackDepth parsed st).
Proof.
  intros H. unfold handleSequenced.
  pose proof (inv_netchanProcess parsed st H) as H0.
  destruct (netchanProcess parsed st) as [st1|st1 hasData d]; cbn [resultState] in H0;
    [done|].
  destruct (if hasData then d else None) as [payload|];
    [|by apply inv_sendSequencedResponse].
  pose proof (inv_decoderFrame _ _
                (processServerData_frame inflateRawSync stackDepth st1 payload) H0) as H1.
  destruct (processServerData _ _ st1 payload) as [st2 [msgs|]]; [|done].
  cbn [fst] in H1.
  pose proof (inv_handleMessages msgs st2 H1) as H2.
  destruct (handleMessages msgs st2) as [[st3 [|]]|]; cbn [mbind option_bind];
    [|done|done].
  by apply inv_sendSequencedResponse.
Qed.

Lemma inv_handleServerPacket now buffer st :
  handshakeInv st ->
  actionInv (handleServerPacket inflateRawSync stackDepth now buffer st).
Proof.
  intros H. unfold handleServerPacket.
  destruct (parseOOBPacket buffer) as [parsed|]; [|done].
  destruct parsed; cbv beta iota zeta.
  all: lazymatch goal with
       | |- _ /\ staysPassive (setTimeout _ _ (selectProtocol _ _)) =>
           apply inv_setTimeout; [done|]; unfold selectProtocol;
           repeat match goal with |- context [if ?c then _ else _] => destruct c end;
           done
       | |- _ /\ staysPassive (setTimeout _ _ _) =>
           apply inv_setTimeout; [done|]; apply inv_withConn, inv_emitEvent;
           destruct (_ !! _) as [nc|]; [|done]; by destruct (JS.truthy nc)
       | |- _ /\ staysPassive (handleDisconnect _ _) => by apply inv_handleDisconnect
       | |- _ /\ staysPassive (logEffect _ _) => by apply inv_logEffect
       | |- _ /\ staysPassive _ => done
       | |- match (if _ then _ else _) with _ => _ end =>
           destruct (JS.truthy _); [by apply inv_emitEvent|done]
       | |- _ => by apply inv_handleSequenced
       end.
Qed.

Lemma inv_runTimer a st : handshakeInv st -> actionInv (runTimer a st).
Proof.
  intros H. destruct a; cbn [runTimer].
  - unfold connectToServer. apply inv_socketSend. by destruct (JS.truthyNum _).
  - unfold sendNewCommand. destruct (hasSentNew _); [done|].
    by apply inv_sendStringCmd, inv_flag.
  - unfold sendBeginCommand. destruct (hasSentBegin _); [done|].
    match goal with
    | |- context [sendStringCmd ?c ?s] =>
        pose proof (inv_sendStringCmd c s ltac:(by apply inv_flag)) as H1;
        destruct (sendStringCmd c s) as [st1|]; [|done]
    end.
    cbn [mbind option_bind]. by apply inv_emitEvent.
  - unfold requestChallenge. by apply inv_socketSend, inv_emitEvent.
Qed.

Lemma inv_cleanup st : handshakeInv st -> handshakeInv (cleanup st).
Proof.
  intros H. unfold cleanup. cbv zeta.
  destruct (_ && _); [|done].
  apply inv_withConn, inv_withConn. by apply inv_logEffect.
Qed.

Lemma inv_input i st : handshakeInv st -> actionInv (input inflateRawSync stackDepth i st).
Proof.
  intros H. destruct i; cbn [input].
  - unfold connect. apply inv_withConn.
    destruct (socket _); [|done]. by apply inv_emitEvent, inv_cleanup.
  - by apply (inv_runTimer TRequestChallenge).
  - by apply inv_handleServerPacket.
  - by apply inv_runTimer.
  - unfold heartbeatTick. destruct (negb _); [done|].
    destruct (connectionState _); by apply inv_sendSequencedResponse.
  - unfold keepAliveTick. destruct (isConnected _); [|done].
    by apply inv_sendSequencedResponse.
  - by apply inv_cleanup, inv_emitEvent.
  - by apply inv_emitEvent, inv_cleanup.
Qed.

Lemma inv_inputs l : forall st st',
  handshakeInv st -> inputs inflateRawSync stackDepth l st = Some st' -> handshakeInv st'.
Proof.
  induction l as [|i l IH]; intros st st' H; cbn [inputs].
  - by intros [= <-].
  - pose proof (inv_input i st H) as Hi.
    destruct (input inflateRawSync stackDepth i st) as [st1|]; [|done].
    cbn [mbind option_bind]. by apply IH.
Qed.

End ClientInv.

Lemma inv_newQ2Client opts challenge qport now :
  passiveMode opts = passive -> handshakeInv (newQ2Client opts challenge qport now).
Proof.
  intros Ho. unfold newQ2Client. destruct (newEntityTracker emptyHeap) as [t h].
  split; [split; [|done]|].
  - intros k name. cbn [game playerNames]. by rewrite lookup_empty.
  - intros _. split; [done|]. constructor.
Qed.

(** The two invariants along a run. *)
Lemma run_keeps_invariants inflate depth l st st' :
  playersKnown st -> passiveMode (options st) = passive -> staysPassive st ->
  inputs inflate depth l st = Some st' ->
  playersKnown st' /\ passiveMode (options st') = passive /\ staysPassive st'.
Proof.
  intros Hk Ho Hp Hrun.
  destruct (inv_inputs inflate depth l st st' (conj (conj Hk Ho) Hp) Hrun)
    as [[H1 H2] H3].
  exact (conj H1 (conj H2 H3)).
Qed.

Lemma step_keeps_invariants inflate depth i st st' :
  playersKnown st -> passiveMode (options st) = passive -> staysPassive st ->
  input inflate depth i st = Some st' ->
  playersKnown st' /\ passiveMode (options st') = passive /\ staysPassive st'.
Proof.
  intros Hk Ho Hp Hrun.
  pose proof (inv_input inflate depth i st (conj (conj Hk Ho) Hp)) as H.
  rewrite Hrun in H. destruct H as [[H1 H2] H3].
  exact (conj H1 (conj H2 H3)).
Qed.

Lemma newQ2Client_invariants opts challenge qport now :
  passiveMode opts = passive ->
  playersKnown (newQ2Client opts challenge qport now) /\
  passiveMode (options (newQ2Client opts challenge qport now)) = passive /\
  staysPassive (newQ2Client opts challenge qport now).
Proof.
  intros Ho. destruct (inv_newQ2Client opts challenge qport now Ho) as [[H1 H2] H3].
  exact (conj H1 (conj H2 H3)).
Qed.

End HandshakeInv.

(** ** The players along a run *)

Lemma playerEntries_spec names num name :
  (num, name) ∈ playerEntries names <-> names !! num = Some name.
Proof.
  unfold playerEntries. rewrite merge_sort_Permutation.
  apply elem_of_map_to_list.
Qed.

Lemma playerEntries_NoDup names : NoDup (playerEntries names).*1.
Proof.
  unfold playerEntries. rewrite merge_sort_Permutation.
  apply NoDup_fst_map_to_list.
Qed.

Lemma getPlayers_ids st : player_id <$> getPlayers st = (playerEntries (playerNames (game st))).*1.
Proof.
  unfold getPlayers. rewrite <- list_fmap_compose.
  apply list_fmap_ext. by intros _ [num name] _.
Qed.

(** X20. After any run of a client that is not in monitor mode, if the
    run raises no exception, each element of the list that [getPlayers]
    returns is a player of [playerNames]: its [id] is between 0 and 255,
    its [name] is not empty, and its [entity] is the object of entity
    [id + 1], never [null]; no two elements have the same [id], and the
    list is in ascending order of [id]. *)
Theorem getPlayers_are_known inflate depth opts challenge qport now
    (l : list Input) (st' : Q2Client) :
  monitorMode opts = false ->
  inputs inflate depth l (newQ2Client opts challenge qport now) = Some st' ->
  (forall p, p ∈ getPlayers st' ->
     0 <= player_id p < 256 /\
     playerNames (game st') !! player_id p = Some (player_name p) /\
     player_name p <> EmptyString /\
     exists e, player_entity p = JObj e /\
               Q2Client_getEntity st' (player_id p + 1) = JObj e) /\
  NoDup (player_id <$> getPlayers st') /\
  StronglySorted Z.le (player_id <$> getPlayers st').
Proof.
  intros _ Hrun.
  destruct (newQ2Client_invariants (passiveMode opts) opts challenge qport now eq_refl)
    as (Hk0 & Ho0 & Hp0).
  destruct (run_keeps_invariants _ inflate depth l _ st' Hk0 Ho0 Hp0 Hrun) as (Hk & _ & _).
  destruct (inputs_wellFormed inflate depth l _ st'
              (newQ2Client_wellFormed opts challenge qport now) Hrun) as [[Hb He] _].
  clear Hrun Hk0 Ho0 Hp0.
  split; [|split].
  - intros p Hp. unfold getPlayers in Hp.
    apply list_elem_of_fmap in Hp as ([num name] & -> & Hin).
    apply playerEntries_spec in Hin. cbn [player_id player_name player_entity].
    destruct (Hk num name Hin) as [Hnum Hname]. unfold MAX_CLIENTS in Hnum.
    split; [lia|]. split; [done|]. split; [done|].
    unfold Q2Client_getEntity, getEntity.
    assert (Hr : inRange (num + 1) = true)
      by (apply inRange_spec; unfold MAX_EDICTS; lia).
    rewrite Hr. unfold MAX_EDICTS in He.
    destruct (lookup_lt_is_Some_2 (entities (entityTracker st')) (Z.to_nat (num + 1)))
      as [e ->]; [lia|by eexists].
  - rewrite getPlayers_ids. apply playerEntries_NoDup.
  - rewrite getPlayers_ids. unfold playerEntries.
    assert (Hs : StronglySorted keyLe (merge_sort keyLe (map_to_list (playerNames (game st'))))).
    { apply StronglySorted_merge_sort.
      - intros a b c. unfold keyLe. lia.
      - intros a b. unfold keyLe. lia. }
    induction Hs as [|a rest Hs IH Ha]; cbn [fmap list_fmap]; constructor; [done|].
    apply Forall_fmap. eapply Forall_impl; [exact Ha|]. by intros b Hb'.
Qed.

Lemma getPlayers_are_known_witness :
  exists st',
    inputs noInflate 8 playerJoins (newQ2Client defaultOptions 777 42 0) = Some st' /\
    (forall p, p ∈ getPlayers st' ->
       0 <= player_id p < 256 /\
       playerNames (game st') !! player_id p = Some (player_name p) /\
       player_name p <> EmptyString /\
       exists e, player_entity p = JObj e /\
                 Q2Client_getEntity st' (player_id p + 1) = JObj e) /\
    NoDup (player_id <$> getPlayers st') /\
    StronglySorted Z.le (player_id <$> getPlayers st').
Proof.
  assert (H : returned (inputs noInflate 8 playerJoins (newQ2Client defaultOptions 777 42 0))
              = true) by (vm_compute; reflexivity).
  revert H.
  destruct (inputs noInflate 8 playerJoins (newQ2Client defaultOptions 777 42 0))
    as [st'|] eqn:E; intros H; [|discriminate H].
  exists st'. split; [reflexivity|].
  exact (getPlayers_are_known noInflate 8 defaultOptions 777 42 0 _ _ eq_refl E).
Defined.

(** ** Passive mode *)

Lemma scheduled_spec a st :
  scheduled a st = true <-> exists d, (a, d) ∈ timersOf st.
Proof.
  unfold scheduled. rewrite bool_decide_eq_true, list_elem_of_fmap. split.
  - intros ([a' d] & -> & Hin). by exists d.
  - intros [d Hin]. by exists (a, d).
Qed.

Lemma staysPassive_unscheduled st :
  passiveMode (options st) = true -> staysPassive st ->
  scheduled TSendBeginCommand st = false.
Proof.
  intros Ho Hp. destruct (Hp Ho) as [_ Ht].
  destruct (scheduled TSendBeginCommand st) eqn:E; [|done].
  apply scheduled_spec in E as [d Hin].
  rewrite Forall_forall in Ht. by destruct (Ht _ Hin).
Qed.

Lemma passive_run inflate depth l : forall st st',
  playersKnown st -> passiveMode (options st) = true -> staysPassive st ->
  firesScheduled inflate depth l st = true ->
  inputs inflate depth l st = Some st' ->
  Forall (fun i => i <> Fire TSendBeginCommand) l.
Proof.
  induction l as [|i rest IH]; intros st st' Hk Ho Hp Hf Hrun; [constructor|].
  cbn [firesScheduled] in Hf. apply andb_true_iff in Hf as [Hi Hf].
  cbn [inputs] in Hrun.
  destruct (input inflate depth i st) as [st1|] eqn:E; [|discriminate Hrun].
  cbn [mbind option_bind] in Hrun.
  constructor.
  - intros ->. rewrite (staysPassive_unscheduled st Ho Hp) in Hi. discriminate Hi.
  - destruct (step_keeps_invariants true inflate depth i st st1 Hk Ho Hp E)
      as (Hk1 & Ho1 & Hp1).
    exact (IH st1 st' Hk1 Ho1 Hp1 Hf Hrun).
Qed.

(** X21. A passive client that is not in monitor mode never gets to
    [sendBeginCommand]. Along any run that raises no exception and in
    which a timeout fires only after it was set, [sendBeginCommand] is not among the callbacks that run; at
    the end no [setTimeout] has been called with it, and the client is not
    waiting to send [begin]. *)
Theorem passive_client_never_begins inflate depth opts challenge qport now
    (l : list Input) (st' : Q2Client) :
  passiveMode opts = true -> monitorMode opts = false ->
  firesScheduled inflate depth l (newQ2Client opts challenge qport now) = true ->
  inputs inflate depth l (newQ2Client opts challenge qport now) = Some st' ->
  Forall (fun i => i <> Fire TSendBeginCommand) l /\
  scheduled TSendBeginCommand st' = false /\
  awaitingBegin (handshake st') = false.
Proof.
  intros Ho _ Hf Hrun.
  destruct (newQ2Client_invariants true opts challenge qport now Ho) as (Hk0 & Ho0 & Hp0).
  destruct (run_keeps_invariants true inflate depth l _ st' Hk0 Ho0 Hp0 Hrun)
    as (Hk & Ho' & Hp).
  split; [exact (passive_run inflate depth l _ st' Hk0 Ho0 Hp0 Hf Hrun)|].
  clear Hf Hrun Hk0 Ho0 Hp0.
  split; [by apply staysPassive_unscheduled|].
  by destruct (Hp Ho').
Qed.

Lemma passive_client_never_begins_witness :
  exists st',
    inputs noInflate 8 playerJoins (newQ2Client passiveOptions 777 42 0) = Some st' /\
    Forall (fun i => i <> Fire TSendBeginCommand) playerJoins /\
    scheduled TSendBeginCommand st' = false /\
    awaitingBegin (handshake st') = false.
Proof.
  assert (H : returned (inputs noInflate 8 playerJoins (newQ2Client passiveOptions 777 42 0))
              = true) by (vm_compute; reflexivity).
  revert H.
  destruct (inputs noInflate 8 playerJoins (newQ2Client passiveOptions 777 42 0))
    as [st'|] eqn:E; intros H; [|discriminate H].
  exists st'. split; [reflexivity|].
  apply (passive_client_never_begins noInflate 8 passiveOptions 777 42 0 _ _);
    [reflexivity|reflexivity|vm_compute; reflexivity|exact E].
Defined.

(** ** Monitor mode *)

Lemma emitStatus_fields d m :
  Monitor.client (Monitor.emitStatus d m) = Monitor.client m /\
  Monitor.lastServerStatus (Monitor.emitStatus d m) = Monitor.lastServerStatus m.
Proof. done. Qed.

Lemma emitJoins_known known ps : forall m,
  Forall (fun p => Monitor.name p ∈ known) ps -> Monitor.emitJoins known ps m = m.
Proof.
  unfold Monitor.emitJoins.
  induction ps as [|p ps IH]; intros m H; [done|].
  apply Forall_cons in H as [Hp H]. cbn [foldl].
  rewrite bool_decide_eq_true_2 by done. by apply IH.
Qed.

Lemma emitLeaves_known known ps : forall m,
  Forall (fun p => Monitor.name p ∈ known) ps -> Monitor.emitLeaves known ps m = m.
Proof.
  unfold Monitor.emitLeaves.
  induction ps as [|p ps IH]; intros m H; [done|].
  apply Forall_cons in H as [Hp H]. cbn [foldl].
  rewrite bool_decide_eq_true_2 by done. by apply IH.
Qed.

Lemma names_known (ps : list Monitor.Player) (known : list string) :
  Monitor.name <$> ps ⊆ known -> Forall (fun p => Monitor.name p ∈ known) ps.
Proof.
  intros H. apply Forall_forall. intros p Hp. apply H.
  by apply list_elem_of_fmap_2.
Qed.

(** X22. A status response that lists the same player names as the one
    before it, and gives the same map, emits no event, whatever else in
    it has changed (scores, pings, the other keys of the info line, the
    order of the players); the response becomes [lastServerStatus]. *)
Theorem quiet_poll content m last :
  Monitor.lastServerStatus m = Some last ->
  (forall x, x ∈ Monitor.name <$> Monitor.players (Monitor.parseStatusResponse content)
             <-> x ∈ Monitor.name <$> Monitor.players last) ->
  Monitor.info (Monitor.parseStatusResponse content) !! "mapname"
    = Monitor.info last !! "mapname" ->
  Monitor.statusEvents (Monitor.handleStatusResponse content m) = Monitor.statusEvents m /\
  Monitor.client (Monitor.handleStatusResponse content m) = Monitor.client m /\
  Monitor.lastServerStatus (Monitor.handleStatusResponse content m)
    = Some (Monitor.parseStatusResponse content).
Proof.
  intros Hlast Hnames Hmap. unfold Monitor.handleStatusResponse. cbv zeta.
  rewrite Hlast.
  rewrite emitJoins_known
    by (apply names_known; intros x Hx; by apply Hnames).
  rewrite emitLeaves_known
    by (apply names_known; intros x Hx; by apply Hnames).
  rewrite Hmap.
  destruct (Monitor.info last !! "mapname") as [map|]; [|done].
  rewrite bool_decide_eq_true_2 by done.
  by rewrite andb_false_r.
Qed.

Lemma quiet_poll_witness :
  Monitor.statusEvents (Monitor.handleStatusResponse answer2 polledOnce)
    = Monitor.statusEvents polledOnce /\
  Monitor.client (Monitor.handleStatusResponse answer2 polledOnce)
    = Monitor.client polledOnce /\
  Monitor.lastServerStatus (Monitor.handleStatusResponse answer2 polledOnce)
    = Some (Monitor.parseStatusResponse answer2).
Proof.
  apply (quiet_poll answer2 polledOnce (Monitor.parseStatusResponse answer1)).
  - reflexivity.
  - intros x.
    assert (E : Monitor.name <$> Monitor.players (Monitor.parseStatusResponse answer2)
                = ["amy"; "bob"]) by (vm_compute; reflexivity).
    assert (E' : Monitor.name <$> Monitor.players (Monitor.parseStatusResponse answer1)
                 = ["bob"; "amy"]) by (vm_compute; reflexivity).
    rewrite E, E', !elem_of_cons, !elem_of_nil. tauto.
  - vm_compute. reflexivity.
Defined.


Local Abbreviation wire dbg d :=
  (if dbg then [("server_info", d); ("raw_message", d)] else [("server_info", d)]).

Lemma emitStatus_events d m :
  Monitor.statusEvents (Monitor.emitStatus d m)
  = Monitor.statusEvents m ++ wire (debug (options (Monitor.client m))) d.
Proof.
  unfold Monitor.emitStatus. cbn [Monitor.statusEvents].
  destruct (debug _); [|done]. by rewrite <- app_assoc.
Qed.

Lemma emitJoins_events known ps : forall m,
  Monitor.client (Monitor.emitJoins known ps m) = Monitor.client m /\
  Monitor.lastServerStatus (Monitor.emitJoins known ps m) = Monitor.lastServerStatus m /\
  Monitor.statusEvents (Monitor.emitJoins known ps m)
  = Monitor.statusEvents m ++
    (ps ≫= fun p =>
       if bool_decide (Monitor.name p ∈ known) then []
       else wire (debug (options (Monitor.client m)))
                 (Monitor.PlayerJoin (Monitor.name p) (Monitor.ping p))).
Proof.
  unfold Monitor.emitJoins.
  induction ps as [|p ps IH]; intros m; cbn [foldl mbind list_bind].
  - by rewrite app_nil_r.
  - destruct (bool_decide (Monitor.name p ∈ known)).
    + apply IH.
    + destruct (IH (Monitor.emitStatus
                      (Monitor.PlayerJoin (Monitor.name p) (Monitor.ping p)) m))
        as (Hc & Hl & He).
      split; [done|]. split; [done|].
      rewrite He, emitStatus_events. cbn [Monitor.client Monitor.emitStatus].
      by rewrite <- app_assoc.
Qed.

Lemma emitLeaves_events known ps : forall m,
  Monitor.client (Monitor.emitLeaves known ps m) = Monitor.client m /\
  Monitor.lastServerStatus (Monitor.emitLeaves known ps m) = Monitor.lastServerStatus m /\
  Monitor.statusEvents (Monitor.emitLeaves known ps m)
  = Monitor.statusEvents m ++
    (ps ≫= fun p =>
       if bool_decide (Monitor.name p ∈ known) then []
       else wire (debug (options (Monitor.client m)))
                 (Monitor.PlayerLeave (Monitor.name p))).
Proof.
  unfold Monitor.emitLeaves.
  induction ps as [|p ps IH]; intros m; cbn [foldl mbind list_bind].
  - by rewrite app_nil_r.
  - destruct (bool_decide (Monitor.name p ∈ known)).
    + apply IH.
    + destruct (IH (Monitor.emitStatus (Monitor.PlayerLeave (Monitor.name p)) m))
        as (Hc & Hl & He).
      split; [done|]. split; [done|].
      rewrite He, emitStatus_events. cbn [Monitor.client Monitor.emitStatus].
      by rewrite <- app_assoc.
Qed.

(** The events of a response that is not the first one. *)
Lemma handleStatusResponse_events content m last :
  Monitor.lastServerStatus m = Some last ->
  Monitor.client (Monitor.handleStatusResponse content m) = Monitor.client m /\
  Monitor.statusEvents (Monitor.handleStatusResponse content m)
  = Monitor.statusEvents m ++
    (Monitor.players (Monitor.parseStatusResponse content) ≫= fun p =>
       if bool_decide (Monitor.name p ∈ Monitor.name <$> Monitor.players last) then []
       else wire (debug (options (Monitor.client m)))
                 (Monitor.PlayerJoin (Monitor.name p) (Monitor.ping p))) ++
    (Monitor.players last ≫= fun p =>
       if bool_decide (Monitor.name p ∈ Monitor.name
                         <$> Monitor.players (Monitor.parseStatusResponse content))
       then []
       else wire (debug (options (Monitor.client m)))
                 (Monitor.PlayerLeave (Monitor.name p))) ++
    match Monitor.info (Monitor.parseStatusResponse content) !! "mapname" with
    | Some map =>
        if JS.truthy map
           && negb (bool_decide (Monitor.info last !! "mapname" = Some map))
        then wire (debug (options (Monitor.client m)))
                  (Monitor.MapChange (Monitor.info last !! "mapname") map)
        else []
    | None => []
    end.
Proof.
  intros Hlast. unfold Monitor.handleStatusResponse. cbv zeta. rewrite Hlast.
  set (status := Monitor.parseStatusResponse content).
  set (old := Monitor.name <$> Monitor.players last).
  set (new := Monitor.name <$> Monitor.players status).
  destruct (emitJoins_events old (Monitor.players status) m) as (Hc1 & Hl1 & He1).
  set (m1 := Monitor.emitJoins old (Monitor.players status) m) in *.
  destruct (emitLeaves_events new (Monitor.players last) m1) as (Hc2 & Hl2 & He2).
  set (m2 := Monitor.emitLeaves new (Monitor.players last) m1) in *.
  rewrite Hc1 in He2. rewrite He1 in He2.
  destruct (Monitor.info status !! "mapname") as [map|].
  - destruct (JS.truthy map && _).
    + cbn [Monitor.client Monitor.statusEvents]. split.
      * cbn [Monitor.emitStatus Monitor.client]. congruence.
      * rewrite emitStatus_events, He2, Hc2, Hc1. by rewrite <- !app_assoc.
    + cbn [Monitor.client Monitor.statusEvents]. split; [congruence|].
      rewrite He2, app_nil_r. by rewrite <- !app_assoc.
  - cbn [Monitor.client Monitor.statusEvents]. split; [congruence|].
    rewrite He2, app_nil_r. by rewrite <- !app_assoc.
Qed.

Lemma in_wire (dbg : bool) (d : Monitor.StatusEvent) (e : string * Monitor.StatusEvent) :
  e ∈ wire dbg d ->
  e.2 = d /\ (e.1 = "server_info" \/ (dbg = true /\ e.1 = "raw_message")).
Proof.
  destruct dbg; rewrite ?elem_of_cons, ?elem_of_nil;
    intros H; destruct_or!; subst; cbn [fst snd]; (try done); split; auto.
Qed.

Lemma wire_in (dbg : bool) (d : Monitor.StatusEvent) : ("server_info", d) ∈ wire dbg d.
Proof. destruct dbg; apply elem_of_cons; by left. Qed.

Lemma in_bind_wire (dbg : bool) (known : list string)
    (f : Monitor.Player -> Monitor.StatusEvent) (ps : list Monitor.Player)
    (e : string * Monitor.StatusEvent) :
  e ∈ (ps ≫= (fun p => if bool_decide (Monitor.name p ∈ known) then []
                       else wire dbg (f p)))
  <-> exists p, p ∈ ps /\ (Monitor.name p ∉ known) /\ e ∈ wire dbg (f p).
Proof.
  rewrite list_elem_of_bind. split.
  - intros (p & He & Hp). exists p. split; [done|].
    destruct (bool_decide_reflect (Monitor.name p ∈ known)); [|done].
    by apply elem_of_nil in He.
  - intros (p & Hp & Hn & He). exists p. split; [|done].
    by rewrite bool_decide_eq_false_2.
Qed.

(** A response after the first one emits no [status] event. *)
Lemma handleStatusResponse_later content m last :
  Monitor.lastServerStatus m = Some last ->
  exists evs,
    Monitor.statusEvents (Monitor.handleStatusResponse content m)
      = Monitor.statusEvents m ++ evs /\
    Forall (fun e => Monitor.isStatusInfo e = false) evs.
Proof.
  intros Hlast.
  destruct (handleStatusResponse_events content m last Hlast) as [_ He].
  eexists. split; [exact He|]. clear He.
  apply Forall_forall. intros e. rewrite !elem_of_app, !in_bind_wire.
  unfold Monitor.isStatusInfo.
  intros [(p & Hp & Hn & He)|[(p & Hp & Hn & He)|He]].
  - apply in_wire in He as [-> _]. done.
  - apply in_wire in He as [-> _]. done.
  - destruct (Monitor.info _ !! "mapname") as [map|]; [|by apply elem_of_nil in He].
    destruct (_ && _); [|by apply elem_of_nil in He].
    apply in_wire in He as [-> _]. done.
Qed.

(** X23. What a status response after the first one reports. A
    [player_join] is emitted for a name and a ping exactly when the
    response lists a player of that name and ping and the response before
    it lists no player of that name; a [player_leave] exactly for the
    names that the response before it lists and this one does not; a
    [map_change] exactly when the info line gives a map that is not empty
    and differs from the map before. No [status] event is emitted, and the
    events emitted before stay as they are. *)
Theorem status_events_are_the_difference content m last :
  Monitor.lastServerStatus m = Some last ->
  exists evs,
    Monitor.statusEvents (Monitor.handleStatusResponse content m)
      = Monitor.statusEvents m ++ evs /\
    (forall x pg,
       ("server_info", Monitor.PlayerJoin x pg) ∈ evs <->
       (x ∉ Monitor.name <$> Monitor.players last) /\
       exists p, p ∈ Monitor.players (Monitor.parseStatusResponse content) /\
                 Monitor.name p = x /\ Monitor.ping p = pg) /\
    (forall x,
       ("server_info", Monitor.PlayerLeave x) ∈ evs <->
       x ∈ Monitor.name <$> Monitor.players last /\
       x ∉ Monitor.name <$> Monitor.players (Monitor.parseStatusResponse content)) /\
    (forall prev map,
       ("server_info", Monitor.MapChange prev map) ∈ evs <->
       Monitor.info (Monitor.parseStatusResponse content) !! "mapname" = Some map /\
       map <> EmptyString /\
       prev = Monitor.info last !! "mapname" /\ prev <> Some map) /\
    Forall (fun e => Monitor.isStatusInfo e = false) evs.
Proof.
  intros Hlast.
  destruct (handleStatusResponse_events content m last Hlast) as [_ He].
  set (status := Monitor.parseStatusResponse content) in *.
  set (dbg := debug (options (Monitor.client m))) in *.
  eexists. split; [exact He|]. clear He.
  assert (Hmap : forall e,
            e ∈ match Monitor.info status !! "mapname" with
                | Some map =>
                    if JS.truthy map
                       && negb (bool_decide (Monitor.info last !! "mapname" = Some map))
                    then wire dbg (Monitor.MapChange (Monitor.info last !! "mapname") map)
                    else []
                | None => []
                end ->
            exists map, Monitor.info status !! "mapname" = Some map /\
                        map <> EmptyString /\
                        Monitor.info last !! "mapname" <> Some map /\
                        e.2 = Monitor.MapChange (Monitor.info last !! "mapname") map).
  { intros e. destruct (Monitor.info status !! "mapname") as [map|];
      [|by intros ?%elem_of_nil].
    destruct (JS.truthy map) eqn:Et; cbn [andb]; [|by intros ?%elem_of_nil].
    destruct (bool_decide_reflect (Monitor.info last !! "mapname" = Some map));
      cbn [negb]; [by intros ?%elem_of_nil|].
    intros [He _]%in_wire. exists map. repeat split; try done.
    intros ->. done. }
  split; [|split; [|split]].
  - intros x pg. rewrite !elem_of_app, !in_bind_wire. split.
    + intros [(p & Hp & Hn & He)|[(p & Hp & Hn & He)|He]].
      * apply in_wire in He as [[= -> ->] _]. split; [done|]. by exists p.
      * by apply in_wire in He as [[=] _].
      * by destruct (Hmap _ He) as (map & _ & _ & _ & [=]).
    + intros (Hn & p & Hp & <- & <-). left. exists p. split; [done|].
      split; [done|]. apply wire_in.
  - intros x. rewrite !elem_of_app, !in_bind_wire. split.
    + intros [(p & Hp & Hn & He)|[(p & Hp & Hn & He)|He]].
      * by apply in_wire in He as [[=] _].
      * apply in_wire in He as [[= ->] _]. split; [|done].
        by apply list_elem_of_fmap_2.
      * by destruct (Hmap _ He) as (map & _ & _ & _ & [=]).
    + intros [(p & -> & Hp)%list_elem_of_fmap Hn]. right. left.
      exists p. split; [done|]. split; [done|]. apply wire_in.
  - intros prev map. rewrite !elem_of_app, !in_bind_wire. split.
    + intros [(p & Hp & Hn & He)|[(p & Hp & Hn & He)|He]].
      * by apply in_wire in He as [[=] _].
      * by apply in_wire in He as [[=] _].
      * destruct (Hmap _ He) as (map' & Hm & Hne & Hd & [= -> ->]). done.
    + intros (Hm & Hne & -> & Hd). right. right. rewrite Hm.
      destruct map as [|c map]; [done|]. cbn [JS.truthy JS.isEmpty negb andb].
      rewrite bool_decide_eq_false_2 by done. apply wire_in.
  - apply Forall_forall. intros e. rewrite !elem_of_app, !in_bind_wire.
    unfold Monitor.isStatusInfo.
    intros [(p & Hp & Hn & He)|[(p & Hp & Hn & He)|He]].
    + apply in_wire in He as [-> _]. done.
    + apply in_wire in He as [-> _]. done.
    + destruct (Hmap _ He) as (map & _ & _ & _ & ->). done.
Qed.

Lemma status_events_are_the_difference_witness :
  exists evs,
    Monitor.statusEvents (Monitor.handleStatusResponse answer3 polledOnce)
      = Monitor.statusEvents polledOnce ++ evs /\
    ("server_info", Monitor.PlayerJoin "eve" (Some 12)) ∈ evs /\
    ("server_info", Monitor.PlayerLeave "amy") ∈ evs /\
    ("server_info", Monitor.MapChange (Some "q2dm1") "q2dm2") ∈ evs /\
    Forall (fun e => Monitor.isStatusInfo e = false) evs.
Proof.
  destruct (status_events_are_the_difference answer3 polledOnce
              (Monitor.parseStatusResponse answer1) eq_refl)
    as (evs & He & Hj & Hl & Hm & Hs).
  assert (E1 : Monitor.name <$> Monitor.players (Monitor.parseStatusResponse answer1)
               = ["bob"; "amy"]) by (vm_compute; reflexivity).
  assert (E3 : Monitor.players (Monitor.parseStatusResponse answer3)
               = [Monitor.mkPlayer (Some 7) (Some 31) "bob";
                  Monitor.mkPlayer (Some 0) (Some 12) "eve"])
    by (vm_compute; reflexivity).
  assert (M1 : Monitor.info (Monitor.parseStatusResponse answer1) !! "mapname"
               = Some "q2dm1") by (vm_compute; reflexivity).
  assert (M3 : Monitor.info (Monitor.parseStatusResponse answer3) !! "mapname"
               = Some "q2dm2") by (vm_compute; reflexivity).
  rewrite E1, E3, M1, M3 in *.
  exists evs. split; [exact He|]. clear He.
  split; [|split; [|split; [|exact Hs]]].
  - apply Hj. split.
    + rewrite !elem_of_cons, elem_of_nil.
      intros [H|[H|H]]; [discriminate H|discriminate H|exact H].
    + exists (Monitor.mkPlayer (Some 0) (Some 12) "eve").
      split; [|split; reflexivity].
      apply elem_of_cons. right. apply elem_of_cons. by left.
  - apply Hl. split.
    + apply elem_of_cons. right. apply elem_of_cons. by left.
    + cbn [fmap list_fmap Monitor.name]. rewrite !elem_of_cons, elem_of_nil.
      intros [H|[H|H]]; [discriminate H|discriminate H|exact H].
  - apply Hm. split; [reflexivity|]. split; [intros H; discriminate H|].
    split; [reflexivity|]. intros H. discriminate H.
Defined.


Lemma poll_later contents : forall m last,
  Monitor.lastServerStatus m = Some last ->
  exists later,
    Monitor.statusEvents (Monitor.poll contents m) = Monitor.statusEvents m ++ later /\
    Forall (fun e => Monitor.isStatusInfo e = false) later.
Proof.
  unfold Monitor.poll.
  induction contents as [|content rest IH]; intros m last Hlast; cbn [foldl].
  - exists []. by rewrite app_nil_r.
  - destruct (handleStatusResponse_later content m last Hlast) as (evs & He & Hf).
    destruct (IH (Monitor.handleStatusResponse content m)
                 (Monitor.parseStatusResponse content) eq_refl) as (later & Hl & Hf').
    exists (evs ++ later). split.
    + by rewrite Hl, He, <- app_assoc.
    + by apply Forall_app.
Qed.

(** X24. The [status] event is emitted for the first response that an
    instance handles, once (and once more as [raw_message] under [debug]),
    and for no response after it: nothing sets [lastServerStatus] back to
    [null]. *)
Theorem status_is_reported_once opts challenge qport now content rest :
  exists first later,
    Monitor.statusEvents
      (Monitor.handleStatusResponse content (Monitor.newInstance opts challenge qport now))
      = first /\
    Monitor.statusEvents
      (Monitor.poll (content :: rest) (Monitor.newInstance opts challenge qport now))
      = first ++ later /\
    length first = (if debug opts then 2%nat else 1%nat) /\
    Forall (fun e => Monitor.isStatusInfo e = true) first /\
    Forall (fun e => Monitor.isStatusInfo e = false) later.
Proof.
  set (m := Monitor.newInstance opts challenge qport now).
  assert (Hd : debug (options (Monitor.client m)) = debug opts).
  { unfold m, Monitor.newInstance, newQ2Client. cbn [Monitor.client].
    by destruct (newEntityTracker emptyHeap). }
  assert (He : Monitor.statusEvents m = []) by done.
  assert (Hn : Monitor.lastServerStatus m = None) by done.
  clearbody m.
  destruct (poll_later rest (Monitor.handleStatusResponse content m)
              (Monitor.parseStatusResponse content) eq_refl) as (later & Hl & Hf).
  eexists. exists later. split; [reflexivity|]. split; [exact Hl|].
  split; [|split; [|done]].
  - unfold Monitor.handleStatusResponse. cbv zeta. rewrite Hn.
    cbn [Monitor.statusEvents]. rewrite emitStatus_events, He, Hd.
    by destruct (debug opts).
  - unfold Monitor.handleStatusResponse. cbv zeta. rewrite Hn.
    cbn [Monitor.statusEvents]. rewrite emitStatus_events, He, Hd.
    destruct (debug opts); repeat constructor.
Qed.

(** *** Lines *)

Lemma split_nonempty sep s : JS.split sep s <> [].
Proof.
  destruct s as [|c s]; cbn [JS.split]; [done|].
  destruct (Ascii.eqb c sep); [done|]. by destruct (JS.split sep s).
Qed.

(** The pieces of a split hold no separator. *)
Lemma split_pieces sep s : Forall (fun l => JS.split sep l = [l]) (JS.split sep s).
Proof.
  induction s as [|c s IH]; cbn [JS.split]; [by constructor|].
  destruct (Ascii.eqb c sep) eqn:E; [by constructor|].
  destruct (JS.split sep s) as [|h t] eqn:Es; [by destruct (split_nonempty sep s)|].
  apply Forall_cons in IH as [Hh Ht]. constructor; [|done].
  cbn [JS.split]. by rewrite E, Hh.
Qed.

Lemma split_app sep a b :
  JS.split sep a = [a] -> JS.split sep (a +:+ String sep b) = a :: JS.split sep b.
Proof.
  induction a as [|c a IH]; intros H.
  - change (EmptyString +:+ String sep b) with (String sep b).
    cbn [JS.split]. by rewrite Ascii.eqb_refl.
  - cbn [JS.split] in H.
    change (String c a +:+ String sep b) with (String c (a +:+ String sep b)).
    cbn [JS.split].
    destruct (Ascii.eqb c sep); [by inversion H|].
    destruct (JS.split sep a) as [|h t] eqn:E; [by destruct (split_nonempty sep a)|].
    inversion H; subst. by rewrite IH.
Qed.

Lemma split_joinLines lines :
  lines <> [] -> Forall (fun l => JS.split LF l = [l]) lines ->
  JS.split LF (Monitor.joinLines lines) = lines.
Proof.
  induction lines as [|line rest IH]; intros Hne H; [done|].
  apply Forall_cons in H as [Hl H]. destruct rest as [|line' rest].
  - done.
  - change (Monitor.joinLines (line :: line' :: rest))
      with (line +:+ String LF (Monitor.joinLines (line' :: rest))).
    rewrite split_app by done. by rewrite IH.
Qed.

(** The status that a [print] answer is turned into has the lines of the
    answer after the first. *)
Lemma fakeStatus_lines content :
  (2 <=? length (JS.split LF content))%nat = true ->
  JS.split LF ("statusResponse" +:+
               String LF (Monitor.joinLines (drop 1 (JS.split LF content))))
  = "statusResponse" :: drop 1 (JS.split LF content).
Proof.
  intros Hlen. apply Nat.leb_le in Hlen.
  pose proof (split_pieces LF content) as Hp.
  destruct (JS.split LF content) as [|l0 [|l1 rest]]; cbn [length] in Hlen; try lia.
  apply Forall_cons in Hp as [_ Hp]. cbn [drop].
  rewrite split_app by done. by rewrite split_joinLines.
Qed.

Lemma handleStatusResponse_ext c1 c2 m :
  Monitor.parseStatusResponse c1 = Monitor.parseStatusResponse c2 ->
  Monitor.handleStatusResponse c1 m = Monitor.handleStatusResponse c2 m.
Proof. intros H. unfold Monitor.handleStatusResponse. by rewrite H. Qed.

Lemma parse_fakeStatus content :
  (2 <=? length (JS.split LF content))%nat = true ->
  Monitor.parseStatusResponse
    ("statusResponse" +:+ String LF (Monitor.joinLines (drop 1 (JS.split LF content))))
  = Monitor.parseStatusResponse content.
Proof.
  intros Hlen. unfold Monitor.parseStatusResponse. cbv zeta.
  rewrite (fakeStatus_lines content Hlen).
  destruct (JS.split LF content) as [|l0 [|l1 rest]]; done.
Qed.

(** X25. A [print] answer whose second line starts with a backslash is
    handled as the status response that its own content is: the first
    line counts for nothing in [parseStatusResponse]. *)
Theorem print_answer_is_a_status buffer m line1 :
  isOOB buffer = true ->
  JS.startsWith
    (JS.trim (default EmptyString (JS.split LF (Buf.latin1 (Buf.slice buffer 4)) !! 0%nat)))
    "print" = true ->
  JS.split LF (Buf.latin1 (Buf.slice buffer 4)) !! 1%nat = Some line1 ->
  JS.startsWith line1 (str BACKSLASH) = true ->
  Monitor.handleMonitorPacket buffer m
  = Monitor.handleStatusResponse (Buf.latin1 (Buf.slice buffer 4)) m.
Proof.
  intros Hoob Hprint Hl1 Hb. unfold Monitor.handleMonitorPacket. cbv zeta.
  rewrite Hoob. cbn [negb].
  set (content := Buf.latin1 (Buf.slice buffer 4)) in *.
  set (firstLine := JS.trim _) in *.
  assert (Hlen : (2 <=? length (JS.split LF content))%nat = true).
  { apply Nat.leb_le. apply lookup_lt_Some in Hl1. lia. }
  destruct (String.eqb firstLine "statusResponse"
            || JS.startsWith firstLine "statusResponse"); [done|].
  rewrite Hprint, Hlen, Hl1. cbn [default andb id]. rewrite Hb.
  by apply handleStatusResponse_ext, parse_fakeStatus.
Qed.

Lemma print_answer_is_a_status_witness :
  Monitor.handleMonitorPacket printAnswer polledOnce
  = Monitor.handleStatusResponse (Buf.latin1 (Buf.slice printAnswer 4)) polledOnce.
Proof.
  eapply print_answer_is_a_status.
  - vm_compute. reflexivity.
  - vm_compute. reflexivity.
  - vm_compute. reflexivity.
  - vm_compute. reflexivity.
Defined.


(** *** Which datagrams count in monitor mode *)

Lemma prefix_head a p s :
  String.prefix (String a p) s = true -> exists s', s = String a s'.
Proof.
  destruct s as [|c s]; cbn [String.prefix]; [done|].
  destruct (ascii_dec a c) as [->|]; [by eexists|done].
Qed.

Lemma parseSequencedPacket_kind buffer :
  match parseSequencedPacket buffer with
  | Some (PSequenced _) | Some (PSequencedError _) | None => True
  | _ => False
  end.
Proof.
  unfold parseSequencedPacket.
  destruct (_ <? _)%nat; [done|].
  destruct (Buf.readUInt32LE buffer 0); [|done]. cbn [mbind option_bind].
  destruct (Buf.readUInt32LE buffer 4); [|done]. cbn [mbind option_bind].
  destruct (_ && _); [|done].
  by destruct (Buf.readUInt16LE buffer 8).
Qed.

(** X26. In monitor mode a datagram counts only if the classifier of the
    client calls it a [statusResponse] or a [print]: a [statusResponse] is
    handled by [handleStatusResponse] with its content, and every other
    datagram but a [print] (a sequenced packet, a challenge, a
    [client_connect], a [disconnect], an [ack], an [info], anything
    unknown, or one on which the classifier fails) leaves the instance as
    it is. *)
Theorem monitor_counts_status_only buffer m :
  match parseOOBPacket buffer with
  | Some (PStatusResponse content) =>
      Monitor.handleMonitorPacket buffer m = Monitor.handleStatusResponse content m
  | Some (PPrint _) => True
  | _ => Monitor.handleMonitorPacket buffer m = m
  end.
Proof.
  unfold parseOOBPacket, parseOOBPacketBody, Monitor.handleMonitorPacket. cbv zeta.
  destruct (isOOB buffer); cbn [negb].
  - set (content := Buf.latin1 (Buf.slice buffer 4)).
    destruct (JS.split LF content !! 0%nat) as [line0|];
      cbn [mbind option_bind default from_option id]; [|done].
    set (firstLine := JS.trim line0). clearbody firstLine. unfold JS.startsWith.
    destruct (String.prefix "challenge" firstLine) eqn:E1;
      [by apply prefix_head in E1 as [s' ->]|].
    destruct (String.prefix "print" firstLine) eqn:E2; [done|].
    destruct (String.prefix "client_connect" firstLine) eqn:E3;
      [by apply prefix_head in E3 as [s' ->]|].
    destruct (String.prefix "disconnect" firstLine) eqn:E4;
      [by apply prefix_head in E4 as [s' ->]|].
    destruct (String.eqb firstLine "ack") eqn:E5;
      [by apply String.eqb_eq in E5 as ->|].
    destruct (String.prefix "statusResponse" firstLine) eqn:E6;
      [by rewrite orb_true_r|].
    assert (E7 : String.eqb firstLine "statusResponse" = false).
    { destruct (String.eqb firstLine "statusResponse") eqn:E; [|done].
      apply String.eqb_eq in E as ->. done. }
    rewrite E7. cbn [orb andb].
    by destruct (String.prefix "info" firstLine).
  - pose proof (parseSequencedPacket_kind buffer) as H.
    by destruct (parseSequencedPacket buffer) as [[]|].
Qed.

(** *** The players of a status *)

Lemma span_all p s :
  forallb p (list_ascii_of_string (Monitor.span p s).1) = true.
Proof.
  induction s as [|c s IH]; [done|]. cbn [Monitor.span].
  destruct (p c) eqn:E; [|done].
  destruct (Monitor.span p s) as [a b]. cbn [fst list_ascii_of_string forallb] in *.
  by rewrite E, IH.
Qed.

Lemma digitVal_digit c :
  JS.isDigit c = true -> exists v, JS.digitVal 10 c = Some v /\ 0 <= v.
Proof.
  unfold JS.isDigit, JS.digitVal, JS.hexVal. cbv zeta. intros H. rewrite H.
  apply andb_true_iff in H as [H1 H2].
  exists (JS.charCode c - 48).
  replace (JS.charCode c - 48 <? 10) with true by (symmetry; lia).
  split; [done|lia].
Qed.

Lemma digitsFrom_digits s : forall acc,
  forallb JS.isDigit (list_ascii_of_string s) = true ->
  0 <= acc ->
  exists v, JS.digitsFrom 10 (Some acc) s = Some v /\ 0 <= v.
Proof.
  induction s as [|c s IH]; intros acc Hs Hacc; cbn [JS.digitsFrom].
  - by exists acc.
  - cbn [list_ascii_of_string forallb] in Hs. apply andb_true_iff in Hs as [Hc Hs].
    destruct (digitVal_digit c Hc) as (v & -> & Hv).
    cbn [default from_option id]. apply IH; [done|lia].
Qed.

Lemma digitsFrom_first c s :
  JS.isDigit c = true ->
  forallb JS.isDigit (list_ascii_of_string s) = true ->
  exists v, JS.digitsFrom 10 None (String c s) = Some v /\ 0 <= v.
Proof.
  intros Hc Hs. cbn [JS.digitsFrom].
  destruct (digitVal_digit c Hc) as (v & -> & Hv).
  cbn [default from_option id]. apply digitsFrom_digits; [done|lia].
Qed.

Local Ltac parseInt_step Hv :=
  lazymatch goal with
  | |- context [JS.trimStart (String ?c ?t)] =>
      change (JS.trimStart (String c t)) with (String c t)
  end;
  cbv beta iota zeta; rewrite Hv; cbn [fmap option_fmap option_map];
  f_equal; lia.

(** [parseInt] of a run of digits. *)
Lemma parseInt_digits c s :
  JS.isDigit c = true ->
  forallb JS.isDigit (list_ascii_of_string s) = true ->
  exists v, JS.parseInt (String c s) = Some v /\ 0 <= v.
Proof.
  intros Hc Hs. destruct (digitsFrom_first c s Hc Hs) as (v & Hv & Hpos).
  exists v. split; [|done].
  destruct c as [b0 b1 b2 b3 b4 b5 b6 b7].
  destruct b0, b1, b2, b3, b4, b5, b6, b7; try discriminate Hc; clear Hc;
    unfold JS.parseInt;
    lazymatch goal with
    | |- context [Ascii false false false false true true false false] =>
        destruct s as [|d s];
        [vm_compute in Hv; injection Hv as <-; reflexivity|];
        cbn [list_ascii_of_string forallb] in Hs;
        apply andb_true_iff in Hs as [Hd Hs];
        destruct d as [d0 d1 d2 d3 d4 d5 d6 d7];
        destruct d0, d1, d2, d3, d4, d5, d6, d7; try discriminate Hd; clear Hd;
        parseInt_step Hv
    | |- _ => parseInt_step Hv
    end.
Qed.

Lemma parseInt_neg_digits c s :
  JS.isDigit c = true ->
  forallb JS.isDigit (list_ascii_of_string s) = true ->
  exists v, JS.parseInt (String "-" (String c s)) = Some v /\ v <= 0.
Proof.
  intros Hc Hs. destruct (digitsFrom_first c s Hc Hs) as (v & Hv & Hpos).
  exists (- v). split; [|lia].
  destruct c as [b0 b1 b2 b3 b4 b5 b6 b7].
  destruct b0, b1, b2, b3, b4, b5, b6, b7; try discriminate Hc; clear Hc;
    unfold JS.parseInt;
    lazymatch goal with
    | |- context [Ascii false false false false true true false false] =>
        destruct s as [|d s];
        [vm_compute in Hv; injection Hv as <-; reflexivity|];
        cbn [list_ascii_of_string forallb] in Hs;
        apply andb_true_iff in Hs as [Hd Hs];
        destruct d as [d0 d1 d2 d3 d4 d5 d6 d7];
        destruct d0, d1, d2, d3, d4, d5, d6, d7; try discriminate Hd; clear Hd;
        parseInt_step Hv
    | |- _ => parseInt_step Hv
    end.
Qed.

Lemma forallb_head p c s :
  forallb p (list_ascii_of_string (String c s)) = true ->
  p c = true /\ forallb p (list_ascii_of_string s) = true.
Proof. cbn [list_ascii_of_string forallb]. by intros ?%andb_true_iff. Qed.

(** The first two groups of a match are numbers. *)
Lemma matchPlayerLine_groups s m1 m2 m3 :
  Monitor.matchPlayerLine s = Some (m1, m2, m3) ->
  (exists v, JS.parseInt m1 = Some v) /\
  (exists v, JS.parseInt m2 = Some v /\ 0 <= v).
Proof.
  unfold Monitor.matchPlayerLine.
  set (signed := match s with String "-" r => ("-", r) | _ => (EmptyString, s) end).
  assert (Hsign : signed.1 = "-" \/ signed.1 = EmptyString).
  { unfold signed. destruct s as [|[[] [] [] [] [] [] [] []] r]; auto. }
  clearbody signed. destruct signed as [sign s1]. cbn [fst] in Hsign.
  pose proof (span_all JS.isDigit s1) as H1.
  destruct (Monitor.span JS.isDigit s1) as [digits1 s2]. cbn [fst] in H1.
  destruct (Monitor.span JS.isWhiteSpace s2) as [space1 s3].
  pose proof (span_all JS.isDigit s3) as H2.
  destruct (Monitor.span JS.isDigit s3) as [digits2 s4]. cbn [fst] in H2.
  destruct (Monitor.span JS.isWhiteSpace s4) as [space2 s5].
  destruct digits1 as [|c1 digits1]; [done|].
  destruct space1 as [|w1 space1]; [done|].
  destruct digits2 as [|c2 digits2]; [done|].
  destruct space2 as [|w2 space2]; [done|].
  cbn [JS.truthy JS.isEmpty negb andb].
  destruct s5 as [|q rest]; [done|].
  destruct (Ascii.eqb q DQUOTE); [|done].
  destruct (Monitor.unsnoc rest) as [[body last]|]; [|done].
  destruct (_ && _); [|done].
  intros [= <- <- <-].
  apply forallb_head in H1 as [Hc1 H1]. apply forallb_head in H2 as [Hc2 H2].
  split.
  - destruct Hsign as [->| ->].
    + destruct (parseInt_neg_digits c1 digits1 Hc1 H1) as (v & Hv & _). by exists v.
    + destruct (parseInt_digits c1 digits1 Hc1 H1) as (v & Hv & _). by exists v.
  - apply parseInt_digits; done.
Qed.

Lemma omap_shorter {A B} (f : A -> option B) (l : list A) :
  (length (omap f l) <= length l)%nat.
Proof.
  induction l as [|a l IH]; [done|]. cbn [omap list_omap length].
  destruct (f a); cbn [length]; lia.
Qed.

Lemma cleanQuakeString_tidy s :
  allClean (cleanQuakeString s) = true /\
  startsWithWhiteSpace (cleanQuakeString s) = false /\
  endsWithWhiteSpace (cleanQuakeString s) = false.
Proof.
  unfold cleanQuakeString, JS.trim.
  split; [apply trimEnd_allClean, trimStart_allClean, cleanChars_allClean|].
  split; [apply trimEnd_start, trimStart_start|apply trimEnd_end].
Qed.

(** X27. Every player that [parseStatusResponse] returns has a score and
    a ping that are numbers, never [NaN], the ping not negative, and a
    name that holds only printable ASCII and line feeds and neither
    begins nor ends with white space; there are at most as many players
    as lines after the second. *)
Theorem status_players_are_well_formed content :
  Forall (fun p =>
            (exists v, Monitor.score p = Some v) /\
            (exists v, Monitor.ping p = Some v /\ 0 <= v) /\
            allClean (Monitor.name p) = true /\
            startsWithWhiteSpace (Monitor.name p) = false /\
            endsWithWhiteSpace (Monitor.name p) = false)
         (Monitor.players (Monitor.parseStatusResponse content)) /\
  (length (Monitor.players (Monitor.parseStatusResponse content))
   <= length (JS.split LF content) - 2)%nat.
Proof.
  unfold Monitor.parseStatusResponse. cbv zeta. cbn [Monitor.players]. split.
  - apply Forall_forall. intros p (line & _ & Hp)%list_elem_of_omap.
    unfold Monitor.parsePlayerLine in Hp. cbv zeta in Hp.
    destruct (JS.isEmpty _); [done|].
    destruct (Monitor.matchPlayerLine _) as [[[m1 m2] m3]|] eqn:E; [|done].
    injection Hp as <-. cbn [Monitor.score Monitor.ping Monitor.name].
    destruct (matchPlayerLine_groups _ _ _ _ E) as [Hs Hg].
    split; [done|]. split; [done|]. apply cleanQuakeString_tidy.
  - etransitivity; [apply omap_shorter|]. by rewrite length_drop.
Qed.
